(** * SoLoad: a shallow embedding of the AArch64 ELF loader

    The development follows the layout of the sources:
    - [Sleb128Decoder]  (include/sleb128.hpp)
    - [ElfImage]        (src/elf_image.cpp): the three symbol lookups
    - [TlsManager]      (src/tls.cpp)
    - [Linker]          (src/linker.cpp): symbol resolution, relocation,
                        RELR decoding, link and teardown

    Machine integers are [Z] with the wrap-around written out; pointers are
    [Z] with [0] for [nullptr]. *)

From Stdlib Require Import ZArith Lia List Bool.
From stdpp Require Import base list gmap strings.

Local Open Scope Z_scope.

(** ** Machine words *)

Definition wrap64 (x : Z) : Z := x mod 2 ^ 64.
Definition wrap32 (x : Z) : Z := x mod 2 ^ 32.

(** Two's complement reading of a 64-bit pattern ([int64_t]). *)
Definition sint64 (x : Z) : Z := (x + 2 ^ 63) mod 2 ^ 64 - 2 ^ 63.

(** The bytes of a string literal. *)
Fixpoint bytes_of (s : string) : list Z :=
  match s with
  | EmptyString => []
  | String c s => Z.of_N (Ascii.N_of_ascii c) :: bytes_of s
  end.

(** ** include/sleb128.hpp *)

Module Sleb128Decoder.

(** The decoder is the pair [(current_, end_)] over a byte buffer; the
    embedding keeps the bytes of the span [current_ .. end_), so that
    [current_ >= end_] is the empty list and [*current_++] takes the head.
    [shift] is a [size_t] that grows by 7 per byte; it cannot wrap for a
    span of fewer than 2^61 bytes and is kept unbounded. *)
Record t := mk { span : list Z }.

Section Decoder.

(** [x << s] for [s >= 64] is undefined in C++; the value a given compiler
    produces for it is a parameter of the embedding. *)
Variable shl_undef : Z -> Z -> Z.

(** [static_cast<int64_t>(x) << s], the result wrapped to 64 bits. *)
Definition shl_i64 (x s : Z) : Z :=
  sint64 (if s <? 64 then Z.shiftl x s else shl_undef x s).

(** [static_cast<uint64_t>(x) << s]. *)
Definition shl_u64 (x s : Z) : Z :=
  wrap64 (if s <? 64 then Z.shiftl x s else shl_undef x s).

(** What the [do ... while (byte & 0x80)] loop leaves behind. *)
Inductive loop_result :=
| PastEnd                                   (* current_ >= end_: return 0 *)
| Stopped (value shift byte : Z) (rest : list Z).

Fixpoint decode_loop (bytes : list Z) (value shift : Z) : loop_result :=
  match bytes with
  | [] => PastEnd
  | byte :: rest =>
      let value := Z.lor value (shl_i64 (Z.land byte 0x7F) shift) in
      let shift := shift + 7 in
      if Z.land byte 0x80 =? 0 then Stopped value shift byte rest
      else decode_loop rest value shift
  end.

(** [int64_t decode()]: the value and the decoder afterwards. *)
Definition decode (d : t) : Z * t :=
  match decode_loop (span d) 0 0 with
  | PastEnd => (0, mk [])
  | Stopped value shift byte rest =>
      let value :=
        if (shift <? 64) && negb (Z.land byte 0x40 =? 0)
        then Z.lor value (sint64 (- shl_i64 1 shift))
        else value in
      (value, mk rest)
  end.

Fixpoint decodeUnsigned_loop (bytes : list Z) (value shift : Z) : loop_result :=
  match bytes with
  | [] => PastEnd
  | byte :: rest =>
      let value := Z.lor value (shl_u64 (Z.land byte 0x7F) shift) in
      let shift := shift + 7 in
      if Z.land byte 0x80 =? 0 then Stopped value shift byte rest
      else decodeUnsigned_loop rest value shift
  end.

(** [uint64_t decodeUnsigned()]. *)
Definition decodeUnsigned (d : t) : Z * t :=
  match decodeUnsigned_loop (span d) 0 0 with
  | PastEnd => (0, mk [])
  | Stopped value _ _ rest => (value, mk rest)
  end.

Definition hasMore (d : t) : bool :=
  match span d with [] => false | _ => true end.

(** *** The format, as the specification words it

    A group is the run of bytes up to and including the first byte whose
    0x80 bit is clear. *)
Fixpoint first_group (bytes : list Z) : option (list Z * list Z) :=
  match bytes with
  | [] => None
  | b :: rest =>
      if Z.land b 0x80 =? 0 then Some ([b], rest)
      else match first_group rest with
           | Some (g, rest') => Some (b :: g, rest')
           | None => None
           end
  end.

(** The low 7 bits of byte number [i] sit at bit [7 * i]. *)
Fixpoint combine7 (shl : Z -> Z -> Z) (shift : Z) (g : list Z) : Z :=
  match g with
  | [] => 0
  | b :: g' => Z.lor (shl (Z.land b 0x7F) shift) (combine7 shl (shift + 7) g')
  end.

Definition total_shift (g : list Z) : Z := 7 * Z.of_nat (length g).

Definition sign_bit_set (g : list Z) : bool :=
  negb (Z.land (List.last g 0) 0x40 =? 0).

Definition sleb128_value (bytes : list Z) : Z :=
  match first_group bytes with
  | None => 0
  | Some (g, _) =>
      if (total_shift g <? 64) && sign_bit_set g
      then Z.lor (combine7 shl_i64 0 g) (- 2 ^ total_shift g)
      else combine7 shl_i64 0 g
  end.

Definition uleb128_value (bytes : list Z) : Z :=
  match first_group bytes with
  | None => 0
  | Some (g, _) => combine7 shl_u64 0 g
  end.

Definition after_group (bytes : list Z) : list Z :=
  match first_group bytes with
  | None => []
  | Some (_, rest) => rest
  end.

End Decoder.

(** The number a group of bytes stands for: byte [i] contributes its low 7
    bits times [128 ^ i]. *)
Fixpoint group_number (g : list Z) : Z :=
  match g with
  | [] => 0
  | b :: g' => b mod 128 + 128 * group_number g'
  end.

End Sleb128Decoder.

(** ** ELF constants and records (<elf.h>, include/elf_image.hpp) *)

Module Elf.

Definition STB_LOCAL : Z := 0.
Definition STB_GLOBAL : Z := 1.
Definition STB_WEAK : Z := 2.

Definition STT_OBJECT : Z := 1.
Definition STT_FUNC : Z := 2.
Definition STT_GNU_IFUNC : Z := 10.

Definition SHN_UNDEF : Z := 0.
Definition STN_UNDEF : Z := 0.

Definition PT_LOAD : Z := 1.
Definition PT_DYNAMIC : Z := 2.

Record ElfSym := mkSym {
  st_name : Z;
  st_info : Z;
  st_other : Z;
  st_shndx : Z;
  st_value : Z;
  st_size : Z
}.

Definition null_sym : ElfSym := mkSym 0 0 0 0 0 0.

(** The two fields of a section header that the lookups read. *)
Record ElfShdr := mkShdr {
  sh_size : Z;
  sh_entsize : Z
}.

Record ElfPhdr := mkPhdr {
  p_type : Z;
  p_flags : Z;
  p_offset : Z;
  p_vaddr : Z;
  p_filesz : Z;
  p_memsz : Z;
  p_align : Z
}.

Definition elf_st_type (info : Z) : Z := Z.land info 0xf.
Definition elf_st_bind (info : Z) : Z := Z.shiftr info 4.

End Elf.

(** [struct SymbolInfo] of include/elf_image.hpp; [name] is the string the
    [string_view] shows. *)
Module SymbolInfo.

Record t := mk {
  name : list Z;
  address : Z;
  type : Z;
  bind : Z
}.

(** [SymbolInfo{}] *)
Definition empty : t := mk [] 0 0 0.

Definition valid (s : t) : bool := negb (address s =? 0).
Definition isWeak (s : t) : bool := bind s =? Elf.STB_WEAK.

End SymbolInfo.

(** ** src/elf_image.cpp *)

Module ElfImage.
Import Elf.

(** A parsed image. Pointers into the heap copy of the file are kept as the
    table they point at ([None] for [nullptr]); [this_] is the address of
    the object, for the places where the source stores or compares an
    [ElfImage*]. [bucket_], [chain_] and the GNU tables are the slices that
    [parseHeaders] computes from the section contents. *)
Record t := mk {
  this_ : Z;
  base_ : Z;
  bias_ : Z;
  phdr_ : list ElfPhdr;
  dynsym_shdr_ : option ElfShdr;
  dynsym_start_ : option (list ElfSym);
  strtab_start_ : option (list Z);
  nbucket_ : Z;
  bucket_ : option (list Z);
  chain_ : option (list Z);
  gnu_nbucket_ : Z;
  gnu_symndx_ : Z;
  gnu_bloom_size_ : Z;
  gnu_shift2_ : Z;
  gnu_bloom_filter_ : option (list Z);
  gnu_bucket_ : option (list Z);
  gnu_chain_ : option (list Z);
  symtab_start_ : option (list ElfSym);
  symtab_count_ : Z;
  symtab_strtab_ : option (list Z);
  tls_segment_ : option ElfPhdr;
  tls_mod_id_ : Z;
  init_func_ : Z;
  fini_func_ : Z;
  init_array_ : Z;
  init_array_count_ : Z;
  fini_array_ : Z;
  fini_array_count_ : Z
}.

Definition setTlsModuleId (img : t) (id : Z) : t :=
  mk (this_ img) (base_ img) (bias_ img) (phdr_ img)
     (dynsym_shdr_ img) (dynsym_start_ img) (strtab_start_ img)
     (nbucket_ img) (bucket_ img) (chain_ img)
     (gnu_nbucket_ img) (gnu_symndx_ img) (gnu_bloom_size_ img)
     (gnu_shift2_ img) (gnu_bloom_filter_ img) (gnu_bucket_ img)
     (gnu_chain_ img)
     (symtab_start_ img) (symtab_count_ img) (symtab_strtab_ img)
     (tls_segment_ img) id
     (init_func_ img) (fini_func_ img) (init_array_ img)
     (init_array_count_ img) (fini_array_ img) (fini_array_count_ img).

(** [tab[i]] on a table of words. An index past the table reads whatever
    follows it in the file buffer; the embedding reads 0 there. *)
Definition rd (tab : list Z) (i : Z) : Z := default 0 (tab !! Z.to_nat i).

Definition rd_sym (tab : list ElfSym) (i : Z) : ElfSym :=
  default null_sym (tab !! Z.to_nat i).

(** The NUL-terminated string that starts a byte table. *)
Fixpoint cstr_from (bytes : list Z) : list Z :=
  match bytes with
  | [] => []
  | b :: rest => if b =? 0 then [] else b :: cstr_from rest
  end.

(** [tab + off] read as a C string. *)
Definition cstr (tab : list Z) (off : Z) : list Z :=
  cstr_from (drop (Z.to_nat off) tab).

(** [name == (tab + off)] for a [string_view] against a C string. *)
Definition name_is (name : list Z) (tab : list Z) (off : Z) : bool :=
  bool_decide (name = cstr tab off).

Definition elfHash_step (h c : Z) : Z :=
  let h := wrap32 (wrap32 (Z.shiftl h 4) + c mod 256) in
  let g := Z.land h 0xf0000000 in
  let h := if g =? 0 then h else Z.lxor h (Z.shiftr g 24) in
  Z.land h (wrap32 (Z.lnot g)).

Definition elfHash (name : list Z) : Z := fold_left elfHash_step name 0.

Definition gnuHash_step (h c : Z) : Z :=
  wrap32 (wrap32 (wrap32 (Z.shiftl h 5) + h) + c mod 256).

Definition gnuHash (name : list Z) : Z := fold_left gnuHash_step name 5381.

(** What a lookup hands back: the returned [st_value] with the [*type] and
    [*bind] it stores through its out-parameters. *)
Record found := mkFound {
  sym_value : Z;
  sym_type : Z;
  sym_bind : Z
}.

Definition hit (sym : ElfSym) : found :=
  mkFound (st_value sym) (elf_st_type (st_info sym)) (elf_st_bind (st_info sym)).

Definition BLOOM_BITS : Z := 64.

(** The [while (true)] loop of [gnuHashLookup]. [togo] counts
    [dynsym_count - sym_idx], so running out of it is the test
    [sym_idx >= dynsym_count]. *)
Fixpoint gnu_walk (name : list Z) (hash symndx : Z)
    (chain : list Z) (dynsym : list ElfSym) (strtab : list Z)
    (togo : nat) (sym_idx : Z) : option found :=
  match togo with
  | O => None
  | S togo =>
      let chain_val := rd chain (wrap32 (sym_idx - symndx)) in
      let sym := rd_sym dynsym sym_idx in
      if (Z.shiftr (Z.lxor chain_val hash) 1 =? 0)
         && name_is name strtab (st_name sym)
         && negb (st_shndx sym =? SHN_UNDEF)
      then Some (hit sym)
      else if negb (Z.land chain_val 1 =? 0) then None
      else gnu_walk name hash symndx chain dynsym strtab togo (sym_idx + 1)
  end.

(** [hash >> gnu_shift2_] with a shift of 32 or more and the modulo by a
    zero [gnu_bloom_size_] are undefined in the source; [Z.shiftr] and
    [Z.modulo] give them a value here. *)
Definition gnuHashLookup (img : t) (name : list Z) (hash : Z) : option found :=
  match gnu_bloom_filter_ img, gnu_bucket_ img, gnu_chain_ img,
        dynsym_start_ img, strtab_start_ img with
  | Some bloom, Some bucket, Some chain, Some dynsym, Some strtab =>
      if gnu_nbucket_ img =? 0 then None else
      let bloom_idx := (hash / BLOOM_BITS) mod gnu_bloom_size_ img in
      let bloom_word := rd bloom bloom_idx in
      let mask :=
        Z.lor (Z.shiftl 1 (hash mod BLOOM_BITS))
              (Z.shiftl 1 (Z.shiftr hash (gnu_shift2_ img) mod BLOOM_BITS)) in
      if negb (Z.land bloom_word mask =? mask) then None else
      let sym_idx := rd bucket (hash mod gnu_nbucket_ img) in
      if sym_idx <? gnu_symndx_ img then None else
      match dynsym_shdr_ img with
      | None => None
      | Some sh =>
          let dynsym_count := wrap32 (sh_size sh / sh_entsize sh) in
          gnu_walk name hash (gnu_symndx_ img) chain dynsym strtab
                   (Z.to_nat (dynsym_count - sym_idx)) sym_idx
      end
  | _, _, _, _, _ => None
  end.

(** The chain walk of [elfHashLookup] has no bound of its own in the
    source: on a cyclic chain it never leaves the loop. *)
Inductive walk :=
| Found (h : found)
| NotFound
| OutOfFuel.

Fixpoint elf_walk (name : list Z) (chain : list Z) (dynsym : list ElfSym)
    (strtab : list Z) (fuel : nat) (n : Z) : walk :=
  match fuel with
  | O => OutOfFuel
  | S fuel =>
      if n =? STN_UNDEF then NotFound
      else
        let sym := rd_sym dynsym n in
        if name_is name strtab (st_name sym) && negb (st_shndx sym =? SHN_UNDEF)
        then Found (hit sym)
        else elf_walk name chain dynsym strtab fuel (rd chain n)
  end.

Definition elfHashLookup (fuel : nat) (img : t) (name : list Z) (hash : Z) : walk :=
  match bucket_ img, chain_ img, dynsym_start_ img, strtab_start_ img with
  | Some bucket, Some chain, Some dynsym, Some strtab =>
      if nbucket_ img =? 0 then NotFound
      else elf_walk name chain dynsym strtab fuel
                    (rd bucket (hash mod nbucket_ img))
  | _, _, _, _ => NotFound
  end.

Definition linear_match (name : list Z) (strtab : list Z) (sym : ElfSym) : bool :=
  let st := elf_st_type (st_info sym) in
  ((st =? STT_FUNC) || (st =? STT_OBJECT))
  && (0 <? st_size sym)
  && negb (st_shndx sym =? SHN_UNDEF)
  && name_is name strtab (st_name sym).

(** The [for] loop of [linearLookup] over the first [symtab_count_]
    entries. *)
Fixpoint linear_scan (name : list Z) (strtab : list Z) (syms : list ElfSym)
    (count : nat) (i : Z) : option found :=
  match count with
  | O => None
  | S count =>
      let sym := rd_sym syms i in
      if linear_match name strtab sym then Some (hit sym)
      else linear_scan name strtab syms count (i + 1)
  end.

Definition linearLookup (img : t) (name : list Z) : option found :=
  match symtab_start_ img, symtab_strtab_ img with
  | Some syms, Some strtab =>
      if symtab_count_ img =? 0 then None
      else linear_scan name strtab syms (Z.to_nat (symtab_count_ img)) 0
  | _, _ => None
  end.

(** [findSymbolOffset]: [None] when the ELF-hash walk does not come back
    within [fuel] steps, otherwise the first hit of the three lookups. *)
Definition findSymbolOffset (fuel : nat) (img : t) (name : list Z)
  : option (option found) :=
  match gnuHashLookup img name (gnuHash name) with
  | Some h => Some (Some h)
  | None =>
      match elfHashLookup fuel img name (elfHash name) with
      | Found h => Some (Some h)
      | OutOfFuel => None
      | NotFound => Some (linearLookup img name)
      end
  end.

(** *** What the tables must look like for a lookup to succeed *)

(** Every defined [.dynsym] entry and every entry of [.symtab] that the
    linear scan accepts, if it carries the name, has the offset [v]. *)
Definition unique_value (img : t) (name : list Z) (v : Z) : Prop :=
  (forall dynsym strtab i,
      dynsym_start_ img = Some dynsym ->
      strtab_start_ img = Some strtab ->
      name_is name strtab (st_name (rd_sym dynsym i)) = true ->
      st_shndx (rd_sym dynsym i) <> SHN_UNDEF ->
      st_value (rd_sym dynsym i) = v)
  /\ (forall syms strtab i,
         symtab_start_ img = Some syms ->
         symtab_strtab_ img = Some strtab ->
         linear_match name strtab (rd_sym syms i) = true ->
         st_value (rd_sym syms i) = v).

(** The GNU hash table leads to entry [i] of [.dynsym] for the name: the
    Bloom filter has both bits of its hash, its bucket starts a chain at or
    before [i], no chain word before [i] ends the chain, and the chain word
    of [i] carries the hash. *)
Definition gnu_reaches (img : t) (name : list Z) (i : Z) : Prop :=
  exists bloom bucket chain dynsym strtab sh,
    gnu_bloom_filter_ img = Some bloom
    /\ gnu_bucket_ img = Some bucket
    /\ gnu_chain_ img = Some chain
    /\ dynsym_start_ img = Some dynsym
    /\ strtab_start_ img = Some strtab
    /\ dynsym_shdr_ img = Some sh
    /\ gnu_nbucket_ img <> 0
    /\ (let hash := gnuHash name in
        let mask :=
          Z.lor (Z.shiftl 1 (hash mod BLOOM_BITS))
                (Z.shiftl 1 (Z.shiftr hash (gnu_shift2_ img) mod BLOOM_BITS)) in
        let first := rd bucket (hash mod gnu_nbucket_ img) in
        Z.land (rd bloom ((hash / BLOOM_BITS) mod gnu_bloom_size_ img)) mask = mask
        /\ gnu_symndx_ img <= first <= i
        /\ i < wrap32 (sh_size sh / sh_entsize sh)
        /\ (forall j, first <= j < i ->
              Z.land (rd chain (wrap32 (j - gnu_symndx_ img))) 1 = 0)
        /\ Z.shiftr (Z.lxor (rd chain (wrap32 (i - gnu_symndx_ img))) hash) 1 = 0)
    /\ name_is name strtab (st_name (rd_sym dynsym i)) = true
    /\ st_shndx (rd_sym dynsym i) <> SHN_UNDEF.

(** [chain] leads from index [n] to index [i] in [k] steps without passing
    [STN_UNDEF]. *)
Inductive chain_reaches (chain : list Z) : Z -> Z -> nat -> Prop :=
| reach_here (n : Z) : chain_reaches chain n n 0
| reach_next (n i : Z) (k : nat) :
    n <> STN_UNDEF ->
    chain_reaches chain (rd chain n) i k ->
    chain_reaches chain n i (S k).

(** The ELF hash table leads to entry [i] of [.dynsym] for the name, in
    [k] steps from its bucket. *)
Definition elf_reaches (img : t) (name : list Z) (i : Z) (k : nat) : Prop :=
  exists bucket chain dynsym strtab,
    bucket_ img = Some bucket
    /\ chain_ img = Some chain
    /\ dynsym_start_ img = Some dynsym
    /\ strtab_start_ img = Some strtab
    /\ nbucket_ img <> 0
    /\ i <> STN_UNDEF
    /\ chain_reaches chain (rd bucket (elfHash name mod nbucket_ img)) i k
    /\ name_is name strtab (st_name (rd_sym dynsym i)) = true
    /\ st_shndx (rd_sym dynsym i) <> SHN_UNDEF.

(** [.symtab] holds an entry for the name that the linear scan accepts: a
    defined function or object of nonzero size. *)
Definition linear_finds (img : t) (name : list Z) : Prop :=
  exists syms strtab i,
    symtab_start_ img = Some syms
    /\ symtab_strtab_ img = Some strtab
    /\ 0 <= i < symtab_count_ img
    /\ linear_match name strtab (rd_sym syms i) = true.

(** An exported symbol of the image: a defined entry of its [.dynsym]. *)
Definition exported (img : t) (s : ElfSym) : Prop :=
  exists dynsym,
    dynsym_start_ img = Some dynsym /\ s ∈ dynsym /\ st_shndx s <> SHN_UNDEF.

(** Both hash tables are present. *)
Definition both_tables (img : t) : Prop :=
  is_Some (gnu_bloom_filter_ img) /\ is_Some (gnu_bucket_ img)
  /\ is_Some (gnu_chain_ img) /\ is_Some (bucket_ img) /\ is_Some (chain_ img).

(** "Hash equivalence" for a name and an offset: each of the three lookups
    returns the offset. *)
Definition lookups_agree (fuel : nat) (img : t) (name : list Z) (v : Z) : Prop :=
  (exists h, gnuHashLookup img name (gnuHash name) = Some h /\ sym_value h = v)
  /\ (exists h, elfHashLookup fuel img name (elfHash name) = Found h
                /\ sym_value h = v)
  /\ (exists h, linearLookup img name = Some h /\ sym_value h = v).

Section Address.

(** Calling the IFUNC resolver at an address with the hardware capability
    words; the loaded code and [getauxval] decide what comes back. *)
Variable call_resolver : Z -> Z.

(** [findSymbolAddress]: the address and the [*bind] of a hit. *)
Definition findSymbolAddress (fuel : nat) (img : t) (name : list Z)
  : option (option (Z * Z)) :=
  match findSymbolOffset fuel img name with
  | None => None
  | Some None => Some None
  | Some (Some h) =>
      if base_ img =? 0 then Some None
      else
        let addr := wrap64 (base_ img + sym_value h - bias_ img) in
        if sym_type h =? STT_GNU_IFUNC
        then Some (Some (call_resolver addr, sym_bind h))
        else Some (Some (addr, sym_bind h))
  end.

End Address.

(** *** getSymbolAt *)

(** The [for] loop of [getSymbolAt] over [count] entries from index [i]. *)
Fixpoint symbol_scan (img : t) (syms : list ElfSym) (strtab : list Z)
    (addr : Z) (count : nat) (i : Z) : SymbolInfo.t :=
  match count with
  | O => SymbolInfo.empty
  | S count =>
      let sym := rd_sym syms i in
      if (st_value sym =? 0) || (st_size sym =? 0)
      then symbol_scan img syms strtab addr count (i + 1)
      else
        let start := wrap64 (base_ img + st_value sym - bias_ img) in
        let end_ := wrap64 (start + st_size sym) in
        if (start <=? addr) && (addr <? end_)
        then SymbolInfo.mk (cstr strtab (st_name sym)) start 0 0
        else symbol_scan img syms strtab addr count (i + 1)
  end.

Definition getSymbolAt (img : t) (addr : Z) : SymbolInfo.t :=
  match symtab_start_ img, symtab_strtab_ img with
  | Some syms, Some strtab =>
      symbol_scan img syms strtab addr (Z.to_nat (symtab_count_ img)) 0
  | _, _ => SymbolInfo.empty
  end.

(** The entry has an address and a size, and [addr] lies in the range it
    occupies once the image is mapped. *)
Definition covers (img : t) (addr : Z) (sym : ElfSym) : Prop :=
  st_value sym <> 0 /\ st_size sym <> 0
  /\ wrap64 (base_ img + st_value sym - bias_ img) <= addr
     < wrap64 (wrap64 (base_ img + st_value sym - bias_ img) + st_size sym).

End ElfImage.

(** ** The process around the loader

    Mapped memory is a finite map from byte addresses to bytes. A byte that
    is not mapped reads as 0 (the hardware would fault); page protections
    are not part of it. *)

Abbreviation Mem := (gmap Z Z).

Definition load8 (m : Mem) (a : Z) : Z := default 0 (m !! a).

(** Little-endian loads and stores of [n] bytes. *)
Fixpoint load_le (m : Mem) (a : Z) (n : nat) : Z :=
  match n with
  | O => 0
  | S n => load8 m a + 256 * load_le m (a + 1) n
  end.

Fixpoint store_le (m : Mem) (a : Z) (n : nat) (v : Z) : Mem :=
  match n with
  | O => m
  | S n => store_le (<[a := v mod 256]> m) (a + 1) n (v / 256)
  end.

Definition load16 (m : Mem) (a : Z) : Z := load_le m a 2.
Definition load32 (m : Mem) (a : Z) : Z := load_le m a 4.
Definition load64 (m : Mem) (a : Z) : Z := load_le m a 8.
Definition store64 (m : Mem) (a v : Z) : Mem := store_le m a 8 v.

(** [memset] and [memcpy]. *)
Fixpoint mem_fill (m : Mem) (a : Z) (n : nat) (v : Z) : Mem :=
  match n with
  | O => m
  | S n => mem_fill (<[a := v]> m) (a + 1) n v
  end.

Fixpoint mem_copy (m : Mem) (dst src : Z) (n : nat) : Mem :=
  match n with
  | O => m
  | S n => mem_copy (<[dst := load8 m src]> m) (dst + 1) (src + 1) n
  end.

(** The C string at an address; [None] when no NUL turns up within [fuel]
    bytes. *)
Fixpoint mem_cstr (fuel : nat) (m : Mem) (p : Z) : option (list Z) :=
  match fuel with
  | O => None
  | S fuel =>
      let b := load8 m p in
      if b =? 0 then Some []
      else match mem_cstr fuel m (p + 1) with
           | Some s => Some (b :: s)
           | None => None
           end
  end.

(** What the host process answers. *)
Record Host := mkHost {
  (** [dlsym(RTLD_DEFAULT, name)] *)
  dlsym_default : list Z -> Z;
  (** an IFUNC resolver called at an address with [hwcap | 1 << 62] *)
  call_resolver : Z -> Z;
  (** [sysconf(_SC_PAGESIZE)] *)
  page_size : Z;
  (** the addresses of [BacktraceManager::customDlIteratePhdr],
      [BacktraceManager::customDladdr] and [dynamic_tls_resolver] *)
  customDlIteratePhdr_addr : Z;
  customDladdr_addr : Z;
  dynamic_tls_resolver_addr : Z
}.

(** The part of the process that the TLS code works on: memory, the
    calling thread's value for [g_tls_key], and the pointers that the next
    allocations ([posix_memalign], [new]) return, 0 for one that fails. *)
Record Proc := mkProc {
  mem : Mem;
  tls_block : Z;
  heap : list Z
}.

(** ** Pages (src/linker.cpp)

    [pageSize] asks [sysconf] once and aborts on an answer that is not
    positive: [None] here. *)
Definition pageSize (host : Host) : option Z :=
  if page_size host <=? 0 then None else Some (wrap64 (page_size host)).

(** [addr & ~(pageSize() - 1)] *)
Definition pageStart (host : Host) (addr : Z) : option Z :=
  match pageSize host with
  | None => None
  | Some ps => Some (Z.land addr (wrap64 (Z.lnot (wrap64 (ps - 1)))))
  end.

(** [pageStart(addr + pageSize() - 1)] *)
Definition pageEnd (host : Host) (addr : Z) : option Z :=
  match pageSize host with
  | None => None
  | Some ps => pageStart host (wrap64 (wrap64 (addr + ps) - 1))
  end.

(** ** include/tls.hpp, src/tls.cpp *)

Module TlsModule.

Record t := mk {
  module_id : Z;
  align : Z;
  memsz : Z;
  filesz : Z;
  offset : Z;
  init_image : Z;
  owner : Z
}.

(** [TlsModule{}] *)
Definition empty : t := mk 0 1 0 0 0 0 0.

End TlsModule.

Module TlsIndex.

Record t := mk {
  module : Z;
  offset : Z
}.

End TlsIndex.

Module TlsManager.
Import Elf.

Definition MAX_TLS_MODULES : Z := 128.

Record t := mk {
  modules_ : list TlsModule.t;
  generation_ : Z;
  static_size_ : Z;
  static_align_max_ : Z
}.

(** The singleton as constructed: 128 empty slots. *)
Definition initial : t :=
  mk (replicate (Z.to_nat MAX_TLS_MODULES) TlsModule.empty) 0 0 1.

(** [modules_[i]] *)
Definition slot (m : t) (i : Z) : TlsModule.t :=
  default TlsModule.empty (modules_ m !! Z.to_nat i).

(** [for (i = from; i < MAX_TLS_MODULES; i++) if (test(modules_[i])) break;]
    with [n] slots still to visit: the index it stops at, if any. *)
Fixpoint scan_slots (test : TlsModule.t -> bool) (m : t) (n : nat) (i : Z)
  : option Z :=
  match n with
  | O => None
  | S n => if test (slot m i) then Some i else scan_slots test m n (i + 1)
  end.

Definition search (test : TlsModule.t -> bool) (m : t) : option Z :=
  scan_slots test m (Z.to_nat (MAX_TLS_MODULES - 1)) 1.

Definition set_slot (m : t) (i : Z) (md : TlsModule.t) : list TlsModule.t :=
  <[Z.to_nat i := md]> (modules_ m).

(** [registerSegment]: the result, the manager and the image afterwards. *)
Definition registerSegment (m : t) (image : ElfImage.t)
  : bool * t * ElfImage.t :=
  match ElfImage.tls_segment_ image with
  | None => (true, m, image)
  | Some seg =>
      match search (fun md => TlsModule.module_id md =? 0) m with
      | None => (false, m, image)
      | Some mod_id =>
          let align := if p_align seg =? 0 then 1 else p_align seg in
          let offset :=
            Z.land (wrap64 (wrap64 (static_size_ m + align) - 1))
                   (wrap64 (Z.lnot (wrap64 (align - 1)))) in
          let md :=
            TlsModule.mk mod_id align (p_memsz seg) (p_filesz seg) offset
              (wrap64 (ElfImage.base_ image + p_vaddr seg - ElfImage.bias_ image))
              (ElfImage.this_ image) in
          (true,
           mk (set_slot m mod_id md)
              (generation_ m)
              (wrap64 (offset + p_memsz seg))
              (if static_align_max_ m <? align then align
               else static_align_max_ m),
           ElfImage.setTlsModuleId image mod_id)
      end
  end.

(** [unregisterSegment(image)], [image] being the pointer. *)
Definition unregisterSegment (m : t) (image : Z) : t :=
  match search (fun md => TlsModule.owner md =? image) m with
  | None => m
  | Some i =>
      mk (set_slot m i TlsModule.empty)
         (generation_ m) (static_size_ m) (static_align_max_ m)
  end.

Definition bumpGeneration (m : t) : t :=
  mk (modules_ m) (wrap64 (generation_ m + 1))
     (static_size_ m) (static_align_max_ m).

(** A history of the registry: calls to [registerSegment] and
    [unregisterSegment] in order. *)
Inductive call :=
| Register (image : ElfImage.t)
| Unregister (image : Z).

Definition perform (m : t) (c : call) : t :=
  match c with
  | Register image => snd (fst (registerSegment m image))
  | Unregister image => unregisterSegment m image
  end.

Definition run (calls : list call) (m : t) : t := fold_left perform calls m.

(** The size computation of [registerSegment] stays within 64 bits: the
    running size rounded up to the alignment, plus [p_memsz]. *)
Definition size_fits (m : t) (image : ElfImage.t) : bool :=
  match ElfImage.tls_segment_ image with
  | None => true
  | Some seg =>
      let align := if p_align seg =? 0 then 1 else p_align seg in
      (0 <=? static_size_ m) && (0 <? align) && (0 <=? p_memsz seg)
      && (static_size_ m + align - 1 + p_memsz seg <? 2 ^ 64)
  end.

Fixpoint sizes_fit (calls : list call) (m : t) : bool :=
  match calls with
  | [] => true
  | c :: calls =>
      match c with
      | Register image => size_fits m image
      | Unregister _ => true
      end && sizes_fit calls (perform m c)
  end.

(** The claim of the specification for one history of the registry: the
    static block size after it is not below the size before. *)
Definition size_not_decreased (calls : list call) (m : t) : Prop :=
  static_size_ m <= static_size_ (run calls m).

(** A module id that [getAddress] accepts: nonzero, below the slot limit,
    and assigned. *)
Definition registered (m : t) (mod_id : Z) : Prop :=
  mod_id <> 0 /\ mod_id < MAX_TLS_MODULES
  /\ TlsModule.module_id (slot m mod_id) <> 0.

(** [modules_[ti->module].offset + ti->offset] in [size_t]. *)
Definition offset_in_block (m : t) (ti : TlsIndex.t) : Z :=
  wrap64 (TlsModule.offset (slot m (TlsIndex.module ti)) + TlsIndex.offset ti).

(** The two modules occupy disjoint parts of the block. *)
Definition apart (a b : TlsModule.t) : Prop :=
  TlsModule.offset a + TlsModule.memsz a <= TlsModule.offset b
  \/ TlsModule.offset b + TlsModule.memsz b <= TlsModule.offset a.

(** What the registry keeps over its life: it has its 128 slots; a slot
    whose id is 0 is the empty [TlsModule{}]; a slot in use carries its own
    index as id, is not slot 0, and its module lies within the first
    [static_size_] bytes of the block; two slots in use hold modules that
    lie apart. *)
Definition well_formed (m : t) : Prop :=
  length (modules_ m) = 128%nat
  /\ 0 <= static_size_ m < 2 ^ 64
  /\ (forall i, 0 <= i < MAX_TLS_MODULES ->
        (TlsModule.module_id (slot m i) = 0 -> slot m i = TlsModule.empty)
        /\ (TlsModule.module_id (slot m i) <> 0 ->
            TlsModule.module_id (slot m i) = i /\ 1 <= i
            /\ 0 <= TlsModule.offset (slot m i)
            /\ 0 <= TlsModule.memsz (slot m i)
            /\ TlsModule.offset (slot m i) + TlsModule.memsz (slot m i)
               <= static_size_ m))
  /\ (forall i j, 0 <= i < MAX_TLS_MODULES -> 0 <= j < MAX_TLS_MODULES ->
        i <> j ->
        TlsModule.module_id (slot m i) <> 0 ->
        TlsModule.module_id (slot m j) <> 0 ->
        apart (slot m i) (slot m j)).

Section PerThread.

Variable host : Host.

(** The loop of [allocateBlock] that copies the initialisation images,
    over slots [i .. i + n - 1]. *)
Fixpoint copy_images (m : t) (block total : Z) (n : nat) (i : Z) (mm : Mem)
  : Mem :=
  match n with
  | O => mm
  | S n =>
      let md := slot m i in
      let mm :=
        if negb (TlsModule.owner md =? 0)
           && negb (TlsModule.init_image md =? 0)
           && (0 <? TlsModule.filesz md)
        then
          if wrap64 (TlsModule.offset md + TlsModule.filesz md) <=? total
          then mem_copy mm (wrap64 (block + TlsModule.offset md))
                        (TlsModule.init_image md)
                        (Z.to_nat (TlsModule.filesz md))
          else mm
        else mm in
      copy_images m block total n (i + 1) mm
  end.

(** [allocateBlock]: the block, or 0 when [posix_memalign] fails. *)
Definition allocateBlock (m : t) (p : Proc) : Z * Proc :=
  let align := if static_align_max_ m =? 0 then 8 else static_align_max_ m in
  let align := if page_size host <? align then page_size host else align in
  let total := wrap64 (static_size_ m + align) in
  let total := if total =? 0 then 8 else total in
  match heap p with
  | [] => (0, p)
  | block :: later =>
      if block =? 0 then (0, mkProc (mem p) (tls_block p) later)
      else
        let mm := mem_fill (mem p) block (Z.to_nat total) 0 in
        let mm :=
          copy_images m block total (Z.to_nat (MAX_TLS_MODULES - 1)) 1 mm in
        (block, mkProc mm block later)
  end.

(** The slot passes the test of the copying loop of [allocateBlock]: it has
    an owner, an initialisation image and a [filesz] above 0. *)
Definition copied (m : t) (j : Z) : bool :=
  negb (TlsModule.owner (slot m j) =? 0)
  && negb (TlsModule.init_image (slot m j) =? 0)
  && (0 <? TlsModule.filesz (slot m j)).

(** The number of bytes [allocateBlock] asks for: its [total]. *)
Definition block_total (m : t) : Z :=
  let align := if static_align_max_ m =? 0 then 8 else static_align_max_ m in
  let align := if page_size host <? align then page_size host else align in
  let total := wrap64 (static_size_ m + align) in
  if total =? 0 then 8 else total.

Definition getBlockForThread (m : t) (p : Proc) : Z * Proc :=
  if tls_block p =? 0 then allocateBlock m p else (tls_block p, p).

(** [getAddress(ti)], [None] standing for [nullptr]. *)
Definition getAddress (m : t) (ti : option TlsIndex.t) (p : Proc) : Z * Proc :=
  let '(block, p) := getBlockForThread m p in
  if block =? 0 then (0, p)
  else
    match ti with
    | None => (block, p)
    | Some ti =>
        let mod_id := TlsIndex.module ti in
        if (mod_id =? 0) || (MAX_TLS_MODULES <=? mod_id) then (0, p)
        else if TlsModule.module_id (slot m mod_id) =? 0 then (0, p)
        else
          let offset :=
            wrap64 (TlsModule.offset (slot m mod_id) + TlsIndex.offset ti) in
          if static_size_ m <=? offset then (0, p)
          else (wrap64 (block + offset), p)
    end.

(** [extern "C" __tls_get_addr] *)
Definition __tls_get_addr (m : t) (ti : option TlsIndex.t) (p : Proc)
  : Z * Proc :=
  getAddress m ti p.

End PerThread.

End TlsManager.

(** ** include/linker.hpp *)

Module LoadedDep.

Record t := mk {
  image : option ElfImage.t;
  is_manual_load : bool;
  map_base : Z;
  map_size : Z
}.

End LoadedDep.

Module SymbolLookup.

Record t := mk {
  address : Z;
  image : Z;
  bind : Z;
  type : Z
}.

(** [SymbolLookup{}] *)
Definition empty : t := mk 0 0 0 0.

Definition valid (r : t) : bool := negb (address r =? 0).
Definition isWeak (r : t) : bool := bind r =? 2.

End SymbolLookup.

Module SymbolCacheEntry.

Record t := mk {
  address : Z;
  image : Z;
  found : bool
}.

End SymbolCacheEntry.

(** Calls that leave the loader, in the order they are made. Logging is
    left out. *)
Inductive Event :=
| RegisterLibrary (image : Z)
| RegisterEhFrame (image : Z)
| UnregisterEhFrame (image : Z)
| UnregisterLibrary (image : Z)
| Call (fn : Z)
| Delete (ti : Z)
| Munmap (base size : Z).

(** ** src/linker.cpp *)

Module Linker.
Import Elf.

Definition R_AARCH64_NONE : Z := 0.
Definition R_AARCH64_ABS64 : Z := 257.
Definition R_AARCH64_COPY : Z := 1024.
Definition R_AARCH64_GLOB_DAT : Z := 1025.
Definition R_AARCH64_JUMP_SLOT : Z := 1026.
Definition R_AARCH64_RELATIVE : Z := 1027.
Definition R_AARCH64_TLS_DTPMOD : Z := 1028.
Definition R_AARCH64_TLS_DTPREL : Z := 1029.
Definition R_AARCH64_TLS_TPREL : Z := 1030.
Definition R_AARCH64_TLSDESC : Z := 1031.
Definition R_AARCH64_IRELATIVE : Z := 1032.

Definition DT_NULL : Z := 0.
Definition DT_PLTRELSZ : Z := 2.
Definition DT_STRTAB : Z := 5.
Definition DT_SYMTAB : Z := 6.
Definition DT_RELA : Z := 7.
Definition DT_RELASZ : Z := 8.
Definition DT_RELAENT : Z := 9.
Definition DT_REL : Z := 17.
Definition DT_RELSZ : Z := 18.
Definition DT_RELENT : Z := 19.
Definition DT_PLTREL : Z := 20.
Definition DT_JMPREL : Z := 23.
Definition DT_RELRSZ : Z := 35.
Definition DT_RELR : Z := 36.
Definition DT_ANDROID_REL : Z := 0x6000000d.
Definition DT_ANDROID_RELA : Z := 0x6000000f.
Definition DT_ANDROID_RELSZ : Z := 0x60000010.
Definition DT_ANDROID_RELASZ : Z := 0x60000011.
Definition DT_ANDROID_RELR : Z := 0x6fffe000.
Definition DT_ANDROID_RELRSZ : Z := 0x6fffe001.
Definition DT_ANDROID_RELRENT : Z := 0x6fffe003.

(** [sizeof] of the <elf.h> records read from mapped memory. *)
Definition sizeof_ElfAddr : Z := 8.
Definition sizeof_ElfSym : Z := 24.
Definition sizeof_ElfRel : Z := 16.
Definition sizeof_ElfRela : Z := 24.
Definition sizeof_ElfDyn : Z := 16.

Definition ELF_R_SYM (info : Z) : Z := Z.shiftr info 32.
Definition ELF_R_TYPE (info : Z) : Z := Z.land info 0xffffffff.

Record t := mk {
  main_image_ : option ElfImage.t;
  deps_ : list LoadedDep.t;
  main_map_size_ : Z;
  is_linked_ : bool;
  symbol_cache_ : gmap (list Z) SymbolCacheEntry.t;
  tls_indices_ : list Z
}.

(** A default-constructed [Linker]. *)
Definition fresh : t := mk None [] 0 false ∅ [].

(** Everything the linker touches: itself, the [TlsManager] singleton, the
    process, the [TlsIndex] objects living on the heap, and the calls made
    so far. *)
Record World := mkWorld {
  linker : t;
  tls : TlsManager.t;
  proc : Proc;
  indices : gmap Z TlsIndex.t;
  trace : list Event
}.

Definition with_linker (w : World) (lk : t) : World :=
  mkWorld lk (tls w) (proc w) (indices w) (trace w).
Definition with_tls (w : World) (m : TlsManager.t) : World :=
  mkWorld (linker w) m (proc w) (indices w) (trace w).
Definition with_proc (w : World) (p : Proc) : World :=
  mkWorld (linker w) (tls w) p (indices w) (trace w).
Definition with_mem (w : World) (mm : Mem) : World :=
  with_proc w (mkProc mm (tls_block (proc w)) (heap (proc w))).
Definition emit (w : World) (evs : list Event) : World :=
  mkWorld (linker w) (tls w) (proc w) (indices w) (trace w ++ evs).

Definition with_cache (lk : t) (c : gmap (list Z) SymbolCacheEntry.t) : t :=
  mk (main_image_ lk) (deps_ lk) (main_map_size_ lk) (is_linked_ lk)
     c (tls_indices_ lk).

(** [bool Linker::init(std::unique_ptr<ElfImage> image)] *)
Definition init (lk : t) (image : option ElfImage.t) : bool * t :=
  (true, mk image [] 0 false (symbol_cache_ lk) (tls_indices_ lk)).

Definition setMainMapSize (lk : t) (size : Z) : t :=
  mk (main_image_ lk) (deps_ lk) size (is_linked_ lk)
     (symbol_cache_ lk) (tls_indices_ lk).

Definition clearSymbolCache (lk : t) : t := with_cache lk ∅.

(** The image an [ElfImage*] held by the linker points at. *)
Definition dep_at (image : Z) (dep : LoadedDep.t) : bool :=
  match LoadedDep.image dep with
  | Some img => ElfImage.this_ img =? image
  | None => false
  end.

Definition deref (lk : t) (image : Z) : option ElfImage.t :=
  match main_image_ lk with
  | Some img =>
      if ElfImage.this_ img =? image then Some img
      else match List.find (dep_at image) (deps_ lk) with
           | Some dep => LoadedDep.image dep
           | None => None
           end
  | None =>
      match List.find (dep_at image) (deps_ lk) with
      | Some dep => LoadedDep.image dep
      | None => None
      end
  end.

Section WithHost.

Variable host : Host.

(** Bound on the loops that have none in the source. A function that
    exhausts it yields [None]: no result. *)
Variable fuel : nat.

(** See [Sleb128Decoder]. *)
Variable shl_undef : Z -> Z -> Z.

(** *** findSymbol *)

(** Where the scan over the images stands: it has returned, or it goes on
    with the locals [result] and [weak_result]. *)
Inductive scan :=
| Returned (r : SymbolLookup.t)
| Going (result weak_result : SymbolLookup.t).

(** The block run for one image, once for [main_image_] and once per
    dependency. *)
Definition try_image (img : ElfImage.t) (name : list Z)
    (result weak_result : SymbolLookup.t) : option scan :=
  match ElfImage.findSymbolAddress (call_resolver host) fuel img name with
  | None => None
  | Some None => Some (Going result weak_result)
  | Some (Some (addr, sym_bind)) =>
      let result := SymbolLookup.mk addr (ElfImage.this_ img) sym_bind 0 in
      if sym_bind =? STB_GLOBAL then Some (Returned result)
      else if (sym_bind =? STB_WEAK) && negb (SymbolLookup.valid weak_result)
      then Some (Going result result)
      else Some (Going result weak_result)
  end.

Fixpoint scan_deps (deps : list LoadedDep.t) (name : list Z)
    (result weak_result : SymbolLookup.t) : option scan :=
  match deps with
  | [] => Some (Going result weak_result)
  | dep :: deps =>
      match LoadedDep.image dep with
      | None => scan_deps deps name result weak_result
      | Some img =>
          match try_image img name result weak_result with
          | None => None
          | Some (Returned r) => Some (Returned r)
          | Some (Going result weak_result) =>
              scan_deps deps name result weak_result
          end
      end
  end.

(** The tail of [findSymbol], after both scans. *)
Definition settle (name : list Z) (result weak_result : SymbolLookup.t)
  : SymbolLookup.t :=
  if SymbolLookup.valid result && negb (SymbolLookup.isWeak result)
  then result
  else if SymbolLookup.valid weak_result then weak_result
  else
    let sys_addr := dlsym_default host name in
    if sys_addr =? 0 then SymbolLookup.empty
    else SymbolLookup.mk sys_addr 0 STB_GLOBAL 0.

Definition findSymbol (lk : t) (name : list Z) : option SymbolLookup.t :=
  match
    match main_image_ lk with
    | Some img => try_image img name SymbolLookup.empty SymbolLookup.empty
    | None => Some (Going SymbolLookup.empty SymbolLookup.empty)
    end
  with
  | None => None
  | Some (Returned r) => Some r
  | Some (Going result weak_result) =>
      match scan_deps (deps_ lk) name result weak_result with
      | None => None
      | Some (Returned r) => Some r
      | Some (Going result weak_result) =>
          Some (settle name result weak_result)
      end
  end.

(** The images in the order [findSymbol] visits them: the main image, then
    the dependencies in load order. *)
Definition images (lk : t) : list ElfImage.t :=
  match main_image_ lk with
  | Some img => [img]
  | None => []
  end ++ omap LoadedDep.image (deps_ lk).

(** What the lookup in one image yields for a name. *)
Definition lookup (img : ElfImage.t) (name : list Z) : option (option (Z * Z)) :=
  ElfImage.findSymbolAddress (call_resolver host) fuel img name.

(** Both scans of [findSymbol] as one pass over [images]. *)
Fixpoint scan_images (imgs : list ElfImage.t) (name : list Z)
    (result weak_result : SymbolLookup.t) : option scan :=
  match imgs with
  | [] => Some (Going result weak_result)
  | img :: imgs =>
      match try_image img name result weak_result with
      | None => None
      | Some (Returned r) => Some (Returned r)
      | Some (Going result weak_result) =>
          scan_images imgs name result weak_result
      end
  end.

(** The lookup came back and is no [STB_GLOBAL] hit. *)
Definition not_global (r : option (option (Z * Z))) : Prop :=
  match r with
  | None => False
  | Some None => True
  | Some (Some (_, sym_bind)) => sym_bind <> STB_GLOBAL
  end.

(** The lookup came back with no hit or with an [STB_WEAK] one. *)
Definition weak_or_none (r : option (option (Z * Z))) : Prop :=
  match r with
  | None => False
  | Some None => True
  | Some (Some (_, sym_bind)) => sym_bind = STB_WEAK
  end.

Definition findSymbolCached (lk : t) (name : list Z)
  : option (SymbolLookup.t * t) :=
  match symbol_cache_ lk !! name with
  | Some e =>
      if SymbolCacheEntry.found e
      then Some (SymbolLookup.mk (SymbolCacheEntry.address e)
                                 (SymbolCacheEntry.image e) 0 0, lk)
      else Some (SymbolLookup.empty, lk)
  | None =>
      match findSymbol lk name with
      | None => None
      | Some result =>
          Some (result,
                with_cache lk
                  (<[name := SymbolCacheEntry.mk
                               (SymbolLookup.address result)
                               (SymbolLookup.image result)
                               (SymbolLookup.valid result)]>
                     (symbol_cache_ lk)))
      end
  end.


(** *** processRelocation *)

Definition read (w : World) (a : Z) : Z := load64 (mem (proc w)) a.
Definition write (w : World) (a v : Z) : World :=
  with_mem w (store64 (mem (proc w)) a v).

(** What a relocation that stores one word at [target] leaves alone:
    the linker, the TLS manager, the pending indices, the trace, the heap
    and every byte outside the word. *)
Definition only_word_changed (w w' : World) (target : Z) : Prop :=
  linker w' = linker w /\ tls w' = tls w /\ indices w' = indices w
  /\ trace w' = trace w /\ heap (proc w') = heap (proc w)
  /\ tls_block (proc w') = tls_block (proc w)
  /\ forall a, a < target \/ target + 8 <= a ->
       load8 (mem (proc w')) a = load8 (mem (proc w)) a.

Definition push_index (lk : t) (ti : Z) : t :=
  mk (main_image_ lk) (deps_ lk) (main_map_size_ lk) (is_linked_ lk)
     (symbol_cache_ lk) (tls_indices_ lk ++ [ti]).

(** [TlsManager::allocateIndex]: [new TlsIndex] takes the next pointer the
    heap hands out; there is no result when the allocation fails. *)
Definition allocateIndex (image : ElfImage.t) (st_value addend : Z) (w : World)
  : option (Z * World) :=
  match heap (proc w) with
  | [] => None
  | ti :: later =>
      if ti =? 0 then None
      else
        Some (ti,
              mkWorld (linker w) (tls w)
                (mkProc (mem (proc w)) (tls_block (proc w)) later)
                (<[ti := TlsIndex.mk (ElfImage.tls_mod_id_ image)
                                     (wrap64 (st_value + addend))]>
                   (indices w))
                (trace w))
  end.

(** The relocation types that name a symbol. *)
Definition is_symbolic (type : Z) : bool :=
  (type =? R_AARCH64_GLOB_DAT) || (type =? R_AARCH64_ABS64)
  || (type =? R_AARCH64_JUMP_SLOT) || (type =? R_AARCH64_TLS_DTPMOD)
  || (type =? R_AARCH64_TLS_DTPREL) || (type =? R_AARCH64_TLS_TPREL)
  || (type =? R_AARCH64_TLSDESC).

(** [dynstr + dynsym[sym_idx].st_name], read from mapped memory. *)
Definition symbol_name (w : World) (dynsym dynstr sym_idx : Z)
  : option (list Z) :=
  let st_name :=
    load32 (mem (proc w)) (wrap64 (dynsym + sizeof_ElfSym * sym_idx)) in
  mem_cstr fuel (mem (proc w)) (wrap64 (dynstr + st_name)).

(** No loaded image and no [dlsym] resolves the name: [findSymbol] comes
    back with an invalid result. *)
Definition unresolved (lk : t) (name : list Z) : Prop :=
  exists r, findSymbol lk name = Some r /\ SymbolLookup.valid r = false.

(** The symbol cache holds no hit for the name. *)
Definition no_cached_hit (lk : t) (name : list Z) : Prop :=
  match symbol_cache_ lk !! name with
  | Some e => SymbolCacheEntry.found e = false
  | None => True
  end.

(** The cache only holds what [findSymbol] answers for the images loaded
    now. *)
Definition cache_agrees (lk : t) : Prop :=
  forall name e,
    symbol_cache_ lk !! name = Some e ->
    exists r,
      findSymbol lk name = Some r
      /\ e = SymbolCacheEntry.mk (SymbolLookup.address r)
                                 (SymbolLookup.image r)
                                 (SymbolLookup.valid r).

(** The claim of the specification for one relocation: when no loaded
    image and no [dlsym] resolves its symbol, the word at
    [load_bias + offset] is left as it was. *)
Definition unresolved_leaves_target
    (sym_idx type offset addend load_bias dynsym dynstr : Z) (is_rela : bool)
    (w : World) (after : option World) : Prop :=
  is_symbolic type = true ->
  forall name,
    symbol_name w dynsym dynstr sym_idx = Some name ->
    unresolved (linker w) name ->
    exists w',
      after = Some w'
      /\ read w' (wrap64 (load_bias + offset))
         = read w (wrap64 (load_bias + offset)).

(** The inner [switch (type)], reached with a valid [sym] that is neither
    of the two intercepted names. *)
Definition bind_symbol (type target st_value addend : Z) (is_rela : bool)
    (sym : SymbolLookup.t) (w : World) : option World :=
  if (type =? R_AARCH64_GLOB_DAT) || (type =? R_AARCH64_JUMP_SLOT)
  then Some (write w target (SymbolLookup.address sym))
  else if type =? R_AARCH64_ABS64
  then Some (write w target
               (wrap64 (SymbolLookup.address sym
                        + (if is_rela then addend else read w target))))
  else if type =? R_AARCH64_TLS_DTPMOD
  then
    if SymbolLookup.image sym =? 0 then Some (write w target 0)
    else
      match deref (linker w) (SymbolLookup.image sym) with
      | None => None
      | Some img =>
          Some (write w target
                  (match ElfImage.tls_segment_ img with
                   | Some _ => ElfImage.tls_mod_id_ img
                   | None => 0
                   end))
      end
  else if type =? R_AARCH64_TLS_DTPREL
  then Some (write w target (wrap64 (st_value + addend)))
  else if type =? R_AARCH64_TLS_TPREL
  then
    if SymbolLookup.image sym =? 0 then Some (write w target 0)
    else
      match deref (linker w) (SymbolLookup.image sym) with
      | None => None
      | Some img =>
          let ti := TlsIndex.mk (ElfImage.tls_mod_id_ img)
                                (wrap64 (st_value + addend)) in
          let '(block, p) :=
            TlsManager.getAddress host (tls w) (Some ti) (proc w) in
          if block =? 0 then Some (write (with_proc w p) target 0)
          else
            let '(block_base, p) := TlsManager.getAddress host (tls w) None p in
            Some (write (with_proc w p) target (wrap64 (block - block_base)))
      end
  else if type =? R_AARCH64_TLSDESC
  then
    if SymbolLookup.image sym =? 0
    then Some (write (write w target 0) (wrap64 (target + 8)) 0)
    else
      match deref (linker w) (SymbolLookup.image sym) with
      | None => None
      | Some img =>
          match allocateIndex img st_value addend w with
          | None => None
          | Some (ti, w) =>
              let w := write w target (dynamic_tls_resolver_addr host) in
              let w := write w (wrap64 (target + 8)) ti in
              Some (with_linker w (push_index (linker w) ti))
          end
      end
  else Some w.

Definition processRelocation
    (sym_idx type offset addend load_bias dynsym dynstr : Z) (is_rela : bool)
    (w : World) : option World :=
  let target := wrap64 (load_bias + offset) in
  if type =? R_AARCH64_NONE then Some w
  else if type =? R_AARCH64_COPY then Some w
  else if type =? R_AARCH64_RELATIVE
  then Some (write w target
               (wrap64 (load_bias + (if is_rela then addend else read w target))))
  else if type =? R_AARCH64_IRELATIVE
  then
    let resolver :=
      wrap64 (load_bias + (if is_rela then addend else read w target)) in
    Some (write w target (call_resolver host resolver))
  else if is_symbolic type
  then
    let st_value := read w (wrap64 (dynsym + sizeof_ElfSym * sym_idx) + 8) in
    match symbol_name w dynsym dynstr sym_idx with
    | None => None
    | Some sym_name =>
        match findSymbolCached (linker w) sym_name with
        | None => None
        | Some (sym, lk) =>
            let w := with_linker w lk in
            if negb (SymbolLookup.valid sym) then Some w
            else if bool_decide (sym_name = bytes_of "dl_iterate_phdr")
            then Some (write w target (customDlIteratePhdr_addr host))
            else if bool_decide (sym_name = bytes_of "dladdr")
            then Some (write w target (customDladdr_addr host))
            else bind_symbol type target st_value addend is_rela sym w
        end
    end
  else Some w.

(** *** processRelocations *)

(** The locals that the walk over the dynamic section fills in. *)
Record Tables := mkTables {
  rela : Z;
  rela_sz : Z;
  rela_ent : Z;
  rel : Z;
  rel_sz : Z;
  rel_ent : Z;
  relr : Z;
  relr_sz : Z;
  jmprel : Z;
  jmprel_sz : Z;
  pltrel_type : Z;
  dynsym : Z;
  dynstr : Z;
  android_reloc : Z;
  android_reloc_sz : Z;
  is_android_rela : bool
}.

Definition no_tables : Tables :=
  mkTables 0 0 0 0 0 0 0 0 0 0 0 0 0 0 0 false.

Definition set_rela (tb : Tables) (v : Z) : Tables :=
  mkTables v (rela_sz tb) (rela_ent tb) (rel tb) (rel_sz tb) (rel_ent tb) (relr tb) (relr_sz tb) (jmprel tb) (jmprel_sz tb) (pltrel_type tb) (dynsym tb) (dynstr tb) (android_reloc tb) (android_reloc_sz tb) (is_android_rela tb).
Definition set_rela_sz (tb : Tables) (v : Z) : Tables :=
  mkTables (rela tb) v (rela_ent tb) (rel tb) (rel_sz tb) (rel_ent tb) (relr tb) (relr_sz tb) (jmprel tb) (jmprel_sz tb) (pltrel_type tb) (dynsym tb) (dynstr tb) (android_reloc tb) (android_reloc_sz tb) (is_android_rela tb).
Definition set_rela_ent (tb : Tables) (v : Z) : Tables :=
  mkTables (rela tb) (rela_sz tb) v (rel tb) (rel_sz tb) (rel_ent tb) (relr tb) (relr_sz tb) (jmprel tb) (jmprel_sz tb) (pltrel_type tb) (dynsym tb) (dynstr tb) (android_reloc tb) (android_reloc_sz tb) (is_android_rela tb).
Definition set_rel (tb : Tables) (v : Z) : Tables :=
  mkTables (rela tb) (rela_sz tb) (rela_ent tb) v (rel_sz tb) (rel_ent tb) (relr tb) (relr_sz tb) (jmprel tb) (jmprel_sz tb) (pltrel_type tb) (dynsym tb) (dynstr tb) (android_reloc tb) (android_reloc_sz tb) (is_android_rela tb).
Definition set_rel_sz (tb : Tables) (v : Z) : Tables :=
  mkTables (rela tb) (rela_sz tb) (rela_ent tb) (rel tb) v (rel_ent tb) (relr tb) (relr_sz tb) (jmprel tb) (jmprel_sz tb) (pltrel_type tb) (dynsym tb) (dynstr tb) (android_reloc tb) (android_reloc_sz tb) (is_android_rela tb).
Definition set_rel_ent (tb : Tables) (v : Z) : Tables :=
  mkTables (rela tb) (rela_sz tb) (rela_ent tb) (rel tb) (rel_sz tb) v (relr tb) (relr_sz tb) (jmprel tb) (jmprel_sz tb) (pltrel_type tb) (dynsym tb) (dynstr tb) (android_reloc tb) (android_reloc_sz tb) (is_android_rela tb).
Definition set_relr (tb : Tables) (v : Z) : Tables :=
  mkTables (rela tb) (rela_sz tb) (rela_ent tb) (rel tb) (rel_sz tb) (rel_ent tb) v (relr_sz tb) (jmprel tb) (jmprel_sz tb) (pltrel_type tb) (dynsym tb) (dynstr tb) (android_reloc tb) (android_reloc_sz tb) (is_android_rela tb).
Definition set_relr_sz (tb : Tables) (v : Z) : Tables :=
  mkTables (rela tb) (rela_sz tb) (rela_ent tb) (rel tb) (rel_sz tb) (rel_ent tb) (relr tb) v (jmprel tb) (jmprel_sz tb) (pltrel_type tb) (dynsym tb) (dynstr tb) (android_reloc tb) (android_reloc_sz tb) (is_android_rela tb).
Definition set_jmprel (tb : Tables) (v : Z) : Tables :=
  mkTables (rela tb) (rela_sz tb) (rela_ent tb) (rel tb) (rel_sz tb) (rel_ent tb) (relr tb) (relr_sz tb) v (jmprel_sz tb) (pltrel_type tb) (dynsym tb) (dynstr tb) (android_reloc tb) (android_reloc_sz tb) (is_android_rela tb).
Definition set_jmprel_sz (tb : Tables) (v : Z) : Tables :=
  mkTables (rela tb) (rela_sz tb) (rela_ent tb) (rel tb) (rel_sz tb) (rel_ent tb) (relr tb) (relr_sz tb) (jmprel tb) v (pltrel_type tb) (dynsym tb) (dynstr tb) (android_reloc tb) (android_reloc_sz tb) (is_android_rela tb).
Definition set_pltrel_type (tb : Tables) (v : Z) : Tables :=
  mkTables (rela tb) (rela_sz tb) (rela_ent tb) (rel tb) (rel_sz tb) (rel_ent tb) (relr tb) (relr_sz tb) (jmprel tb) (jmprel_sz tb) v (dynsym tb) (dynstr tb) (android_reloc tb) (android_reloc_sz tb) (is_android_rela tb).
Definition set_dynsym (tb : Tables) (v : Z) : Tables :=
  mkTables (rela tb) (rela_sz tb) (rela_ent tb) (rel tb) (rel_sz tb) (rel_ent tb) (relr tb) (relr_sz tb) (jmprel tb) (jmprel_sz tb) (pltrel_type tb) v (dynstr tb) (android_reloc tb) (android_reloc_sz tb) (is_android_rela tb).
Definition set_dynstr (tb : Tables) (v : Z) : Tables :=
  mkTables (rela tb) (rela_sz tb) (rela_ent tb) (rel tb) (rel_sz tb) (rel_ent tb) (relr tb) (relr_sz tb) (jmprel tb) (jmprel_sz tb) (pltrel_type tb) (dynsym tb) v (android_reloc tb) (android_reloc_sz tb) (is_android_rela tb).
Definition set_android_reloc (tb : Tables) (v : Z) : Tables :=
  mkTables (rela tb) (rela_sz tb) (rela_ent tb) (rel tb) (rel_sz tb) (rel_ent tb) (relr tb) (relr_sz tb) (jmprel tb) (jmprel_sz tb) (pltrel_type tb) (dynsym tb) (dynstr tb) v (android_reloc_sz tb) (is_android_rela tb).
Definition set_android_reloc_sz (tb : Tables) (v : Z) : Tables :=
  mkTables (rela tb) (rela_sz tb) (rela_ent tb) (rel tb) (rel_sz tb) (rel_ent tb) (relr tb) (relr_sz tb) (jmprel tb) (jmprel_sz tb) (pltrel_type tb) (dynsym tb) (dynstr tb) (android_reloc tb) v (is_android_rela tb).
Definition set_is_android_rela (tb : Tables) (v : bool) : Tables :=
  mkTables (rela tb) (rela_sz tb) (rela_ent tb) (rel tb) (rel_sz tb) (rel_ent tb) (relr tb) (relr_sz tb) (jmprel tb) (jmprel_sz tb) (pltrel_type tb) (dynsym tb) (dynstr tb) (android_reloc tb) (android_reloc_sz tb) v.


(** One pass through the [switch (d->d_tag)]; [None] when the
    [DT_ANDROID_RELRENT] case returns from [processRelocations]. *)
Definition dyn_entry (image : ElfImage.t) (d_tag d_val : Z) (tb : Tables)
  : option Tables :=
  let ptr := wrap64 (ElfImage.base_ image + d_val - ElfImage.bias_ image) in
  if d_tag =? DT_RELA then Some (set_rela tb ptr)
  else if d_tag =? DT_RELASZ then Some (set_rela_sz tb d_val)
  else if d_tag =? DT_RELAENT then Some (set_rela_ent tb d_val)
  else if d_tag =? DT_REL then Some (set_rel tb ptr)
  else if d_tag =? DT_RELSZ then Some (set_rel_sz tb d_val)
  else if d_tag =? DT_RELENT then Some (set_rel_ent tb d_val)
  else if d_tag =? DT_RELR then Some (set_relr tb ptr)
  else if d_tag =? DT_RELRSZ then Some (set_relr_sz tb d_val)
  else if d_tag =? DT_JMPREL then Some (set_jmprel tb ptr)
  else if d_tag =? DT_PLTRELSZ then Some (set_jmprel_sz tb d_val)
  else if d_tag =? DT_PLTREL then Some (set_pltrel_type tb (wrap32 d_val))
  else if d_tag =? DT_SYMTAB then Some (set_dynsym tb ptr)
  else if d_tag =? DT_STRTAB then Some (set_dynstr tb ptr)
  else if d_tag =? DT_ANDROID_RELA
  then Some (set_is_android_rela (set_android_reloc tb ptr) true)
  else if (d_tag =? DT_ANDROID_RELASZ) || (d_tag =? DT_ANDROID_RELSZ)
  then Some (set_android_reloc_sz tb d_val)
  else if d_tag =? DT_ANDROID_REL then Some (set_android_reloc tb ptr)
  else if d_tag =? DT_ANDROID_RELR then Some (set_relr tb ptr)
  else if d_tag =? DT_ANDROID_RELRSZ then Some (set_relr_sz tb d_val)
  else if d_tag =? DT_ANDROID_RELRENT
  then if d_val =? sizeof_ElfAddr then Some tb else None
  else Some tb.

(** [for (auto* d = dyn; d->d_tag != DT_NULL; d++)] over mapped memory.
    The outer [None] is the fuel running out. *)
Fixpoint dyn_loop (image : ElfImage.t) (n : nat) (mm : Mem) (d : Z)
    (tb : Tables) : option (option Tables) :=
  match n with
  | O => None
  | S n =>
      let d_tag := load64 mm d in
      if d_tag =? DT_NULL then Some (Some tb)
      else
        match dyn_entry image d_tag (load64 mm (d + 8)) tb with
        | None => Some None
        | Some tb => dyn_loop image n mm (wrap64 (d + sizeof_ElfDyn)) tb
        end
  end.

(** [*target += load_bias] *)
Definition add_word (mm : Mem) (target v : Z) : Mem :=
  store64 mm target (wrap64 (load64 mm target + v)).

(** [for (bit = 0; bitmap && bit < 63; bit++, bitmap >>= 1)], with [n]
    counting [63 - bit]. *)
Fixpoint relr_bits (load_bias base_offset : Z) (n : nat) (bit bitmap : Z)
    (mm : Mem) : Mem :=
  match n with
  | O => mm
  | S n =>
      if bitmap =? 0 then mm
      else
        let mm :=
          if Z.land bitmap 1 =? 0 then mm
          else add_word mm
                 (wrap64 (load_bias + base_offset + bit * sizeof_ElfAddr))
                 load_bias in
        relr_bits load_bias base_offset n (bit + 1) (Z.shiftr bitmap 1) mm
  end.

(** The body of the RELR loop for one entry: memory and [base_offset]
    afterwards. *)
Definition relr_entry (load_bias entry : Z) (st : Mem * Z) : Mem * Z :=
  let '(mm, base_offset) := st in
  if Z.land entry 1 =? 0
  then (add_word mm (wrap64 (load_bias + entry)) load_bias,
        wrap64 (entry + sizeof_ElfAddr))
  else (relr_bits load_bias base_offset 63 0 (Z.shiftr entry 1) mm,
        wrap64 (base_offset + 63 * sizeof_ElfAddr)).

Fixpoint relr_loop (load_bias relr : Z) (n : nat) (i : Z) (st : Mem * Z)
  : Mem * Z :=
  match n with
  | O => st
  | S n =>
      let entry := load64 (fst st) (wrap64 (relr + sizeof_ElfAddr * i)) in
      relr_loop load_bias relr n (i + 1) (relr_entry load_bias entry st)
  end.

(** *** RELR as the format words it

    A bitmap entry names, by its bits 1 to 63, which of the 63 words that
    follow the running base are relocated: bit [k + 1] stands for word
    [k]. *)
Definition relr_bitmap_targets (load_bias base_offset entry : Z) : list Z :=
  map (fun k => wrap64 (load_bias + base_offset + k * sizeof_ElfAddr))
      (List.filter (fun k => Z.testbit entry (k + 1)) (seqZ 0 63)).

Definition relr_entry_spec (load_bias entry : Z) (st : Mem * Z) : Mem * Z :=
  let '(mm, base_offset) := st in
  if Z.even entry
  then (add_word mm (wrap64 (load_bias + entry)) load_bias,
        wrap64 (entry + sizeof_ElfAddr))
  else (fold_left (fun mm target => add_word mm target load_bias)
                  (relr_bitmap_targets load_bias base_offset entry) mm,
        wrap64 (base_offset + 63 * sizeof_ElfAddr)).

(** The loops over [ElfRela] and [ElfRel] tables, used for [DT_RELA],
    [DT_REL] and [DT_JMPREL]; [n] entries from index [i]. *)
Fixpoint rela_loop (load_bias dynsym dynstr table : Z) (n : nat) (i : Z)
    (w : World) : option World :=
  match n with
  | O => Some w
  | S n =>
      let e := wrap64 (table + sizeof_ElfRela * i) in
      let r_offset := read w e in
      let r_info := read w (e + 8) in
      let r_addend := read w (e + 16) in
      match processRelocation (ELF_R_SYM r_info) (ELF_R_TYPE r_info)
              r_offset r_addend load_bias dynsym dynstr true w with
      | None => None
      | Some w => rela_loop load_bias dynsym dynstr table n (i + 1) w
      end
  end.

Fixpoint rel_loop (load_bias dynsym dynstr table : Z) (n : nat) (i : Z)
    (w : World) : option World :=
  match n with
  | O => Some w
  | S n =>
      let e := wrap64 (table + sizeof_ElfRel * i) in
      let r_offset := read w e in
      let r_info := read w (e + 8) in
      match processRelocation (ELF_R_SYM r_info) (ELF_R_TYPE r_info)
              r_offset 0 load_bias dynsym dynstr false w with
      | None => None
      | Some w => rel_loop load_bias dynsym dynstr table n (i + 1) w
      end
  end.

(** The [Sleb128Decoder] over mapped memory, as its two pointers
    [(current_, end_)]: decode on the bytes in between and move
    [current_]. *)
Definition mem_bytes (mm : Mem) (a : Z) (n : nat) : list Z :=
  map (fun k => load8 mm (a + Z.of_nat k)) (seq 0 n).

Definition span_of (mm : Mem) (current end_ : Z) : Sleb128Decoder.t :=
  Sleb128Decoder.mk (mem_bytes mm current (Z.to_nat (end_ - current))).

Definition dec_decode (mm : Mem) (current end_ : Z) : Z * Z :=
  let '(v, d) := Sleb128Decoder.decode shl_undef (span_of mm current end_) in
  (v, end_ - Z.of_nat (length (Sleb128Decoder.span d))).

Definition dec_decodeUnsigned (mm : Mem) (current end_ : Z) : Z * Z :=
  let '(v, d) :=
    Sleb128Decoder.decodeUnsigned shl_undef (span_of mm current end_) in
  (v, end_ - Z.of_nat (length (Sleb128Decoder.span d))).

Definition GROUPED_BY_INFO : Z := 1.
Definition GROUPED_BY_OFFSET_DELTA : Z := 2.
Definition GROUPED_BY_ADDEND : Z := 4.
Definition HAS_ADDEND : Z := 8.

Definition flag (group_flags mask : Z) : bool :=
  negb (Z.land group_flags mask =? 0).

(** [for (j = 0; j < group_size; j++)], [n] entries to go: the decoder's
    [current_], [r_offset], [sym_idx], [type], [addend] and the world. *)
Fixpoint android_group (load_bias dynsym dynstr end_ : Z) (is_rela : bool)
    (group_flags group_offset_delta : Z) (n : nat)
    (current r_offset sym_idx type addend : Z) (w : World)
  : option (Z * Z * World) :=
  match n with
  | O => Some (current, r_offset, w)
  | S n =>
      let '(r_offset, current) :=
        if flag group_flags GROUPED_BY_OFFSET_DELTA
        then (wrap64 (r_offset + group_offset_delta), current)
        else
          let '(v, current) := dec_decode (mem (proc w)) current end_ in
          (wrap64 (r_offset + v), current) in
      let '(sym_idx, type, current) :=
        if flag group_flags GROUPED_BY_INFO then (sym_idx, type, current)
        else
          let '(r_info, current) :=
            dec_decodeUnsigned (mem (proc w)) current end_ in
          (ELF_R_SYM r_info, ELF_R_TYPE r_info, current) in
      let '(addend, current) :=
        if is_rela && flag group_flags HAS_ADDEND
           && negb (flag group_flags GROUPED_BY_ADDEND)
        then
          let '(v, current) := dec_decode (mem (proc w)) current end_ in
          (wrap64 (addend + v), current)
        else (addend, current) in
      match processRelocation sym_idx type r_offset addend load_bias
              dynsym dynstr is_rela w with
      | None => None
      | Some w =>
          android_group load_bias dynsym dynstr end_ is_rela
            group_flags group_offset_delta n
            current r_offset sym_idx type addend w
      end
  end.

(** [for (uint64_t i = 0; i < num_relocs; ) { ... i += group_size; }] *)
Fixpoint android_loop (load_bias dynsym dynstr end_ : Z) (is_rela : bool)
    (n : nat) (num_relocs i current r_offset : Z) (w : World)
  : option World :=
  match n with
  | O => None
  | S n =>
      if num_relocs <=? i then Some w
      else
        let '(group_size, current) :=
          dec_decodeUnsigned (mem (proc w)) current end_ in
        let '(group_flags, current) :=
          dec_decodeUnsigned (mem (proc w)) current end_ in
        let '(group_offset_delta, current) :=
          if flag group_flags GROUPED_BY_OFFSET_DELTA
          then
            let '(v, current) := dec_decode (mem (proc w)) current end_ in
            (wrap64 v, current)
          else (0, current) in
        let '(sym_idx, type, current) :=
          if flag group_flags GROUPED_BY_INFO
          then
            let '(r_info, current) :=
              dec_decodeUnsigned (mem (proc w)) current end_ in
            (ELF_R_SYM r_info, ELF_R_TYPE r_info, current)
          else (0, 0, current) in
        let '(addend, current) :=
          if is_rela && flag group_flags HAS_ADDEND
             && flag group_flags GROUPED_BY_ADDEND
          then
            let '(v, current) := dec_decode (mem (proc w)) current end_ in
            (wrap64 v, current)
          else (0, current) in
        match android_group load_bias dynsym dynstr end_ is_rela
                group_flags group_offset_delta (Z.to_nat group_size)
                current r_offset sym_idx type addend w with
        | None => None
        | Some (current, r_offset, w) =>
            android_loop load_bias dynsym dynstr end_ is_rela n
              num_relocs (wrap64 (i + group_size)) current r_offset w
        end
  end.


Definition APS2 : list Z := bytes_of "APS2".

(** The Android packed relocations of [processRelocations]; the outer
    [None] is no result, the inner one is the [return] on a bad magic. *)
Definition android_relocs (load_bias : Z) (tb : Tables) (w : World)
  : option (option World) :=
  if negb (android_reloc tb =? 0) && (4 <? android_reloc_sz tb)
  then
    if bool_decide (mem_bytes (mem (proc w)) (android_reloc tb) 4 = APS2)
    then
      let current := android_reloc tb + 4 in
      let end_ := android_reloc tb + 4 + (android_reloc_sz tb - 4) in
      let '(num_relocs, current) :=
        dec_decodeUnsigned (mem (proc w)) current end_ in
      let '(r_offset, current) := dec_decode (mem (proc w)) current end_ in
      match android_loop load_bias (dynsym tb) (dynstr tb) end_
              (is_android_rela tb) fuel num_relocs 0 current
              (wrap64 r_offset) w with
      | None => None
      | Some w => Some (Some w)
      end
    else Some None
  else Some (Some w).

Definition plt_relocs (load_bias : Z) (tb : Tables) (w : World)
  : option World :=
  if negb (jmprel tb =? 0) && negb (jmprel_sz tb =? 0)
  then
    if pltrel_type tb =? DT_RELA
    then rela_loop load_bias (dynsym tb) (dynstr tb) (jmprel tb)
           (Z.to_nat (jmprel_sz tb / sizeof_ElfRela)) 0 w
    else rel_loop load_bias (dynsym tb) (dynstr tb) (jmprel tb)
           (Z.to_nat (jmprel_sz tb / sizeof_ElfRel)) 0 w
  else Some w.

Definition relr_relocs (load_bias : Z) (tb : Tables) (w : World) : World :=
  if negb (relr tb =? 0) && negb (relr_sz tb =? 0)
  then
    with_mem w
      (fst (relr_loop load_bias (relr tb)
              (Z.to_nat (relr_sz tb / sizeof_ElfAddr)) 0
              (mem (proc w), 0)))
  else w.

Definition rela_relocs (load_bias : Z) (tb : Tables) (w : World)
  : option World :=
  if negb (rela tb =? 0) && negb (rela_sz tb =? 0)
  then
    let rela_ent := if rela_ent tb =? 0 then sizeof_ElfRela else rela_ent tb in
    rela_loop load_bias (dynsym tb) (dynstr tb) (rela tb)
      (Z.to_nat (rela_sz tb / rela_ent)) 0 w
  else Some w.

Definition rel_relocs (load_bias : Z) (tb : Tables) (w : World)
  : option World :=
  if negb (rel tb =? 0) && negb (rel_sz tb =? 0)
  then
    let rel_ent := if rel_ent tb =? 0 then sizeof_ElfRel else rel_ent tb in
    rel_loop load_bias (dynsym tb) (dynstr tb) (rel tb)
      (Z.to_nat (rel_sz tb / rel_ent)) 0 w
  else Some w.

(** Everything after the walk over the dynamic section: RELR, RELA, REL,
    Android packed, PLT. *)
Definition apply_tables (load_bias : Z) (tb : Tables) (w : World)
  : option World :=
  if (dynsym tb =? 0) || (dynstr tb =? 0) then Some w
  else
    match rela_relocs load_bias tb (relr_relocs load_bias tb w) with
    | None => None
    | Some w =>
        match rel_relocs load_bias tb w with
        | None => None
        | Some w =>
            match android_relocs load_bias tb w with
            | None => None
            | Some None => Some w
            | Some (Some w) => plt_relocs load_bias tb w
            end
        end
    end.

Definition processRelocations (image : ElfImage.t) (w : World)
  : option World :=
  match List.find (fun ph => p_type ph =? PT_DYNAMIC) (ElfImage.phdr_ image) with
  | None => Some w
  | Some ph =>
      let dyn :=
        wrap64 (ElfImage.base_ image + p_vaddr ph - ElfImage.bias_ image) in
      if dyn =? 0 then Some w
      else
        let load_bias := wrap64 (ElfImage.base_ image - ElfImage.bias_ image) in
        match dyn_loop image fuel (mem (proc w)) dyn no_tables with
        | None => None
        | Some None => Some w
        | Some (Some tb) => apply_tables load_bias tb w
        end
  end.

(** *** Constructors and destructors *)

(** The entries [0 .. count - 1] of an array of function pointers. *)
Definition fn_array (w : World) (array count : Z) : list Z :=
  map (fun i => read w (array + sizeof_ElfAddr * Z.of_nat i))
      (seq 0 (Z.to_nat count)).

(** The calls [callConstructors] makes: [DT_INIT], then the entries of
    [DT_INIT_ARRAY] in order. *)
Definition constructor_calls (image : ElfImage.t) (w : World) : list Event :=
  (if ElfImage.init_func_ image =? 0 then []
   else [Call (ElfImage.init_func_ image)])
  ++ (if ElfImage.init_array_ image =? 0 then []
      else map Call (fn_array w (ElfImage.init_array_ image)
                              (ElfImage.init_array_count_ image))).

Definition callConstructors (image : ElfImage.t) (w : World) : World :=
  emit w (constructor_calls image w).

(** The calls [callDestructors] makes: the entries of [DT_FINI_ARRAY] from
    the last to the first, then [DT_FINI]. *)
Definition destructor_calls (image : ElfImage.t) (w : World) : list Event :=
  (if ElfImage.fini_array_ image =? 0 then []
   else map Call (rev (fn_array w (ElfImage.fini_array_ image)
                                (ElfImage.fini_array_count_ image))))
  ++ (if ElfImage.fini_func_ image =? 0 then []
      else [Call (ElfImage.fini_func_ image)]).

Definition callDestructors (image : ElfImage.t) (w : World) : World :=
  emit w (destructor_calls image w).

(** *** link *)

(** [loadDependencies] reads [DT_NEEDED], searches the file system and maps
    files. Its outcome is the environment's: whether it succeeded, the
    records it pushed onto [deps_], and memory with the new mappings. *)
Variable load_env : t -> Mem -> bool * list LoadedDep.t * Mem.

Definition with_deps (lk : t) (deps : list LoadedDep.t) : t :=
  mk (main_image_ lk) deps (main_map_size_ lk) (is_linked_ lk)
     (symbol_cache_ lk) (tls_indices_ lk).

Definition with_main (lk : t) (image : option ElfImage.t) : t :=
  mk image (deps_ lk) (main_map_size_ lk) (is_linked_ lk)
     (symbol_cache_ lk) (tls_indices_ lk).

Definition loadDependencies (w : World) : bool * World :=
  let '(ok, pushed, mm) := load_env (linker w) (mem (proc w)) in
  (ok, with_mem (with_linker w (with_deps (linker w)
                                  (deps_ (linker w) ++ pushed))) mm).

(** Phase 2 for the dependencies: [registerSegment(dep.image.get())]. *)
Fixpoint register_deps (m : TlsManager.t) (deps : list LoadedDep.t)
  : option (TlsManager.t * list LoadedDep.t) :=
  match deps with
  | [] => Some (m, [])
  | dep :: deps =>
      match LoadedDep.image dep with
      | None => None
      | Some img =>
          let '(_, m, img) := TlsManager.registerSegment m img in
          match register_deps m deps with
          | None => None
          | Some (m, deps) =>
              Some (m, LoadedDep.mk (Some img) (LoadedDep.is_manual_load dep)
                         (LoadedDep.map_base dep) (LoadedDep.map_size dep)
                       :: deps)
          end
      end
  end.

Definition register_tls (w : World) : option World :=
  match main_image_ (linker w) with
  | None => None
  | Some img =>
      let '(_, m, img) := TlsManager.registerSegment (tls w) img in
      match register_deps m (deps_ (linker w)) with
      | None => None
      | Some (m, deps) =>
          Some (with_tls
                  (with_linker w (with_deps (with_main (linker w) (Some img)) deps))
                  (TlsManager.bumpGeneration m))
      end
  end.

(** Phase 4 for the dependencies. *)
Fixpoint relocate_deps (deps : list LoadedDep.t) (w : World) : option World :=
  match deps with
  | [] => Some w
  | dep :: deps =>
      if LoadedDep.is_manual_load dep
      then
        match LoadedDep.image dep with
        | None => None
        | Some img =>
            match processRelocations img w with
            | None => None
            | Some w => relocate_deps deps w
            end
        end
      else relocate_deps deps w
  end.

Definition relocate_all (w : World) : option World :=
  match main_image_ (linker w) with
  | None => None
  | Some img =>
      match processRelocations img w with
      | None => None
      | Some w => relocate_deps (deps_ (linker w)) w
      end
  end.

Definition manual_images (deps : list LoadedDep.t) : list ElfImage.t :=
  omap (fun dep => if LoadedDep.is_manual_load dep
                   then LoadedDep.image dep else None) deps.

(** Phase 6. *)
Definition register_backtrace (w : World) : World :=
  match main_image_ (linker w) with
  | None => w
  | Some img =>
      emit w
        ([RegisterLibrary (ElfImage.this_ img);
          RegisterEhFrame (ElfImage.this_ img)]
         ++ concat (map (fun d => [RegisterLibrary (ElfImage.this_ d);
                                   RegisterEhFrame (ElfImage.this_ d)])
                        (manual_images (deps_ (linker w)))))
  end.

(** Phase 7. *)
Definition run_constructors (w : World) : World :=
  let w := fold_left (fun w img => callConstructors img w)
                     (manual_images (deps_ (linker w))) w in
  match main_image_ (linker w) with
  | None => w
  | Some img => callConstructors img w
  end.

Definition set_linked (lk : t) (b : bool) : t :=
  mk (main_image_ lk) (deps_ lk) (main_map_size_ lk) b
     (symbol_cache_ lk) (tls_indices_ lk).

(** [bool Linker::link()]. Phases 3 and 5 only call [mprotect] and leave
    the world as modelled here unchanged. *)
Definition link (w : World) : option (bool * World) :=
  let '(ok, w) := loadDependencies w in
  if negb ok then Some (false, w)
  else
    match register_tls w with
    | None => None
    | Some w =>
        match relocate_all w with
        | None => None
        | Some w =>
            let w := run_constructors (register_backtrace w) in
            Some (true, with_linker w (set_linked (linker w) true))
        end
    end.

(** The images whose constructors [link] runs, in the order it runs them:
    the manually loaded dependencies in load order, then the main image. *)
Definition construction_order (lk : t) : list ElfImage.t :=
  manual_images (deps_ lk)
  ++ match main_image_ lk with
     | Some img => [img]
     | None => []
     end.

(** *** Teardown *)

Definition unregister_backtrace (image : ElfImage.t) : list Event :=
  [UnregisterEhFrame (ElfImage.this_ image);
   UnregisterLibrary (ElfImage.this_ image)].

(** [for (auto* ti : tls_indices_) delete ti; tls_indices_.clear();] *)
Definition free_indices (w : World) : World :=
  mkWorld
    (mk (main_image_ (linker w)) (deps_ (linker w))
        (main_map_size_ (linker w)) (is_linked_ (linker w))
        (symbol_cache_ (linker w)) [])
    (tls w) (proc w)
    (fold_left (fun h ti => delete ti h) (tls_indices_ (linker w)) (indices w))
    (trace w ++ map Delete (tls_indices_ (linker w))).

(** The two loops that unregister the TLS segments: the dependencies in
    reverse, then the main image. *)
Definition unregister_tls (w : World) : World :=
  let m :=
    fold_left
      (fun m dep =>
         match LoadedDep.image dep with
         | Some img => TlsManager.unregisterSegment m (ElfImage.this_ img)
         | None => m
         end)
      (rev (deps_ (linker w))) (tls w) in
  with_tls w
    (match main_image_ (linker w) with
     | Some img => TlsManager.unregisterSegment m (ElfImage.this_ img)
     | None => m
     end).

Definition munmap_dep (dep : LoadedDep.t) : list Event :=
  if LoadedDep.is_manual_load dep && (0 <? LoadedDep.map_size dep)
  then [Munmap (LoadedDep.map_base dep) (LoadedDep.map_size dep)]
  else [].

(** The last four statements of both [destroy] and [abandon]. *)
Definition release (lk : t) : t :=
  mk None [] 0 false (symbol_cache_ lk) (tls_indices_ lk).

(** What [destroy] does for the main image and for each dependency before
    anything is freed. *)
Definition destroy_main_calls (w : World) : list Event :=
  match main_image_ (linker w) with
  | Some img =>
      if is_linked_ (linker w)
      then unregister_backtrace img ++ destructor_calls img w
      else []
  | None => []
  end.

Definition destroy_dep_calls (w : World) (dep : LoadedDep.t) : list Event :=
  match LoadedDep.image dep with
  | Some img =>
      if LoadedDep.is_manual_load dep
      then unregister_backtrace img ++ destructor_calls img w
      else []
  | None => []
  end.

Definition munmap_main (w : World) : list Event :=
  match main_image_ (linker w) with
  | Some img =>
      if 0 <? main_map_size_ (linker w)
      then [Munmap (ElfImage.base_ img) (main_map_size_ (linker w))]
      else []
  | None => []
  end.

(** [void Linker::destroy()]: the main image's destructors, the
    dependencies' in reverse load order, the [TlsIndex] records, the TLS
    segments, the mappings. *)
Definition destroy (w : World) : World :=
  let w := emit w (destroy_main_calls w) in
  let w := emit w (concat (map (destroy_dep_calls w) (rev (deps_ (linker w))))) in
  let w := free_indices w in
  let w := unregister_tls w in
  let w := emit w (concat (map munmap_dep (deps_ (linker w)))) in
  let w := emit w (munmap_main w) in
  with_linker w (release (linker w)).

Definition abandon_dep_calls (dep : LoadedDep.t) : list Event :=
  match LoadedDep.image dep with
  | Some img =>
      if LoadedDep.is_manual_load dep then unregister_backtrace img else []
  | None => []
  end.

Definition abandon_main_calls (w : World) : list Event :=
  match main_image_ (linker w) with
  | Some img =>
      if is_linked_ (linker w) then unregister_backtrace img else []
  | None => []
  end.

(** [void Linker::abandon()] *)
Definition abandon (w : World) : World :=
  let w := emit w (concat (map abandon_dep_calls (deps_ (linker w)))) in
  let w := emit w (abandon_main_calls w) in
  let w := free_indices w in
  let w := unregister_tls w in
  with_linker w (release (linker w)).

(** The calls made between two worlds of one run. *)
Definition since (w w' : World) : list Event :=
  drop (length (trace w)) (trace w').

Definition is_call (e : Event) : bool :=
  match e with Call _ => true | _ => false end.
Definition is_munmap (e : Event) : bool :=
  match e with Munmap _ _ => true | _ => false end.
Definition is_delete (e : Event) : bool :=
  match e with Delete _ => true | _ => false end.

(** The calls that are neither destructor calls nor unmappings. *)
Definition bookkeeping (e : Event) : bool :=
  negb (is_call e) && negb (is_munmap e).

(** "[abandon] is [destroy] without the destructors": the same linker, TLS
    registry, process and heap afterwards, and the calls of [destroy] minus
    its destructor calls, in some order. *)
Definition abandon_is_destroy_without_destructors (w : World) : Prop :=
  linker (abandon w) = linker (destroy w)
  /\ tls (abandon w) = tls (destroy w)
  /\ proc (abandon w) = proc (destroy w)
  /\ indices (abandon w) = indices (destroy w)
  /\ Permutation (since w (abandon w))
                 (List.filter (fun e => negb (is_call e)) (since w (destroy w))).

(** [dynamic_tls_resolver], given the record its argument points at. *)
Definition dynamic_tls_resolver (m : TlsManager.t) (ti : TlsIndex.t) (p : Proc)
  : Z * Proc :=
  let '(addr, p) := TlsManager.getAddress host m (Some ti) p in
  let '(block_base, p) := TlsManager.getAddress host m None p in
  (wrap64 (addr - block_base), p).

(** The claim of the specification on one thread: what the resolver
    returns for [ti], plus the block base that [getAddress(nullptr)] gives
    next, is the address that [__tls_get_addr(ti)] then returns. *)
Definition resolver_plus_base_is_address (m : TlsManager.t) (ti : TlsIndex.t)
    (p : Proc) : Prop :=
  let '(r, p1) := dynamic_tls_resolver m ti p in
  let '(block_base, p2) := TlsManager.getAddress host m None p1 in
  let '(addr, _) := TlsManager.__tls_get_addr host m (Some ti) p2 in
  wrap64 (r + block_base) = addr.

End WithHost.

(** *** Loading a library by hand *)

(** The loop of [getLoadSize]: [lo] and [hi] over the [PT_LOAD] headers. *)
Fixpoint load_range (phdr : list ElfPhdr) (lo hi : Z) : Z * Z :=
  match phdr with
  | [] => (lo, hi)
  | ph :: phdr =>
      if negb (p_type ph =? PT_LOAD) then load_range phdr lo hi
      else
        let lo := if p_vaddr ph <? lo then p_vaddr ph else lo in
        let top := wrap64 (p_vaddr ph + p_memsz ph) in
        let hi := if hi <? top then top else hi in
        load_range phdr lo hi
  end.

(** [getLoadSize(phdr, count, &min_vaddr)]: the size and [min_vaddr]. *)
Definition getLoadSize (host : Host) (phdr : list ElfPhdr) : option (Z * Z) :=
  let '(lo, hi) := load_range phdr (2 ^ 64 - 1) 0 in
  match pageStart host lo, pageEnd host hi with
  | Some lo, Some hi => Some (wrap64 (hi - lo), lo)
  | _, _ => None
  end.

(** A [PT_LOAD] header whose end, rounded up to a page of [2 ^ k] bytes,
    stays within the address space. *)
Definition loadable_fits (k : Z) (ph : ElfPhdr) : Prop :=
  p_type ph = PT_LOAD ->
  0 <= p_vaddr ph /\ 0 <= p_memsz ph
  /\ p_vaddr ph + p_memsz ph + 2 ^ k <= 2 ^ 64.

(** *** findLibraryPath *)

Section LibraryPath.

(** [access(path.c_str(), F_OK) == 0], as the file system answers it. *)
Variable access : list Z -> bool.

Definition search_paths : list (list Z) :=
  map bytes_of
    ["/apex/com.android.runtime/lib64/bionic/";
     "/apex/com.android.runtime/lib64/";
     "/apex/com.android.art/lib64/";
     "/system/lib64/";
     "/system/lib64/vndk/";
     "/system/lib64/vndk-sp/";
     "/vendor/lib64/";
     "/vendor/lib64/vndk/";
     "/vendor/lib64/vndk-sp/";
     "/odm/lib64/";
     "/product/lib64/";
     "/system_ext/lib64/"]%string.

(** [for (int i = 0; search_paths[i]; i++)]: the result and [out]. *)
Fixpoint search_in (paths : list (list Z)) (actual_name out : list Z)
  : bool * list Z :=
  match paths with
  | [] => (false, out)
  | path :: paths =>
      let out := path ++ actual_name in
      if access out then (true, out) else search_in paths actual_name out
  end.

(** [bool findLibraryPath(name, out)]: the result and [out] afterwards,
    given [out] before. *)
Definition findLibraryPath (name out : list Z) : bool * list Z :=
  if match name with
     | c :: _ => c =? 47
     | [] => false
     end
  then (access name, name)
  else
    if bool_decide (name = bytes_of "libc++.so")
    then
      let out := bytes_of "/apex/com.android.runtime/lib64/libc++.so" in
      if access out then (true, out)
      else
        let out := bytes_of "/system/lib64/libc++.so" in
        if access out then (true, out)
        else search_in search_paths name out
    else search_in search_paths name out.

End LibraryPath.

End Linker.

(** ** include/backtrace.hpp, src/backtrace.cpp *)

Module BacktraceManager.
Import Elf.

Definition MAX_CUSTOM_LIBS : Z := 64.

Definition DW_EH_PE_absptr : Z := 0x00.
Definition DW_EH_PE_uleb128 : Z := 0x01.
Definition DW_EH_PE_udata2 : Z := 0x02.
Definition DW_EH_PE_udata4 : Z := 0x03.
Definition DW_EH_PE_udata8 : Z := 0x04.
Definition DW_EH_PE_sleb128 : Z := 0x09.
Definition DW_EH_PE_sdata2 : Z := 0x0a.
Definition DW_EH_PE_sdata4 : Z := 0x0b.
Definition DW_EH_PE_sdata8 : Z := 0x0c.
Definition DW_EH_PE_pcrel : Z := 0x10.
Definition DW_EH_PE_textrel : Z := 0x20.
Definition DW_EH_PE_datarel : Z := 0x30.
Definition DW_EH_PE_funcrel : Z := 0x40.
Definition DW_EH_PE_aligned : Z := 0x50.
Definition DW_EH_PE_omit : Z := 0xff.

(** [static_cast<uintptr_t>] of a signed integer of [bits] bits, given as
    the unsigned value of its bytes. *)
Definition sign_extend (bits v : Z) : Z :=
  wrap64 ((v + 2 ^ (bits - 1)) mod 2 ^ bits - 2 ^ (bits - 1)).

(** [decodePointer]: what it stores in [*result] and the pointer it
    returns. *)
Definition decodePointer (mm : Mem) (p encoding base : Z) : Z * Z :=
  if encoding =? DW_EH_PE_omit then (0, p)
  else
    let start := p in
    let format := Z.land encoding 0x0f in
    let decoded :=
      if format =? DW_EH_PE_absptr then Some (load64 mm p, p + 8)
      else if format =? DW_EH_PE_udata2 then Some (load16 mm p, p + 2)
      else if format =? DW_EH_PE_udata4 then Some (load32 mm p, p + 4)
      else if format =? DW_EH_PE_udata8 then Some (load64 mm p, p + 8)
      else if format =? DW_EH_PE_sdata2
      then Some (sign_extend 16 (load16 mm p), p + 2)
      else if format =? DW_EH_PE_sdata4
      then Some (sign_extend 32 (load32 mm p), p + 4)
      else if format =? DW_EH_PE_sdata8
      then Some (sign_extend 64 (load64 mm p), p + 8)
      else None in
    match decoded with
    | None => (0, p)
    | Some (value, p) =>
        let value :=
          if value =? 0 then value
          else
            let relative := Z.land encoding 0x70 in
            if relative =? DW_EH_PE_pcrel then wrap64 (value + start)
            else if relative =? DW_EH_PE_datarel then wrap64 (value + base)
            else value in
        (value, p)
    end.

(** [parseEhFrameHdr]: the address of [.eh_frame], 0 for [nullptr]. *)
Definition parseEhFrameHdr (mm : Mem) (hdr hdr_size base : Z) : Z :=
  if (hdr =? 0) || (hdr_size <? 4) then 0
  else if negb (load8 mm hdr =? 1) then 0
  else
    let eh_frame_ptr_enc := load8 mm (hdr + 1) in
    if eh_frame_ptr_enc =? DW_EH_PE_omit then 0
    else fst (decodePointer mm (hdr + 4) eh_frame_ptr_enc base).

(** An [ElfImage] with the members that only this file reads: the path
    and the addresses of [.eh_frame] and [.eh_frame_hdr]. *)
Record Image := mkImage {
  elf : ElfImage.t;
  path_ : list Z;
  eh_frame_ : Z;
  eh_frame_hdr_ : Z;
  eh_frame_hdr_size_ : Z
}.

(** [dl_phdr_info]; [dlpi_name] and [dlpi_phdr] are kept as what they
    point at, [None] for [nullptr]. *)
Record dl_phdr_info := mkInfo {
  dlpi_addr : Z;
  dlpi_name : option (list Z);
  dlpi_phdr : option (list ElfPhdr);
  dlpi_phnum : Z;
  dlpi_adds : Z;
  dlpi_subs : Z;
  dlpi_tls_modid : Z;
  dlpi_tls_data : Z
}.

Module LibInfo.

Record t := mk {
  image : option Image;
  phdr_info : dl_phdr_info;
  in_use : bool;
  phdr_copy : Z;
  eh_frame_registered : Z
}.

(** [LibInfo{}] *)
Definition empty : t := mk None (mkInfo 0 None None 0 0 0 0 0) false 0 0.

End LibInfo.

(** The calls into the C runtime. *)
Inductive Event :=
| RegisterFrame (eh_frame : Z)
| DeregisterFrame (eh_frame : Z)
| Free (p : Z).

Definition is_deregister (ev : Event) : bool :=
  match ev with DeregisterFrame _ => true | _ => false end.

(** The manager in its process: [libs_], the pointers that the next
    calls of [malloc] return (0 for one that fails), and the calls made so
    far. *)
Record t := mk {
  libs_ : list LibInfo.t;
  heap_ : list Z;
  trace : list Event
}.

Definition initial : t :=
  mk (replicate (Z.to_nat MAX_CUSTOM_LIBS) LibInfo.empty) [] [].

Definition lib (m : t) (i : nat) : LibInfo.t :=
  default LibInfo.empty (libs_ m !! i).

Definition set_lib (m : t) (i : nat) (l : LibInfo.t) : t :=
  mk (<[i := l]> (libs_ m)) (heap_ m) (trace m).

Definition emit (m : t) (evs : list Event) : t :=
  mk (libs_ m) (heap_ m) (trace m ++ evs).

(** [for (size_t i = 0; i < MAX_CUSTOM_LIBS; i++) if (test(libs_[i]))]:
    the first index that passes, counted from [i]. *)
Fixpoint first_slot (test : LibInfo.t -> bool) (libs : list LibInfo.t)
    (i : nat) : option nat :=
  match libs with
  | [] => None
  | l :: libs => if test l then Some i else first_slot test libs (S i)
  end.

(** [libs_[i].in_use && libs_[i].image == image] *)
Definition holds (image : Image) (l : LibInfo.t) : bool :=
  LibInfo.in_use l
  && match LibInfo.image l with
     | Some img => ElfImage.this_ (elf img) =? ElfImage.this_ (elf image)
     | None => false
     end.

(** Every slot that is not in use is as [LibInfo{}] leaves it. *)
Definition free_slots_clear (m : t) : Prop :=
  forall l, l ∈ libs_ m -> LibInfo.in_use l = false -> l = LibInfo.empty.

(** No slot in use is for [image]. *)
Definition unknown (image : Image) (m : t) : Prop :=
  forall l, l ∈ libs_ m -> holds image l = false.

(** The assignments of [registerLibrary] to [lib], the slot it found
    holding [old], once [malloc] has returned [copy]. *)
Definition registered (image : Image) (old : LibInfo.t) (copy : Z) : LibInfo.t :=
  LibInfo.mk (Some image)
    (mkInfo (wrap64 (ElfImage.base_ (elf image) - ElfImage.bias_ (elf image)))
            (Some (path_ image))
            (Some (ElfImage.phdr_ (elf image)))
            (Z.of_nat (length (ElfImage.phdr_ (elf image)))) 1 0
            (match ElfImage.tls_segment_ (elf image) with
             | Some _ => ElfImage.tls_mod_id_ (elf image)
             | None => dlpi_tls_modid (LibInfo.phdr_info old)
             end)
            (dlpi_tls_data (LibInfo.phdr_info old)))
    true copy 0.

Section Runtime.

(** Whether the weak symbols [__register_frame] and [__deregister_frame]
    are there. *)
Variable has_register_frame : bool.
Variable has_deregister_frame : bool.

Definition registerLibrary (image : Image) (m : t) : bool * t :=
  match first_slot (fun l => negb (LibInfo.in_use l)) (libs_ m) 0 with
  | None => (false, m)
  | Some slot =>
      let l := lib m slot in
      let '(copy, later) :=
        match heap_ m with
        | [] => (0, [])
        | copy :: later => (copy, later)
        end in
      if copy =? 0
      then
        (false,
         mk (<[slot := LibInfo.mk (LibInfo.image l) (LibInfo.phdr_info l)
                         (LibInfo.in_use l) 0 (LibInfo.eh_frame_registered l)]>
               (libs_ m))
            later (trace m))
      else
        (true,
         mk (<[slot := registered image l copy]> (libs_ m)) later (trace m))
  end.

Definition unregisterLibrary (image : Image) (m : t) : bool * t :=
  match first_slot (holds image) (libs_ m) 0 with
  | None => (false, m)
  | Some i =>
      let l := lib m i in
      let m :=
        if negb (LibInfo.eh_frame_registered l =? 0) && has_deregister_frame
        then emit m [DeregisterFrame (LibInfo.eh_frame_registered l)]
        else m in
      let m := emit m [Free (LibInfo.phdr_copy l)] in
      (true, set_lib m i LibInfo.empty)
  end.

Definition with_eh_frame (l : LibInfo.t) (eh_frame : Z) : LibInfo.t :=
  LibInfo.mk (LibInfo.image l) (LibInfo.phdr_info l) (LibInfo.in_use l)
             (LibInfo.phdr_copy l) eh_frame.

(** The address [registerEhFrame] settles on: [.eh_frame] of the image,
    or else the one named by its [.eh_frame_hdr]. *)
Definition eh_frame_of (mm : Mem) (image : Image) : Z :=
  if negb (eh_frame_ image =? 0) then eh_frame_ image
  else if negb (eh_frame_hdr_ image =? 0)
  then parseEhFrameHdr mm (eh_frame_hdr_ image) (eh_frame_hdr_size_ image)
         (wrap64 (ElfImage.base_ (elf image) - ElfImage.bias_ (elf image)))
  else 0.

Definition registerEhFrame (mm : Mem) (image : Image) (m : t) : t :=
  if negb has_register_frame then m
  else
    let eh_frame := eh_frame_of mm image in
    if eh_frame =? 0 then m
    else
      let m := emit m [RegisterFrame eh_frame] in
      match first_slot (holds image) (libs_ m) 0 with
      | None => m
      | Some i => set_lib m i (with_eh_frame (lib m i) eh_frame)
      end.

Definition unregisterEhFrame (image : Image) (m : t) : t :=
  if negb has_deregister_frame then m
  else
    match first_slot
            (fun l => holds image l
                      && negb (LibInfo.eh_frame_registered l =? 0))
            (libs_ m) 0 with
    | None => m
    | Some i =>
        let l := lib m i in
        let m := emit m [DeregisterFrame (LibInfo.eh_frame_registered l)] in
        set_lib m i (with_eh_frame l 0)
    end.

End Runtime.

(** [Dl_info]; the two names are kept as the strings they point at. *)
Record Dl_info := mkDl_info {
  dli_fname : option (list Z);
  dli_fbase : Z;
  dli_sname : option (list Z);
  dli_saddr : Z
}.

(** The test of the inner loop of [customDladdr] on one program header. *)
Definition in_segment (dlpi_addr addr : Z) (ph : ElfPhdr) : bool :=
  (p_type ph =? PT_LOAD)
  && (let start := wrap64 (dlpi_addr + p_vaddr ph) in
      let end_ := wrap64 (start + p_memsz ph) in
      (start <=? addr) && (addr <? end_)).

(** [for (size_t j = 0; j < lib.phdr_info.dlpi_phnum; j++)] *)
Definition segments (l : LibInfo.t) : list ElfPhdr :=
  match dlpi_phdr (LibInfo.phdr_info l) with
  | Some phdr => take (Z.to_nat (dlpi_phnum (LibInfo.phdr_info l))) phdr
  | None => []
  end.

Definition in_library (addr : Z) (l : LibInfo.t) : bool :=
  LibInfo.in_use l
  && existsb (in_segment (dlpi_addr (LibInfo.phdr_info l)) addr) (segments l).

(** The library is in use and [addr] lies in one of its [PT_LOAD]
    segments as mapped. *)
Definition contains (l : LibInfo.t) (addr : Z) : Prop :=
  LibInfo.in_use l = true
  /\ exists ph,
       ph ∈ segments l /\ p_type ph = PT_LOAD
       /\ wrap64 (dlpi_addr (LibInfo.phdr_info l) + p_vaddr ph) <= addr
          < wrap64 (wrap64 (dlpi_addr (LibInfo.phdr_info l) + p_vaddr ph)
                    + p_memsz ph).

(** What [customDladdr] writes to [*info] for the library it settles
    on. *)
Definition describe (addr : Z) (l : LibInfo.t) : Dl_info :=
  let sym :=
    match LibInfo.image l with
    | Some img => ElfImage.getSymbolAt (elf img) addr
    | None => SymbolInfo.empty
    end in
  if SymbolInfo.valid sym
  then mkDl_info (dlpi_name (LibInfo.phdr_info l))
                 (dlpi_addr (LibInfo.phdr_info l))
                 (Some (SymbolInfo.name sym)) (SymbolInfo.address sym)
  else mkDl_info (dlpi_name (LibInfo.phdr_info l))
                 (dlpi_addr (LibInfo.phdr_info l)) None 0.

(** [customDladdr]: [orig] is [s_orig_dladdr], which answers [None] when
    it is missing or returns 0. The result is [Some info] for the return
    value 1 and [None] for 0. *)
Definition customDladdr (orig : Z -> option Dl_info) (m : t) (addr : Z)
  : option Dl_info :=
  match orig addr with
  | Some info => Some info
  | None =>
      match List.find (in_library addr) (libs_ m) with
      | Some l => Some (describe addr l)
      | None => None
      end
  end.

(** The loop of [customDlIteratePhdr] over the libraries; the callback
    works on a state of its own and answers an [int]. *)
Fixpoint iterate_libs {S : Type} (callback : dl_phdr_info -> S -> Z * S)
    (libs : list LibInfo.t) (data : S) : Z * S :=
  match libs with
  | [] => (0, data)
  | l :: libs =>
      if negb (LibInfo.in_use l) then iterate_libs callback libs data
      else
        let '(result, data) := callback (LibInfo.phdr_info l) data in
        if negb (result =? 0) then (result, data)
        else iterate_libs callback libs data
  end.

(** [customDlIteratePhdr]: [orig] is [s_orig_dl_iterate_phdr], [None] when
    [dlsym] did not find it. *)
Definition customDlIteratePhdr {S : Type}
    (orig : option ((dl_phdr_info -> S -> Z * S) -> S -> Z * S))
    (m : t) (callback : dl_phdr_info -> S -> Z * S) (data : S) : Z * S :=
  match orig with
  | Some iterate =>
      let '(result, data) := iterate callback data in
      if negb (result =? 0) then (result, data)
      else iterate_libs callback (libs_ m) data
  | None => iterate_libs callback (libs_ m) data
  end.

End BacktraceManager.

(** ** include/soloader.hpp, src/soloader.cpp *)

Module SoLoader.

(** [image_] is the [ElfImage*] that [linker_.mainImage()] returned, 0 for
    [nullptr]; [linker_] lives in the [Linker.World] the calls work on. *)
Record t := mk {
  lib_path_ : list Z;
  image_ : Z
}.

(** [SoLoader loader;] *)
Definition fresh : t := mk [] 0.

Definition isLoaded (s : t) : bool := negb (image_ s =? 0).

(** What the file system answers to [load]. *)
Record Files := mkFiles {
  (** [stat]: [None] when it fails, else whether [S_ISREG] holds *)
  stat_regular : list Z -> option bool;
  (** [access(path, R_OK) == 0] *)
  readable : list Z -> bool;
  (** [Linker::loadLibraryManually]: the base, [dep.map_size] and memory
      with the new mapping; [None] for [nullptr] *)
  loadLibraryManually : list Z -> Mem -> option (Z * Z * Mem);
  (** [ElfImage::create(lib_path, base)], [None] for [nullptr] *)
  create : list Z -> Z -> Mem -> option ElfImage.t
}.

(** The world [load] hands to [link]: the library mapped, the linker
    initialised with its image and told the size of the mapping. *)
Definition handed_over (w : Linker.World) (mm : Mem) (image : ElfImage.t)
    (map_size : Z) : Linker.World :=
  let w := Linker.with_mem w mm in
  Linker.with_linker w
    (Linker.setMainMapSize
       (snd (Linker.init (Linker.linker w) (Some image))) map_size).

Section WithHost.
Variable host : Host.
Variable fuel : nat.
Variable shl_undef : Z -> Z -> Z.
Variable load_env : Linker.t -> Mem -> bool * list LoadedDep.t * Mem.
Variable files : Files.

Definition load (lib_path : list Z) (s : t) (w : Linker.World)
  : option (bool * t * Linker.World) :=
  if isLoaded s then Some (false, s, w)
  else
    match stat_regular files lib_path with
    | None => Some (false, s, w)
    | Some regular =>
        if negb regular then Some (false, s, w)
        else if negb (readable files lib_path) then Some (false, s, w)
        else
          match loadLibraryManually files lib_path (mem (Linker.proc w)) with
          | None => Some (false, s, w)
          | Some (base, map_size, mm) =>
              match create files lib_path base mm with
              | None =>
                  Some (false, s,
                        Linker.emit (Linker.with_mem w mm) [Munmap base map_size])
              | Some image =>
                  if negb (fst (Linker.init (Linker.linker w) (Some image)))
                  then
                    Some (false, s,
                          Linker.emit
                            (Linker.with_linker (Linker.with_mem w mm)
                               (snd (Linker.init (Linker.linker w) (Some image))))
                            [Munmap base map_size])
                  else
                    match Linker.link host fuel shl_undef load_env
                            (handed_over w mm image map_size) with
                    | None => None
                    | Some (ok, w) =>
                        if negb ok then Some (false, s, Linker.destroy w)
                        else
                          Some (true,
                                mk lib_path
                                   (match Linker.main_image_ (Linker.linker w) with
                                    | Some img => ElfImage.this_ img
                                    | None => 0
                                    end),
                                w)
                    end
              end
          end
    end.

Definition unload (s : t) (w : Linker.World) : bool * t * Linker.World :=
  if negb (isLoaded s) then (false, s, w)
  else (true, mk [] 0, Linker.destroy w).

Definition abandon (s : t) (w : Linker.World) : bool * t * Linker.World :=
  if negb (isLoaded s) then (false, s, w)
  else (true, mk [] 0, Linker.abandon w).

(** [getSymbol]: the address, 0 for [nullptr]; no result when the lookup
    has none or [image_] points at no image of the linker. *)
Definition getSymbol (name : list Z) (s : t) (w : Linker.World) : option Z :=
  if negb (isLoaded s) then Some 0
  else
    match Linker.deref (Linker.linker w) (image_ s) with
    | None => None
    | Some img =>
        match ElfImage.findSymbolAddress (call_resolver host) fuel img name with
        | None => None
        | Some None => Some 0
        | Some (Some (addr, _)) => Some addr
        end
    end.

End WithHost.

End SoLoader.

(** ** Sample data

    Small images in the shape of the test library: each has a [.symtab]
    with one function [f], and no hash tables, so that lookups go through
    the linear scan. *)

Module Samples.
Import Elf.

Definition host : Host :=
  mkHost (fun _ => 0) (fun resolver => resolver) 4096 0xD100 0xD200 0xD300.

(** ["\0f\0"]: the name [f] sits at offset 1. *)
Definition strtab_f : list Z := [0] ++ bytes_of "f" ++ [0].

Definition f : list Z := bytes_of "f".
Definition missing : list Z := bytes_of "missing".

(** An image at [this] mapped at [base], with program headers [phdrs], a
    [.symtab] with the entries [symtab] named through [strtab_f], the
    [PT_TLS] header [tls] and the [DT_FINI] function [fini]. *)
Definition image (this base : Z) (phdrs : list ElfPhdr)
    (symtab : list ElfSym) (tls : option ElfPhdr) (fini : Z) : ElfImage.t :=
  ElfImage.mk this base 0 phdrs
    None None None
    0 None None
    0 0 0 0 None None None
    (Some symtab) (Z.of_nat (length symtab)) (Some strtab_f)
    tls 0
    0 fini 0 0 0 0.

(** A [.symtab] that defines [f] as a function of 8 bytes with the given
    binding at offset [value]. *)
Definition defines_f (bind value : Z) : list ElfSym :=
  [null_sym; mkSym 1 (bind * 16 + STT_FUNC) 0 1 value 8].

Definition dynamic_at_0x1000 : ElfPhdr := mkPhdr PT_DYNAMIC 6 0x1000 0x1000 96 96 8.
Definition tls_16 : ElfPhdr := mkPhdr 7 4 0x3000 0x3000 8 16 8.

Definition weak_main : ElfImage.t :=
  image 0xA000 0x10000 [dynamic_at_0x1000] (defines_f STB_WEAK 0x100) None 0x10900.
Definition global_dep : ElfImage.t :=
  image 0xB000 0x20000 [] (defines_f STB_GLOBAL 0x200) None 0x20900.
Definition weak_dep : ElfImage.t :=
  image 0xC000 0x30000 [] (defines_f STB_WEAK 0x300) None 0.
Definition tls_image : ElfImage.t :=
  image 0xE000 0x40000 [] (defines_f STB_GLOBAL 0x400) (Some tls_16) 0.
(** An image that defines nothing. *)
Definition plugin : ElfImage.t :=
  image 0xF000 0x60000 [dynamic_at_0x1000] [null_sym] None 0.

(** An image whose [.dynsym] and [.symtab] both hold one defined global
    symbol [f] at offset 0x500 with the given type and size, with a GNU
    hash table and an ELF hash table built for it: one bucket each, the
    Bloom word with bits 11 and 24 for [gnuHash f = 0x2B60B]. *)
Definition hashed (type size : Z) : ElfImage.t :=
  let syms := [null_sym; mkSym 1 (STB_GLOBAL * 16 + type) 0 1 0x500 size] in
  ElfImage.mk 0xA000 0x10000 0 []
    (Some (mkShdr 48 24)) (Some syms) (Some strtab_f)
    1 (Some [1]) (Some [0; 0])
    1 1 1 6 (Some [Z.shiftl 1 11 + Z.shiftl 1 24]) (Some [1]) (Some [0x2B60B])
    (Some syms) 2 (Some strtab_f)
    None 0
    0 0 0 0 0 0.

(** [f] as a function of 8 bytes, and as a thread-local variable
    ([STT_TLS]) of 4 bytes. *)
Definition hashed_func : ElfImage.t := hashed STT_FUNC 8.
Definition hashed_tls : ElfImage.t := hashed 6 4.

Definition manual (img : ElfImage.t) (size : Z) : LoadedDep.t :=
  LoadedDep.mk (Some img) true (ElfImage.base_ img) size.

(** A weak [f] in the main image and a global one in a dependency. *)
Definition weak_then_global : Linker.t :=
  Linker.mk (Some weak_main) [manual global_dep 8192] 4096 false ∅ [].

(** Two weak definitions of [f]. *)
Definition two_weak : Linker.t :=
  Linker.mk (Some weak_main) [manual weak_dep 8192] 4096 false ∅ [].

(** A linked library with one manually loaded dependency, each with a
    [DT_FINI] function, a symbol cache holding a hit and a miss, and one
    [TlsIndex]. *)
Definition loaded : Linker.World :=
  Linker.mkWorld
    (Linker.mk (Some weak_main) [manual global_dep 8192] 4096 true
       (<[f := SymbolCacheEntry.mk 0x20200 0xB000 true]>
          (<[missing := SymbolCacheEntry.mk 0 0 false]> ∅))
       [0x9000])
    TlsManager.initial
    (mkProc ∅ 0 [])
    (<[0x9000 := TlsIndex.mk 1 0]> ∅)
    [].

(** The registry after [tls_image] registered. *)
Definition one_module : TlsManager.t :=
  snd (fst (TlsManager.registerSegment TlsManager.initial tls_image)).

(** A thread without a block yet, and a heap that will hand out 0x50000. *)
Definition new_thread : Proc := mkProc ∅ 0 [0x50000].

(** A thread without a block yet, for which [posix_memalign] fails once
    and then hands out 0x50000. *)
Definition thread_failing_once : Proc := mkProc ∅ 0 [0; 0x50000].

(** An image whose [PT_TLS] header asks for [2 ^ 64 - 8] bytes, and a
    second image with a [PT_TLS] segment of 4000 bytes. *)
Definition tls_huge : ElfPhdr := mkPhdr 7 4 0x3000 0x3000 8 (2 ^ 64 - 8) 8.
Definition huge_tls_image : ElfImage.t :=
  image 0xD000 0x70000 [] (defines_f STB_GLOBAL 0x400) (Some tls_huge) 0.
Definition tls_4000 : ElfPhdr := mkPhdr 7 4 0x3000 0x3000 8 4000 8.
Definition second_tls_image : ElfImage.t :=
  image 0xD800 0x80000 [] (defines_f STB_GLOBAL 0x400) (Some tls_4000) 0.

(** Writing words and bytes into memory, as mapping a file does. *)
Fixpoint poke64s (m : Mem) (a : Z) (words : list Z) : Mem :=
  match words with
  | [] => m
  | v :: words => poke64s (store64 m a v) (a + 8) words
  end.

Fixpoint poke8s (m : Mem) (a : Z) (bytes : list Z) : Mem :=
  match bytes with
  | [] => m
  | b :: bytes => poke8s (<[a := b]> m) (a + 1) bytes
  end.

Definition jump_slot (sym_idx : Z) : Z :=
  Z.shiftl sym_idx 32 + Linker.R_AARCH64_JUMP_SLOT.

(** [weak_main] mapped at 0x10000: a dynamic section naming the symbol
    table, the string table ["\0f\0missing\0"] and a RELA table with a
    [JUMP_SLOT] for [f] at 0x15000 and one for [missing] at 0x15008. *)
Definition map_main (m : Mem) : Mem :=
  let m := poke64s m 0x11000
             [Linker.DT_SYMTAB; 0x2000; Linker.DT_STRTAB; 0x3000;
              Linker.DT_RELA; 0x4000; Linker.DT_RELASZ; 48;
              Linker.DT_RELAENT; 24; Linker.DT_NULL; 0] in
  let m := poke64s m 0x12000 [0; 0; 0; 1; 0; 0; 3; 0; 0] in
  let m := poke8s m 0x13000 ([0] ++ f ++ [0] ++ missing ++ [0]) in
  let m := poke64s m 0x14000
             [0x5000; jump_slot 1; 0; 0x5008; jump_slot 2; 0] in
  poke64s m 0x15000 [0x1111; 0x2222].

(** [plugin] mapped at 0x60000, with one [JUMP_SLOT] for [f] at 0x65000. *)
Definition map_plugin (m : Mem) : Mem :=
  let m := poke64s m 0x61000
             [Linker.DT_SYMTAB; 0x2000; Linker.DT_STRTAB; 0x3000;
              Linker.DT_RELA; 0x4000; Linker.DT_RELASZ; 24;
              Linker.DT_RELAENT; 24; Linker.DT_NULL; 0] in
  let m := poke64s m 0x62000 [0; 0; 0; 1; 0; 0] in
  let m := poke8s m 0x63000 ([0] ++ f ++ [0]) in
  let m := poke64s m 0x64000 [0x5000; jump_slot 1; 0] in
  poke64s m 0x65000 [0x3333].

(** The dependencies the environment finds: [global_dep] for [weak_main],
    none for any other library. *)
Definition load_env (lk : Linker.t) (m : Mem)
  : bool * list LoadedDep.t * Mem :=
  match Linker.main_image_ lk with
  | Some img =>
      if ElfImage.this_ img =? ElfImage.this_ weak_main
      then (true, [manual global_dep 8192], m)
      else (true, [], m)
  | None => (true, [], m)
  end.

Definition fuel : nat := 64.
Definition shl_undef (x s : Z) : Z := 0.

(** [SoLoader::load] of [weak_main] up to the call of [link]: the library
    is mapped and handed to a fresh linker. *)
Definition before_link : Linker.World :=
  Linker.mkWorld
    (Linker.setMainMapSize (snd (Linker.init Linker.fresh (Some weak_main))) 4096)
    TlsManager.initial
    (mkProc (map_main ∅) 0 [])
    ∅ [].

(** The world after that [link] (which does return, see
    [link_sample_library]). *)
Definition after_link : Linker.World :=
  match Linker.link host fuel shl_undef load_env before_link with
  | Some (_, w) => w
  | None => before_link
  end.

(** [SoLoader::unload], then [SoLoader::load] of [plugin] on the same
    loader, up to the call of [link]: [destroy], the new library mapped,
    [init] and [setMainMapSize]. *)
Definition reloaded : Linker.World :=
  let w := Linker.destroy after_link in
  let w := Linker.with_mem w (map_plugin (mem (Linker.proc w))) in
  Linker.with_linker w
    (Linker.setMainMapSize
       (snd (Linker.init (Linker.linker w) (Some plugin))) 4096).

(** The linked sample library in a process whose heap will hand out
    0x9000 next. *)
Definition linked_with_heap : Linker.World :=
  Linker.with_proc after_link
    (mkProc (mem (Linker.proc after_link)) 0 [0x9000]).

(** A thread without a block yet, in a process where the [.tdata] of
    [tls_image] is mapped at 0x43000 with the bytes 1 to 8. *)
Definition thread_with_tdata : Proc :=
  mkProc (poke8s ∅ 0x43000 [1; 2; 3; 4; 5; 6; 7; 8]) 0 [0x50000].

(** A library with one [PT_LOAD] segment of 0x1000 bytes, mapped at
    0x30000, as the backtrace manager sees it: no [.eh_frame] section
    found, and an [.eh_frame_hdr] of 12 bytes at 0x30800. *)
Definition loadable : ElfImage.t :=
  image 0xC000 0x30000 [mkPhdr PT_LOAD 5 0 0 0x1000 0x1000 0x1000]
        (defines_f STB_GLOBAL 0x100) None 0.

Definition traced : BacktraceManager.Image :=
  BacktraceManager.mkImage loadable (bytes_of "libtraced.so") 0 0x30800 12.

(** Memory with that [.eh_frame_hdr]: version 1, the pointer encoded as
    [pcrel | sdata4], and -0x104 in the field at 0x30804. *)
Definition eh_frame_hdr_at_0x30800 : Mem :=
  poke8s ∅ 0x30800 [1; 0x1b; 3; 0x3b; 0xfc; 0xfe; 0xff; 0xff].

(** An empty registry in a process where [malloc] will return 0x7000. *)
Definition registry : BacktraceManager.t :=
  BacktraceManager.mk (BacktraceManager.libs_ BacktraceManager.initial)
                      [0x7000] [].

(** A file system with the library of [weak_main] in it, and an
    environment in which loading the dependencies fails after
    [global_dep] has been mapped by hand. *)
Definition files : SoLoader.Files :=
  SoLoader.mkFiles (fun _ => Some true) (fun _ => true)
    (fun _ m => Some (0x10000, 4096, map_main m))
    (fun _ _ _ => Some weak_main).

Definition failing_env (lk : Linker.t) (m : Mem)
  : bool * list LoadedDep.t * Mem :=
  (false, [manual global_dep 8192], m).

(** A process that has loaded nothing yet. *)
Definition nothing_loaded : Linker.World :=
  Linker.mkWorld Linker.fresh TlsManager.initial (mkProc ∅ 0 []) ∅ [].

End Samples.

(** * Properties *)

(** Splits a conjunction into its conjuncts, and nothing else. *)
Ltac conjuncts := repeat match goal with |- _ /\ _ => split end.

(** ** Machine words *)

Lemma wrap64_range x : 0 <= wrap64 x < 2 ^ 64.
Proof. unfold wrap64. apply Z.mod_pos_bound. lia. Qed.

Lemma wrap64_small x : 0 <= x < 2 ^ 64 -> wrap64 x = x.
Proof. intros H. unfold wrap64. apply Z.mod_small. exact H. Qed.

Lemma wrap64_idem x : wrap64 (wrap64 x) = wrap64 x.
Proof. unfold wrap64. apply Z.mod_mod. lia. Qed.

Lemma sint64_range x : - 2 ^ 63 <= sint64 x < 2 ^ 63.
Proof.
  unfold sint64.
  pose proof (Z.mod_pos_bound (x + 2 ^ 63) (2 ^ 64) ltac:(lia)). lia.
Qed.

Lemma sint64_small x : - 2 ^ 63 <= x < 2 ^ 63 -> sint64 x = x.
Proof. intros H. unfold sint64. rewrite Z.mod_small; lia. Qed.

(** ** The LEB128 reader *)

Section Sleb128Facts.
Import Sleb128Decoder.

Variable shl_undef : Z -> Z -> Z.

Lemma first_group_nonempty bytes g rest :
  first_group bytes = Some (g, rest) -> g <> [].
Proof.
  revert g rest. induction bytes as [|b bytes IH]; intros g rest; simpl.
  - discriminate.
  - destruct (Z.land b 128 =? 0).
    + intros [= <- <-]. discriminate.
    + destruct (first_group bytes) as [[g' rest']|]; [|discriminate].
      intros [= <- <-]. discriminate.
Qed.

(** The group and what follows it make up the span again. *)
Lemma first_group_app bytes g rest :
  first_group bytes = Some (g, rest) -> bytes = g ++ rest.
Proof.
  revert g rest. induction bytes as [|b bytes IH]; intros g rest; simpl.
  - discriminate.
  - destruct (Z.land b 128 =? 0).
    + intros [= <- <-]. reflexivity.
    + destruct (first_group bytes) as [[g' rest']|]; [|discriminate].
      intros [= <- <-]. simpl. f_equal. apply IH. reflexivity.
Qed.

(** Only the last byte of a group has its 0x80 bit clear. *)
Lemma first_group_stops bytes g rest :
  first_group bytes = Some (g, rest) ->
  Z.land (List.last g 0) 0x80 = 0 /\
  Forall (fun b => Z.land b 0x80 <> 0) (removelast g).
Proof.
  revert g rest. induction bytes as [|b bytes IH]; intros g rest; simpl.
  - discriminate.
  - destruct (Z.land b 128 =? 0) eqn:Hb.
    + intros [= <- <-]. simpl. split; [lia | constructor].
    + destruct (first_group bytes) as [[g' rest']|] eqn:Hg; [|discriminate].
      intros [= <- <-].
      destruct (IH g' rest' eq_refl) as [Hlast Hinit].
      pose proof (first_group_nonempty _ _ _ Hg) as Hne.
      destruct g' as [|c g']; [congruence|].
      split; [exact Hlast|].
      change (removelast (b :: c :: g')) with (b :: removelast (c :: g')).
      constructor; [lia | exact Hinit].
Qed.

Lemma decode_loop_group shl loop bytes value shift :
  (forall bytes value shift,
      loop bytes value shift =
      match bytes with
      | [] => PastEnd
      | byte :: rest =>
          if Z.land byte 0x80 =? 0
          then Stopped (Z.lor value (shl (Z.land byte 0x7F) shift))
                       (shift + 7) byte rest
          else loop rest (Z.lor value (shl (Z.land byte 0x7F) shift))
                    (shift + 7)
      end) ->
  loop bytes value shift =
  match first_group bytes with
  | None => PastEnd
  | Some (g, rest) =>
      Stopped (Z.lor value (combine7 shl shift g))
              (shift + total_shift g) (List.last g 0) rest
  end.
Proof.
  intros Hloop. revert value shift.
  induction bytes as [|b bytes IH]; intros value shift; rewrite Hloop.
  - reflexivity.
  - simpl first_group. destruct (Z.land b 128 =? 0) eqn:Hb.
    + simpl. rewrite Z.lor_0_r. unfold total_shift. simpl length.
      f_equal.
    + rewrite IH.
      destruct (first_group bytes) as [[g rest]|] eqn:Hg; [|reflexivity].
      pose proof (first_group_nonempty _ _ _ Hg) as Hne.
      simpl combine7. rewrite Z.lor_assoc. f_equal.
      * unfold total_shift. simpl length. lia.
      * destruct g; [congruence | reflexivity].
Qed.

Lemma decode_loop_unfold bytes value shift :
  decode_loop shl_undef bytes value shift =
  match bytes with
  | [] => PastEnd
  | byte :: rest =>
      if Z.land byte 0x80 =? 0
      then Stopped (Z.lor value (shl_i64 shl_undef (Z.land byte 0x7F) shift))
                   (shift + 7) byte rest
      else decode_loop shl_undef rest
             (Z.lor value (shl_i64 shl_undef (Z.land byte 0x7F) shift))
             (shift + 7)
  end.
Proof. destruct bytes; reflexivity. Qed.

Lemma decodeUnsigned_loop_unfold bytes value shift :
  decodeUnsigned_loop shl_undef bytes value shift =
  match bytes with
  | [] => PastEnd
  | byte :: rest =>
      if Z.land byte 0x80 =? 0
      then Stopped (Z.lor value (shl_u64 shl_undef (Z.land byte 0x7F) shift))
                   (shift + 7) byte rest
      else decodeUnsigned_loop shl_undef rest
             (Z.lor value (shl_u64 shl_undef (Z.land byte 0x7F) shift))
             (shift + 7)
  end.
Proof. destruct bytes; reflexivity. Qed.

(** [-(1 << shift)] as computed on [int64_t] is [- 2 ^ shift]. *)
Lemma sign_mask shift :
  0 <= shift < 64 ->
  sint64 (- shl_i64 shl_undef 1 shift) = - 2 ^ shift.
Proof.
  intros H. unfold shl_i64.
  destruct (shift <? 64) eqn:E; [|lia].
  rewrite Z.shiftl_1_l.
  assert (H63 : 0 < 2 ^ shift <= 2 ^ 63).
  { split; [apply Z.pow_pos_nonneg; lia|].
    apply Z.pow_le_mono_r; lia. }
  destruct (Z.eq_dec shift 63) as [->|Hne].
  - reflexivity.
  - assert (2 ^ shift < 2 ^ 63) by (apply Z.pow_lt_mono_r; lia).
    rewrite (sint64_small (2 ^ shift)) by lia.
    apply sint64_small. lia.
Qed.


Lemma decode_eq bytes :
  decode shl_undef (mk bytes) =
  (sleb128_value shl_undef bytes, mk (after_group bytes)).
Proof.
  unfold decode, sleb128_value, after_group. simpl span.
  rewrite (decode_loop_group (shl_i64 shl_undef) (decode_loop shl_undef))
    by apply decode_loop_unfold.
  destruct (first_group bytes) as [[g rest]|]; [|reflexivity].
  rewrite Z.lor_0_l, Z.add_0_l. unfold sign_bit_set.
  destruct (total_shift g <? 64) eqn:E; simpl; [|reflexivity].
  destruct (Z.land (List.last g 0) 64 =? 0); simpl; [reflexivity|].
  rewrite sign_mask; [reflexivity|]. unfold total_shift in *. lia.
Qed.

Lemma decodeUnsigned_eq bytes :
  decodeUnsigned shl_undef (mk bytes) =
  (uleb128_value shl_undef bytes, mk (after_group bytes)).
Proof.
  unfold decodeUnsigned, uleb128_value, after_group. simpl span.
  rewrite (decode_loop_group (shl_u64 shl_undef) (decodeUnsigned_loop shl_undef))
    by apply decodeUnsigned_loop_unfold.
  destruct (first_group bytes) as [[g rest]|]; [|reflexivity].
  rewrite Z.lor_0_l. reflexivity.
Qed.

(** C9. Both decoders read the first group of the span, that is the bytes
    up to and including the first one without the 0x80 bit, and leave the
    cursor behind it. The unsigned value is the low 7 bits of each byte of
    the group, byte [i] at bit [7 * i]; the signed value is the same,
    sign-extended from bit [7 * n] for a group of [n] bytes exactly when
    the last byte has its 0x40 bit set and [7 * n < 64]. When the span has
    no such group, so that the cursor would run past its end, both return
    0. *)
Theorem leb128_decoders_follow_the_format (bytes : list Z) :
  decode shl_undef (mk bytes) =
    (sleb128_value shl_undef bytes, mk (after_group bytes))
  /\ decodeUnsigned shl_undef (mk bytes) =
       (uleb128_value shl_undef bytes, mk (after_group bytes))
  /\ (first_group bytes = None ->
      fst (decode shl_undef (mk bytes)) = 0
      /\ fst (decodeUnsigned shl_undef (mk bytes)) = 0).
Proof.
  split; [apply decode_eq|]. split; [apply decodeUnsigned_eq|].
  intros Hnone. rewrite decode_eq, decodeUnsigned_eq.
  unfold sleb128_value, uleb128_value. rewrite Hnone. split; reflexivity.
Qed.

End Sleb128Facts.

(** Known encodings: 624485, -123456, -1, 128 and a truncated input. *)
Example decode_unsigned_624485 shl :
  Sleb128Decoder.decodeUnsigned shl (Sleb128Decoder.mk [0xE5; 0x8E; 0x26; 0x01])
  = (624485, Sleb128Decoder.mk [0x01]).
Proof. reflexivity. Qed.

Example decode_signed_m123456 shl :
  Sleb128Decoder.decode shl (Sleb128Decoder.mk [0xC0; 0xBB; 0x78])
  = (-123456, Sleb128Decoder.mk []).
Proof. reflexivity. Qed.

Example decode_signed_m1 shl :
  fst (Sleb128Decoder.decode shl (Sleb128Decoder.mk [0x7F])) = -1.
Proof. reflexivity. Qed.

Example decode_signed_128 shl :
  fst (Sleb128Decoder.decode shl (Sleb128Decoder.mk [0x80; 0x01])) = 128.
Proof. reflexivity. Qed.

Example decode_truncated shl :
  Sleb128Decoder.decode shl (Sleb128Decoder.mk [0x80; 0x80])
  = (0, Sleb128Decoder.mk []).
Proof. reflexivity. Qed.

(** ** The TLS manager *)

Arguments TlsManager.copy_images : simpl never.
Arguments mem_fill : simpl never.
Arguments mem_copy : simpl never.

Section TlsFacts.
Import TlsManager.

Variable host : Host.

Lemma getBlockForThread_settled m p block p' :
  getBlockForThread host m p = (block, p') ->
  block <> 0 ->
  tls_block p' = block /\ getBlockForThread host m p' = (block, p').
Proof.
  unfold getBlockForThread.
  destruct (tls_block p =? 0) eqn:E.
  - unfold allocateBlock.
    destruct (heap p) as [|b later]; [intros [= <- <-]; lia|].
    destruct (b =? 0) eqn:Eb; intros [= <- <-] Hb; [lia|].
    simpl. rewrite Eb. split; reflexivity.
  - intros [= <- <-] Hb. rewrite E. split; reflexivity.
Qed.

Lemma getBlockForThread_failed m p block p' :
  getBlockForThread host m p = (block, p') -> block = 0 -> tls_block p' = 0.
Proof.
  unfold getBlockForThread.
  destruct (tls_block p =? 0) eqn:E.
  - unfold allocateBlock.
    destruct (heap p) as [|b later]; [intros [= <- <-] _; simpl; lia|].
    destruct (b =? 0) eqn:Eb; intros [= <- <-] Hb; simpl; lia.
  - intros [= <- <-] Hb. lia.
Qed.

(** [getAddress] spelled out over the outcome of [getBlockForThread]. *)
Lemma getAddress_cases m ti p :
  getAddress host m ti p =
  let '(block, p') := getBlockForThread host m p in
  (if block =? 0 then 0
   else match ti with
        | None => block
        | Some ti =>
            if (TlsIndex.module ti =? 0)
               || (MAX_TLS_MODULES <=? TlsIndex.module ti) then 0
            else if TlsModule.module_id (slot m (TlsIndex.module ti)) =? 0
            then 0
            else if static_size_ m <=? offset_in_block m ti then 0
            else wrap64 (block + offset_in_block m ti)
        end, p').
Proof.
  unfold getAddress, offset_in_block.
  destruct (getBlockForThread host m p) as [block p'].
  destruct (block =? 0); [reflexivity|].
  destruct ti as [ti|]; [|reflexivity].
  destruct ((TlsIndex.module ti =? 0) || (MAX_TLS_MODULES <=? TlsIndex.module ti));
    [reflexivity|].
  destruct (TlsModule.module_id (slot m (TlsIndex.module ti)) =? 0);
    [reflexivity|].
  destruct (static_size_ m <=? _); reflexivity.
Qed.

(** C6. With a null index [getAddress] returns the calling thread's block
    base, which is what [getBlockForThread] yields. With an index it
    returns [block + (module.offset + offset_in_module)] when the module id
    is registered (nonzero, below the slot limit, slot assigned) and
    [module.offset + offset_in_module < static_size]; it returns a non-null
    address only then; and it returns null for an unregistered module or an
    offset out of range. The sums are the [size_t] and pointer sums of the
    source. *)
Theorem getAddress_address_service (m : TlsManager.t) (ti : TlsIndex.t) (p : Proc) :
  getAddress host m None p = getBlockForThread host m p
  /\ (registered m (TlsIndex.module ti) ->
      offset_in_block m ti < static_size_ m ->
      fst (getBlockForThread host m p) <> 0 ->
      fst (getAddress host m (Some ti) p) =
        wrap64 (fst (getBlockForThread host m p) + offset_in_block m ti))
  /\ (fst (getAddress host m (Some ti) p) <> 0 ->
      registered m (TlsIndex.module ti)
      /\ offset_in_block m ti < static_size_ m)
  /\ (~ registered m (TlsIndex.module ti)
      \/ static_size_ m <= offset_in_block m ti ->
      fst (getAddress host m (Some ti) p) = 0)
  /\ snd (getAddress host m (Some ti) p) = snd (getBlockForThread host m p).
Proof.
  rewrite !getAddress_cases. unfold registered.
  destruct (getBlockForThread host m p) as [block p'] eqn:Hb. simpl.
  repeat split.
  - destruct (block =? 0) eqn:E; [|reflexivity].
    apply Z.eqb_eq in E. subst. reflexivity.
  - intros (Hnz & Hlt & Hid) Hoff Hblock.
    destruct (block =? 0) eqn:E; [lia|].
    destruct (TlsIndex.module ti =? 0) eqn:E0; [lia|].
    destruct (MAX_TLS_MODULES <=? TlsIndex.module ti) eqn:E1; [lia|]. simpl.
    destruct (TlsModule.module_id (slot m (TlsIndex.module ti)) =? 0) eqn:E2;
      [lia|].
    destruct (static_size_ m <=? offset_in_block m ti) eqn:E3; [lia|].
    reflexivity.
  - destruct (block =? 0); [lia|].
    destruct (TlsIndex.module ti =? 0) eqn:E0; simpl in *; [lia|]. lia.
  - destruct (block =? 0); [lia|].
    destruct (TlsIndex.module ti =? 0) eqn:E0; simpl in *; [lia|].
    destruct (MAX_TLS_MODULES <=? TlsIndex.module ti) eqn:E1; simpl in *; [lia|].
    lia.
  - destruct (block =? 0); [lia|].
    destruct (TlsIndex.module ti =? 0) eqn:E0; simpl in *; [lia|].
    destruct (MAX_TLS_MODULES <=? TlsIndex.module ti) eqn:E1; simpl in *; [lia|].
    destruct (TlsModule.module_id (slot m (TlsIndex.module ti)) =? 0) eqn:E2;
      [lia|]. lia.
  - destruct (block =? 0); [lia|].
    destruct (TlsIndex.module ti =? 0) eqn:E0; simpl in *; [lia|].
    destruct (MAX_TLS_MODULES <=? TlsIndex.module ti) eqn:E1; simpl in *; [lia|].
    destruct (TlsModule.module_id (slot m (TlsIndex.module ti)) =? 0) eqn:E2;
      [lia|].
    destruct (static_size_ m <=? offset_in_block m ti) eqn:E3; [lia|]. lia.
  - destruct (block =? 0); [reflexivity|].
    intros [Hn | Hoff].
    + destruct (TlsIndex.module ti =? 0) eqn:E0; simpl; [reflexivity|].
      destruct (MAX_TLS_MODULES <=? TlsIndex.module ti) eqn:E1; simpl;
        [reflexivity|].
      destruct (TlsModule.module_id (slot m (TlsIndex.module ti)) =? 0) eqn:E2;
        [reflexivity|].
      exfalso. apply Hn. lia.
    + destruct ((TlsIndex.module ti =? 0)
                || (MAX_TLS_MODULES <=? TlsIndex.module ti)); [reflexivity|].
      destruct (TlsModule.module_id (slot m (TlsIndex.module ti)) =? 0);
        [reflexivity|].
      destruct (static_size_ m <=? offset_in_block m ti) eqn:E3; [reflexivity|].
      lia.
Qed.


Lemma wrap64_add_back a b :
  0 <= a < 2 ^ 64 -> wrap64 (wrap64 (a - b) + b) = a.
Proof.
  intros Ha. unfold wrap64.
  rewrite Z.add_mod_idemp_l by lia.
  replace (a - b + b) with a by lia. apply Z.mod_small. exact Ha.
Qed.


End TlsFacts.

(** The sample module occupies bytes 0 to 15 of the block; the new thread's
    block is allocated at 0x50000. *)
Example getAddress_on_sample_module :
  let address ti :=
    fst (TlsManager.getAddress Samples.host Samples.one_module ti
           Samples.new_thread) in
  address None = 0x50000
  /\ address (Some (TlsIndex.mk 1 4)) = 0x50004
  /\ address (Some (TlsIndex.mk 1 16)) = 0
  /\ address (Some (TlsIndex.mk 2 0)) = 0
  /\ address (Some (TlsIndex.mk 0 0)) = 0
  /\ address (Some (TlsIndex.mk 128 0)) = 0.
Proof. cbv zeta. conjuncts; vm_compute; reflexivity. Qed.



Example resolver_after_failed_allocation :
  let '(r, p1) :=
    Linker.dynamic_tls_resolver Samples.host Samples.one_module
      (TlsIndex.mk 1 4) Samples.thread_failing_once in
  let '(block_base, p2) :=
    TlsManager.getAddress Samples.host Samples.one_module None p1 in
  r = 2 ^ 64 - 0x50000 /\ block_base = 0x50000
  /\ wrap64 (r + block_base) = 0
  /\ fst (TlsManager.__tls_get_addr Samples.host Samples.one_module
            (Some (TlsIndex.mk 1 4)) p2) = 0x50004.
Proof. vm_compute. conjuncts; reflexivity. Qed.

Section TlsRegistry.
Import TlsManager Elf.

Lemma scan_slots_found test m n i k :
  scan_slots test m n i = Some k ->
  i <= k < i + Z.of_nat n /\ test (slot m k) = true.
Proof.
  revert i. induction n as [|n IH]; intros i; cbn [scan_slots]; [discriminate|].
  destruct (test (slot m i)) eqn:E.
  - intros [= <-]. split; [lia | exact E].
  - intros H. apply IH in H. destruct H as [H ?]. split; [lia | assumption].
Qed.

Lemma search_found test m k :
  search test m = Some k ->
  1 <= k < MAX_TLS_MODULES /\ test (slot m k) = true.
Proof.
  unfold search. intros H. apply scan_slots_found in H.
  destruct H as [H ?]. split; [|assumption].
  unfold MAX_TLS_MODULES in *. lia.
Qed.

(** Rounding up to the alignment never goes below the size it started
    from, and stays below the size plus the alignment. *)
Lemma align_up_bounds size align :
  0 <= size -> 0 < align -> size + align - 1 < 2 ^ 64 ->
  size <= Z.land (wrap64 (wrap64 (size + align) - 1))
                 (wrap64 (Z.lnot (wrap64 (align - 1))))
       <= size + align - 1.
Proof.
  intros Hs Ha Hfit.
  assert (Hx : wrap64 (wrap64 (size + align) - 1) = size + align - 1).
  { unfold wrap64. rewrite Zminus_mod_idemp_l. apply Z.mod_small. lia. }
  rewrite Hx. rewrite (wrap64_small (align - 1)) by lia.
  set (x := size + align - 1). set (y := align - 1).
  assert (Hmask : Z.land x (wrap64 (Z.lnot y)) = Z.ldiff x y).
  { unfold wrap64. rewrite <- Z.land_ones by lia.
    rewrite Z.land_assoc, (Z.land_comm x), <- Z.land_assoc.
    rewrite (Z.land_ones x) by lia.
    rewrite (Z.mod_small x) by (unfold x; lia).
    rewrite Z.land_comm. symmetry. apply Z.ldiff_land. }
  rewrite Hmask.
  assert (Hsplit : Z.ldiff x y + Z.land x y = x).
  { rewrite <- (Z.add_lor_land (Z.ldiff x y) (Z.land x y)).
    rewrite Z.lor_ldiff_and.
    replace (Z.land (Z.ldiff x y) (Z.land x y)) with 0; [lia|].
    symmetry. rewrite (Z.land_comm x y), Z.land_assoc, Z.land_ldiff.
    apply Z.land_0_l. }
  assert (Hlow : 0 <= Z.land x y <= y).
  { split; [apply Z.land_nonneg; unfold x; lia|].
    pose proof (Z.add_lor_land (Z.ldiff y x) (Z.land y x)) as Hy.
    rewrite Z.lor_ldiff_and in Hy.
    replace (Z.land (Z.ldiff y x) (Z.land y x)) with 0 in Hy.
    - assert (0 <= Z.ldiff y x) by (apply Z.ldiff_nonneg; unfold y; lia).
      rewrite (Z.land_comm x y). lia.
    - symmetry. rewrite (Z.land_comm y x), Z.land_assoc, Z.land_ldiff.
      apply Z.land_0_l. }
  unfold x, y in *. lia.
Qed.

Lemma perform_align_max m c :
  static_align_max_ m <= static_align_max_ (perform m c).
Proof.
  destruct c as [image|image]; simpl.
  - unfold registerSegment.
    destruct (ElfImage.tls_segment_ image) as [seg|]; simpl; [|lia].
    destruct (search _ m); simpl; [|lia].
    destruct (static_align_max_ m <? _) eqn:E; lia.
  - unfold unregisterSegment. destruct (search _ m); simpl; lia.
Qed.

Lemma perform_static_size m c :
  match c with
  | Register image => size_fits m image
  | Unregister _ => true
  end = true ->
  static_size_ m <= static_size_ (perform m c).
Proof.
  destruct c as [image|image]; simpl.
  - unfold size_fits, registerSegment.
    destruct (ElfImage.tls_segment_ image) as [seg|]; simpl; [|lia].
    intros Hfit. destruct (search _ m); simpl; [|lia].
    set (align := if p_align seg =? 0 then 1 else p_align seg) in *.
    assert (0 <= static_size_ m /\ 0 < align /\ 0 <= p_memsz seg
            /\ static_size_ m + align - 1 + p_memsz seg < 2 ^ 64) as (H1 & H2 & H3 & H4).
    { repeat (apply andb_true_iff in Hfit; destruct Hfit as [Hfit ?]). lia. }
    pose proof (align_up_bounds (static_size_ m) align H1 H2 ltac:(lia)) as Hb.
    rewrite wrap64_small; lia.
  - intros _. unfold unregisterSegment. destruct (search _ m); simpl; lia.
Qed.

Lemma run_align_max calls m :
  static_align_max_ m <= static_align_max_ (run calls m).
Proof.
  revert m. induction calls as [|c calls IH]; intros m; simpl; [lia|].
  pose proof (perform_align_max m c). pose proof (IH (perform m c)).
  unfold run in *. lia.
Qed.

Lemma run_static_size calls m :
  sizes_fit calls m = true -> static_size_ m <= static_size_ (run calls m).
Proof.
  revert m. induction calls as [|c calls IH]; intros m; simpl; [lia|].
  intros H. apply andb_true_iff in H. destruct H as [Hc Hrest].
  pose proof (perform_static_size m c Hc). pose proof (IH _ Hrest).
  unfold run in *. lia.
Qed.


Lemma scan_slots_first test m n :
  forall i k,
    i <= k < i + Z.of_nat n ->
    test (slot m k) = true ->
    (forall j, i <= j < k -> test (slot m j) = false) ->
    scan_slots test m n i = Some k.
Proof.
  induction n as [|n IH]; intros i k Hk Ht Hbefore; [lia|].
  cbn [scan_slots]. destruct (Z.eq_dec i k) as [->|Hne].
  - rewrite Ht. reflexivity.
  - rewrite (Hbefore i) by lia. apply IH; [lia|exact Ht|].
    intros j Hj. apply Hbefore. lia.
Qed.

Lemma scan_slots_none test m n :
  forall i,
    (forall j, i <= j < i + Z.of_nat n -> test (slot m j) = false) ->
    scan_slots test m n i = None.
Proof.
  induction n as [|n IH]; intros i Hall; [reflexivity|].
  cbn [scan_slots]. rewrite (Hall i) by lia. apply IH.
  intros j Hj. apply Hall. lia.
Qed.

Lemma scan_slots_before test m n :
  forall i k,
    scan_slots test m n i = Some k ->
    forall j, i <= j < k -> test (slot m j) = false.
Proof.
  induction n as [|n IH]; intros i k; cbn [scan_slots]; [discriminate|].
  destruct (test (slot m i)) eqn:E.
  - intros [= <-] j Hj. lia.
  - intros Hs j Hj. destruct (Z.eq_dec j i) as [->|]; [exact E|].
    apply (IH (i + 1) k Hs). lia.
Qed.

Lemma scan_slots_some test m n :
  forall i0 i,
    i0 <= i < i0 + Z.of_nat n -> test (slot m i) = true ->
    exists k, scan_slots test m n i0 = Some k.
Proof.
  induction n as [|n IH]; intros i0 i Hr Ht; [lia|]. cbn [scan_slots].
  destruct (test (slot m i0)) eqn:E; [eauto|].
  destruct (Z.eq_dec i0 i) as [->|]; [congruence|].
  apply (IH (i0 + 1) i); [lia|exact Ht].
Qed.

Lemma search_first test m k :
  1 <= k < MAX_TLS_MODULES ->
  test (slot m k) = true ->
  (forall j, 1 <= j < k -> test (slot m j) = false) ->
  search test m = Some k.
Proof.
  intros Hk Ht Hb. unfold search. apply scan_slots_first; try assumption.
  all: unfold MAX_TLS_MODULES in *; lia.
Qed.

Lemma search_exists test m i :
  1 <= i < MAX_TLS_MODULES -> test (slot m i) = true ->
  exists k, search test m = Some k /\ 1 <= k <= i
            /\ test (slot m k) = true
            /\ forall j, 1 <= j < k -> test (slot m j) = false.
Proof.
  intros Hi Ht.
  destruct (scan_slots_some test m (Z.to_nat (MAX_TLS_MODULES - 1)) 1 i)
    as [k Hs]; [unfold MAX_TLS_MODULES in *; lia | exact Ht |].
  exists k. pose proof (search_found _ _ _ Hs) as [Hk Hk'].
  pose proof (scan_slots_before _ _ _ _ _ Hs) as Hb.
  split; [exact Hs|]. split; [|split; [exact Hk'|exact Hb]].
  destruct (Z.lt_ge_cases i k); [|lia].
  rewrite (Hb i) in Ht by lia. discriminate.
Qed.

Lemma unregisterSegment_slots m image :
  modules_ (unregisterSegment m image) = modules_ m
  \/ exists (i : nat) (md : TlsModule.t),
       (1 <= i < 128)%nat
       /\ modules_ m !! i = Some md
       /\ TlsModule.owner md = image
       /\ modules_ (unregisterSegment m image)
          = <[i := TlsModule.empty]> (modules_ m).
Proof.
  unfold unregisterSegment.
  destruct (search _ m) as [k|] eqn:Hs; [|left; reflexivity].
  apply search_found in Hs. destruct Hs as [Hk Hown].
  unfold slot in Hown. simpl. unfold set_slot.
  destruct (modules_ m !! Z.to_nat k) as [md|] eqn:Hl.
  - right. exists (Z.to_nat k), md. simpl in Hown.
    unfold MAX_TLS_MODULES in Hk. apply Z.eqb_eq in Hown.
    split; [lia|]. split; [exact Hl|]. split; [exact Hown | reflexivity].
  - left. apply list_insert_ge. apply lookup_ge_None. exact Hl.
Qed.


End TlsRegistry.

(** Unregistering the sample module frees slot 1 and keeps the 16 bytes;
    registering it again takes slot 1 at the fresh offset 16. *)
Example unregister_then_register_again :
  let m1 := TlsManager.unregisterSegment Samples.one_module 0xE000 in
  let m2 := TlsManager.run [TlsManager.Register Samples.tls_image] m1 in
  TlsManager.static_size_ Samples.one_module = 16
  /\ TlsManager.static_size_ m1 = 16
  /\ TlsManager.slot m1 1 = TlsModule.empty
  /\ TlsManager.sizes_fit [TlsManager.Register Samples.tls_image] m1 = true
  /\ TlsManager.static_size_ m2 = 32
  /\ TlsModule.module_id (TlsManager.slot m2 1) = 1
  /\ TlsModule.offset (TlsManager.slot m2 1) = 16.
Proof. cbv zeta. conjuncts; vm_compute; reflexivity. Qed.


Example huge_segment_is_registered :
  let m := TlsManager.run [TlsManager.Register Samples.huge_tls_image]
             Samples.one_module in
  TlsManager.sizes_fit [TlsManager.Register Samples.huge_tls_image]
    Samples.one_module = false
  /\ TlsModule.module_id (TlsManager.slot m 2) = 2
  /\ TlsModule.offset (TlsManager.slot m 2) = 16
  /\ TlsManager.static_size_ Samples.one_module = 16
  /\ TlsManager.static_size_ m = 8.
Proof. cbv zeta. conjuncts; vm_compute; reflexivity. Qed.

(** ** Memory *)

Lemma store_le_below (n : nat) : forall (m : Mem) (a v a' : Z),
  a' < a -> load8 (store_le m a n v) a' = load8 m a'.
Proof.
  induction n as [|n IH]; intros m a v a' Hlt; cbn [store_le]; [reflexivity|].
  rewrite IH by lia. unfold load8.
  rewrite lookup_insert_ne by lia. reflexivity.
Qed.

Lemma load_le_store_le (n : nat) : forall (m : Mem) (a v : Z),
  load_le (store_le m a n v) a n = v mod 256 ^ Z.of_nat n.
Proof.
  induction n as [|n IH]; intros m a v.
  - cbn [load_le store_le]. change (256 ^ Z.of_nat 0) with 1.
    rewrite Z.mod_1_r. reflexivity.
  - cbn [load_le store_le]. rewrite IH, store_le_below by lia.
    unfold load8. rewrite lookup_insert_eq. cbn [default].
    rewrite Nat2Z.inj_succ, Z.pow_succ_r by lia.
    rewrite (Z.rem_mul_r v 256 (256 ^ Z.of_nat n)) by lia. reflexivity.
Qed.

(** A stored word reads back, cut to 64 bits. *)
Lemma load64_store64 (m : Mem) (a v : Z) :
  load64 (store64 m a v) a = wrap64 v.
Proof. unfold load64, store64. rewrite load_le_store_le. reflexivity. Qed.

(** ** RELR *)

Section RelrFacts.
Import Linker.

Lemma land_1_testbit a : (Z.land a 1 =? 0) = negb (Z.testbit a 0).
Proof.
  change 1 with (Z.ones 1). rewrite Z.land_ones by lia.
  change (2 ^ 1) with 2. rewrite <- Z.bit0_mod.
  destruct (Z.testbit a 0); reflexivity.
Qed.

Lemma filter_none {A} (f : A -> bool) (l : list A) :
  (forall x, In x l -> f x = false) -> List.filter f l = [].
Proof.
  induction l as [|x l IH]; intros H; simpl; [reflexivity|].
  rewrite (H x) by (left; reflexivity).
  apply IH. intros y Hy. apply H. right. exact Hy.
Qed.

Lemma filter_agree {A} (f g : A -> bool) (l : list A) :
  (forall x, In x l -> f x = g x) -> List.filter f l = List.filter g l.
Proof.
  induction l as [|x l IH]; intros H; simpl; [reflexivity|].
  rewrite (H x) by (left; reflexivity).
  rewrite IH; [reflexivity|]. intros y Hy. apply H. right. exact Hy.
Qed.

Lemma In_seqZ k m n : In k (seqZ m n) -> m <= k < m + n.
Proof.
  intros H. apply list_elem_of_In in H. apply elem_of_seqZ in H. exact H.
Qed.

(** The bit loop relocates the words whose bit is set in what is left of
    the bitmap, in increasing order. *)
Lemma relr_bits_filter load_bias base_offset n bit bitmap mm :
  0 <= bit ->
  relr_bits load_bias base_offset n bit bitmap mm =
  fold_left (fun mm target => add_word mm target load_bias)
    (map (fun k => wrap64 (load_bias + base_offset + k * sizeof_ElfAddr))
         (List.filter (fun k => Z.testbit bitmap (k - bit))
                      (seqZ bit (Z.of_nat n))))
    mm.
Proof.
  revert bit bitmap mm.
  induction n as [|n IH]; intros bit bitmap mm Hbit; [reflexivity|].
  cbn [relr_bits].
  destruct (bitmap =? 0) eqn:Ez.
  - apply Z.eqb_eq in Ez. subst bitmap.
    rewrite filter_none; [reflexivity|].
    intros k _. apply Z.testbit_0_l.
  - rewrite seqZ_cons by lia. cbn [List.filter].
    rewrite Z.sub_diag, land_1_testbit.
    rewrite IH by lia.
    replace (Z.succ bit) with (bit + 1) by lia.
    replace (Z.pred (Z.of_nat (S n))) with (Z.of_nat n) by lia.
    rewrite (filter_agree
               (fun k => Z.testbit (Z.shiftr bitmap 1) (k - (bit + 1)))
               (fun k => Z.testbit bitmap (k - bit))).
    + destruct (Z.testbit bitmap 0); reflexivity.
    + intros k Hk. apply In_seqZ in Hk.
      rewrite Z.shiftr_spec by lia. f_equal. lia.
Qed.

(** C8. Each RELR entry is interpreted by its low bit. An even entry is an
    address: the word at [load_bias + entry] gets [load_bias] added and the
    running base becomes the word after it. An odd entry is a bitmap: for
    [k] from 0 to 62 in order, the word [k] counted from the running base
    gets [load_bias] added exactly when bit [k + 1] of the entry is set,
    and the base then advances by 63 words whatever the bits. The loop
    applies this to the entries of the table one after the other. *)
Theorem relr_entry_follows_the_format (load_bias relr entry : Z)
    (st : Mem * Z) (n : nat) (i : Z) :
  relr_entry load_bias entry st = relr_entry_spec load_bias entry st
  /\ relr_loop load_bias relr (S n) i st =
       relr_loop load_bias relr n (i + 1)
         (relr_entry_spec load_bias
            (load64 (fst st) (wrap64 (relr + sizeof_ElfAddr * i))) st)
  /\ relr_loop load_bias relr 0 i st = st
  /\ (forall (mm : Mem) (target : Z),
         load64 (add_word mm target load_bias) target
         = wrap64 (load64 mm target + load_bias)).
Proof.
  assert (Hentry : forall e s, relr_entry load_bias e s = relr_entry_spec load_bias e s).
  { intros e [mm base_offset]. unfold relr_entry, relr_entry_spec.
    rewrite land_1_testbit, Z.bit0_odd, <- Z.negb_even, negb_involutive.
    destruct (Z.even e); [reflexivity|].
    f_equal. rewrite relr_bits_filter by lia.
    unfold relr_bitmap_targets. f_equal. f_equal.
    apply filter_agree. intros k Hk. apply In_seqZ in Hk.
    rewrite Z.shiftr_spec by lia. f_equal. lia. }
  split; [apply Hentry|]. split; [|split; [reflexivity|]].
  - cbn [relr_loop]. rewrite Hentry. reflexivity.
  - intros mm target. unfold add_word.
    rewrite load64_store64. apply wrap64_idem.
Qed.

(** Bitmap 0b1011 with the base at 0x100: bits 1 and 3 pick words 0 and 2;
    the address entry 0x200 is relocated itself. *)
Example relr_bitmap_picks_words :
  relr_bitmap_targets 0x10000 0x100 0xB = [0x10100; 0x10110].
Proof. reflexivity. Qed.

Example relr_address_then_bitmap :
  let st := relr_entry 0x10000 0x200 (∅, 0) in
  let st' := relr_entry 0x10000 0x7 st in
  snd st = 0x208 /\ snd st' = 0x208 + 63 * 8
  /\ load64 (fst st') 0x10200 = 0x10000
  /\ load64 (fst st') 0x10208 = 0x10000
  /\ load64 (fst st') 0x10210 = 0x10000
  /\ load64 (fst st') 0x10218 = 0.
Proof. vm_compute. repeat split; reflexivity. Qed.

End RelrFacts.

(** ** Symbol lookup in one image *)

Section LookupFacts.
Import Elf ElfImage.

Variable name : list Z.

(** the test both hash walks make on an entry of [.dynsym] *)
Local Abbreviation defines dynsym strtab i :=
  (name_is name strtab (st_name (rd_sym dynsym i)) = true
   /\ st_shndx (rd_sym dynsym i) <> SHN_UNDEF).

Lemma defined_test (sym : ElfSym) :
  negb (st_shndx sym =? SHN_UNDEF) = true <-> st_shndx sym <> SHN_UNDEF.
Proof.
  rewrite negb_true_iff, Z.eqb_neq. reflexivity.
Qed.

Lemma gnu_walk_sound hash symndx chain dynsym strtab togo :
  forall idx h,
    gnu_walk name hash symndx chain dynsym strtab togo idx = Some h ->
    exists j, h = hit (rd_sym dynsym j) /\ defines dynsym strtab j.
Proof.
  induction togo as [|togo IH]; intros idx h; cbn [gnu_walk]; [discriminate|]. cbv zeta.
  destruct (_ && _ && _) eqn:Htest.
  - intros [= <-].
    apply andb_true_iff in Htest as [Htest Hdef].
    apply andb_true_iff in Htest as [_ Hname].
    exists idx. rewrite <- defined_test. auto.
  - destruct (negb (Z.land _ _ =? _)); [discriminate|]. apply IH.
Qed.

Lemma gnu_walk_complete hash symndx chain dynsym strtab v i :
  Z.shiftr (Z.lxor (rd chain (wrap32 (i - symndx))) hash) 1 = 0 ->
  defines dynsym strtab i ->
  (forall j, defines dynsym strtab j -> st_value (rd_sym dynsym j) = v) ->
  forall togo idx,
    idx <= i < idx + Z.of_nat togo ->
    (forall j, idx <= j < i ->
       Z.land (rd chain (wrap32 (j - symndx))) 1 = 0) ->
    exists h,
      gnu_walk name hash symndx chain dynsym strtab togo idx = Some h
      /\ sym_value h = v.
Proof.
  intros Hword [Hname Hdef] Hv.
  induction togo as [|togo IH]; intros idx Hidx Hopen; [lia|].
  cbn [gnu_walk]. cbv zeta.
  destruct (_ && _ && _) eqn:Htest.
  - eexists; split; [reflexivity|]. cbn [hit sym_value].
    apply andb_true_iff in Htest as [Htest Hdef'].
    apply andb_true_iff in Htest as [_ Hname'].
    apply Hv. rewrite <- defined_test. auto.
  - destruct (Z.eq_dec idx i) as [->|Hne].
    + rewrite Hword, Hname in Htest. cbn in Htest.
      apply defined_test in Hdef. rewrite Hdef in Htest. discriminate Htest.
    + rewrite (Hopen idx) by lia. cbn [Z.eqb negb].
      apply IH; [lia|]. intros j Hj. apply Hopen. lia.
Qed.

Lemma elf_walk_sound chain dynsym strtab fuel :
  forall n h,
    elf_walk name chain dynsym strtab fuel n = Found h ->
    exists j, h = hit (rd_sym dynsym j) /\ defines dynsym strtab j.
Proof.
  induction fuel as [|fuel IH]; intros n h; cbn [elf_walk]; [discriminate|]. cbv zeta.
  destruct (n =? STN_UNDEF); [discriminate|].
  destruct (_ && _) eqn:Htest.
  - intros [= <-]. apply andb_true_iff in Htest as [Hname Hdef].
    exists n. rewrite <- defined_test. auto.
  - apply IH.
Qed.

Lemma elf_walk_complete chain dynsym strtab v i :
  i <> STN_UNDEF ->
  defines dynsym strtab i ->
  (forall j, defines dynsym strtab j -> st_value (rd_sym dynsym j) = v) ->
  forall n k,
    chain_reaches chain n i k ->
    forall fuel, (k < fuel)%nat ->
    exists h,
      elf_walk name chain dynsym strtab fuel n = Found h /\ sym_value h = v.
Proof.
  intros Hi [Hname Hdef] Hv n k Hreach.
  induction Hreach as [n|n i k Hn Hreach IH]; intros fuel Hfuel.
  - destruct fuel as [|fuel]; [lia|]. cbn [elf_walk]. cbv zeta.
    apply Z.eqb_neq in Hi. rewrite Hi, Hname.
    apply defined_test in Hdef. rewrite Hdef. cbn [andb].
    eexists; split; [reflexivity|]. apply Hv. rewrite <- defined_test. auto.
  - destruct fuel as [|fuel]; [lia|]. cbn [elf_walk]. cbv zeta.
    apply Z.eqb_neq in Hn. rewrite Hn.
    destruct (_ && _) eqn:Htest.
    + eexists; split; [reflexivity|]. cbn [hit sym_value].
      apply andb_true_iff in Htest as [Hname' Hdef'].
      apply Hv. rewrite <- defined_test. auto.
    + apply IH; [assumption..|lia].
Qed.

Lemma linear_scan_sound strtab syms count :
  forall i h,
    linear_scan name strtab syms count i = Some h ->
    exists j, i <= j < i + Z.of_nat count
              /\ linear_match name strtab (rd_sym syms j) = true
              /\ h = hit (rd_sym syms j).
Proof.
  induction count as [|count IH]; intros i h; cbn [linear_scan]; [discriminate|]. cbv zeta.
  destruct (linear_match _ _ _) eqn:Hm.
  - intros [= <-]. exists i. split; [lia|]. auto.
  - intros Hscan. destruct (IH _ _ Hscan) as (j & Hj & Hrest).
    exists j. split; [lia|exact Hrest].
Qed.

Lemma linear_scan_complete strtab syms i :
  linear_match name strtab (rd_sym syms i) = true ->
  forall count i0,
    i0 <= i < i0 + Z.of_nat count ->
    exists h, linear_scan name strtab syms count i0 = Some h.
Proof.
  intros Hm. induction count as [|count IH]; intros i0 Hi; [lia|].
  cbn [linear_scan]. cbv zeta.
  destruct (linear_match name strtab (rd_sym syms i0)) eqn:Hm0;
    [eexists; reflexivity|].
  apply IH. destruct (Z.eq_dec i0 i) as [->|]; [congruence|lia].
Qed.

(** *** The three lookups of an image *)

Variable img : t.
Variable v : Z.
Hypothesis Hunique : unique_value img name v.

Lemma gnuHashLookup_sound h :
  gnuHashLookup img name (gnuHash name) = Some h -> sym_value h = v.
Proof.
  unfold gnuHashLookup.
  destruct (gnu_bloom_filter_ img) as [bloom|]; [|discriminate].
  destruct (gnu_bucket_ img) as [bucket|]; [|discriminate].
  destruct (gnu_chain_ img) as [chain|]; [|discriminate].
  destruct (dynsym_start_ img) as [dynsym|] eqn:Hdynsym; [|discriminate].
  destruct (strtab_start_ img) as [strtab|] eqn:Hstrtab; [|discriminate].
  destruct (gnu_nbucket_ img =? 0); [discriminate|].
  cbv zeta.
  destruct (negb _); [discriminate|].
  destruct (_ <? _); [discriminate|].
  destruct (dynsym_shdr_ img) as [sh|]; [|discriminate].
  intros Hwalk. apply gnu_walk_sound in Hwalk as (j & -> & Hname & Hdef).
  exact (proj1 Hunique dynsym strtab j Hdynsym Hstrtab Hname Hdef).
Qed.

Lemma elfHashLookup_sound fuel h :
  elfHashLookup fuel img name (elfHash name) = Found h -> sym_value h = v.
Proof.
  unfold elfHashLookup.
  destruct (bucket_ img) as [bucket|]; [|discriminate].
  destruct (chain_ img) as [chain|]; [|discriminate].
  destruct (dynsym_start_ img) as [dynsym|] eqn:Hdynsym; [|discriminate].
  destruct (strtab_start_ img) as [strtab|] eqn:Hstrtab; [|discriminate].
  destruct (nbucket_ img =? 0); [discriminate|].
  intros Hwalk. apply elf_walk_sound in Hwalk as (j & -> & Hname & Hdef).
  exact (proj1 Hunique dynsym strtab j Hdynsym Hstrtab Hname Hdef).
Qed.

Lemma linearLookup_sound h :
  linearLookup img name = Some h ->
  sym_value h = v /\ linear_finds img name.
Proof.
  unfold linearLookup, linear_finds.
  destruct (symtab_start_ img) as [syms|] eqn:Hsyms; [|discriminate].
  destruct (symtab_strtab_ img) as [strtab|] eqn:Hstrtab; [|discriminate].
  destruct (symtab_count_ img =? 0); [discriminate|].
  intros Hscan. apply linear_scan_sound in Hscan as (j & Hj & Hm & ->).
  split.
  - exact (proj2 Hunique syms strtab j Hsyms Hstrtab Hm).
  - exists syms, strtab, j. repeat split; try assumption; lia.
Qed.

Lemma findSymbolOffset_sound fuel h :
  findSymbolOffset fuel img name = Some (Some h) -> sym_value h = v.
Proof.
  unfold findSymbolOffset.
  destruct (gnuHashLookup _ _ _) as [g|] eqn:Hgnu.
  - intros [= <-]. exact (gnuHashLookup_sound _ Hgnu).
  - destruct (elfHashLookup _ _ _ _) as [e| |] eqn:Helf.
    + intros [= <-]. exact (elfHashLookup_sound _ _ Helf).
    + intros [= Hlin]. exact (proj1 (linearLookup_sound _ Hlin)).
    + discriminate.
Qed.

Lemma gnuHashLookup_complete i :
  gnu_reaches img name i ->
  exists h, gnuHashLookup img name (gnuHash name) = Some h /\ sym_value h = v.
Proof.
  intros (bloom & bucket & chain & dynsym & strtab & sh & Hbloom & Hbucket
          & Hchain & Hdynsym & Hstrtab & Hsh & Hnb & Htable & Hname & Hdef).
  cbv zeta in Htable.
  destruct Htable as (Hmask & Hfirst & Hcount & Hopen & Hword).
  unfold gnuHashLookup.
  rewrite Hbloom, Hbucket, Hchain, Hdynsym, Hstrtab, Hsh.
  apply Z.eqb_neq in Hnb. rewrite Hnb. cbv zeta.
  rewrite Hmask, Z.eqb_refl. cbn [negb].
  replace (_ <? _) with false by (symmetry; apply Z.ltb_ge; lia).
  apply gnu_walk_complete with (i := i); auto.
  - intros j [Hn Hd]. exact (proj1 Hunique dynsym strtab j Hdynsym Hstrtab Hn Hd).
  - lia.
Qed.

Lemma elfHashLookup_complete i k fuel :
  elf_reaches img name i k -> (k < fuel)%nat ->
  exists h, elfHashLookup fuel img name (elfHash name) = Found h
            /\ sym_value h = v.
Proof.
  intros (bucket & chain & dynsym & strtab & Hbucket & Hchain & Hdynsym
          & Hstrtab & Hnb & Hi & Hreach & Hname & Hdef) Hfuel.
  unfold elfHashLookup. rewrite Hbucket, Hchain, Hdynsym, Hstrtab.
  apply Z.eqb_neq in Hnb. rewrite Hnb.
  apply elf_walk_complete with (i := i) (k := k); auto.
  intros j [Hn Hd]. exact (proj1 Hunique dynsym strtab j Hdynsym Hstrtab Hn Hd).
Qed.

Lemma linearLookup_complete :
  linear_finds img name ->
  exists h, linearLookup img name = Some h /\ sym_value h = v.
Proof.
  intros (syms & strtab & i & Hsyms & Hstrtab & Hi & Hm).
  assert (exists h, linearLookup img name = Some h) as [h Hh].
  { unfold linearLookup. rewrite Hsyms, Hstrtab.
    replace (_ =? 0) with false by (symmetry; apply Z.eqb_neq; lia).
    apply linear_scan_complete with (i := i); [exact Hm|lia]. }
  exists h. split; [exact Hh|]. exact (proj1 (linearLookup_sound _ Hh)).
Qed.

Lemma linearLookup_none :
  ~ linear_finds img name -> linearLookup img name = None.
Proof.
  intros Hno. destruct (linearLookup img name) as [h|] eqn:Hh; [|reflexivity].
  destruct Hno. exact (proj2 (linearLookup_sound _ Hh)).
Qed.

End LookupFacts.

(** The sample image [hashed]: its one defined symbol carries [f]. *)
Lemma hashed_unique_value type size :
  ElfImage.unique_value (Samples.hashed type size) Samples.f 0x500.
Proof.
  assert (forall i,
    Elf.st_shndx
      (ElfImage.rd_sym
         [Elf.null_sym;
          Elf.mkSym 1 (Elf.STB_GLOBAL * 16 + type) 0 1 0x500 size] i)
      <> Elf.SHN_UNDEF ->
    Elf.st_value
      (ElfImage.rd_sym
         [Elf.null_sym;
          Elf.mkSym 1 (Elf.STB_GLOBAL * 16 + type) 0 1 0x500 size] i)
    = 0x500) as Hentry.
  { intros i. unfold ElfImage.rd_sym.
    destruct (Z.to_nat i) as [|[|n]]; cbn; intros H; try reflexivity;
      destruct H; reflexivity. }
  split.
  - intros dynsym strtab i [= <-] _ _. apply Hentry.
  - intros syms strtab i [= <-] _ Hm. apply Hentry.
    unfold ElfImage.linear_match in Hm.
    apply andb_true_iff in Hm as [Hm _].
    apply andb_true_iff in Hm as [_ Hdef].
    apply negb_true_iff, Z.eqb_neq in Hdef. exact Hdef.
Qed.

Lemma hashed_gnu_reaches type size :
  ElfImage.gnu_reaches (Samples.hashed type size) Samples.f 1.
Proof.
  unfold ElfImage.gnu_reaches. do 6 eexists.
  do 6 (split; [reflexivity|]).
  split; [discriminate|].
  split; [|split; [reflexivity|discriminate]].
  cbv zeta.
  split; [reflexivity|].
  split; [vm_compute; split; discriminate|].
  split; [reflexivity|].
  split; [|reflexivity].
  intros j Hj.
  assert (1 <= j < 1) as Hj' by exact Hj. lia.
Qed.

Lemma hashed_elf_reaches type size :
  ElfImage.elf_reaches (Samples.hashed type size) Samples.f 1 0.
Proof.
  unfold ElfImage.elf_reaches. do 4 eexists.
  do 4 (split; [reflexivity|]).
  split; [discriminate|].
  split; [discriminate|].
  split; [apply ElfImage.reach_here|].
  split; [reflexivity|discriminate].
Qed.

Lemma hashed_func_linear_finds :
  ElfImage.linear_finds Samples.hashed_func Samples.f.
Proof.
  exists [Elf.null_sym; Elf.mkSym 1 (Elf.STB_GLOBAL * 16 + Elf.STT_FUNC) 0 1 0x500 8],
         Samples.strtab_f, 1.
  split; [reflexivity|]. split; [reflexivity|].
  split; [split; [discriminate|reflexivity]|reflexivity].
Qed.

(** C4 (as amended). Let the defined symbols of an image that carry a name
    all have the offset [v] (as the [st_value] of an exported symbol [s]
    is, for the name of [s], when no other defined symbol of another offset
    shares the name). Then whichever of [gnuHashLookup], [elfHashLookup],
    [linearLookup] and [findSymbolOffset] finds the name returns [v]; the
    GNU-hash lookup finds it when the GNU table leads to a defined entry
    for it, the ELF-hash lookup when the ELF chain does within the steps
    allowed, and the linear scan exactly when [.symtab] holds a defined
    [STT_FUNC] or [STT_OBJECT] entry of nonzero size for it, returning
    nothing otherwise; where all three conditions hold, all three lookups
    return [v]. *)
Theorem lookups_return_the_same_offset_where_they_find
    (fuel : nat) (img : ElfImage.t) (name : list Z) (v : Z) :
  ElfImage.unique_value img name v ->
  (forall h, ElfImage.gnuHashLookup img name (ElfImage.gnuHash name) = Some h ->
             ElfImage.sym_value h = v)
  /\ (forall h, ElfImage.elfHashLookup fuel img name (ElfImage.elfHash name)
                = ElfImage.Found h ->
                ElfImage.sym_value h = v)
  /\ (forall h, ElfImage.linearLookup img name = Some h ->
                ElfImage.sym_value h = v)
  /\ (forall h, ElfImage.findSymbolOffset fuel img name = Some (Some h) ->
                ElfImage.sym_value h = v)
  /\ (forall i, ElfImage.gnu_reaches img name i ->
        exists h, ElfImage.gnuHashLookup img name (ElfImage.gnuHash name) = Some h
                  /\ ElfImage.sym_value h = v)
  /\ (forall i k, ElfImage.elf_reaches img name i k -> (k < fuel)%nat ->
        exists h, ElfImage.elfHashLookup fuel img name (ElfImage.elfHash name)
                  = ElfImage.Found h
                  /\ ElfImage.sym_value h = v)
  /\ (ElfImage.linear_finds img name ->
        exists h, ElfImage.linearLookup img name = Some h
                  /\ ElfImage.sym_value h = v)
  /\ (~ ElfImage.linear_finds img name -> ElfImage.linearLookup img name = None)
  /\ (forall i i' k,
        ElfImage.gnu_reaches img name i ->
        ElfImage.elf_reaches img name i' k -> (k < fuel)%nat ->
        ElfImage.linear_finds img name ->
        ElfImage.lookups_agree fuel img name v).
Proof.
  intros Hunique. conjuncts.
  - exact (gnuHashLookup_sound _ _ _ Hunique).
  - exact (elfHashLookup_sound _ _ _ Hunique fuel).
  - intros h Hh. exact (proj1 (linearLookup_sound _ _ _ Hunique _ Hh)).
  - exact (findSymbolOffset_sound _ _ _ Hunique fuel).
  - exact (gnuHashLookup_complete _ _ _ Hunique).
  - intros i k. exact (elfHashLookup_complete _ _ _ Hunique i k fuel).
  - exact (linearLookup_complete _ _ _ Hunique).
  - exact (linearLookup_none _ _ _ Hunique).
  - intros i i' k Hgnu Helf Hfuel Hlin. unfold ElfImage.lookups_agree. conjuncts.
    + exact (gnuHashLookup_complete _ _ _ Hunique _ Hgnu).
    + exact (elfHashLookup_complete _ _ _ Hunique _ _ _ Helf Hfuel).
    + exact (linearLookup_complete _ _ _ Hunique Hlin).
Qed.

Lemma lookups_agree_on_sample_function :
  ElfImage.unique_value Samples.hashed_func Samples.f 0x500
  /\ ElfImage.lookups_agree 8 Samples.hashed_func Samples.f 0x500.
Proof.
  split; [apply hashed_unique_value|].
  refine (proj2 (proj2 (proj2 (proj2 (proj2 (proj2 (proj2 (proj2
    (lookups_return_the_same_offset_where_they_find
       8 Samples.hashed_func Samples.f 0x500
       (hashed_unique_value Elf.STT_FUNC 8)))))))))
    1 1 0%nat _ _ _ _).
  - apply hashed_gnu_reaches.
  - apply hashed_elf_reaches.
  - lia.
  - apply hashed_func_linear_finds.
Defined.

(** C4 as worded fails on an exported thread-local variable: both hash
    tables are present and both hash lookups return its offset, while the
    linear scan, which accepts only functions and objects, returns
    nothing. *)
Lemma linear_scan_misses_exported_tls_symbol :
  let s := Elf.mkSym 1 (Elf.STB_GLOBAL * 16 + 6) 0 1 0x500 4 in
  ElfImage.exported Samples.hashed_tls s
  /\ ElfImage.both_tables Samples.hashed_tls
  /\ ElfImage.cstr Samples.strtab_f (Elf.st_name s) = Samples.f
  /\ ElfImage.gnuHashLookup Samples.hashed_tls Samples.f
       (ElfImage.gnuHash Samples.f) = Some (ElfImage.mkFound 0x500 6 1)
  /\ ElfImage.elfHashLookup 8 Samples.hashed_tls Samples.f
       (ElfImage.elfHash Samples.f) = ElfImage.Found (ElfImage.mkFound 0x500 6 1)
  /\ ElfImage.linearLookup Samples.hashed_tls Samples.f = None
  /\ ~ ElfImage.lookups_agree 8 Samples.hashed_tls Samples.f (Elf.st_value s).
Proof.
  cbv zeta. conjuncts.
  - eexists. split; [reflexivity|]. split; [|discriminate].
    apply elem_of_cons. right. apply elem_of_cons. left. reflexivity.
  - unfold ElfImage.both_tables. conjuncts; eexists; reflexivity.
  - reflexivity.
  - reflexivity.
  - reflexivity.
  - reflexivity.
  - intros (_ & _ & h & Hlin & _). discriminate Hlin.
Qed.

(** ** Symbol resolution *)

Section FindSymbolFacts.
Import Linker Elf.

Variable host : Host.
Variable fuel : nat.

Local Abbreviation lookup := (Linker.lookup host fuel).
Local Abbreviation findSymbol := (Linker.findSymbol host fuel).
Local Abbreviation scan_images := (Linker.scan_images host fuel).
Local Abbreviation try_image := (Linker.try_image host fuel).

Lemma scan_deps_images deps name result weak_result :
  scan_deps host fuel deps name result weak_result
  = scan_images (omap LoadedDep.image deps) name result weak_result.
Proof.
  revert result weak_result.
  induction deps as [|dep deps IH]; intros result weak_result; [reflexivity|].
  cbn [scan_deps omap list_omap].
  destruct (LoadedDep.image dep) as [img|]; [|apply IH].
  cbn [Linker.scan_images]. fold (omap LoadedDep.image deps).
  destruct (try_image img name result weak_result) as [[r|r w]|];
    [reflexivity | apply IH | reflexivity].
Qed.

(** [findSymbol] is one scan over [images] followed by the tail. *)
Lemma findSymbol_scan lk name :
  findSymbol lk name =
  match scan_images (images lk) name SymbolLookup.empty SymbolLookup.empty with
  | None => None
  | Some (Returned r) => Some r
  | Some (Going result weak_result) =>
      Some (settle host name result weak_result)
  end.
Proof.
  unfold Linker.findSymbol, images.
  destruct (main_image_ lk) as [img|].
  - cbn [app Linker.scan_images].
    destruct (try_image img name _ _) as [[r|r w]|]; try reflexivity.
    rewrite scan_deps_images. reflexivity.
  - cbn [app]. rewrite scan_deps_images. reflexivity.
Qed.

Lemma try_image_global img name result weak_result a :
  lookup img name = Some (Some (a, STB_GLOBAL)) ->
  try_image img name result weak_result
  = Some (Returned (SymbolLookup.mk a (ElfImage.this_ img) STB_GLOBAL 0)).
Proof.
  unfold Linker.lookup, Linker.try_image. intros ->. reflexivity.
Qed.

Lemma try_image_miss img name result weak_result :
  lookup img name = Some None ->
  try_image img name result weak_result = Some (Going result weak_result).
Proof.
  unfold Linker.lookup, Linker.try_image. intros ->. reflexivity.
Qed.

Lemma try_image_not_global img name result weak_result :
  not_global (lookup img name) ->
  exists result' weak_result',
    try_image img name result weak_result = Some (Going result' weak_result').
Proof.
  unfold Linker.lookup, Linker.try_image, not_global.
  destruct (ElfImage.findSymbolAddress _ fuel img name) as [[[a b]|]|];
    [|eauto|intros []].
  intros Hb. destruct (b =? STB_GLOBAL) eqn:E; [apply Z.eqb_eq in E; congruence|].
  destruct ((b =? STB_WEAK) && negb (SymbolLookup.valid weak_result)); eauto.
Qed.

(** A scan passes over images without a global hit. *)
Lemma scan_images_skip pre rest name result weak_result :
  Forall (fun x => not_global (lookup x name)) pre ->
  exists result' weak_result',
    scan_images (pre ++ rest) name result weak_result
    = scan_images rest name result' weak_result'.
Proof.
  intros H. revert result weak_result.
  induction H as [|x pre Hx _ IH]; intros result weak_result; [eauto|].
  cbn [app Linker.scan_images].
  destruct (try_image_not_global x name result weak_result Hx) as (r & w & ->).
  apply IH.
Qed.

Lemma scan_images_misses pre rest name result weak_result :
  Forall (fun x => lookup x name = Some None) pre ->
  scan_images (pre ++ rest) name result weak_result
  = scan_images rest name result weak_result.
Proof.
  intros H. induction H as [|x pre Hx _ IH]; [reflexivity|].
  cbn [app Linker.scan_images]. rewrite try_image_miss by exact Hx. exact IH.
Qed.

(** A scan that has not returned met no global hit. *)
Lemma scan_images_going imgs name result weak_result result' weak_result' :
  scan_images imgs name result weak_result = Some (Going result' weak_result') ->
  Forall (fun x => not_global (lookup x name)) imgs.
Proof.
  revert result weak_result.
  induction imgs as [|x imgs IH]; intros result weak_result; [constructor|].
  cbn [Linker.scan_images]. unfold Linker.try_image.
  fold (lookup x name). unfold not_global at 1.
  destruct (lookup x name) as [[[a b]|]|] eqn:Hl; [| |discriminate].
  - destruct (b =? STB_GLOBAL) eqn:E; [discriminate|].
    apply Z.eqb_neq in E.
    destruct ((b =? STB_WEAK) && negb (SymbolLookup.valid weak_result));
      intros H; (constructor; [rewrite Hl; exact E | eapply IH; exact H]).
  - intros H. constructor; [rewrite Hl; exact I | eapply IH; exact H].
Qed.

Lemma scan_images_returned imgs name result weak_result r :
  scan_images imgs name result weak_result = Some (Returned r) ->
  SymbolLookup.bind r = STB_GLOBAL.
Proof.
  revert result weak_result.
  induction imgs as [|x imgs IH]; intros result weak_result; [discriminate|].
  cbn [Linker.scan_images]. unfold Linker.try_image.
  destruct (ElfImage.findSymbolAddress _ fuel x name) as [[[a b]|]|];
    [| apply IH | discriminate].
  destruct (b =? STB_GLOBAL) eqn:E.
  - intros [= <-]. simpl. apply Z.eqb_eq. exact E.
  - destruct ((b =? STB_WEAK) && negb (SymbolLookup.valid weak_result));
      apply IH.
Qed.

(** Once a valid weak hit is remembered, further weak hits and misses
    leave it in place, and [result] stays weak. *)
Lemma scan_images_weak_kept imgs name result weak_result :
  Forall (fun x => weak_or_none (lookup x name)) imgs ->
  SymbolLookup.valid weak_result = true ->
  SymbolLookup.bind result = STB_WEAK ->
  exists result',
    scan_images imgs name result weak_result = Some (Going result' weak_result)
    /\ SymbolLookup.bind result' = STB_WEAK.
Proof.
  intros H Hvalid. revert result.
  induction H as [|x imgs Hx _ IH]; intros result Hres; [eauto|].
  cbn [Linker.scan_images]. unfold Linker.try_image.
  unfold weak_or_none, Linker.lookup in Hx.
  destruct (ElfImage.findSymbolAddress _ fuel x name) as [[[a b]|]|];
    [| apply IH; exact Hres | destruct Hx].
  subst b. change (STB_WEAK =? STB_GLOBAL) with false.
  rewrite Hvalid. cbn [negb andb]. apply IH. reflexivity.
Qed.



End FindSymbolFacts.

(** The global definition of the dependency wins over the weak one of the
    main image, and over a weak one loaded after it; of two weak
    definitions the main image's is taken; a name nobody defines goes to
    [dlsym]. *)
Example global_wins_in_either_order :
  Linker.findSymbol Samples.host 64 Samples.weak_then_global Samples.f
  = Some (SymbolLookup.mk 0x20200 0xB000 Elf.STB_GLOBAL 0)
  /\ Linker.findSymbol Samples.host 64
       (Linker.mk (Some Samples.global_dep)
          [Samples.manual Samples.weak_dep 8192] 4096 false ∅ [])
       Samples.f
     = Some (SymbolLookup.mk 0x20200 0xB000 Elf.STB_GLOBAL 0).
Proof. split; vm_compute; reflexivity. Qed.

Example first_weak_wins :
  Linker.findSymbol Samples.host 64 Samples.two_weak Samples.f
  = Some (SymbolLookup.mk 0x10100 0xA000 Elf.STB_WEAK 0).
Proof. vm_compute. reflexivity. Qed.

Example dlsym_decides_last :
  Linker.findSymbol Samples.host 64 Samples.two_weak Samples.missing
  = Some SymbolLookup.empty
  /\ Linker.findSymbol
       (mkHost (fun _ => 0x7000) (fun resolver => resolver) 4096 0 0 0)
       64 Samples.two_weak Samples.missing
     = Some (SymbolLookup.mk 0x7000 0 Elf.STB_GLOBAL 0).
Proof. split; vm_compute; reflexivity. Qed.

(** ** Teardown *)

Section TeardownFacts.
Import Linker.

Lemma destroy_parts (w : World) :
  linker (destroy w)
  = release (mk (main_image_ (linker w)) (deps_ (linker w))
                (main_map_size_ (linker w)) (is_linked_ (linker w))
                (symbol_cache_ (linker w)) [])
  /\ tls (destroy w) = tls (unregister_tls w)
  /\ proc (destroy w) = proc w
  /\ indices (destroy w)
     = fold_left (fun h ti => delete ti h) (tls_indices_ (linker w)) (indices w)
  /\ trace (destroy w)
     = trace w
       ++ (destroy_main_calls w
           ++ concat (map (destroy_dep_calls w) (rev (deps_ (linker w))))
           ++ map Delete (tls_indices_ (linker w))
           ++ concat (map munmap_dep (deps_ (linker w)))
           ++ munmap_main w).
Proof.
  repeat split; try reflexivity.
  unfold destroy. cbn [trace emit with_linker unregister_tls with_tls free_indices].
  rewrite <- !app_assoc. reflexivity.
Qed.

Lemma abandon_parts (w : World) :
  linker (abandon w)
  = release (mk (main_image_ (linker w)) (deps_ (linker w))
                (main_map_size_ (linker w)) (is_linked_ (linker w))
                (symbol_cache_ (linker w)) [])
  /\ tls (abandon w) = tls (unregister_tls w)
  /\ proc (abandon w) = proc w
  /\ indices (abandon w)
     = fold_left (fun h ti => delete ti h) (tls_indices_ (linker w)) (indices w)
  /\ trace (abandon w)
     = trace w
       ++ (concat (map abandon_dep_calls (deps_ (linker w)))
           ++ abandon_main_calls w
           ++ map Delete (tls_indices_ (linker w))).
Proof.
  repeat split; try reflexivity.
  unfold abandon. cbn [trace emit with_linker unregister_tls with_tls free_indices].
  rewrite <- !app_assoc. reflexivity.
Qed.

Lemma since_app (w w' : World) (evs : list Event) :
  trace w' = trace w ++ evs -> since w w' = evs.
Proof. intros H. unfold since. rewrite H. apply drop_app_length. Qed.

Lemma bookkeeping_calls (fns : list Z) :
  List.filter bookkeeping (map Call fns) = [].
Proof. induction fns as [|f fns IH]; [reflexivity | exact IH]. Qed.

Lemma bookkeeping_deletes (tis : list Z) :
  List.filter bookkeeping (map Delete tis) = map Delete tis.
Proof.
  induction tis as [|ti tis IH]; [reflexivity|]. simpl. rewrite IH. reflexivity.
Qed.

Lemma bookkeeping_destructors image w :
  List.filter bookkeeping (destructor_calls image w) = [].
Proof.
  unfold destructor_calls. rewrite List.filter_app.
  destruct (ElfImage.fini_array_ image =? 0), (ElfImage.fini_func_ image =? 0);
    rewrite ?bookkeeping_calls; reflexivity.
Qed.

Lemma bookkeeping_destroy_dep w dep :
  List.filter bookkeeping (destroy_dep_calls w dep) = abandon_dep_calls dep.
Proof.
  unfold destroy_dep_calls, abandon_dep_calls.
  destruct (LoadedDep.image dep) as [img|]; [|reflexivity].
  destruct (LoadedDep.is_manual_load dep); [|reflexivity].
  rewrite List.filter_app, bookkeeping_destructors, app_nil_r. reflexivity.
Qed.

Lemma bookkeeping_destroy_deps w deps :
  List.filter bookkeeping (concat (map (destroy_dep_calls w) deps))
  = concat (map abandon_dep_calls deps).
Proof.
  induction deps as [|dep deps IH]; [reflexivity|].
  cbn [map concat]. rewrite List.filter_app, IH, bookkeeping_destroy_dep.
  reflexivity.
Qed.

Lemma bookkeeping_destroy_main w :
  List.filter bookkeeping (destroy_main_calls w) = abandon_main_calls w.
Proof.
  unfold destroy_main_calls, abandon_main_calls.
  destruct (main_image_ (linker w)) as [img|]; [|reflexivity].
  destruct (is_linked_ (linker w)); [|reflexivity].
  rewrite List.filter_app, bookkeeping_destructors, app_nil_r. reflexivity.
Qed.

Lemma bookkeeping_munmaps deps :
  List.filter bookkeeping (concat (map munmap_dep deps)) = [].
Proof.
  induction deps as [|dep deps IH]; [reflexivity|].
  cbn [map concat]. rewrite List.filter_app, IH, app_nil_r.
  unfold munmap_dep.
  destruct (LoadedDep.is_manual_load dep && (0 <? LoadedDep.map_size dep));
    reflexivity.
Qed.

Lemma bookkeeping_munmap_main w :
  List.filter bookkeeping (munmap_main w) = [].
Proof.
  unfold munmap_main.
  destruct (main_image_ (linker w)); [|reflexivity].
  destruct (0 <? main_map_size_ (linker w)); reflexivity.
Qed.

Lemma concat_map_rev {A B} (f : A -> list B) (l : list A) :
  Permutation (concat (map f (rev l))) (concat (map f l)).
Proof.
  induction l as [|a l IH]; [reflexivity|].
  cbn [rev map concat]. rewrite map_app, concat_app. cbn [map concat].
  rewrite app_nil_r, IH. apply Permutation_app_comm.
Qed.

Lemma abandon_calls_bookkeeping w :
  Forall (fun e => bookkeeping e = true) (since w (abandon w)).
Proof.
  destruct (abandon_parts w) as (_ & _ & _ & _ & Ht).
  rewrite (since_app _ _ _ Ht).
  apply Forall_app. split; [|apply Forall_app; split].
  - apply Forall_concat, Forall_map, Forall_forall. intros dep _.
    unfold abandon_dep_calls.
    destruct (LoadedDep.image dep); [|constructor].
    destruct (LoadedDep.is_manual_load dep); repeat constructor.
  - unfold abandon_main_calls.
    destruct (main_image_ (linker w)); [|constructor].
    destruct (is_linked_ (linker w)); repeat constructor.
  - apply Forall_map, Forall_forall. intros ti _. reflexivity.
Qed.


Lemma teardown_cache (w : World) :
  symbol_cache_ (linker (destroy w)) = symbol_cache_ (linker w)
  /\ symbol_cache_ (linker (abandon w)) = symbol_cache_ (linker w).
Proof.
  destruct (destroy_parts w) as (Hd & _).
  destruct (abandon_parts w) as (Ha & _).
  rewrite Hd, Ha. split; reflexivity.
Qed.

(** C3, as the code has it. Neither [destroy] nor [abandon] touches the
    symbol cache: the entries, cached misses included, are the same after
    teardown as before, and [init] keeps them for the next library. Only
    [clearSymbolCache] empties the cache, and teardown does not call it. *)
Theorem teardown_keeps_the_symbol_cache (w : World) :
  symbol_cache_ (linker (destroy w)) = symbol_cache_ (linker w)
  /\ symbol_cache_ (linker (abandon w)) = symbol_cache_ (linker w)
  /\ (forall (lk : Linker.t) (image : option ElfImage.t),
         symbol_cache_ (snd (init lk image)) = symbol_cache_ lk)
  /\ (forall lk : Linker.t, symbol_cache_ (clearSymbolCache lk) = ∅).
Proof.
  destruct (destroy_parts w) as (Hd & _).
  destruct (abandon_parts w) as (Ha & _).
  rewrite Hd, Ha. repeat split.
Qed.

(** After [destroy], and after [abandon], the sample linker still holds
    its cached hit and its cached miss. *)
Lemma symbol_cache_survives_teardown :
  symbol_cache_ (linker (destroy Samples.loaded)) <> ∅
  /\ symbol_cache_ (linker (abandon Samples.loaded)) <> ∅
  /\ symbol_cache_ (linker (destroy Samples.loaded)) !! bytes_of "missing"
     = Some (SymbolCacheEntry.mk 0 0 false).
Proof.
  assert (H : symbol_cache_ (linker Samples.loaded) !! bytes_of "missing"
              = Some (SymbolCacheEntry.mk 0 0 false)) by (vm_compute; reflexivity).
  destruct (teardown_cache Samples.loaded) as (Hd & Ha).
  rewrite Hd, Ha. repeat split; try exact H.
  all: intros Hempty; rewrite Hempty, lookup_empty in H; discriminate.
Qed.

Lemma munmap_not_in_calls (fns : list Z) :
  List.filter is_munmap (map Call fns) = [].
Proof. induction fns as [|f fns IH]; [reflexivity | exact IH]. Qed.

Lemma munmap_not_in_deletes (tis : list Z) :
  List.filter is_munmap (map Delete tis) = [].
Proof. induction tis as [|ti tis IH]; [reflexivity | exact IH]. Qed.

Lemma munmap_not_in_image_calls image w :
  List.filter is_munmap (unregister_backtrace image ++ destructor_calls image w)
  = [].
Proof.
  unfold destructor_calls. rewrite !List.filter_app.
  destruct (ElfImage.fini_array_ image =? 0), (ElfImage.fini_func_ image =? 0);
    rewrite ?munmap_not_in_calls; reflexivity.
Qed.

Lemma munmap_not_in_destroy_deps w deps :
  List.filter is_munmap (concat (map (destroy_dep_calls w) deps)) = [].
Proof.
  induction deps as [|dep deps IH]; [reflexivity|].
  cbn [map concat]. rewrite List.filter_app, IH, app_nil_r.
  unfold destroy_dep_calls.
  destruct (LoadedDep.image dep) as [img|]; [|reflexivity].
  destruct (LoadedDep.is_manual_load dep); [|reflexivity].
  apply munmap_not_in_image_calls.
Qed.

Lemma munmap_not_in_destroy_main w :
  List.filter is_munmap (destroy_main_calls w) = [].
Proof.
  unfold destroy_main_calls.
  destruct (main_image_ (linker w)) as [img|]; [|reflexivity].
  destruct (is_linked_ (linker w)); [|reflexivity].
  apply munmap_not_in_image_calls.
Qed.

Lemma munmap_deps_kept deps :
  List.filter is_munmap (concat (map munmap_dep deps))
  = concat (map munmap_dep deps).
Proof.
  induction deps as [|dep deps IH]; [reflexivity|].
  cbn [map concat]. rewrite List.filter_app, IH. f_equal.
  unfold munmap_dep.
  destruct (LoadedDep.is_manual_load dep && (0 <? LoadedDep.map_size dep));
    reflexivity.
Qed.

Lemma munmap_main_kept w :
  List.filter is_munmap (munmap_main w) = munmap_main w.
Proof.
  unfold munmap_main.
  destruct (main_image_ (linker w)); [|reflexivity].
  destruct (0 <? main_map_size_ (linker w)); reflexivity.
Qed.

(** C2, as the code has it. [abandon] and [destroy] leave the same linker,
    TLS registry, process and heap: the same TLS segments are unregistered
    and the same [TlsIndex] records freed. The calls [abandon] makes are
    the backtrace unregistrations and [delete]s of [destroy], the
    unregistrations in another order, and nothing else: it calls no
    destructor and, unlike [destroy], it unmaps nothing. [destroy] unmaps
    every manually loaded dependency of nonzero size and the main image. *)
Theorem abandon_skips_destructors_and_munmap (w : World) :
  linker (abandon w) = linker (destroy w)
  /\ tls (abandon w) = tls (destroy w)
  /\ proc (abandon w) = proc (destroy w)
  /\ indices (abandon w) = indices (destroy w)
  /\ Forall (fun e => is_call e = false /\ is_munmap e = false)
            (since w (abandon w))
  /\ Permutation (since w (abandon w))
                 (List.filter bookkeeping (since w (destroy w)))
  /\ List.filter is_munmap (since w (destroy w))
     = concat (map munmap_dep (deps_ (linker w))) ++ munmap_main w.
Proof.
  destruct (destroy_parts w) as (Hdl & Hdt & Hdp & Hdi & Hdtr).
  destruct (abandon_parts w) as (Hal & Hat & Hap & Hai & Hatr).
  split; [congruence|]. split; [congruence|]. split; [congruence|].
  split; [congruence|]. split.
  { eapply Forall_impl; [apply abandon_calls_bookkeeping|].
    intros e He. unfold bookkeeping in He.
    destruct (is_call e), (is_munmap e); try discriminate. split; reflexivity. }
  rewrite (since_app _ _ _ Hdtr), (since_app _ _ _ Hatr).
  split.
  - rewrite !List.filter_app.
    rewrite bookkeeping_destroy_main, bookkeeping_destroy_deps,
      bookkeeping_deletes, bookkeeping_munmaps, bookkeeping_munmap_main.
    rewrite !app_nil_r, concat_map_rev.
    rewrite !app_assoc. apply Permutation_app_tail, Permutation_app_comm.
  - rewrite !List.filter_app.
    rewrite munmap_not_in_destroy_main, munmap_not_in_destroy_deps,
      munmap_not_in_deletes, munmap_deps_kept, munmap_main_kept.
    reflexivity.
Qed.

(** On the sample linker [destroy] unmaps the dependency and the main
    image and [abandon] unmaps neither, so [abandon] is not [destroy]
    without the destructors. *)
Lemma abandon_leaves_the_mappings :
  ~ abandon_is_destroy_without_destructors Samples.loaded.
Proof.
  intros (_ & _ & _ & _ & Hperm).
  apply Permutation_length in Hperm.
  vm_compute in Hperm. discriminate.
Qed.

Example destroy_sample_calls :
  since Samples.loaded (destroy Samples.loaded)
  = [UnregisterEhFrame 0xA000; UnregisterLibrary 0xA000; Call 0x10900;
     UnregisterEhFrame 0xB000; UnregisterLibrary 0xB000; Call 0x20900;
     Delete 0x9000; Munmap 0x20000 8192; Munmap 0x10000 4096].
Proof. reflexivity. Qed.

Example abandon_sample_calls :
  since Samples.loaded (abandon Samples.loaded)
  = [UnregisterEhFrame 0xB000; UnregisterLibrary 0xB000;
     UnregisterEhFrame 0xA000; UnregisterLibrary 0xA000;
     Delete 0x9000].
Proof. reflexivity. Qed.

End TeardownFacts.

(** ** Relocation of unresolved symbols *)

Section RelocationFacts.
Import Linker.

Variable host : Host.
Variable fuel : nat.
Variable shl_undef : Z -> Z -> Z.
Variable load_env : Linker.t -> Mem -> bool * list LoadedDep.t * Mem.

Local Abbreviation findSymbol := (Linker.findSymbol host fuel).
Local Abbreviation findSymbolCached := (Linker.findSymbolCached host fuel).
Local Abbreviation processRelocation := (Linker.processRelocation host fuel).
Local Abbreviation unresolved := (Linker.unresolved host fuel).
Local Abbreviation symbol_name := (Linker.symbol_name fuel).

(** A symbolic type is none of the four types handled before the symbol
    lookup. *)
Lemma is_symbolic_dispatch type :
  is_symbolic type = true ->
  (type =? R_AARCH64_NONE) = false
  /\ (type =? R_AARCH64_COPY) = false
  /\ (type =? R_AARCH64_RELATIVE) = false
  /\ (type =? R_AARCH64_IRELATIVE) = false.
Proof.
  unfold is_symbolic. rewrite !orb_true_iff, !Z.eqb_eq.
  intros [[[[[[-> | ->] | ->] | ->] | ->] | ->] | ->]; repeat split; reflexivity.
Qed.

(** What the cached lookup does with a name that is unresolved and has no
    cached hit: an invalid result, and at most a cached miss added. *)
Lemma findSymbolCached_unresolved lk name :
  unresolved lk name ->
  no_cached_hit lk name ->
  exists r lk',
    findSymbolCached lk name = Some (r, lk')
    /\ SymbolLookup.valid r = false
    /\ main_image_ lk' = main_image_ lk
    /\ deps_ lk' = deps_ lk
    /\ main_map_size_ lk' = main_map_size_ lk
    /\ is_linked_ lk' = is_linked_ lk
    /\ tls_indices_ lk' = tls_indices_ lk
    /\ (forall other, other <> name ->
          symbol_cache_ lk' !! other = symbol_cache_ lk !! other)
    /\ no_cached_hit lk' name.
Proof.
  intros (r & Hfind & Hinvalid) Hcache.
  unfold Linker.findSymbolCached, no_cached_hit in *.
  destruct (symbol_cache_ lk !! name) as [e|] eqn:He.
  - rewrite Hcache. exists SymbolLookup.empty, lk.
    repeat split; try reflexivity. rewrite He. exact Hcache.
  - rewrite Hfind. eexists r, _. split; [reflexivity|].
    repeat split; try assumption; simpl.
    + intros other Hne. apply lookup_insert_ne. congruence.
    + rewrite lookup_insert_eq. simpl. exact Hinvalid.
Qed.

Lemma processRelocation_unresolved
    (w : World) (sym_idx type offset addend load_bias dynsym dynstr : Z)
    (is_rela : bool) (name : list Z) :
  is_symbolic type = true ->
  symbol_name w dynsym dynstr sym_idx = Some name ->
  unresolved (linker w) name ->
  no_cached_hit (linker w) name ->
  exists lk',
    processRelocation sym_idx type offset addend load_bias dynsym dynstr
      is_rela w = Some (with_linker w lk')
    /\ main_image_ lk' = main_image_ (linker w)
    /\ deps_ lk' = deps_ (linker w)
    /\ tls_indices_ lk' = tls_indices_ (linker w)
    /\ (forall other, other <> name ->
          symbol_cache_ lk' !! other = symbol_cache_ (linker w) !! other)
    /\ no_cached_hit lk' name.
Proof.
  intros Hsym Hname Hun Hcache.
  destruct (is_symbolic_dispatch type Hsym) as (E1 & E2 & E3 & E4).
  destruct (findSymbolCached_unresolved _ _ Hun Hcache)
    as (r & lk' & Hlook & Hinvalid & Hm & Hd & _ & _ & Hi & Hother & Hmiss).
  exists lk'. unfold Linker.processRelocation.
  rewrite E1, E2, E3, E4, Hsym, Hname, Hlook, Hinvalid.
  cbn [negb]. repeat split; assumption.
Qed.


Lemma fold_constructors_frame imgs (w : World) :
  proc (fold_left (fun w img => callConstructors img w) imgs w) = proc w
  /\ linker (fold_left (fun w img => callConstructors img w) imgs w) = linker w.
Proof.
  revert w. induction imgs as [|img imgs IH]; intros w; [split; reflexivity|].
  cbn [fold_left]. destruct (IH (callConstructors img w)) as [-> ->].
  split; reflexivity.
Qed.

Lemma run_constructors_frame (w : World) :
  proc (run_constructors w) = proc w
  /\ linker (run_constructors w) = linker w.
Proof.
  unfold run_constructors.
  destruct (fold_constructors_frame (manual_images (deps_ (linker w))) w)
    as [Hp Hl].
  rewrite Hl. destruct (main_image_ (linker w)); cbn [callConstructors emit proc linker];
    rewrite ?Hp, ?Hl; split; reflexivity.
Qed.

Lemma register_backtrace_frame (w : World) :
  proc (register_backtrace w) = proc w
  /\ linker (register_backtrace w) = linker w.
Proof.
  unfold register_backtrace.
  destruct (main_image_ (linker w)); split; reflexivity.
Qed.

(** [link] returns [true] as soon as the dependencies loaded and the
    relocation phase came back, whatever the relocations did; memory is
    then as the relocation phase left it. *)
Lemma link_reports_loaded (w0 wl w1 w2 : World) :
  loadDependencies load_env w0 = (true, wl) ->
  register_tls wl = Some w1 ->
  relocate_all host fuel shl_undef w1 = Some w2 ->
  exists w3,
    link host fuel shl_undef load_env w0 = Some (true, w3)
    /\ is_linked_ (linker w3) = true
    /\ proc w3 = proc w2.
Proof.
  intros Hload Hreg Hrel. unfold link.
  rewrite Hload. cbn [negb]. rewrite Hreg, Hrel.
  eexists. split; [reflexivity|]. split; [reflexivity|].
  cbn [with_linker proc].
  destruct (run_constructors_frame (register_backtrace w2)) as [-> _].
  apply register_backtrace_frame.
Qed.

(** C5, as the code has it. Take a symbolic relocation whose symbol no
    loaded image and no [dlsym] resolves, and for whose name the symbol
    cache holds no hit. Then [processRelocation] returns having changed
    nothing but the symbol cache, where the miss is now recorded: memory is
    the same, so the word at [load_bias + r_offset] is unchanged. The loop
    over a RELA or REL table that meets such an entry goes on with the next
    entry. And [link] returns [true] once the dependencies loaded and the
    relocation phase came back, whatever was skipped in it. *)
Theorem unresolved_symbol_is_skipped
    (w : World) (sym_idx type offset addend load_bias dynsym dynstr : Z)
    (is_rela : bool) (name : list Z) :
  is_symbolic type = true ->
  symbol_name w dynsym dynstr sym_idx = Some name ->
  unresolved (linker w) name ->
  no_cached_hit (linker w) name ->
  exists lk',
    processRelocation sym_idx type offset addend load_bias dynsym dynstr
      is_rela w = Some (with_linker w lk')
    /\ proc (with_linker w lk') = proc w
    /\ read (with_linker w lk') (wrap64 (load_bias + offset))
       = read w (wrap64 (load_bias + offset))
    /\ main_image_ lk' = main_image_ (linker w)
    /\ deps_ lk' = deps_ (linker w)
    /\ tls_indices_ lk' = tls_indices_ (linker w)
    /\ (forall (table : Z) (n : nat) (i : Z),
           read w (wrap64 (table + sizeof_ElfRela * i)) = offset ->
           ELF_R_SYM (read w (wrap64 (table + sizeof_ElfRela * i) + 8)) = sym_idx ->
           ELF_R_TYPE (read w (wrap64 (table + sizeof_ElfRela * i) + 8)) = type ->
           read w (wrap64 (table + sizeof_ElfRela * i) + 16) = addend ->
           is_rela = true ->
           rela_loop host fuel load_bias dynsym dynstr table (S n) i w
           = rela_loop host fuel load_bias dynsym dynstr table n (i + 1)
               (with_linker w lk'))
    /\ (forall (table : Z) (n : nat) (i : Z),
           read w (wrap64 (table + sizeof_ElfRel * i)) = offset ->
           ELF_R_SYM (read w (wrap64 (table + sizeof_ElfRel * i) + 8)) = sym_idx ->
           ELF_R_TYPE (read w (wrap64 (table + sizeof_ElfRel * i) + 8)) = type ->
           addend = 0 ->
           is_rela = false ->
           rel_loop host fuel load_bias dynsym dynstr table (S n) i w
           = rel_loop host fuel load_bias dynsym dynstr table n (i + 1)
               (with_linker w lk'))
    /\ (forall w0 wl w1 w2 : World,
           loadDependencies load_env w0 = (true, wl) ->
           register_tls wl = Some w1 ->
           relocate_all host fuel shl_undef w1 = Some w2 ->
           exists w3,
             link host fuel shl_undef load_env w0 = Some (true, w3)
             /\ is_linked_ (linker w3) = true).
Proof.
  intros Hsym Hname Hun Hcache.
  destruct (processRelocation_unresolved w sym_idx type offset addend
              load_bias dynsym dynstr is_rela name Hsym Hname Hun Hcache)
    as (lk' & Hskip & Hm & Hd & Hi & _ & _).
  exists lk'. split; [exact Hskip|].
  split; [reflexivity|]. split; [reflexivity|].
  split; [exact Hm|]. split; [exact Hd|]. split; [exact Hi|].
  split; [|split].
  - intros table n i Ho Hs Ht Ha Hr. cbn [rela_loop].
    rewrite Ho, Hs, Ht, Ha. subst is_rela. rewrite Hskip. reflexivity.
  - intros table n i Ho Hs Ht Ha Hr. cbn [rel_loop].
    rewrite Ho, Hs, Ht. subst is_rela addend. rewrite Hskip. reflexivity.
  - intros w0 wl w1 w2 Hload Hreg Hrel.
    destruct (link_reports_loaded w0 wl w1 w2 Hload Hreg Hrel) as (w3 & H1 & H2 & _).
    exists w3. split; assumption.
Qed.


(** [findSymbol] only looks at the images. *)
Lemma findSymbol_images (lk lk' : Linker.t) (name : list Z) :
  main_image_ lk' = main_image_ lk -> deps_ lk' = deps_ lk ->
  findSymbol lk' name = findSymbol lk name.
Proof. intros Hm Hd. unfold Linker.findSymbol. rewrite Hm, Hd. reflexivity. Qed.

(** A cache filled by lookups against the images loaded now holds no hit
    for an unresolved name; the cache of a fresh linker is such a cache,
    and the cached lookup keeps it one. *)
Lemma cache_agrees_no_hit (lk : Linker.t) (name : list Z) :
  cache_agrees host fuel lk -> unresolved lk name -> no_cached_hit lk name.
Proof.
  intros Hagree (r & Hfind & Hinvalid). unfold no_cached_hit.
  destruct (symbol_cache_ lk !! name) as [e|] eqn:He; [|exact I].
  destruct (Hagree name e He) as (r' & Hfind' & ->).
  simpl. congruence.
Qed.

Lemma cache_agrees_fresh : cache_agrees host fuel Linker.fresh.
Proof. intros name e H. simpl in H. rewrite lookup_empty in H. discriminate. Qed.

Lemma cache_agrees_findSymbolCached (lk lk' : Linker.t) (name : list Z)
    (r : SymbolLookup.t) :
  cache_agrees host fuel lk ->
  findSymbolCached lk name = Some (r, lk') ->
  cache_agrees host fuel lk'.
Proof.
  intros Hagree. unfold Linker.findSymbolCached.
  destruct (symbol_cache_ lk !! name) as [e|] eqn:He.
  - destruct (SymbolCacheEntry.found e); intros [= <- <-]; exact Hagree.
  - destruct (findSymbol lk name) as [res|] eqn:Hfind; [|discriminate].
    intros [= <- <-] other e' Hother. simpl in Hother.
    destruct (decide (name = other)) as [<-|Hne].
    + rewrite lookup_insert_eq in Hother. injection Hother as <-.
      exists res. split; [|reflexivity].
      rewrite (findSymbol_images lk) by reflexivity. exact Hfind.
    + rewrite lookup_insert_ne in Hother by exact Hne.
      destruct (Hagree other e' Hother) as (r' & Hf & He').
      exists r'. split; [|exact He'].
      rewrite (findSymbol_images lk) by reflexivity. exact Hf.
Qed.

End RelocationFacts.

(** The sample library links: [f] binds to the global definition in the
    dependency although the main image has a weak one, the slot of
    [missing] keeps its word, and [link] returns [true]. *)
Example link_sample_library :
  Linker.link Samples.host Samples.fuel Samples.shl_undef Samples.load_env
    Samples.before_link = Some (true, Samples.after_link)
  /\ Linker.read Samples.before_link 0x15000 = 0x1111
  /\ Linker.read Samples.after_link 0x15000 = 0x20200
  /\ Linker.read Samples.before_link 0x15008 = 0x2222
  /\ Linker.read Samples.after_link 0x15008 = 0x2222
  /\ Linker.symbol_cache_ (Linker.linker Samples.after_link) !! Samples.missing
     = Some (SymbolCacheEntry.mk 0 0 false).
Proof.
  split; [|conjuncts; vm_compute; reflexivity].
  assert (H : fst <$> Linker.link Samples.host Samples.fuel Samples.shl_undef
                        Samples.load_env Samples.before_link = Some true)
    by (vm_compute; reflexivity).
  unfold Samples.after_link.
  destruct (Linker.link _ _ _ _ _) as [[ok w]|]; [|discriminate H].
  simpl in H. injection H as ->. reflexivity.
Qed.

(** After unloading and loading [plugin] with the same loader, the cache
    still has the hit for [f] from the library that is gone, though no
    image and no [dlsym] defines [f] now. The relocation of [plugin] for
    [f] is therefore not skipped: the stale address lands in its slot. *)
Lemma stale_cache_hit_binds_unresolved_symbol :
  ~ Linker.unresolved_leaves_target Samples.host Samples.fuel
      1 Linker.R_AARCH64_JUMP_SLOT 0x5000 0 0x60000 0x62000 0x63000 true
      Samples.reloaded
      (Linker.processRelocation Samples.host Samples.fuel
         1 Linker.R_AARCH64_JUMP_SLOT 0x5000 0 0x60000 0x62000 0x63000 true
         Samples.reloaded).
Proof.
  intros H.
  destruct (H eq_refl Samples.f) as (w' & Hafter & Hread).
  - vm_compute. reflexivity.
  - exists SymbolLookup.empty. split; vm_compute; reflexivity.
  - assert (Hslot : match Linker.processRelocation Samples.host Samples.fuel
                            1 Linker.R_AARCH64_JUMP_SLOT 0x5000 0 0x60000
                            0x62000 0x63000 true Samples.reloaded with
                    | Some w => Linker.read w 0x65000
                    | None => 0
                    end = 0x20200) by (vm_compute; reflexivity).
    assert (Hold : Linker.read Samples.reloaded 0x65000 = 0x3333)
      by (vm_compute; reflexivity).
    rewrite Hafter in Hslot.
    change (wrap64 (0x60000 + 0x5000)) with 0x65000 in Hread.
    rewrite Hslot, Hold in Hread. discriminate Hread.
Qed.

Example reloaded_slot_gets_stale_address :
  Linker.findSymbol Samples.host Samples.fuel
    (Linker.linker Samples.reloaded) Samples.f = Some SymbolLookup.empty
  /\ Linker.read Samples.reloaded 0x65000 = 0x3333
  /\ match Linker.link Samples.host Samples.fuel Samples.shl_undef
             Samples.load_env Samples.reloaded with
     | Some (ok, w) => ok = true /\ Linker.read w 0x65000 = 0x20200
     | None => False
     end.
Proof.
  split; [vm_compute; reflexivity|]. split; [vm_compute; reflexivity|].
  assert (H : match Linker.link Samples.host Samples.fuel Samples.shl_undef
                      Samples.load_env Samples.reloaded with
              | Some (ok, w) => Some (ok, Linker.read w 0x65000)
              | None => None
              end = Some (true, 0x20200)) by (vm_compute; reflexivity).
  destruct (Linker.link _ _ _ _ _) as [[ok w]|]; [|discriminate H].
  injection H as -> ->. split; reflexivity.
Qed.

(** The theorem at the relocation of the sample library for [missing]. *)
Lemma unresolved_symbol_is_skipped_in_sample :
  exists lk',
    Linker.processRelocation Samples.host Samples.fuel
      2 Linker.R_AARCH64_JUMP_SLOT 0x5008 0 0x10000 0x12000 0x13000 true
      Samples.before_link
    = Some (Linker.with_linker Samples.before_link lk')
    /\ Linker.read (Linker.with_linker Samples.before_link lk') 0x15008
       = Linker.read Samples.before_link 0x15008.
Proof.
  destruct (unresolved_symbol_is_skipped Samples.host Samples.fuel
              Samples.shl_undef Samples.load_env Samples.before_link
              2 Linker.R_AARCH64_JUMP_SLOT 0x5008 0 0x10000 0x12000 0x13000
              true Samples.missing)
    as (lk' & Hskip & _ & Hread & _).
  - reflexivity.
  - vm_compute. reflexivity.
  - exists SymbolLookup.empty. split; vm_compute; reflexivity.
  - vm_compute. exact I.
  - exists lk'. split; [exact Hskip | exact Hread].
Defined.

(** * Further properties *)

(** ** Bits *)

Lemma testbit_above a k n : 0 <= a < 2 ^ k -> k <= n -> Z.testbit a n = false.
Proof.
  intros Ha Hn. destruct (Z.eq_dec a 0) as [->|Hne]; [apply Z.bits_0|].
  apply Z.bits_above_log2; [lia|].
  assert (Z.log2 a < k); [|lia].
  apply Z.log2_lt_pow2; lia.
Qed.

Lemma land_low_high a c k :
  0 <= k -> 0 <= a < 2 ^ k -> Z.land a (c * 2 ^ k) = 0.
Proof.
  intros Hk Ha. apply Z.bits_inj'. intros n Hn.
  rewrite Z.land_spec, Z.bits_0, <- Z.shiftl_mul_pow2 by lia.
  destruct (Z.lt_ge_cases n k).
  - rewrite Z.shiftl_spec_low by lia. apply andb_false_r.
  - rewrite (testbit_above a k n) by lia. reflexivity.
Qed.

Lemma lor_low_high a c k :
  0 <= k -> 0 <= a < 2 ^ k -> Z.lor a (c * 2 ^ k) = a + c * 2 ^ k.
Proof.
  intros Hk Ha.
  rewrite <- Z.lxor_lor by (apply land_low_high; lia).
  symmetry. apply Z.add_nocarry_lxor. apply land_low_high; lia.
Qed.

Lemma group_number_range g :
  0 <= Sleb128Decoder.group_number g < 2 ^ (7 * Z.of_nat (length g)).
Proof.
  induction g as [|b g IH]; [simpl; lia|].
  cbn [Sleb128Decoder.group_number length]. rewrite Nat2Z.inj_succ.
  replace (7 * Z.succ (Z.of_nat (length g))) with (7 + 7 * Z.of_nat (length g)) by lia.
  rewrite Z.pow_add_r by lia. change (2 ^ 7) with 128.
  pose proof (Z.mod_pos_bound b 128 ltac:(lia)). nia.
Qed.

(** ** The numbers the LEB128 reader returns *)

Section Sleb128Numbers.
Import Sleb128Decoder.
Variable shl_undef : Z -> Z -> Z.

Lemma combine7_number shl g :
  forall shift,
    0 <= shift ->
    shift + 7 * Z.of_nat (length g) <= 63 ->
    (forall x s, 0 <= x < 128 -> 0 <= s -> s + 7 <= 63 -> shl x s = x * 2 ^ s) ->
    combine7 shl shift g = group_number g * 2 ^ shift.
Proof.
  induction g as [|b g IH]; intros shift Hs Hlen Hshl; [reflexivity|].
  cbn [combine7 group_number length] in *. rewrite Nat2Z.inj_succ in Hlen.
  change 127 with (Z.ones 7). rewrite Z.land_ones by lia. change (2 ^ 7) with 128.
  pose proof (Z.mod_pos_bound b 128 ltac:(lia)) as Hb.
  rewrite Hshl by lia. rewrite IH by (try exact Hshl; lia).
  assert (H2 : 0 < 2 ^ shift) by (apply Z.pow_pos_nonneg; lia).
  assert (H7 : 2 ^ (shift + 7) = 2 ^ shift * 128)
    by (rewrite Z.pow_add_r by lia; reflexivity).
  rewrite lor_low_high by (rewrite ?H7; nia). rewrite H7. ring.
Qed.

Lemma shl_u64_small x s :
  0 <= x < 128 -> 0 <= s -> s + 7 <= 63 -> shl_u64 shl_undef x s = x * 2 ^ s.
Proof.
  intros Hx Hs Hle. unfold shl_u64.
  destruct (s <? 64) eqn:E; [|lia].
  rewrite Z.shiftl_mul_pow2 by lia. apply wrap64_small.
  assert (2 ^ s * 2 ^ 7 <= 2 ^ 63).
  { rewrite <- Z.pow_add_r by lia. apply Z.pow_le_mono_r; lia. }
  assert (0 < 2 ^ s) by (apply Z.pow_pos_nonneg; lia).
  change (2 ^ 7) with 128 in *. change (2 ^ 64) with (2 * 2 ^ 63). nia.
Qed.

Lemma shl_i64_small x s :
  0 <= x < 128 -> 0 <= s -> s + 7 <= 63 -> shl_i64 shl_undef x s = x * 2 ^ s.
Proof.
  intros Hx Hs Hle. unfold shl_i64.
  destruct (s <? 64) eqn:E; [|lia].
  rewrite Z.shiftl_mul_pow2 by lia. apply sint64_small.
  assert (2 ^ s * 2 ^ 7 <= 2 ^ 63).
  { rewrite <- Z.pow_add_r by lia. apply Z.pow_le_mono_r; lia. }
  assert (0 < 2 ^ s) by (apply Z.pow_pos_nonneg; lia).
  change (2 ^ 7) with 128 in *. nia.
Qed.

Lemma lor_sign_extend v k :
  0 <= k -> 0 <= v < 2 ^ k -> Z.lor v (- 2 ^ k) = v - 2 ^ k.
Proof.
  intros Hk Hv.
  replace (- 2 ^ k) with ((-1) * 2 ^ k) by lia.
  rewrite lor_low_high by lia. lia.
Qed.

(** X1. For a group of at most nine bytes [decodeUnsigned] returns the sum
    of the bytes' low 7 bits weighted by [128 ^ i], and [decode] returns
    that sum, less [2 ^ (7 * n)] when the last byte has its 0x40 bit set:
    the two's complement number of [7 * n] bits that the group encodes. *)
Theorem decoders_return_the_encoded_number (bytes g rest : list Z) :
  first_group bytes = Some (g, rest) ->
  (length g <= 9)%nat ->
  decodeUnsigned shl_undef (mk bytes) = (group_number g, mk rest)
  /\ decode shl_undef (mk bytes)
     = (if Z.land (List.last g 0) 0x40 =? 0 then group_number g
        else group_number g - 2 ^ (7 * Z.of_nat (length g)),
        mk rest)
  /\ 0 <= group_number g < 2 ^ (7 * Z.of_nat (length g)).
Proof.
  intros Hg Hlen.
  rewrite decode_eq, decodeUnsigned_eq.
  unfold sleb128_value, uleb128_value, after_group. rewrite Hg.
  rewrite !combine7_number
    by (try apply shl_u64_small; try apply shl_i64_small; lia).
  rewrite Z.pow_0_r, Z.mul_1_r.
  split; [reflexivity|]. split; [|apply group_number_range].
  unfold total_shift, sign_bit_set.
  replace (7 * Z.of_nat (length g) <? 64) with true by (symmetry; apply Z.ltb_lt; lia).
  cbn [andb].
  destruct (Z.land (List.last g 0) 64 =? 0); cbn [negb]; [reflexivity|].
  rewrite lor_sign_extend by (try apply group_number_range; lia). reflexivity.
Qed.

(** X2. Both decoders leave the cursor at the same place; what they
    consumed is a prefix of the span, and a non-empty one when the span is
    not empty. When every byte of the span has its 0x80 bit set the read
    runs to the end: the decoder has nothing more, and every later read
    returns 0 as well. *)
Theorem decoders_consume_a_prefix (bytes : list Z) :
  snd (decode shl_undef (mk bytes)) = snd (decodeUnsigned shl_undef (mk bytes))
  /\ (exists consumed,
        bytes = consumed ++ span (snd (decode shl_undef (mk bytes)))
        /\ (bytes <> [] -> consumed <> []))
  /\ (Forall (fun b => Z.land b 0x80 <> 0) bytes ->
      let d := snd (decode shl_undef (mk bytes)) in
      hasMore d = false
      /\ decode shl_undef d = (0, mk [])
      /\ decodeUnsigned shl_undef d = (0, mk [])).
Proof.
  rewrite decode_eq, decodeUnsigned_eq. cbn [snd span].
  split; [reflexivity|]. unfold after_group. split.
  - destruct (first_group bytes) as [[g rest]|] eqn:Hg.
    + exists g. split; [apply first_group_app; exact Hg|].
      intros _. exact (first_group_nonempty _ _ _ Hg).
    + exists bytes. split; [symmetry; apply app_nil_r|]. auto.
  - intros Hall.
    assert (first_group bytes = None) as ->; [|repeat split].
    induction Hall as [|b bytes Hb _ IH]; [reflexivity|].
    cbn [first_group]. apply Z.eqb_neq in Hb. rewrite Hb, IH. reflexivity.
Qed.
End Sleb128Numbers.

Lemma decoders_return_m123456 :
  Sleb128Decoder.first_group [0xC0; 0xBB; 0x78] = Some ([0xC0; 0xBB; 0x78], [])
  /\ (length [0xC0; 0xBB; 0x78] <= 9)%nat
  /\ Sleb128Decoder.decodeUnsigned (fun _ _ => 0)
       (Sleb128Decoder.mk [0xC0; 0xBB; 0x78])
     = (Sleb128Decoder.group_number [0xC0; 0xBB; 0x78], Sleb128Decoder.mk [])
  /\ Sleb128Decoder.decode (fun _ _ => 0) (Sleb128Decoder.mk [0xC0; 0xBB; 0x78])
     = (-123456, Sleb128Decoder.mk []).
Proof.
  split; [reflexivity|]. split; [simpl; lia|].
  destruct (decoders_return_the_encoded_number (fun _ _ => 0)
              [0xC0; 0xBB; 0x78] [0xC0; 0xBB; 0x78] [] eq_refl
              ltac:(simpl; lia)) as (Hu & Hs & _).
  split; [exact Hu | exact Hs].
Defined.

(** ** The hash functions *)

Lemma below_pow2_by_bits a k :
  0 <= k -> 0 <= a -> (forall n, k <= n -> Z.testbit a n = false) -> a < 2 ^ k.
Proof.
  intros Hk Ha Hbits.
  assert (Z.land a (Z.ones k) = a) as Hland.
  { apply Z.bits_inj'. intros n Hn. rewrite Z.land_spec.
    destruct (Z.lt_ge_cases n k).
    - rewrite Z.ones_spec_low by lia. apply andb_true_r.
    - rewrite Hbits by lia. reflexivity. }
  rewrite Z.land_ones in Hland by lia.
  pose proof (Z.mod_pos_bound a (2 ^ k) ltac:(apply Z.pow_pos_nonneg; lia)). lia.
Qed.

Lemma wrap32_range x : 0 <= wrap32 x < 2 ^ 32.
Proof. unfold wrap32. apply Z.mod_pos_bound. lia. Qed.

Lemma wrap32_testbit x n :
  0 <= n -> Z.testbit (wrap32 x) n = (n <? 32) && Z.testbit x n.
Proof.
  intros Hn. unfold wrap32. rewrite <- Z.land_ones by lia.
  rewrite Z.land_spec, andb_comm. f_equal.
  destruct (n <? 32) eqn:E.
  - apply Z.ones_spec_low. lia.
  - apply Z.ones_spec_high. lia.
Qed.

Lemma elfHash_step_range h c : 0 <= ElfImage.elfHash_step h c < 2 ^ 28.
Proof.
  unfold ElfImage.elfHash_step.
  set (h1 := wrap32 (wrap32 (Z.shiftl h 4) + c mod 256)).
  set (g := Z.land h1 0xf0000000).
  set (h2 := if g =? 0 then h1 else Z.lxor h1 (Z.shiftr g 24)).
  pose proof (wrap32_range (wrap32 (Z.shiftl h 4) + c mod 256)) as Hh1.
  fold h1 in Hh1.
  assert (Hg : 0 <= g) by (apply Z.land_nonneg; lia).
  assert (Hh2 : 0 <= h2).
  { unfold h2. destruct (g =? 0); [lia|].
    apply Z.lxor_nonneg. split; intros _; [|lia]. apply Z.shiftr_nonneg. lia. }
  assert (Hres : 0 <= Z.land h2 (wrap32 (Z.lnot g))) by (apply Z.land_nonneg; lia).
  split; [exact Hres|].
  apply below_pow2_by_bits; [lia | exact Hres |].
  intros n Hn. rewrite Z.land_spec, wrap32_testbit by lia.
  destruct (n <? 32) eqn:E; [|apply andb_false_r].
  apply Z.ltb_lt in E. cbn [andb].
  rewrite Z.lnot_spec by lia.
  assert (Hgn : Z.testbit g n = Z.testbit h1 n).
  { unfold g. rewrite Z.land_spec.
    replace (Z.testbit 4026531840 n) with true; [apply andb_true_r|].
    assert (n = 28 \/ n = 29 \/ n = 30 \/ n = 31) as [->|[->|[->| ->]]] by lia;
      reflexivity. }
  assert (Hh2n : Z.testbit h2 n = Z.testbit h1 n).
  { unfold h2. destruct (g =? 0); [reflexivity|].
    rewrite Z.lxor_spec, Z.shiftr_spec by lia.
    replace (Z.testbit g (n + 24)) with false; [apply xorb_false_r|].
    symmetry. unfold g. rewrite Z.land_spec.
    replace (Z.testbit 4026531840 (n + 24)) with false; [apply andb_false_r|].
    symmetry. apply (Z.bits_above_log2 4026531840 (n + 24)); [lia|].
    change (Z.log2 4026531840) with 31. lia. }
  rewrite Hgn, Hh2n. apply andb_negb_r.
Qed.

(** X3. [elfHash] never sets the top four bits of its 32-bit result, so it
    stays below [2 ^ 28]; [gnuHash] stays within 32 bits; and both read each
    character as an unsigned byte. *)
Theorem hashes_stay_in_range (name : list Z) :
  0 <= ElfImage.elfHash name < 2 ^ 28
  /\ 0 <= ElfImage.gnuHash name < 2 ^ 32
  /\ ElfImage.elfHash (map (fun c => c mod 256) name) = ElfImage.elfHash name
  /\ ElfImage.gnuHash (map (fun c => c mod 256) name) = ElfImage.gnuHash name.
Proof.
  unfold ElfImage.elfHash, ElfImage.gnuHash.
  split; [|split; [|split]].
  - assert (forall h0, 0 <= h0 < 2 ^ 28 ->
              0 <= fold_left ElfImage.elfHash_step name h0 < 2 ^ 28) as H; [|apply H; lia].
    induction name as [|c name IH]; intros h0 Hh0; [exact Hh0|].
    cbn [fold_left]. apply IH, elfHash_step_range.
  - assert (forall h0, 0 <= h0 < 2 ^ 32 ->
              0 <= fold_left ElfImage.gnuHash_step name h0 < 2 ^ 32) as H; [|apply H; lia].
    induction name as [|c name IH]; intros h0 Hh0; [exact Hh0|].
    cbn [fold_left]. apply IH. unfold ElfImage.gnuHash_step. apply wrap32_range.
  - generalize 0. induction name as [|c name IH]; intros h0; [reflexivity|].
    cbn [map fold_left]. rewrite IH. f_equal.
    unfold ElfImage.elfHash_step. rewrite Z.mod_mod by lia. reflexivity.
  - generalize 5381. induction name as [|c name IH]; intros h0; [reflexivity|].
    cbn [map fold_left]. rewrite IH. f_equal.
    unfold ElfImage.gnuHash_step. rewrite Z.mod_mod by lia. reflexivity.
Qed.

(** ** Lookups in one image *)

Section ImageLookups.
Import Elf ElfImage.

(** X4. A hit of [findSymbolOffset] is an entry of [.dynsym] (found through
    one of the hash tables) or one of the first [symtab_count_] entries of
    [.symtab] (found by the linear scan) that is defined and whose name in
    the table's string table is the name asked for; the offset, type and
    binding returned are that entry's. *)
Theorem findSymbolOffset_returns_a_defined_symbol
    (fuel : nat) (img : ElfImage.t) (name : list Z) (h : found) :
  findSymbolOffset fuel img name = Some (Some h) ->
  exists syms strtab i,
    ((dynsym_start_ img = Some syms /\ strtab_start_ img = Some strtab)
     \/ (symtab_start_ img = Some syms /\ symtab_strtab_ img = Some strtab
         /\ 0 <= i < symtab_count_ img))
    /\ h = hit (rd_sym syms i)
    /\ cstr strtab (st_name (rd_sym syms i)) = name
    /\ st_shndx (rd_sym syms i) <> SHN_UNDEF.
Proof.
  unfold findSymbolOffset.
  destruct (gnuHashLookup img name (gnuHash name)) as [g|] eqn:Hgnu.
  - intros [= <-]. unfold gnuHashLookup in Hgnu.
    destruct (gnu_bloom_filter_ img) as [bloom|]; [|discriminate Hgnu].
    destruct (gnu_bucket_ img) as [bucket|]; [|discriminate Hgnu].
    destruct (gnu_chain_ img) as [chain|]; [|discriminate Hgnu].
    destruct (dynsym_start_ img) as [dynsym|]; [|discriminate Hgnu].
    destruct (strtab_start_ img) as [strtab|]; [|discriminate Hgnu].
    destruct (gnu_nbucket_ img =? 0); [discriminate Hgnu|].
    cbv zeta in Hgnu.
    destruct (negb (Z.land _ _ =? _)); [discriminate Hgnu|].
    destruct (_ <? _); [discriminate Hgnu|].
    destruct (dynsym_shdr_ img) as [sh|]; [|discriminate Hgnu].
    apply gnu_walk_sound in Hgnu as (j & -> & Hname & Hdef).
    exists dynsym, strtab, j. split; [left; auto|].
    split; [reflexivity|]. split; [|exact Hdef].
    unfold name_is in Hname. apply bool_decide_eq_true in Hname. auto.
  - destruct (elfHashLookup fuel img name (elfHash name)) as [e| |] eqn:Helf;
      [| |discriminate].
    + intros [= <-]. unfold elfHashLookup in Helf.
      destruct (bucket_ img) as [bucket|]; [|discriminate Helf].
      destruct (chain_ img) as [chain|]; [|discriminate Helf].
      destruct (dynsym_start_ img) as [dynsym|]; [|discriminate Helf].
      destruct (strtab_start_ img) as [strtab|]; [|discriminate Helf].
      destruct (nbucket_ img =? 0); [discriminate Helf|].
      apply elf_walk_sound in Helf as (j & -> & Hname & Hdef).
      exists dynsym, strtab, j. split; [left; auto|].
      split; [reflexivity|]. split; [|exact Hdef].
      unfold name_is in Hname. apply bool_decide_eq_true in Hname. auto.
    + intros [= Hlin]. unfold linearLookup in Hlin.
      destruct (symtab_start_ img) as [syms|]; [|discriminate Hlin].
      destruct (symtab_strtab_ img) as [strtab|]; [|discriminate Hlin].
      destruct (symtab_count_ img =? 0); [discriminate Hlin|].
      apply linear_scan_sound in Hlin as (j & Hj & Hm & ->).
      exists syms, strtab, j. split; [right; repeat split; auto; lia|].
      split; [reflexivity|].
      unfold linear_match in Hm.
      apply andb_true_iff in Hm as [Hm Hname].
      apply andb_true_iff in Hm as [_ Hdef].
      unfold name_is in Hname. apply bool_decide_eq_true in Hname.
      apply negb_true_iff, Z.eqb_neq in Hdef. auto.
Qed.

Lemma covers_test img addr sym :
  covers img addr sym <->
  (if (st_value sym =? 0) || (st_size sym =? 0) then false
   else (wrap64 (base_ img + st_value sym - bias_ img) <=? addr)
        && (addr <? wrap64 (wrap64 (base_ img + st_value sym - bias_ img)
                            + st_size sym))) = true.
Proof.
  unfold covers.
  destruct (st_value sym =? 0) eqn:Ev; [apply Z.eqb_eq in Ev; cbn; split; [lia|discriminate]|].
  destruct (st_size sym =? 0) eqn:Es; [apply Z.eqb_eq in Es; cbn; split; [lia|discriminate]|].
  apply Z.eqb_neq in Ev, Es. cbn [orb].
  rewrite andb_true_iff, Z.leb_le, Z.ltb_lt. tauto.
Qed.

Lemma symbol_scan_first img syms strtab addr count :
  forall i0,
    (symbol_scan img syms strtab addr count i0 = SymbolInfo.empty
     /\ forall i, i0 <= i < i0 + Z.of_nat count ->
                  ~ covers img addr (rd_sym syms i))
    \/ exists i,
         i0 <= i < i0 + Z.of_nat count
         /\ covers img addr (rd_sym syms i)
         /\ (forall j, i0 <= j < i -> ~ covers img addr (rd_sym syms j))
         /\ symbol_scan img syms strtab addr count i0
            = SymbolInfo.mk (cstr strtab (st_name (rd_sym syms i)))
                (wrap64 (base_ img + st_value (rd_sym syms i) - bias_ img)) 0 0.
Proof.
  induction count as [|count IH]; intros i0.
  - left. split; [reflexivity|]. intros i Hi. lia.
  - cbn [symbol_scan]. cbv zeta.
    pose proof (covers_test img addr (rd_sym syms i0)) as Hc.
    destruct ((st_value (rd_sym syms i0) =? 0) || (st_size (rd_sym syms i0) =? 0)).
    + destruct (IH (i0 + 1)) as [[He Hno]|(i & Hi & Hcov & Hfirst & He)].
      * left. split; [exact He|]. intros i Hi.
        destruct (Z.eq_dec i i0) as [->|]; [rewrite Hc; discriminate|apply Hno; lia].
      * right. exists i. split; [lia|]. split; [exact Hcov|]. split; [|exact He].
        intros j Hj.
        destruct (Z.eq_dec j i0) as [->|]; [rewrite Hc; discriminate|apply Hfirst; lia].
    + destruct (_ && _).
      * right. exists i0. split; [lia|]. split; [apply Hc; reflexivity|].
        split; [intros j Hj; lia | reflexivity].
      * destruct (IH (i0 + 1)) as [[He Hno]|(i & Hi & Hcov & Hfirst & He)].
        -- left. split; [exact He|]. intros i Hi.
           destruct (Z.eq_dec i i0) as [->|]; [rewrite Hc; discriminate|apply Hno; lia].
        -- right. exists i. split; [lia|]. split; [exact Hcov|]. split; [|exact He].
           intros j Hj.
           destruct (Z.eq_dec j i0) as [->|]; [rewrite Hc; discriminate|apply Hfirst; lia].
Qed.

(** X5. Without [.symtab] or its string table [getSymbolAt] returns the
    empty [SymbolInfo]. Otherwise it returns the first of the
    [symtab_count_] entries that has an address and a size and whose mapped
    range [start, start + st_size) holds [addr], with that entry's name and
    [start] as the address, which is then at most [addr], and with type and
    binding left 0; it returns the empty [SymbolInfo] when no entry holds
    [addr]. *)
Theorem getSymbolAt_returns_the_first_covering_symbol
    (img : ElfImage.t) (addr : Z) :
  (symtab_start_ img = None \/ symtab_strtab_ img = None ->
   getSymbolAt img addr = SymbolInfo.empty)
  /\ (forall syms strtab,
        symtab_start_ img = Some syms ->
        symtab_strtab_ img = Some strtab ->
        (getSymbolAt img addr = SymbolInfo.empty
         /\ forall i, 0 <= i < symtab_count_ img ->
                      ~ covers img addr (rd_sym syms i))
        \/ exists i,
             0 <= i < symtab_count_ img
             /\ covers img addr (rd_sym syms i)
             /\ (forall j, 0 <= j < i -> ~ covers img addr (rd_sym syms j))
             /\ getSymbolAt img addr
                = SymbolInfo.mk (cstr strtab (st_name (rd_sym syms i)))
                    (wrap64 (base_ img + st_value (rd_sym syms i) - bias_ img))
                    0 0
             /\ SymbolInfo.address (getSymbolAt img addr) <= addr).
Proof.
  split.
  - unfold getSymbolAt. intros [-> | Hs]; [reflexivity|].
    rewrite Hs. destruct (symtab_start_ img); reflexivity.
  - intros syms strtab Hsyms Hstrtab. unfold getSymbolAt.
    rewrite Hsyms, Hstrtab.
    destruct (symbol_scan_first img syms strtab addr
                (Z.to_nat (symtab_count_ img)) 0)
      as [[He Hno]|(i & Hi & Hcov & Hfirst & He)].
    + left. split; [exact He|]. intros i Hi. apply Hno. lia.
    + right. exists i. split; [lia|]. split; [exact Hcov|].
      split; [exact Hfirst|]. split; [exact He|].
      rewrite He. cbn [SymbolInfo.address]. destruct Hcov as (_ & _ & Hr). lia.
Qed.

End ImageLookups.

Lemma findSymbolOffset_on_sample_function :
  ElfImage.findSymbolOffset 8 Samples.hashed_func Samples.f
  = Some (Some (ElfImage.mkFound 0x500 2 1))
  /\ exists syms strtab i,
       ((ElfImage.dynsym_start_ Samples.hashed_func = Some syms
         /\ ElfImage.strtab_start_ Samples.hashed_func = Some strtab)
        \/ (ElfImage.symtab_start_ Samples.hashed_func = Some syms
            /\ ElfImage.symtab_strtab_ Samples.hashed_func = Some strtab
            /\ 0 <= i < ElfImage.symtab_count_ Samples.hashed_func))
       /\ ElfImage.mkFound 0x500 2 1 = ElfImage.hit (ElfImage.rd_sym syms i)
       /\ ElfImage.cstr strtab (Elf.st_name (ElfImage.rd_sym syms i)) = Samples.f
       /\ Elf.st_shndx (ElfImage.rd_sym syms i) <> Elf.SHN_UNDEF.
Proof.
  split; [reflexivity|].
  exact (findSymbolOffset_returns_a_defined_symbol
           8 Samples.hashed_func Samples.f (ElfImage.mkFound 0x500 2 1) eq_refl).
Defined.

(** [f] occupies 0x10100 to 0x10107 in the sample main image. *)
Example getSymbolAt_inside_f :
  ElfImage.getSymbolAt Samples.weak_main 0x10104
  = SymbolInfo.mk Samples.f 0x10100 0 0
  /\ ElfImage.getSymbolAt Samples.weak_main 0x10108 = SymbolInfo.empty
  /\ ElfImage.getSymbolAt Samples.weak_main 0x100FF = SymbolInfo.empty.
Proof. repeat split; reflexivity. Qed.

(** ** Pages *)

Lemma land_clear_low a k :
  0 <= k < 64 -> 0 <= a < 2 ^ 64 ->
  Z.land a (wrap64 (Z.lnot (wrap64 (2 ^ k - 1)))) = a - a mod 2 ^ k.
Proof.
  intros Hk Ha.
  assert (Hp : 0 < 2 ^ k <= 2 ^ 63).
  { split; [apply Z.pow_pos_nonneg; lia | apply Z.pow_le_mono_r; lia]. }
  rewrite (wrap64_small (2 ^ k - 1)) by lia.
  replace (2 ^ k - 1) with (Z.ones k) by (rewrite Z.ones_equiv; lia).
  assert (Z.land a (wrap64 (Z.lnot (Z.ones k))) = Z.ldiff a (Z.ones k)) as ->.
  { unfold wrap64. rewrite <- Z.land_ones by lia.
    rewrite Z.land_assoc, (Z.land_comm a), <- Z.land_assoc.
    rewrite (Z.land_ones a) by lia. rewrite (Z.mod_small a) by lia.
    rewrite Z.land_comm. symmetry. apply Z.ldiff_land. }
  rewrite Z.ldiff_ones_r by lia.
  rewrite Z.shiftr_div_pow2, Z.shiftl_mul_pow2 by lia.
  pose proof (Z.div_mod a (2 ^ k) ltac:(lia)). lia.
Qed.

Section Pages.

Variable host : Host.
Variable k : Z.
Hypothesis Hk : 0 <= k < 63.
Hypothesis Hps : page_size host = 2 ^ k.

Lemma pageSize_pow2 : pageSize host = Some (2 ^ k).
Proof.
  unfold pageSize. rewrite Hps.
  assert (0 < 2 ^ k < 2 ^ 63).
  { split; [apply Z.pow_pos_nonneg; lia | apply Z.pow_lt_mono_r; lia]. }
  destruct (2 ^ k <=? 0) eqn:E; [lia|].
  rewrite wrap64_small by lia. reflexivity.
Qed.

Lemma pageStart_eq addr :
  0 <= addr < 2 ^ 64 -> pageStart host addr = Some (addr - addr mod 2 ^ k).
Proof.
  intros Ha. unfold pageStart. rewrite pageSize_pow2.
  rewrite land_clear_low by lia. reflexivity.
Qed.

Lemma pageEnd_eq addr :
  0 <= addr < 2 ^ 64 ->
  pageEnd host addr
  = Some (wrap64 (addr + 2 ^ k - 1) - wrap64 (addr + 2 ^ k - 1) mod 2 ^ k).
Proof.
  intros Ha. unfold pageEnd. rewrite pageSize_pow2.
  assert (wrap64 (wrap64 (addr + 2 ^ k) - 1) = wrap64 (addr + 2 ^ k - 1)) as ->.
  { unfold wrap64. rewrite Zminus_mod_idemp_l. reflexivity. }
  apply pageStart_eq. apply wrap64_range.
Qed.

End Pages.

Lemma page_rounding (host : Host) (k addr : Z) :
  0 <= k < 63 ->
  page_size host = 2 ^ k ->
  0 <= addr < 2 ^ 64 ->
  exists s e,
    pageStart host addr = Some s
    /\ pageEnd host addr = Some e
    /\ s mod 2 ^ k = 0 /\ 0 <= s /\ s <= addr < s + 2 ^ k
    /\ e mod 2 ^ k = 0 /\ 0 <= e < 2 ^ 64
    /\ (addr + 2 ^ k <= 2 ^ 64 -> addr <= e < addr + 2 ^ k)
    /\ (addr mod 2 ^ k = 0 -> e = addr)
    /\ (s = addr <-> addr mod 2 ^ k = 0).
Proof.
  intros Hk Hps Ha.
  assert (Hp : 0 < 2 ^ k < 2 ^ 63).
  { split; [apply Z.pow_pos_nonneg; lia | apply Z.pow_lt_mono_r; lia]. }
  assert (H64 : 2 ^ 64 = 2 ^ k * 2 ^ (64 - k)).
  { rewrite <- Z.pow_add_r by lia. f_equal. lia. }
  eexists. eexists.
  split; [apply (pageStart_eq host k Hk Hps addr Ha)|].
  split; [apply (pageEnd_eq host k Hk Hps addr Ha)|].
  pose proof (Z.mod_pos_bound addr (2 ^ k) ltac:(lia)) as Hm.
  pose proof (wrap64_range (addr + 2 ^ k - 1)) as Hw.
  pose proof (Z.mod_pos_bound (wrap64 (addr + 2 ^ k - 1)) (2 ^ k) ltac:(lia)) as Hm'.
  pose proof (Z.mod_le (wrap64 (addr + 2 ^ k - 1)) (2 ^ k) ltac:(lia) ltac:(lia)) as Hle'.
  assert (Hs0 : (addr - addr mod 2 ^ k) mod 2 ^ k = 0).
  { rewrite Zminus_mod_idemp_r, Z.sub_diag. apply Z.mod_0_l. lia. }
  pose proof (Z.mod_le addr (2 ^ k) ltac:(lia) ltac:(lia)) as Hle.
  split; [exact Hs0|]. split; [lia|]. split; [lia|].
  split; [rewrite Zminus_mod_idemp_r, Z.sub_diag; apply Z.mod_0_l; lia|].
  split; [lia|].
  split; [|split].
  - intros Hfit. rewrite (wrap64_small (addr + 2 ^ k - 1)) in * by lia.
    pose proof (Z.div_mod addr (2 ^ k) ltac:(lia)) as Hd.
    destruct (Z.eq_dec (addr mod 2 ^ k) 0) as [H0|Hn0].
    + assert ((addr + 2 ^ k - 1) mod 2 ^ k = 2 ^ k - 1) as ->; [|lia].
      symmetry; apply (Z.mod_unique_pos _ _ (addr / 2 ^ k)); lia.
    + assert ((addr + 2 ^ k - 1) mod 2 ^ k = addr mod 2 ^ k - 1) as ->; [|lia].
      symmetry; apply (Z.mod_unique_pos _ _ (addr / 2 ^ k + 1)); lia.
  - intros H0.
    pose proof (Z.div_mod addr (2 ^ k) ltac:(lia)) as Hd.
    assert (addr + 2 ^ k <= 2 ^ 64).
    { assert (addr / 2 ^ k < 2 ^ (64 - k)) by (apply Z.div_lt_upper_bound; lia).
      nia. }
    rewrite (wrap64_small (addr + 2 ^ k - 1)) by lia.
    assert ((addr + 2 ^ k - 1) mod 2 ^ k = 2 ^ k - 1) as ->; [|lia].
    symmetry; apply (Z.mod_unique_pos _ _ (addr / 2 ^ k)); lia.
  - lia.
Qed.

(** X6. With a page size of [2 ^ k] bytes, [pageStart] rounds an address
    down to a multiple of the page size, less than one page below it, and
    [pageEnd] rounds it up to one, less than one page above it and equal to
    it when it is aligned already, as long as the address is not in the
    last page of the address space; there [pageEnd] wraps to a small
    multiple of the page size. *)
Theorem pages_round_down_and_up (host : Host) (k addr : Z) :
  0 <= k < 63 ->
  page_size host = 2 ^ k ->
  0 <= addr < 2 ^ 64 ->
  exists s e,
    pageStart host addr = Some s
    /\ pageEnd host addr = Some e
    /\ s mod 2 ^ k = 0 /\ 0 <= s /\ s <= addr < s + 2 ^ k
    /\ e mod 2 ^ k = 0 /\ 0 <= e < 2 ^ 64
    /\ (addr + 2 ^ k <= 2 ^ 64 -> addr <= e < addr + 2 ^ k)
    /\ (addr mod 2 ^ k = 0 -> e = addr)
    /\ (s = addr <-> addr mod 2 ^ k = 0).
Proof. exact (page_rounding host k addr). Qed.

(** ** getLoadSize *)

Section LoadSize.
Import Elf Linker.

Variable host : Host.
Variable k : Z.
Hypothesis Hk : 0 <= k < 63.
Hypothesis Hps : page_size host = 2 ^ k.

Lemma load_range_bounds phdr :
  Forall (loadable_fits k) phdr ->
  forall lo0 hi0,
    0 <= lo0 < 2 ^ 64 -> 0 <= hi0 <= 2 ^ 64 - 2 ^ k ->
    0 <= fst (load_range phdr lo0 hi0) <= lo0
    /\ hi0 <= snd (load_range phdr lo0 hi0) <= 2 ^ 64 - 2 ^ k
    /\ (forall ph, In ph phdr -> p_type ph = PT_LOAD ->
          fst (load_range phdr lo0 hi0) <= p_vaddr ph
          /\ p_vaddr ph + p_memsz ph <= snd (load_range phdr lo0 hi0))
    /\ (Forall (fun ph => p_type ph <> PT_LOAD) phdr ->
        load_range phdr lo0 hi0 = (lo0, hi0)).
Proof.
  induction 1 as [|ph phdr Hph _ IH]; intros lo0 hi0 Hlo Hhi.
  - cbn. split; [lia|]. split; [lia|]. split; [intros ph []|reflexivity].
  - cbn [load_range].
    destruct (p_type ph =? PT_LOAD) eqn:E; cbn [negb].
    + apply Z.eqb_eq in E. destruct (Hph E) as (Hv & Hm & Hfit).
      rewrite (wrap64_small (p_vaddr ph + p_memsz ph))
        by (assert (0 < 2 ^ k) by (apply Z.pow_pos_nonneg; lia); lia).
      set (lo1 := if p_vaddr ph <? lo0 then p_vaddr ph else lo0).
      set (hi1 := if hi0 <? p_vaddr ph + p_memsz ph
                  then p_vaddr ph + p_memsz ph else hi0).
      assert (Hlo1 : 0 <= lo1 <= lo0 /\ lo1 <= p_vaddr ph)
        by (unfold lo1; destruct (Z.ltb_spec (p_vaddr ph) lo0); lia).
      assert (Hhi1 : hi0 <= hi1 <= 2 ^ 64 - 2 ^ k /\ p_vaddr ph + p_memsz ph <= hi1)
        by (unfold hi1; destruct (Z.ltb_spec hi0 (p_vaddr ph + p_memsz ph)); lia).
      destruct (IH lo1 hi1 ltac:(lia) ltac:(lia)) as (H1 & H2 & H3 & _).
      split; [lia|]. split; [lia|]. split.
      * intros ph' [<-|Hin] Ht; [lia|]. apply H3; assumption.
      * intros Hall. apply Forall_cons in Hall as [Hne _]. congruence.
    + destruct (IH lo0 hi0 Hlo Hhi) as (H1 & H2 & H3 & H4).
      split; [lia|]. split; [lia|]. split.
      * intros ph' [<-|Hin] Ht; [apply Z.eqb_neq in E; congruence|].
        apply H3; assumption.
      * intros Hall. apply Forall_cons in Hall as [_ Hall]. auto.
Qed.

End LoadSize.

(** X7. With a page size of [2 ^ k] bytes and [PT_LOAD] headers whose ends
    stay a page below the top of the address space, [getLoadSize] returns a
    [min_vaddr] and a size that are multiples of the page size and such
    that every [PT_LOAD] segment lies in [min_vaddr, min_vaddr + size).
    With no [PT_LOAD] header at all it returns one page, not 0, and
    [min_vaddr] is the last page of the address space. *)
Theorem getLoadSize_covers_the_segments
    (host : Host) (k : Z) (phdr : list Elf.ElfPhdr) :
  0 <= k < 63 ->
  page_size host = 2 ^ k ->
  Forall (Linker.loadable_fits k) phdr ->
  exists size min_vaddr,
    Linker.getLoadSize host phdr = Some (size, min_vaddr)
    /\ min_vaddr mod 2 ^ k = 0
    /\ size mod 2 ^ k = 0
    /\ (forall ph, In ph phdr -> Elf.p_type ph = Elf.PT_LOAD ->
          min_vaddr <= Elf.p_vaddr ph
          /\ Elf.p_vaddr ph + Elf.p_memsz ph <= min_vaddr + size)
    /\ (Forall (fun ph => Elf.p_type ph <> Elf.PT_LOAD) phdr ->
        size = 2 ^ k /\ min_vaddr = 2 ^ 64 - 2 ^ k).
Proof.
  intros Hk Hps Hfit.
  assert (Hp : 0 < 2 ^ k < 2 ^ 63).
  { split; [apply Z.pow_pos_nonneg; lia | apply Z.pow_lt_mono_r; lia]. }
  destruct (load_range_bounds k Hk phdr Hfit (2 ^ 64 - 1) 0 ltac:(lia) ltac:(lia))
    as (Hlo & Hhi & Hcov & Hnone).
  unfold Linker.getLoadSize.
  destruct (Linker.load_range phdr (2 ^ 64 - 1) 0) as [lo hi] eqn:Hr.
  cbn [fst snd] in *.
  destruct (page_rounding host k lo Hk Hps ltac:(lia))
    as (s & _ & Hs & _ & Hs0 & Hsnn & Hsr & _).
  destruct (page_rounding host k hi Hk Hps ltac:(lia))
    as (_ & e & _ & He & _ & _ & _ & He0 & Her & Hfit' & _ & _).
  rewrite Hs, He.
  specialize (Hfit' ltac:(lia)).
  destruct (existsb (fun ph => Elf.p_type ph =? Elf.PT_LOAD) phdr) eqn:Eb;
    [apply existsb_exists in Eb as (ph & Hin & Ht'); apply Z.eqb_eq in Ht'|];
    cycle 1.
  - assert (Hall : Forall (fun ph => Elf.p_type ph <> Elf.PT_LOAD) phdr).
    { apply List.Forall_forall. intros ph Hin Ht.
      assert (existsb (fun ph => Elf.p_type ph =? Elf.PT_LOAD) phdr = true);
        [|congruence].
      apply existsb_exists. exists ph. split; [exact Hin|].
      apply Z.eqb_eq. exact Ht. }
    specialize (Hnone Hall). injection Hnone as -> ->.
    assert (H64 : 2 ^ 64 = 2 ^ k * 2 ^ (64 - k)).
    { rewrite <- Z.pow_add_r by lia. f_equal. lia. }
    assert (Hq : 0 < 2 ^ (64 - k)) by (apply Z.pow_pos_nonneg; lia).
    assert (Hs' : s = 2 ^ 64 - 2 ^ k).
    { pose proof (Z.div_mod s (2 ^ k) ltac:(lia)) as Hd. rewrite Hs0 in Hd.
      assert (s / 2 ^ k = 2 ^ (64 - k) - 1); [nia|nia]. }
    assert (He' : e = 0).
    { pose proof (Z.div_mod e (2 ^ k) ltac:(lia)) as Hd. rewrite He0 in Hd.
      assert (e / 2 ^ k = 0); [nia|lia]. }
    subst s e. exists (2 ^ k), (2 ^ 64 - 2 ^ k).
    split; [|split; [exact Hs0|split; [apply Z.mod_same; lia|split]]].
    + f_equal. f_equal. unfold wrap64.
      replace (0 - (2 ^ 64 - 2 ^ k)) with (2 ^ k + (-1) * 2 ^ 64) by lia.
      rewrite Z.mod_add by lia. apply Z.mod_small. lia.
    + intros ph Hin Ht. rewrite List.Forall_forall in Hall.
      destruct (Hall ph Hin Ht).
    + auto.
  - destruct (Hcov ph Hin Ht') as [Hc1 Hc2].
    rewrite List.Forall_forall in Hfit. destruct (Hfit ph Hin Ht') as (Hv & Hm & _).
    exists (e - s), s.
    split; [rewrite wrap64_small by lia; reflexivity|].
    split; [exact Hs0|].
    split; [rewrite Zminus_mod, He0, Hs0; reflexivity|].
    split.
    + intros ph' Hin' Ht''. destruct (Hcov ph' Hin' Ht''). lia.
    + intros Hall. rewrite List.Forall_forall in Hall. destruct (Hall ph Hin Ht').
Qed.

Lemma pages_around_0x12345 :
  0 <= 12 < 63
  /\ page_size Samples.host = 2 ^ 12
  /\ 0 <= 0x12345 < 2 ^ 64
  /\ pageStart Samples.host 0x12345 = Some 0x12000
  /\ pageEnd Samples.host 0x12345 = Some 0x13000.
Proof.
  assert (H1 : 0 <= 12 < 63) by lia.
  assert (H2 : page_size Samples.host = 2 ^ 12) by reflexivity.
  assert (H3 : 0 <= 0x12345 < 2 ^ 64) by lia.
  split; [exact H1|]. split; [exact H2|]. split; [exact H3|].
  destruct (pages_round_down_and_up Samples.host 12 0x12345 H1 H2 H3)
    as (s & e & Hs & He & _).
  split; reflexivity.
Defined.

(** Two segments, 0 to 0x1234 and 0x3000 to 0x3200, need four pages. *)
Lemma getLoadSize_of_two_segments :
  let phdr :=
    [Elf.mkPhdr Elf.PT_LOAD 5 0 0 0x1000 0x1234 0x1000;
     Elf.mkPhdr Elf.PT_DYNAMIC 6 0x2000 0x3000 0x100 0x100 8;
     Elf.mkPhdr Elf.PT_LOAD 6 0x2000 0x3000 0x100 0x200 0x1000] in
  0 <= 12 < 63
  /\ page_size Samples.host = 2 ^ 12
  /\ Forall (Linker.loadable_fits 12) phdr
  /\ Linker.getLoadSize Samples.host phdr = Some (0x4000, 0).
Proof.
  cbv zeta.
  assert (H1 : 0 <= 12 < 63) by lia.
  assert (H2 : page_size Samples.host = 2 ^ 12) by reflexivity.
  assert (H3 : Forall (Linker.loadable_fits 12)
                 [Elf.mkPhdr Elf.PT_LOAD 5 0 0 0x1000 0x1234 0x1000;
                  Elf.mkPhdr Elf.PT_DYNAMIC 6 0x2000 0x3000 0x100 0x100 8;
                  Elf.mkPhdr Elf.PT_LOAD 6 0x2000 0x3000 0x100 0x200 0x1000]).
  { repeat (apply Forall_cons_2; [intros _; cbn; lia|]). apply Forall_nil_2. }
  split; [exact H1|]. split; [exact H2|]. split; [exact H3|].
  destruct (getLoadSize_covers_the_segments Samples.host 12 _ H1 H2 H3)
    as (size & lo & Hsize & _).
  reflexivity.
Defined.

(** An image without a loadable segment is given one page. *)
Example getLoadSize_without_segments :
  Linker.getLoadSize Samples.host [] = Some (4096, 2 ^ 64 - 4096).
Proof. reflexivity. Qed.

(** ** findLibraryPath *)

Section LibraryPathFacts.
Import Linker.

Variable access : list Z -> bool.

Lemma search_in_first paths name out :
  (fst (search_in access paths name out) = true
   /\ exists pre path post,
        paths = pre ++ path :: post
        /\ snd (search_in access paths name out) = path ++ name
        /\ access (path ++ name) = true
        /\ Forall (fun p => access (p ++ name) = false) pre)
  \/ (fst (search_in access paths name out) = false
      /\ Forall (fun p => access (p ++ name) = false) paths).
Proof.
  revert out. induction paths as [|path paths IH]; intros out.
  - right. split; [reflexivity|constructor].
  - cbn [search_in]. destruct (access (path ++ name)) eqn:E.
    + left. split; [reflexivity|]. exists [], path, paths.
      split; [reflexivity|]. split; [reflexivity|]. split; [exact E|constructor].
    + destruct (IH (path ++ name))
        as [(Ht & pre & p & post & -> & Hout & Hacc & Hpre)|(Hf & Hall)].
      * left. split; [exact Ht|]. exists (path :: pre), p, post.
        split; [reflexivity|]. split; [exact Hout|]. split; [exact Hacc|].
        constructor; assumption.
      * right. split; [exact Hf|]. constructor; assumption.
Qed.

End LibraryPathFacts.

(** X8. [findLibraryPath] answers [true] only with a path that [access]
    finds. A name that starts with '/' is taken as it is and never
    searched for. Any other name except [libc++.so] is looked for in the
    twelve search directories in their order: the answer is the first
    directory's path under which the name exists, and [false] only when it
    exists under none. For [libc++.so] the APEX runtime directory and then
    [/system/lib64] are tried before that search. *)
Theorem findLibraryPath_takes_the_first_path_that_exists
    (access : list Z -> bool) (name out : list Z) :
  let r := Linker.findLibraryPath access name out in
  (fst r = true -> access (snd r) = true)
  /\ (forall rest, name = 47 :: rest -> r = (access name, name))
  /\ (match name with c :: _ => c <> 47 | [] => True end ->
      name <> bytes_of "libc++.so" ->
      (fst r = true ->
       exists pre path post,
         Linker.search_paths = pre ++ path :: post
         /\ snd r = path ++ name
         /\ Forall (fun p => access (p ++ name) = false) pre)
      /\ (fst r = false ->
          Forall (fun p => access (p ++ name) = false) Linker.search_paths))
  /\ (name = bytes_of "libc++.so" ->
      (access (bytes_of "/apex/com.android.runtime/lib64/libc++.so") = true ->
       r = (true, bytes_of "/apex/com.android.runtime/lib64/libc++.so"))
      /\ (access (bytes_of "/apex/com.android.runtime/lib64/libc++.so") = false ->
          access (bytes_of "/system/lib64/libc++.so") = true ->
          r = (true, bytes_of "/system/lib64/libc++.so"))).
Proof.
  cbv zeta. unfold Linker.findLibraryPath.
  split; [|split; [|split]].
  - destruct name as [|c name']; [|destruct (c =? 47)].
    + destruct (bool_decide _).
      * destruct (access (bytes_of "/apex/com.android.runtime/lib64/libc++.so")) eqn:E1;
          [intros _; exact E1|].
        destruct (access (bytes_of "/system/lib64/libc++.so")) eqn:E2;
          [intros _; exact E2|].
        destruct (search_in_first access Linker.search_paths [] (bytes_of "/system/lib64/libc++.so"))
          as [(_ & _ & p & _ & _ & -> & Hacc & _)|(-> & _)];
          [intros _; exact Hacc | discriminate].
      * destruct (search_in_first access Linker.search_paths [] out)
          as [(_ & _ & p & _ & _ & -> & Hacc & _)|(-> & _)];
          [intros _; exact Hacc | discriminate].
    + cbn [fst snd]. auto.
    + destruct (bool_decide _).
      * destruct (access (bytes_of "/apex/com.android.runtime/lib64/libc++.so")) eqn:E1;
          [intros _; exact E1|].
        destruct (access (bytes_of "/system/lib64/libc++.so")) eqn:E2;
          [intros _; exact E2|].
        destruct (search_in_first access Linker.search_paths (c :: name')
                    (bytes_of "/system/lib64/libc++.so"))
          as [(_ & _ & p & _ & _ & -> & Hacc & _)|(-> & _)];
          [intros _; exact Hacc | discriminate].
      * destruct (search_in_first access Linker.search_paths (c :: name') out)
          as [(_ & _ & p & _ & _ & -> & Hacc & _)|(-> & _)];
          [intros _; exact Hacc | discriminate].
  - intros rest ->. reflexivity.
  - intros Hrel Hname.
    assert (match name with c :: _ => c =? 47 | [] => false end = false) as ->.
    { destruct name as [|c name']; [reflexivity|]. apply Z.eqb_neq. exact Hrel. }
    rewrite bool_decide_eq_false_2 by exact Hname.
    destruct (search_in_first access Linker.search_paths name out)
      as [(Ht & pre & p & post & Hsplit & Hout & _ & Hpre)|(Hf & Hall)].
    + split; [|rewrite Ht; discriminate].
      intros _. exists pre, p, post. auto.
    + split; [rewrite Hf; discriminate|]. intros _. exact Hall.
  - intros ->.
    assert (Heq :
      (if match bytes_of "libc++.so" with c :: _ => c =? 47 | [] => false end
       then (access (bytes_of "libc++.so"), bytes_of "libc++.so")
       else
         if bool_decide (bytes_of "libc++.so" = bytes_of "libc++.so")
         then
           if access (bytes_of "/apex/com.android.runtime/lib64/libc++.so")
           then (true, bytes_of "/apex/com.android.runtime/lib64/libc++.so")
           else
             if access (bytes_of "/system/lib64/libc++.so")
             then (true, bytes_of "/system/lib64/libc++.so")
             else Linker.search_in access Linker.search_paths
                    (bytes_of "libc++.so") (bytes_of "/system/lib64/libc++.so")
         else Linker.search_in access Linker.search_paths (bytes_of "libc++.so") out)
      = if access (bytes_of "/apex/com.android.runtime/lib64/libc++.so")
        then (true, bytes_of "/apex/com.android.runtime/lib64/libc++.so")
        else
          if access (bytes_of "/system/lib64/libc++.so")
          then (true, bytes_of "/system/lib64/libc++.so")
          else Linker.search_in access Linker.search_paths
                 (bytes_of "libc++.so") (bytes_of "/system/lib64/libc++.so")).
    { rewrite bool_decide_eq_true_2 by reflexivity. reflexivity. }
    rewrite Heq. split.
    + intros ->. reflexivity.
    + intros -> ->. reflexivity.
Qed.

(** With only [/system/lib64/libm.so] on the file system. *)
Example findLibraryPath_libm :
  Linker.findLibraryPath
    (fun path => bool_decide (path = bytes_of "/system/lib64/libm.so"))
    (bytes_of "libm.so") []
  = (true, bytes_of "/system/lib64/libm.so").
Proof. vm_compute. reflexivity. Qed.

(** ** The registry of TLS modules *)

Section TlsRegistryFacts.
Import TlsManager Elf.

Lemma slot_set_slot m k md g s a i :
  length (modules_ m) = 128%nat ->
  0 <= k < MAX_TLS_MODULES -> 0 <= i < MAX_TLS_MODULES ->
  slot (mk (set_slot m k md) g s a) i = if i =? k then md else slot m i.
Proof.
  intros Hlen Hk Hi. unfold slot, set_slot, MAX_TLS_MODULES in *. cbn [modules_].
  destruct (Z.eqb_spec i k) as [->|Hne].
  - rewrite list_lookup_insert_eq by lia. reflexivity.
  - rewrite list_lookup_insert_ne by lia. reflexivity.
Qed.

Lemma well_formed_initial : well_formed initial.
Proof.
  assert (Hslot : forall i, slot initial i = TlsModule.empty).
  { intros i. unfold slot, initial. cbn [modules_].
    destruct (replicate _ _ !! Z.to_nat i) as [md|] eqn:E; [|reflexivity].
    apply lookup_replicate in E as [-> _]. reflexivity. }
  split; [reflexivity|]. split; [cbn; lia|]. split.
  - intros i Hi. rewrite Hslot. split; [reflexivity|]. intros H. destruct H. reflexivity.
  - intros i j _ _ _ H. rewrite Hslot in H. destruct H. reflexivity.
Qed.

Lemma well_formed_unregister m image :
  well_formed m -> well_formed (unregisterSegment m image).
Proof.
  intros Hwf. pose proof Hwf as (Hlen & Hsize & Hslots & Hapart).
  unfold unregisterSegment.
  destruct (search _ m) as [k|] eqn:Hs; [|exact Hwf].
  apply search_found in Hs as [Hk _].
  assert (Hk' : 0 <= k < MAX_TLS_MODULES) by lia.
  split; [cbn [modules_]; unfold set_slot; rewrite length_insert; exact Hlen|].
  split; [exact Hsize|]. split.
  - intros i Hi. rewrite slot_set_slot by assumption. cbn [static_size_].
    destruct (i =? k); [|apply Hslots; exact Hi].
    split; [reflexivity|]. intros H. destruct H. reflexivity.
  - intros i j Hi Hj Hne. rewrite !slot_set_slot by assumption.
    destruct (i =? k); [intros H; destruct H; reflexivity|].
    destruct (j =? k); [intros _ H; destruct H; reflexivity|].
    apply Hapart; assumption.
Qed.

Lemma well_formed_register m image :
  well_formed m -> size_fits m image = true ->
  well_formed (snd (fst (registerSegment m image))).
Proof.
  intros Hwf Hfit. pose proof Hwf as (Hlen & Hsize & Hslots & Hapart).
  unfold registerSegment, size_fits in *.
  destruct (ElfImage.tls_segment_ image) as [seg|]; [|exact Hwf].
  destruct (search _ m) as [k|] eqn:Hs; [|exact Hwf].
  apply search_found in Hs as [Hk Hfree]. apply Z.eqb_eq in Hfree.
  assert (Hk' : 0 <= k < MAX_TLS_MODULES) by lia.
  cbv zeta. cbn [fst snd].
  set (align := if p_align seg =? 0 then 1 else p_align seg) in *.
  assert (0 <= static_size_ m /\ 0 < align /\ 0 <= p_memsz seg
          /\ static_size_ m + align - 1 + p_memsz seg < 2 ^ 64) as (H1 & H2 & H3 & H4).
  { repeat (apply andb_true_iff in Hfit; destruct Hfit as [Hfit ?]). lia. }
  pose proof (align_up_bounds (static_size_ m) align H1 H2 ltac:(lia)) as Hb.
  set (offset := Z.land _ _) in *.
  rewrite (wrap64_small (offset + p_memsz seg)) by lia.
  split; [cbn [modules_]; unfold set_slot; rewrite length_insert; exact Hlen|].
  split; [cbn [static_size_]; lia|]. split.
  - intros i Hi. rewrite slot_set_slot by assumption. cbn [static_size_].
    destruct (Z.eqb_spec i k) as [->|Hne].
    + cbn. split; [lia|]. intros _. lia.
    + destruct (Hslots i Hi) as [Hz Hnz]. split; [exact Hz|].
      intros Hid. specialize (Hnz Hid). lia.
  - intros i j Hi Hj Hne. rewrite !slot_set_slot by assumption.
    destruct (Z.eqb_spec i k) as [->|Hik]; destruct (Z.eqb_spec j k) as [->|Hjk].
    + lia.
    + intros _ Hid. destruct (Hslots j Hj) as [_ Hnz]. specialize (Hnz Hid).
      right. cbn. lia.
    + intros Hid _. destruct (Hslots i Hi) as [_ Hnz]. specialize (Hnz Hid).
      left. cbn. lia.
    + apply Hapart; assumption.
Qed.

Lemma well_formed_run calls :
  forall m, well_formed m -> sizes_fit calls m = true -> well_formed (run calls m).
Proof.
  induction calls as [|c calls IH]; intros m Hm Hfit; [exact Hm|].
  cbn [sizes_fit] in Hfit. apply andb_true_iff in Hfit as [Hc Hrest].
  unfold run. cbn [fold_left]. apply IH; [|exact Hrest].
  destruct c as [image|image]; cbn [perform].
  - apply well_formed_register; assumption.
  - apply well_formed_unregister; assumption.
Qed.

End TlsRegistryFacts.

(** X9. Over any sequence of [registerSegment] and [unregisterSegment]
    calls from the initial registry whose size computations stay within 64
    bits, the registry stays well formed: a free slot is the empty
    [TlsModule{}], a slot in use carries its index as module id and its
    module lies within [static_size_], and the modules of two slots in use
    occupy disjoint ranges of the block. *)
Theorem registered_modules_lie_apart (calls : list TlsManager.call) :
  TlsManager.sizes_fit calls TlsManager.initial = true ->
  TlsManager.well_formed (TlsManager.run calls TlsManager.initial).
Proof. apply well_formed_run, well_formed_initial. Qed.

(** X10. [registerSegment] succeeds without touching anything for an image
    that has no [PT_TLS] segment; for one that has, it fails without
    touching anything when slots 1 to 127 are all in use, and otherwise
    takes the lowest free slot: the image gets that slot's index as its TLS
    module id, the slot records the id, the owner and the segment's sizes,
    and every other slot stays as it was. *)
Theorem registerSegment_takes_the_lowest_free_slot
    (m : TlsManager.t) (image : ElfImage.t) :
  (ElfImage.tls_segment_ image = None ->
   TlsManager.registerSegment m image = (true, m, image))
  /\ (forall seg,
        ElfImage.tls_segment_ image = Some seg ->
        ((forall i, 1 <= i < TlsManager.MAX_TLS_MODULES ->
                    TlsModule.module_id (TlsManager.slot m i) <> 0) ->
         TlsManager.registerSegment m image = (false, m, image))
        /\ (forall i,
              1 <= i < TlsManager.MAX_TLS_MODULES ->
              TlsModule.module_id (TlsManager.slot m i) = 0 ->
              length (TlsManager.modules_ m) = 128%nat ->
              exists id m',
                TlsManager.registerSegment m image
                = (true, m', ElfImage.setTlsModuleId image id)
                /\ 1 <= id <= i
                /\ TlsModule.module_id (TlsManager.slot m id) = 0
                /\ (forall j, 1 <= j < id ->
                      TlsModule.module_id (TlsManager.slot m j) <> 0)
                /\ TlsModule.module_id (TlsManager.slot m' id) = id
                /\ TlsModule.owner (TlsManager.slot m' id) = ElfImage.this_ image
                /\ TlsModule.memsz (TlsManager.slot m' id) = Elf.p_memsz seg
                /\ TlsModule.filesz (TlsManager.slot m' id) = Elf.p_filesz seg
                /\ (forall j, 0 <= j < TlsManager.MAX_TLS_MODULES -> j <> id ->
                      TlsManager.slot m' j = TlsManager.slot m j))).
Proof.
  split.
  - intros Hnone. unfold TlsManager.registerSegment. rewrite Hnone. reflexivity.
  - intros seg Hseg. split.
    + intros Hfull. unfold TlsManager.registerSegment. rewrite Hseg.
      unfold TlsManager.search. rewrite scan_slots_none; [reflexivity|].
      intros j Hj. apply Z.eqb_neq. apply Hfull.
      unfold TlsManager.MAX_TLS_MODULES in *. lia.
    + intros i Hi Hfree Hlen.
      destruct (search_exists (fun md => TlsModule.module_id md =? 0) m i Hi)
        as (id & Hs & Hid & Hidfree & Hbefore); [apply Z.eqb_eq; exact Hfree|].
      unfold TlsManager.registerSegment. rewrite Hseg, Hs. cbv zeta.
      eexists id, _. split; [reflexivity|].
      assert (Hid' : 0 <= id < TlsManager.MAX_TLS_MODULES) by lia.
      split; [exact Hid|]. split; [apply Z.eqb_eq; exact Hidfree|].
      split; [intros j Hj; apply Z.eqb_neq, Hbefore; exact Hj|].
      rewrite !slot_set_slot by (try assumption; lia).
      rewrite Z.eqb_refl. cbn [TlsModule.module_id TlsModule.owner
                               TlsModule.memsz TlsModule.filesz].
      split; [reflexivity|]. split; [reflexivity|]. split; [reflexivity|].
      split; [reflexivity|].
      intros j Hj Hne. rewrite slot_set_slot by assumption.
      apply Z.eqb_neq in Hne. rewrite Hne. reflexivity.
Qed.

(** ** The calling thread's block *)


(** X12. On a thread without a block, when [posix_memalign] fails,
    [getAddress] and [__tls_get_addr] return null for every index, memory
    is untouched, and the thread still has no block, so that the next call
    tries the allocation again. *)
Theorem failed_allocation_gives_null
    (host : Host) (m : TlsManager.t) (ti : option TlsIndex.t) (p : Proc) :
  tls_block p = 0 ->
  hd 0 (heap p) = 0 ->
  TlsManager.getAddress host m ti p = (0, mkProc (mem p) 0 (tl (heap p)))
  /\ TlsManager.__tls_get_addr host m ti p
     = (0, mkProc (mem p) 0 (tl (heap p))).
Proof.
  intros Htls Hheap.
  assert (Hb : TlsManager.getBlockForThread host m p
               = (0, mkProc (mem p) 0 (tl (heap p)))).
  { unfold TlsManager.getBlockForThread, TlsManager.allocateBlock.
    rewrite Htls. cbn [Z.eqb].
    destruct p as [mm tb hp]. cbn [heap mem tls_block] in *. subst tb.
    destruct hp as [|b later]; [reflexivity|].
    cbn in Hheap. subst b. reflexivity. }
  unfold TlsManager.__tls_get_addr. rewrite !getAddress_cases, Hb.
  split; reflexivity.
Qed.

(** ** Memory under memset and memcpy *)

Lemma load8_insert (mm : Mem) a v x :
  load8 (<[a := v]> mm) x = if x =? a then v else load8 mm x.
Proof.
  unfold load8. destruct (Z.eqb_spec x a) as [->|Hne].
  - rewrite lookup_insert_eq. reflexivity.
  - rewrite lookup_insert_ne by congruence. reflexivity.
Qed.

Lemma mem_fill_step (mm : Mem) a n v :
  mem_fill mm a (S n) v = mem_fill (<[a := v]> mm) (a + 1) n v.
Proof. reflexivity. Qed.

Lemma mem_copy_step (mm : Mem) dst src n :
  mem_copy mm dst src (S n)
  = mem_copy (<[dst := load8 mm src]> mm) (dst + 1) (src + 1) n.
Proof. reflexivity. Qed.

Lemma load8_mem_fill n :
  forall (mm : Mem) a v x,
    load8 (mem_fill mm a n v) x
    = if (a <=? x) && (x <? a + Z.of_nat n) then v else load8 mm x.
Proof.
  induction n as [|n IH]; intros mm a v x.
  - change (mem_fill mm a 0 v) with mm.
    destruct (Z.leb_spec a x), (Z.ltb_spec x (a + Z.of_nat 0)); cbn [andb];
      try lia; reflexivity.
  - rewrite mem_fill_step, IH, load8_insert.
    destruct (Z.leb_spec (a + 1) x), (Z.ltb_spec x (a + 1 + Z.of_nat n)),
      (Z.leb_spec a x), (Z.ltb_spec x (a + Z.of_nat (S n))),
      (Z.eqb_spec x a); cbn [andb]; try lia; reflexivity.
Qed.

Lemma load8_mem_copy_outside n :
  forall (mm : Mem) dst src x,
    ~ (dst <= x < dst + Z.of_nat n) ->
    load8 (mem_copy mm dst src n) x = load8 mm x.
Proof.
  induction n as [|n IH]; intros mm dst src x Hx; [reflexivity|].
  rewrite mem_copy_step. rewrite IH by lia. rewrite load8_insert.
  destruct (Z.eqb_spec x dst); [lia|reflexivity].
Qed.

Lemma load8_mem_copy_inside n :
  forall (mm : Mem) dst src d,
    0 <= d < Z.of_nat n ->
    (src + Z.of_nat n <= dst \/ dst + Z.of_nat n <= src) ->
    load8 (mem_copy mm dst src n) (dst + d) = load8 mm (src + d).
Proof.
  induction n as [|n IH]; intros mm dst src d Hd Hdis; [lia|].
  rewrite mem_copy_step. destruct (Z.eq_dec d 0) as [->|Hne].
  - rewrite load8_mem_copy_outside by lia.
    rewrite load8_insert, !Z.add_0_r, Z.eqb_refl. reflexivity.
  - replace (dst + d) with (dst + 1 + (d - 1)) by lia.
    rewrite IH by lia. rewrite load8_insert.
    destruct (Z.eqb_spec (src + 1 + (d - 1)) dst); [lia|]. f_equal. lia.
Qed.

(** ** A fresh block *)

Section FreshBlock.
Import TlsManager.

Variable host : Host.
Variable m : TlsManager.t.
Variable block total : Z.

Local Abbreviation copied := (TlsManager.copied m).

Hypothesis Hwf : well_formed m.
Hypothesis Hblock : 0 < block.
Hypothesis Hroom : block + total <= 2 ^ 64.
Hypothesis Hstatic : static_size_ m <= total.
Hypothesis Hfilesz :
  forall j, 0 <= j < MAX_TLS_MODULES ->
            TlsModule.filesz (slot m j) <= TlsModule.memsz (slot m j).

Lemma copied_in_use j :
  0 <= j < MAX_TLS_MODULES -> copied j = true ->
  TlsModule.module_id (slot m j) <> 0.
Proof.
  intros Hj Hc Hid. destruct Hwf as (_ & _ & Hslots & _).
  destruct (Hslots j Hj) as [Hz _]. unfold copied in Hc.
  rewrite (Hz Hid) in Hc. discriminate.
Qed.

Lemma copied_range j :
  0 <= j < MAX_TLS_MODULES -> copied j = true ->
  0 <= TlsModule.offset (slot m j)
  /\ 0 < TlsModule.filesz (slot m j) <= TlsModule.memsz (slot m j)
  /\ TlsModule.offset (slot m j) + TlsModule.memsz (slot m j) <= total
  /\ wrap64 (TlsModule.offset (slot m j) + TlsModule.filesz (slot m j))
     = TlsModule.offset (slot m j) + TlsModule.filesz (slot m j)
  /\ wrap64 (block + TlsModule.offset (slot m j))
     = block + TlsModule.offset (slot m j).
Proof.
  intros Hj Hc. pose proof (copied_in_use j Hj Hc) as Hid.
  destruct Hwf as (_ & _ & Hslots & _).
  destruct (Hslots j Hj) as [_ Hnz]. specialize (Hnz Hid).
  pose proof (Hfilesz j Hj) as Hf.
  unfold copied in Hc. apply andb_true_iff in Hc as [_ Hpos].
  apply Z.ltb_lt in Hpos.
  split; [lia|]. split; [lia|]. split; [lia|].
  split; apply wrap64_small; lia.
Qed.

Lemma copy_images_step n i mm :
  copy_images m block total (S n) i mm
  = copy_images m block total n (i + 1)
      (if copied i
       then if wrap64 (TlsModule.offset (slot m i) + TlsModule.filesz (slot m i))
               <=? total
            then mem_copy mm (wrap64 (block + TlsModule.offset (slot m i)))
                   (TlsModule.init_image (slot m i))
                   (Z.to_nat (TlsModule.filesz (slot m i)))
            else mm
       else mm).
Proof. reflexivity. Qed.

(** A byte that lies in no copied module's destination keeps its value. *)
Lemma copy_images_frame n :
  forall i mm x,
    0 <= i -> i + Z.of_nat n <= MAX_TLS_MODULES ->
    (forall j, i <= j < i + Z.of_nat n -> copied j = true ->
       ~ (block + TlsModule.offset (slot m j) <= x
          < block + TlsModule.offset (slot m j) + TlsModule.filesz (slot m j))) ->
    load8 (copy_images m block total n i mm) x = load8 mm x.
Proof.
  induction n as [|n IH]; intros i mm x Hi Hn Hout; [reflexivity|].
  rewrite copy_images_step. rewrite IH; [|lia|lia|intros j Hj; apply Hout; lia].
  destruct (copied i) eqn:Hc; [|reflexivity].
  destruct (copied_range i ltac:(lia) Hc) as (Ho & Hf & Ht & -> & ->).
  destruct (_ <=? total); [|reflexivity].
  apply load8_mem_copy_outside. specialize (Hout i ltac:(lia) Hc).
  rewrite Z2Nat.id by lia. exact Hout.
Qed.

Lemma copy_images_outside n i mm x :
  0 <= i -> i + Z.of_nat n <= MAX_TLS_MODULES ->
  ~ (block <= x < block + total) ->
  load8 (copy_images m block total n i mm) x = load8 mm x.
Proof.
  intros Hi Hn Hx. apply copy_images_frame; try assumption.
  intros j Hj Hc. destruct (copied_range j ltac:(lia) Hc) as (Ho & Hf & Ht & _).
  lia.
Qed.

Lemma copy_images_split n1 n2 :
  forall i mm,
    copy_images m block total (n1 + n2) i mm
    = copy_images m block total n2 (i + Z.of_nat n1)
        (copy_images m block total n1 i mm).
Proof.
  induction n1 as [|n1 IH]; intros i mm.
  - cbn [Nat.add]. rewrite Z.add_0_r. reflexivity.
  - change (S n1 + n2)%nat with (S (n1 + n2)).
    rewrite !copy_images_step, IH. f_equal. lia.
Qed.

(** Another module in use keeps clear of the bytes of module [k]. *)
Lemma other_module_clear k j d :
  0 <= k < MAX_TLS_MODULES -> 0 <= j < MAX_TLS_MODULES -> j <> k ->
  TlsModule.module_id (slot m k) <> 0 ->
  copied j = true ->
  0 <= d < TlsModule.memsz (slot m k) ->
  ~ (block + TlsModule.offset (slot m j)
     <= block + TlsModule.offset (slot m k) + d
     < block + TlsModule.offset (slot m j) + TlsModule.filesz (slot m j)).
Proof.
  intros Hk Hj Hne Hid Hc Hd.
  pose proof (copied_in_use j Hj Hc) as Hidj.
  destruct (copied_range j Hj Hc) as (Ho & Hf & _).
  destruct Hwf as (_ & _ & _ & Hapart).
  destruct (Hapart j k Hj Hk Hne Hidj Hid) as [H|H]; lia.
Qed.

Hypothesis Hsources :
  forall j, 0 <= j < MAX_TLS_MODULES -> copied j = true ->
    0 <= TlsModule.init_image (slot m j)
    /\ (TlsModule.init_image (slot m j) + TlsModule.filesz (slot m j) <= block
        \/ block + total <= TlsModule.init_image (slot m j)).

Lemma copy_images_module mm k d :
  1 <= k < MAX_TLS_MODULES ->
  TlsModule.module_id (slot m k) <> 0 ->
  0 <= d < TlsModule.memsz (slot m k) ->
  load8 (copy_images m block total (Z.to_nat (MAX_TLS_MODULES - 1)) 1 mm)
        (block + TlsModule.offset (slot m k) + d)
  = if copied k && (d <? TlsModule.filesz (slot m k))
    then load8 mm (TlsModule.init_image (slot m k) + d)
    else load8 mm (block + TlsModule.offset (slot m k) + d).
Proof.
  intros Hk Hid Hd. unfold MAX_TLS_MODULES in *.
  replace (Z.to_nat (128 - 1)) with (Z.to_nat (k - 1) + (1 + Z.to_nat (127 - k)))%nat
    by lia.
  rewrite copy_images_split.
  replace (1 + Z.of_nat (Z.to_nat (k - 1))) with k by lia.
  change (1 + Z.to_nat (127 - k))%nat with (S (Z.to_nat (127 - k))).
  rewrite copy_images_step.
  rewrite copy_images_frame;
    [|lia|unfold MAX_TLS_MODULES; lia
     |intros j Hj Hc; apply other_module_clear;
        try assumption; unfold MAX_TLS_MODULES; lia].
  set (before := copy_images m block total (Z.to_nat (k - 1)) 1 mm).
  assert (Hbefore : forall x,
            (forall j, 1 <= j < k -> copied j = true ->
               ~ (block + TlsModule.offset (slot m j) <= x
                  < block + TlsModule.offset (slot m j)
                    + TlsModule.filesz (slot m j))) ->
            load8 before x = load8 mm x).
  { intros x Hx. apply copy_images_frame;
      [lia|unfold MAX_TLS_MODULES; lia|].
    intros j Hj. apply Hx. lia. }
  destruct (copied k) eqn:Hc; cbn [andb].
  - destruct (copied_range k ltac:(unfold MAX_TLS_MODULES; lia) Hc)
      as (Ho & Hf & Ht & -> & ->).
    destruct (Hsources k ltac:(unfold MAX_TLS_MODULES; lia) Hc) as [Hs0 Hs].
    destruct (Z.leb_spec (TlsModule.offset (slot m k) + TlsModule.filesz (slot m k))
                total) as [_|]; [|lia].
    destruct (Z.ltb_spec d (TlsModule.filesz (slot m k))) as [Hlt|Hge].
    + rewrite load8_mem_copy_inside by lia.
      apply Hbefore. intros j Hj Hcj.
      destruct (copied_range j ltac:(unfold MAX_TLS_MODULES; lia) Hcj)
        as (Hoj & Hfj & Htj & _).
      lia.
    + rewrite load8_mem_copy_outside by lia.
      apply Hbefore. intros j Hj Hcj.
      apply other_module_clear; try assumption; unfold MAX_TLS_MODULES; lia.
  - apply Hbefore. intros j Hj Hcj.
    apply other_module_clear; try assumption; unfold MAX_TLS_MODULES; lia.
Qed.

End FreshBlock.

(** X13. The block that a thread gets on its first access is initialised
    per module. Let the registry be well formed, every module's [filesz] be
    at most its [memsz], the block lie within the address space and the
    initialisation images lie outside it. Then byte [d] of a registered
    module, at [block + offset + d], is byte [d] of the module's
    initialisation image when [d < filesz] (and the module has an owner and
    an image), and 0 for the rest of its [memsz]; no byte outside the block
    changes. *)
Theorem fresh_block_holds_the_initial_images
    (host : Host) (m : TlsManager.t) (p : Proc) (block : Z) (later : list Z)
    (k d : Z) :
  TlsManager.well_formed m ->
  tls_block p = 0 ->
  heap p = block :: later ->
  0 < block ->
  block + TlsManager.block_total host m <= 2 ^ 64 ->
  TlsManager.static_size_ m <= TlsManager.block_total host m ->
  (forall j, 0 <= j < TlsManager.MAX_TLS_MODULES ->
     TlsModule.filesz (TlsManager.slot m j)
     <= TlsModule.memsz (TlsManager.slot m j)) ->
  (forall j, 0 <= j < TlsManager.MAX_TLS_MODULES ->
     TlsManager.copied m j = true ->
     0 <= TlsModule.init_image (TlsManager.slot m j)
     /\ (TlsModule.init_image (TlsManager.slot m j)
         + TlsModule.filesz (TlsManager.slot m j) <= block
         \/ block + TlsManager.block_total host m
            <= TlsModule.init_image (TlsManager.slot m j))) ->
  1 <= k < TlsManager.MAX_TLS_MODULES ->
  TlsModule.module_id (TlsManager.slot m k) <> 0 ->
  0 <= d < TlsModule.memsz (TlsManager.slot m k) ->
  let p' := snd (TlsManager.getBlockForThread host m p) in
  fst (TlsManager.getBlockForThread host m p) = block
  /\ tls_block p' = block
  /\ heap p' = later
  /\ load8 (mem p') (block + TlsModule.offset (TlsManager.slot m k) + d)
     = (if TlsManager.copied m k && (d <? TlsModule.filesz (TlsManager.slot m k))
        then load8 (mem p) (TlsModule.init_image (TlsManager.slot m k) + d)
        else 0)
  /\ (forall x, ~ (block <= x < block + TlsManager.block_total host m) ->
        load8 (mem p') x = load8 (mem p) x).
Proof.
  intros Hwf Htls Hheap Hblock Hroom Hstatic Hfilesz Hsources Hk Hid Hd.
  cbv zeta.
  assert (Hb : TlsManager.getBlockForThread host m p
               = (block,
                  mkProc
                    (TlsManager.copy_images m block (TlsManager.block_total host m)
                       (Z.to_nat (TlsManager.MAX_TLS_MODULES - 1)) 1
                       (mem_fill (mem p) block
                          (Z.to_nat (TlsManager.block_total host m)) 0))
                    block later)).
  { unfold TlsManager.getBlockForThread, TlsManager.allocateBlock.
    rewrite Htls, Hheap. cbn [Z.eqb].
    destruct (block =? 0) eqn:E; [lia|]. reflexivity. }
  rewrite Hb. cbn [fst snd mem heap tls_block].
  split; [reflexivity|]. split; [reflexivity|]. split; [reflexivity|].
  assert (Htotal : 0 <= TlsManager.block_total host m).
  { destruct Hwf as (_ & Hs & _). lia. }
  split.
  - rewrite (copy_images_module m block (TlsManager.block_total host m))
      by assumption.
    destruct Hwf as (_ & _ & Hslots & _).
    destruct (Hslots k ltac:(lia)) as [_ Hnz]. specialize (Hnz Hid).
    destruct (TlsManager.copied m k && _) eqn:Hc.
    + apply andb_true_iff in Hc as [Hc Hlt]. apply Z.ltb_lt in Hlt.
      destruct (Hsources k ltac:(lia) Hc) as [Hs0 Hs].
      rewrite load8_mem_fill.
      destruct (Z.leb_spec block (TlsModule.init_image (TlsManager.slot m k) + d)),
        (Z.ltb_spec (TlsModule.init_image (TlsManager.slot m k) + d)
           (block + Z.of_nat (Z.to_nat (TlsManager.block_total host m))));
        cbn [andb]; try reflexivity.
      pose proof (Hfilesz k ltac:(lia)). lia.
    + rewrite load8_mem_fill.
      destruct (Z.leb_spec block (block + TlsModule.offset (TlsManager.slot m k) + d)),
        (Z.ltb_spec (block + TlsModule.offset (TlsManager.slot m k) + d)
           (block + Z.of_nat (Z.to_nat (TlsManager.block_total host m))));
        cbn [andb]; try reflexivity; lia.
  - intros x Hx.
    rewrite (copy_images_outside m block (TlsManager.block_total host m))
      by (try assumption; unfold TlsManager.MAX_TLS_MODULES; lia).
    rewrite load8_mem_fill.
    destruct (Z.leb_spec block x),
      (Z.ltb_spec x (block + Z.of_nat (Z.to_nat (TlsManager.block_total host m))));
      cbn [andb]; try reflexivity; lia.
Qed.

Lemma slot_initial j : TlsManager.slot TlsManager.initial j = TlsModule.empty.
Proof.
  unfold TlsManager.slot, TlsManager.initial. cbn [TlsManager.modules_].
  destruct (replicate _ _ !! Z.to_nat j) as [md|] eqn:E; [|reflexivity].
  apply lookup_replicate in E as [-> _]. reflexivity.
Qed.

Lemma slot_one_module j :
  0 <= j < TlsManager.MAX_TLS_MODULES ->
  TlsManager.slot Samples.one_module j
  = if j =? 1 then TlsModule.mk 1 8 16 8 0 0x43000 0xE000 else TlsModule.empty.
Proof.
  intros Hj.
  change Samples.one_module
    with (TlsManager.mk
            (TlsManager.set_slot TlsManager.initial 1
               (TlsModule.mk 1 8 16 8 0 0x43000 0xE000)) 0 16 8).
  rewrite slot_set_slot by (try reflexivity; unfold TlsManager.MAX_TLS_MODULES in *; lia).
  rewrite slot_initial. reflexivity.
Qed.

Lemma fresh_block_of_the_sample_module :
  TlsManager.getBlockForThread Samples.host Samples.one_module
    Samples.thread_with_tdata
  = (0x50000,
     snd (TlsManager.getBlockForThread Samples.host Samples.one_module
            Samples.thread_with_tdata))
  /\ load8 (mem (snd (TlsManager.getBlockForThread Samples.host
                        Samples.one_module Samples.thread_with_tdata)))
       (0x50000 + 0 + 3) = 4
  /\ load8 (mem (snd (TlsManager.getBlockForThread Samples.host
                        Samples.one_module Samples.thread_with_tdata)))
       (0x50000 + 0 + 11) = 0.
Proof.
  assert (Hwf : TlsManager.well_formed Samples.one_module).
  { exact (well_formed_run [TlsManager.Register Samples.tls_image]
             TlsManager.initial well_formed_initial eq_refl). }
  assert (Hfs : forall j, 0 <= j < TlsManager.MAX_TLS_MODULES ->
            TlsModule.filesz (TlsManager.slot Samples.one_module j)
            <= TlsModule.memsz (TlsManager.slot Samples.one_module j)).
  { intros j Hj. rewrite slot_one_module by exact Hj.
    destruct (j =? 1); cbn [TlsModule.memsz TlsModule.filesz TlsModule.empty]; lia. }
  assert (Hsrc : forall j, 0 <= j < TlsManager.MAX_TLS_MODULES ->
            TlsManager.copied Samples.one_module j = true ->
            0 <= TlsModule.init_image (TlsManager.slot Samples.one_module j)
            /\ (TlsModule.init_image (TlsManager.slot Samples.one_module j)
                + TlsModule.filesz (TlsManager.slot Samples.one_module j)
                <= 0x50000
                \/ 0x50000 + TlsManager.block_total Samples.host Samples.one_module
                   <= TlsModule.init_image (TlsManager.slot Samples.one_module j))).
  { intros j Hj _. rewrite slot_one_module by exact Hj.
    destruct (j =? 1); cbn [TlsModule.init_image TlsModule.filesz TlsModule.empty];
      (split; [lia | left; lia]). }
  assert (Hid : TlsModule.module_id (TlsManager.slot Samples.one_module 1) <> 0)
    by (vm_compute; discriminate).
  assert (Htotal : TlsManager.block_total Samples.host Samples.one_module = 24)
    by reflexivity.
  assert (Hroom : 0x50000 + TlsManager.block_total Samples.host Samples.one_module
                  <= 2 ^ 64) by (rewrite Htotal; lia).
  assert (Hstatic : TlsManager.static_size_ Samples.one_module
                    <= TlsManager.block_total Samples.host Samples.one_module)
    by (rewrite Htotal; vm_compute; discriminate).
  pose proof (fresh_block_holds_the_initial_images
                Samples.host Samples.one_module Samples.thread_with_tdata
                0x50000 [] 1 3 Hwf eq_refl eq_refl ltac:(lia)
                Hroom Hstatic Hfs Hsrc
                ltac:(unfold TlsManager.MAX_TLS_MODULES; lia) Hid
                ltac:(vm_compute; split; [discriminate|reflexivity])) as (H1 & _ & _ & H3 & _).
  pose proof (fresh_block_holds_the_initial_images
                Samples.host Samples.one_module Samples.thread_with_tdata
                0x50000 [] 1 11 Hwf eq_refl eq_refl ltac:(lia)
                Hroom Hstatic Hfs Hsrc
                ltac:(unfold TlsManager.MAX_TLS_MODULES; lia) Hid
                ltac:(vm_compute; split; [discriminate|reflexivity])) as (_ & _ & _ & H11 & _).
  split; [rewrite <- H1 at 1; apply surjective_pairing|].
  split; [exact H3 | exact H11].
Defined.

Lemma modules_lie_apart_in_sample_run :
  TlsManager.sizes_fit
    [TlsManager.Register Samples.tls_image; TlsManager.Unregister 0xE000;
     TlsManager.Register Samples.tls_image] TlsManager.initial = true
  /\ TlsManager.well_formed
       (TlsManager.run
          [TlsManager.Register Samples.tls_image; TlsManager.Unregister 0xE000;
           TlsManager.Register Samples.tls_image] TlsManager.initial).
Proof.
  split; [reflexivity|].
  exact (registered_modules_lie_apart
           [TlsManager.Register Samples.tls_image; TlsManager.Unregister 0xE000;
            TlsManager.Register Samples.tls_image] eq_refl).
Defined.

(** X14. Registering an image that owns no slot yet and unregistering it
    again gives back the slot table as it was, so the module id is free for
    the next image, while [static_size_] has grown by at least the
    segment's [p_memsz] and [static_align_max_] has not gone down. *)
Theorem register_then_unregister_restores_the_slots
    (m : TlsManager.t) (image : ElfImage.t) (seg : Elf.ElfPhdr) (i : Z) :
  TlsManager.well_formed m ->
  ElfImage.tls_segment_ image = Some seg ->
  1 <= i < TlsManager.MAX_TLS_MODULES ->
  TlsModule.module_id (TlsManager.slot m i) = 0 ->
  (forall j, 1 <= j < TlsManager.MAX_TLS_MODULES ->
     TlsModule.owner (TlsManager.slot m j) <> ElfImage.this_ image) ->
  TlsManager.size_fits m image = true ->
  let m1 := snd (fst (TlsManager.registerSegment m image)) in
  let m2 := TlsManager.unregisterSegment m1 (ElfImage.this_ image) in
  fst (fst (TlsManager.registerSegment m image)) = true
  /\ TlsManager.modules_ m2 = TlsManager.modules_ m
  /\ TlsManager.static_size_ m + Elf.p_memsz seg <= TlsManager.static_size_ m2
  /\ TlsManager.static_align_max_ m <= TlsManager.static_align_max_ m2.
Proof.
  intros Hwf Hseg Hi Hfree Hown Hfit. cbv zeta.
  pose proof Hwf as (Hlen & Hsize & Hslots & _).
  destruct (search_exists (fun md => TlsModule.module_id md =? 0) m i Hi)
    as (id & Hs & Hid & Hidfree & Hbefore); [apply Z.eqb_eq; exact Hfree|].
  apply Z.eqb_eq in Hidfree.
  assert (Hid' : 0 <= id < TlsManager.MAX_TLS_MODULES) by lia.
  unfold TlsManager.size_fits in Hfit. rewrite Hseg in Hfit.
  unfold TlsManager.registerSegment. rewrite Hseg, Hs. cbv zeta. cbn [fst snd].
  set (align := if Elf.p_align seg =? 0 then 1 else Elf.p_align seg) in *.
  assert (0 <= TlsManager.static_size_ m /\ 0 < align /\ 0 <= Elf.p_memsz seg
          /\ TlsManager.static_size_ m + align - 1 + Elf.p_memsz seg < 2 ^ 64)
    as (H1 & H2 & H3 & H4).
  { repeat (apply andb_true_iff in Hfit; destruct Hfit as [Hfit ?]). lia. }
  pose proof (align_up_bounds (TlsManager.static_size_ m) align H1 H2 ltac:(lia)) as Hb.
  set (offset := Z.land _ _) in *.
  set (md := TlsModule.mk id align (Elf.p_memsz seg) (Elf.p_filesz seg) offset _ _).
  set (m1 := TlsManager.mk _ _ _ _).
  assert (Hfind : TlsManager.search
                    (fun md => TlsModule.owner md =? ElfImage.this_ image) m1
                  = Some id).
  { apply search_first; [lia| |].
    - unfold m1. rewrite slot_set_slot by assumption.
      rewrite Z.eqb_refl. cbn. apply Z.eqb_refl.
    - intros j Hj. unfold m1. rewrite slot_set_slot by (try assumption; lia).
      destruct (Z.eqb_spec j id); [lia|]. apply Z.eqb_neq. apply Hown. lia. }
  unfold TlsManager.unregisterSegment. rewrite Hfind.
  unfold m1.
  cbn [TlsManager.modules_ TlsManager.static_size_ TlsManager.static_align_max_].
  split; [reflexivity|]. split; [|split].
  - unfold TlsManager.set_slot. cbn [TlsManager.modules_].
    unfold TlsManager.set_slot. rewrite list_insert_insert_eq.
    apply list_insert_id.
    destruct (Hslots id Hid') as [Hz _]. specialize (Hz Hidfree).
    unfold TlsManager.slot in Hz.
    destruct (TlsManager.modules_ m !! Z.to_nat id) as [x|] eqn:E.
    + cbn in Hz. congruence.
    + apply lookup_ge_None in E. unfold TlsManager.MAX_TLS_MODULES in *. lia.
  - rewrite wrap64_small by lia. lia.
  - destruct (TlsManager.static_align_max_ m <? align) eqn:E; lia.
Qed.

Lemma register_then_unregister_on_the_sample :
  TlsManager.well_formed TlsManager.initial
  /\ TlsManager.size_fits TlsManager.initial Samples.tls_image = true
  /\ TlsManager.modules_
       (TlsManager.unregisterSegment
          (snd (fst (TlsManager.registerSegment TlsManager.initial
                       Samples.tls_image))) 0xE000)
     = TlsManager.modules_ TlsManager.initial
  /\ 16 <= TlsManager.static_size_
             (TlsManager.unregisterSegment
                (snd (fst (TlsManager.registerSegment TlsManager.initial
                             Samples.tls_image))) 0xE000).
Proof.
  split; [exact well_formed_initial|]. split; [reflexivity|].
  assert (Hfree : TlsModule.module_id (TlsManager.slot TlsManager.initial 1) = 0)
    by (rewrite slot_initial; reflexivity).
  assert (Hown : forall j, 1 <= j < TlsManager.MAX_TLS_MODULES ->
            TlsModule.owner (TlsManager.slot TlsManager.initial j)
            <> ElfImage.this_ Samples.tls_image).
  { intros j _. rewrite slot_initial. discriminate. }
  destruct (register_then_unregister_restores_the_slots
              TlsManager.initial Samples.tls_image Samples.tls_16 1
              well_formed_initial eq_refl
              ltac:(unfold TlsManager.MAX_TLS_MODULES; lia) Hfree Hown eq_refl)
    as (_ & Hmodules & Hsize & _).
  split; [exact Hmodules | exact Hsize].
Defined.


(** The sample thread's block is allocated for the 16 bytes of the sample
    module, 24 with the alignment. Once a second module of 4000 bytes is
    registered, [getAddress] answers for its last byte from the same
    base, 4015 bytes into the block of 24. *)
Example address_past_the_block_after_growth :
  let p' := snd (TlsManager.getBlockForThread Samples.host Samples.one_module
                   Samples.new_thread) in
  let grown := TlsManager.run [TlsManager.Register Samples.second_tls_image]
                 Samples.one_module in
  TlsManager.block_total Samples.host Samples.one_module = 24
  /\ tls_block p' = 0x50000
  /\ TlsModule.offset (TlsManager.slot grown 2) = 16
  /\ TlsManager.getAddress Samples.host grown (Some (TlsIndex.mk 2 3999)) p'
     = (0x50000 + 4015, p').
Proof. cbv zeta. conjuncts; vm_compute; reflexivity. Qed.

Lemma failed_allocation_on_an_empty_heap :
  tls_block (mkProc ∅ 0 []) = 0
  /\ hd 0 (heap (mkProc ∅ 0 [])) = 0
  /\ TlsManager.getAddress Samples.host Samples.one_module
       (Some (TlsIndex.mk 1 4)) (mkProc ∅ 0 [])
     = (0, mkProc ∅ 0 []).
Proof.
  split; [reflexivity|]. split; [reflexivity|].
  exact (proj1 (failed_allocation_gives_null Samples.host Samples.one_module
                  (Some (TlsIndex.mk 1 4)) (mkProc ∅ 0 []) eq_refl eq_refl)).
Defined.

(** ** The symbol cache *)

(** X15. A name that is in the symbol cache is answered from the cache
    alone, whatever images are loaded: a cached hit gives its address and
    image, a cached miss the empty result, and the linker is unchanged. A
    name that is not in the cache is looked up with [findSymbol] and the
    answer is cached, so that asking again gives the same address and
    image, or the empty result again for a miss, and changes nothing; the
    binding is not kept: the second answer has binding 0 also for a weak
    symbol. Entries of other names, the images and the dependencies stay
    as they are. *)
Theorem findSymbolCached_answers_again_from_the_cache
    (host : Host) (fuel : nat) (lk : Linker.t) (name : list Z) :
  (forall e,
      Linker.symbol_cache_ lk !! name = Some e ->
      Linker.findSymbolCached host fuel lk name
      = Some (if SymbolCacheEntry.found e
              then SymbolLookup.mk (SymbolCacheEntry.address e)
                     (SymbolCacheEntry.image e) 0 0
              else SymbolLookup.empty, lk))
  /\ (forall r lk',
        Linker.symbol_cache_ lk !! name = None ->
        Linker.findSymbolCached host fuel lk name = Some (r, lk') ->
        Linker.findSymbol host fuel lk name = Some r
        /\ Linker.findSymbolCached host fuel lk' name
           = Some (if SymbolLookup.valid r
                   then SymbolLookup.mk (SymbolLookup.address r)
                          (SymbolLookup.image r) 0 0
                   else SymbolLookup.empty,
                   lk')
        /\ Linker.main_image_ lk' = Linker.main_image_ lk
        /\ Linker.deps_ lk' = Linker.deps_ lk
        /\ Linker.tls_indices_ lk' = Linker.tls_indices_ lk
        /\ forall other, other <> name ->
             Linker.symbol_cache_ lk' !! other = Linker.symbol_cache_ lk !! other).
Proof.
  unfold Linker.findSymbolCached. split.
  - intros e ->. destruct (SymbolCacheEntry.found e); reflexivity.
  - intros r lk' ->.
    destruct (Linker.findSymbol host fuel lk name) as [res|]; [|discriminate].
    intros [= <- <-]. split; [reflexivity|].
    cbn [Linker.with_cache Linker.symbol_cache_ Linker.main_image_ Linker.deps_
         Linker.tls_indices_].
    rewrite lookup_insert_eq.
    cbn [SymbolCacheEntry.found SymbolCacheEntry.address SymbolCacheEntry.image].
    split; [destruct (SymbolLookup.valid res); reflexivity|].
    split; [reflexivity|]. split; [reflexivity|]. split; [reflexivity|].
    intros other Hne. apply lookup_insert_ne. congruence.
Qed.

(** The second lookup of the weak [f] comes from the cache, without its
    binding. *)
Example cached_lookup_drops_the_binding :
  match Linker.findSymbolCached Samples.host 64 Samples.two_weak Samples.f with
  | Some (r, lk') =>
      r = SymbolLookup.mk 0x10100 0xA000 Elf.STB_WEAK 0
      /\ (fst <$> Linker.findSymbolCached Samples.host 64 lk' Samples.f)
         = Some (SymbolLookup.mk 0x10100 0xA000 0 0)
  | None => False
  end.
Proof. vm_compute. split; reflexivity. Qed.

(** ** Teardown, again *)

Section TeardownAgain.
Import Linker.

Lemma unregister_tls_released (w : World) :
  main_image_ (linker w) = None -> deps_ (linker w) = [] ->
  unregister_tls w = w.
Proof.
  intros Hm Hd. unfold unregister_tls. rewrite Hm, Hd.
  destruct w; reflexivity.
Qed.

Lemma destroy_released (w : World) :
  main_image_ (linker w) = None -> deps_ (linker w) = [] ->
  tls_indices_ (linker w) = [] -> main_map_size_ (linker w) = 0 ->
  is_linked_ (linker w) = false ->
  destroy w = w /\ abandon w = w.
Proof.
  intros Hm Hd Hi Hs Hl.
  destruct w as [[mi ds ms il sc ti] m p ix tr].
  cbn [linker main_image_ deps_ tls_indices_ main_map_size_ is_linked_] in *.
  subst. unfold destroy, abandon, destroy_main_calls, abandon_main_calls,
    free_indices, unregister_tls, munmap_main, emit, with_linker, with_tls,
    release.
  cbn. rewrite !app_nil_r. split; reflexivity.
Qed.

End TeardownAgain.

(** X16. After [destroy] or [abandon] the linker is a default-constructed
    one but for the symbol cache, and a further [destroy] or [abandon]
    does nothing at all: no call is made and no state changes, so nothing
    is unmapped, freed or unregistered twice. *)
Theorem teardown_twice_does_nothing (w : Linker.World) :
  Linker.linker (Linker.destroy w)
  = Linker.with_cache Linker.fresh (Linker.symbol_cache_ (Linker.linker w))
  /\ Linker.linker (Linker.abandon w)
     = Linker.with_cache Linker.fresh (Linker.symbol_cache_ (Linker.linker w))
  /\ Linker.destroy (Linker.destroy w) = Linker.destroy w
  /\ Linker.abandon (Linker.destroy w) = Linker.destroy w
  /\ Linker.destroy (Linker.abandon w) = Linker.abandon w
  /\ Linker.abandon (Linker.abandon w) = Linker.abandon w.
Proof.
  assert (Hd : Linker.linker (Linker.destroy w)
               = Linker.with_cache Linker.fresh
                   (Linker.symbol_cache_ (Linker.linker w))) by reflexivity.
  assert (Ha : Linker.linker (Linker.abandon w)
               = Linker.with_cache Linker.fresh
                   (Linker.symbol_cache_ (Linker.linker w))) by reflexivity.
  split; [exact Hd|]. split; [exact Ha|].
  destruct (destroy_released (Linker.destroy w)) as [H1 H2];
    try (rewrite Hd; reflexivity).
  destruct (destroy_released (Linker.abandon w)) as [H3 H4];
    try (rewrite Ha; reflexivity).
  auto.
Qed.

(** ** Constructors and destructors *)

Section CallOrder.
Import Linker.

Lemma constructor_calls_proc img (w w' : World) :
  proc w' = proc w -> constructor_calls img w' = constructor_calls img w.
Proof.
  intros Hp. unfold constructor_calls, fn_array, read. rewrite Hp. reflexivity.
Qed.

Lemma fold_constructors_trace imgs :
  forall w0 w : World,
    proc w = proc w0 ->
    trace (fold_left (fun w img => callConstructors img w) imgs w)
    = trace w ++ concat (map (fun img => constructor_calls img w0) imgs).
Proof.
  induction imgs as [|img imgs IH]; intros w0 w Hp.
  - cbn. rewrite app_nil_r. reflexivity.
  - cbn [fold_left map concat]. rewrite (IH w0) by exact Hp.
    cbn [callConstructors emit trace].
    rewrite (constructor_calls_proc img w0 w Hp), app_assoc. reflexivity.
Qed.

Lemma filter_calls_all (fns : list Z) :
  List.filter is_call (map Call fns) = map Call fns.
Proof. induction fns as [|f fns IH]; [reflexivity|]. cbn. rewrite IH. reflexivity. Qed.

Lemma filter_calls_destructors img w :
  List.filter is_call (unregister_backtrace img ++ destructor_calls img w)
  = destructor_calls img w.
Proof.
  cbn. unfold destructor_calls. rewrite List.filter_app.
  destruct (ElfImage.fini_array_ img =? 0), (ElfImage.fini_func_ img =? 0);
    rewrite ?filter_calls_all; reflexivity.
Qed.

Lemma filter_calls_deps w deps :
  List.filter is_call (concat (map (destroy_dep_calls w) deps))
  = concat (map (fun img => destructor_calls img w) (manual_images deps)).
Proof.
  induction deps as [|dep deps IH]; [reflexivity|].
  cbn [map concat]. rewrite List.filter_app, IH.
  unfold manual_images at 2. cbn [omap list_omap]. fold (manual_images deps).
  unfold destroy_dep_calls.
  destruct (LoadedDep.is_manual_load dep), (LoadedDep.image dep) as [img|];
    try reflexivity.
  cbn [map concat]. rewrite filter_calls_destructors. reflexivity.
Qed.

Lemma manual_images_rev deps :
  manual_images (rev deps) = rev (manual_images deps).
Proof.
  unfold manual_images. induction deps as [|dep deps IH]; [reflexivity|].
  cbn [rev omap list_omap]. rewrite omap_app, IH. cbn [omap list_omap].
  destruct (if LoadedDep.is_manual_load dep then LoadedDep.image dep else None);
    cbn [rev]; [reflexivity|]. rewrite app_nil_r. reflexivity.
Qed.

Lemma filter_calls_none_munmap deps :
  List.filter is_call (concat (map munmap_dep deps)) = [].
Proof.
  induction deps as [|dep deps IH]; [reflexivity|].
  cbn [map concat]. rewrite List.filter_app, IH. unfold munmap_dep.
  destruct (_ && _); reflexivity.
Qed.

Lemma filter_calls_none_delete tis :
  List.filter is_call (map Delete tis) = [].
Proof. induction tis as [|t tis IH]; [reflexivity|exact IH]. Qed.

Lemma filter_calls_none_abandon deps :
  List.filter is_call (concat (map abandon_dep_calls deps)) = [].
Proof.
  induction deps as [|dep deps IH]; [reflexivity|].
  cbn [map concat]. rewrite List.filter_app, IH. unfold abandon_dep_calls.
  destruct (LoadedDep.image dep), (LoadedDep.is_manual_load dep); reflexivity.
Qed.

End CallOrder.

(** X17. [link] runs the constructors of the manually loaded dependencies
    in load order and then those of the main image; [destroy] on a linked
    library runs the destructors of the same images in the reverse order,
    the main image first; [abandon] calls none. *)
Theorem destructors_run_in_reverse_construction_order (w : Linker.World) :
  Linker.since w (Linker.run_constructors w)
  = concat (map (fun img => Linker.constructor_calls img w)
                (Linker.construction_order (Linker.linker w)))
  /\ (Linker.is_linked_ (Linker.linker w) = true ->
      List.filter Linker.is_call (Linker.since w (Linker.destroy w))
      = concat (map (fun img => Linker.destructor_calls img w)
                    (rev (Linker.construction_order (Linker.linker w)))))
  /\ List.filter Linker.is_call (Linker.since w (Linker.abandon w)) = [].
Proof.
  split; [|split].
  - apply since_app. unfold Linker.run_constructors, Linker.construction_order.
    destruct (fold_constructors_frame
                (Linker.manual_images (Linker.deps_ (Linker.linker w))) w)
      as [Hp Hl].
    rewrite Hl, map_app, concat_app.
    destruct (Linker.main_image_ (Linker.linker w)) as [img|].
    + cbn [Linker.callConstructors Linker.emit Linker.trace].
      rewrite (fold_constructors_trace _ w w eq_refl).
      rewrite (constructor_calls_proc img w _ Hp).
      cbn [map concat]. rewrite app_nil_r, app_assoc. reflexivity.
    + rewrite (fold_constructors_trace _ w w eq_refl).
      cbn [map concat]. rewrite app_nil_r. reflexivity.
  - intros Hlinked.
    destruct (destroy_parts w) as (_ & _ & _ & _ & Htrace).
    rewrite (since_app _ _ _ Htrace).
    rewrite !List.filter_app, filter_calls_deps, filter_calls_none_delete,
      filter_calls_none_munmap, manual_images_rev.
    unfold Linker.construction_order, Linker.destroy_main_calls, Linker.munmap_main.
    rewrite Hlinked, rev_app_distr.
    destruct (Linker.main_image_ (Linker.linker w)) as [img|].
    + rewrite filter_calls_destructors.
      destruct (0 <? _); cbn [rev app map concat List.filter Linker.is_call];
        rewrite ?app_nil_r; reflexivity.
    + cbn [rev app map concat List.filter]. rewrite ?app_nil_r. reflexivity.
  - destruct (abandon_parts w) as (_ & _ & _ & _ & Htrace).
    rewrite (since_app _ _ _ Htrace).
    rewrite !List.filter_app, filter_calls_none_abandon, filter_calls_none_delete.
    unfold Linker.abandon_main_calls.
    destruct (Linker.main_image_ (Linker.linker w)), (Linker.is_linked_ (Linker.linker w));
      reflexivity.
Qed.

(** ** Relocations, one by one *)

Lemma store_le_outside (n : nat) : forall (m : Mem) (a v a' : Z),
  a' < a \/ a + Z.of_nat n <= a' -> load8 (store_le m a n v) a' = load8 m a'.
Proof.
  induction n as [|n IH]; intros m a v a' Hout; cbn [store_le]; [reflexivity|].
  rewrite IH by lia. unfold load8. rewrite lookup_insert_ne by lia. reflexivity.
Qed.

Section OneRelocation.
Import Linker.
Variable host : Host.
Variable fuel : nat.

Lemma write_word (w : World) (target v : Z) :
  read (write w target v) target = wrap64 v
  /\ only_word_changed w (write w target v) target.
Proof.
  split; [apply load64_store64|].
  unfold only_word_changed. conjuncts; try reflexivity.
  intros a Ha. unfold write, with_mem, with_proc, with_linker. cbn [proc mem].
  unfold store64. apply store_le_outside. change (Z.of_nat 8) with 8. lia.
Qed.

Lemma write_word_with_linker (w : World) (lk : t) (target v : Z) :
  read (write (with_linker w lk) target v) target = wrap64 v
  /\ linker (write (with_linker w lk) target v) = lk
  /\ forall a, a < target \/ target + 8 <= a ->
       load8 (mem (proc (write (with_linker w lk) target v))) a
       = load8 (mem (proc w)) a.
Proof.
  split; [apply load64_store64|]. split; [reflexivity|].
  intros a Ha. unfold write, with_mem, with_proc, with_linker. cbn [proc mem].
  unfold store64. apply store_le_outside. change (Z.of_nat 8) with 8. lia.
Qed.

End OneRelocation.

(** X18. A relocation that names no symbol: [R_AARCH64_RELATIVE] stores the
    load bias plus the addend (for REL entries, plus the word that was
    there), [R_AARCH64_IRELATIVE] stores what the resolver at that address
    returns; the word reads back and nothing else changes. Every other
    type that is not one of the seven symbolic ones changes nothing. *)
Theorem relocation_without_symbol_rebases_the_word
    (host : Host) (fuel : nat)
    (sym_idx type offset addend load_bias dynsym dynstr : Z) (is_rela : bool)
    (w : Linker.World) :
  let target := wrap64 (load_bias + offset) in
  let value :=
    wrap64 (load_bias + (if is_rela then addend else Linker.read w target)) in
  let after :=
    Linker.processRelocation host fuel sym_idx type offset addend load_bias
      dynsym dynstr is_rela w in
  (type = Linker.R_AARCH64_RELATIVE ->
     exists w', after = Some w' /\ Linker.read w' target = value
                /\ Linker.only_word_changed w w' target)
  /\ (type = Linker.R_AARCH64_IRELATIVE ->
     exists w', after = Some w'
                /\ Linker.read w' target = wrap64 (call_resolver host value)
                /\ Linker.only_word_changed w w' target)
  /\ (Linker.is_symbolic type = false ->
      type <> Linker.R_AARCH64_RELATIVE ->
      type <> Linker.R_AARCH64_IRELATIVE ->
      after = Some w).
Proof.
  intros target value after. split; [|split].
  - intros ->. eexists. split; [reflexivity|].
    destruct (write_word w target value) as [Hread Hkept].
    split; [|exact Hkept]. etransitivity; [exact Hread|apply wrap64_idem].
  - intros ->. eexists. split; [reflexivity|].
    apply write_word.
  - intros Hsym Hrel Hirel. subst after. unfold Linker.processRelocation.
    rewrite Hsym.
    destruct (type =? Linker.R_AARCH64_NONE); [reflexivity|].
    destruct (type =? Linker.R_AARCH64_COPY); [reflexivity|].
    destruct (Z.eqb_spec type Linker.R_AARCH64_RELATIVE); [contradiction|].
    destruct (Z.eqb_spec type Linker.R_AARCH64_IRELATIVE); [contradiction|].
    reflexivity.
Qed.

(** X19. A relocation whose symbol resolves: a reference to
    [dl_iterate_phdr] or [dladdr] is bound to the loader's own function
    whatever the symbolic type and whatever the lookup found;
    for any other name [R_AARCH64_GLOB_DAT] and [R_AARCH64_JUMP_SLOT] store
    the address found and [R_AARCH64_ABS64] stores it plus the addend (for
    REL entries, plus the word that was there). The word reads back, bytes
    outside it are kept and the linker is the one the lookup left. *)
Theorem resolved_symbol_is_bound
    (host : Host) (fuel : nat)
    (sym_idx type offset addend load_bias dynsym dynstr : Z) (is_rela : bool)
    (w : Linker.World) (name : list Z) (sym : SymbolLookup.t) (lk' : Linker.t) :
  Linker.is_symbolic type = true ->
  Linker.symbol_name fuel w dynsym dynstr sym_idx = Some name ->
  Linker.findSymbolCached host fuel (Linker.linker w) name = Some (sym, lk') ->
  SymbolLookup.valid sym = true ->
  let target := wrap64 (load_bias + offset) in
  let bound (v : Z) :=
    exists w',
      Linker.processRelocation host fuel sym_idx type offset addend load_bias
        dynsym dynstr is_rela w = Some w'
      /\ Linker.read w' target = wrap64 v
      /\ Linker.linker w' = lk'
      /\ forall a, a < target \/ target + 8 <= a ->
           load8 (mem (Linker.proc w')) a = load8 (mem (Linker.proc w)) a in
  (name = bytes_of "dl_iterate_phdr" -> bound (customDlIteratePhdr_addr host))
  /\ (name = bytes_of "dladdr" -> bound (customDladdr_addr host))
  /\ (name <> bytes_of "dl_iterate_phdr" -> name <> bytes_of "dladdr" ->
      (type = Linker.R_AARCH64_GLOB_DAT \/ type = Linker.R_AARCH64_JUMP_SLOT ->
       bound (SymbolLookup.address sym))
      /\ (type = Linker.R_AARCH64_ABS64 ->
          bound (SymbolLookup.address sym
                 + (if is_rela then addend else Linker.read w target)))).
Proof.
  intros Hsym Hname Hfind Hvalid target bound.
  destruct (is_symbolic_dispatch type Hsym) as (E1 & E2 & E3 & E4).
  assert (Hstep : forall P : option Linker.World -> Prop,
    P (if bool_decide (name = bytes_of "dl_iterate_phdr")
       then Some (Linker.write (Linker.with_linker w lk') target
                    (customDlIteratePhdr_addr host))
       else if bool_decide (name = bytes_of "dladdr")
       then Some (Linker.write (Linker.with_linker w lk') target
                    (customDladdr_addr host))
       else Linker.bind_symbol host type target
              (Linker.read w (wrap64 (dynsym + Linker.sizeof_ElfSym * sym_idx) + 8))
              addend is_rela sym (Linker.with_linker w lk')) ->
    P (Linker.processRelocation host fuel sym_idx type offset addend load_bias
         dynsym dynstr is_rela w)).
  { intros P HP. unfold Linker.processRelocation.
    rewrite E1, E2, E3, E4, Hsym, Hname, Hfind, Hvalid. exact HP. }
  split; [|split].
  - intros Hn. unfold bound. apply Hstep.
    rewrite bool_decide_eq_true_2 by exact Hn.
    eexists. split; [reflexivity|]. apply write_word_with_linker.
  - intros Hn. unfold bound. apply Hstep.
    destruct (bool_decide (name = bytes_of "dl_iterate_phdr")) eqn:Hd.
    + apply bool_decide_eq_true_1 in Hd. rewrite Hn in Hd.
      vm_compute in Hd. discriminate Hd.
    + rewrite bool_decide_eq_true_2 by exact Hn.
      eexists. split; [reflexivity|]. apply write_word_with_linker.
  - intros Hn1 Hn2. split.
    + intros Htype. unfold bound. apply Hstep.
      rewrite !bool_decide_eq_false_2 by assumption.
      unfold Linker.bind_symbol.
      assert (Hb : (type =? Linker.R_AARCH64_GLOB_DAT)
                   || (type =? Linker.R_AARCH64_JUMP_SLOT) = true).
      { destruct Htype as [-> | ->]; reflexivity. }
      rewrite Hb. eexists. split; [reflexivity|]. apply write_word_with_linker.
    + intros ->. unfold bound. apply Hstep.
      rewrite !bool_decide_eq_false_2 by assumption.
      unfold Linker.bind_symbol. cbn [Z.eqb Linker.R_AARCH64_ABS64 orb].
      change (257 =? Linker.R_AARCH64_GLOB_DAT) with false.
      change (257 =? Linker.R_AARCH64_JUMP_SLOT) with false.
      change (257 =? 257) with true. cbn [orb].
      eexists. split; [reflexivity|].
      destruct (write_word_with_linker w lk' target
                  (wrap64 (SymbolLookup.address sym
                           + (if is_rela then addend
                              else Linker.read (Linker.with_linker w lk') target))))
        as (Hread & Hlk & Hframe).
      split; [|split; [exact Hlk|exact Hframe]].
      etransitivity; [exact Hread|apply wrap64_idem].
Qed.

(** The JUMP_SLOT of [plugin] for [f] on the sample. *)
Lemma resolved_symbol_on_the_sample :
  Linker.is_symbolic Linker.R_AARCH64_JUMP_SLOT = true
  /\ Linker.symbol_name Samples.fuel Samples.reloaded 0x62000 0x63000 1
     = Some Samples.f
  /\ Linker.findSymbolCached Samples.host Samples.fuel
       (Linker.linker Samples.reloaded) Samples.f
     = Some (SymbolLookup.mk 0x20200 0xB000 0 0, Linker.linker Samples.reloaded)
  /\ SymbolLookup.valid (SymbolLookup.mk 0x20200 0xB000 0 0) = true
  /\ exists w',
       Linker.processRelocation Samples.host Samples.fuel
         1 Linker.R_AARCH64_JUMP_SLOT 0x5000 0 0x60000 0x62000 0x63000 true
         Samples.reloaded = Some w'
       /\ Linker.read w' 0x65000 = 0x20200
       /\ Linker.linker w' = Linker.linker Samples.reloaded.
Proof.
  assert (H1 : Linker.is_symbolic Linker.R_AARCH64_JUMP_SLOT = true)
    by reflexivity.
  assert (H2 : Linker.symbol_name Samples.fuel Samples.reloaded 0x62000 0x63000 1
               = Some Samples.f) by (vm_compute; reflexivity).
  assert (H3 : Linker.findSymbolCached Samples.host Samples.fuel
                 (Linker.linker Samples.reloaded) Samples.f
               = Some (SymbolLookup.mk 0x20200 0xB000 0 0,
                       Linker.linker Samples.reloaded))
    by (vm_compute; reflexivity).
  assert (H4 : SymbolLookup.valid (SymbolLookup.mk 0x20200 0xB000 0 0) = true)
    by reflexivity.
  split; [exact H1|]. split; [exact H2|]. split; [exact H3|]. split; [exact H4|].
  destruct (resolved_symbol_is_bound Samples.host Samples.fuel
              1 Linker.R_AARCH64_JUMP_SLOT 0x5000 0 0x60000 0x62000 0x63000 true
              Samples.reloaded Samples.f _ _ H1 H2 H3 H4) as (_ & _ & Hbind).
  destruct Hbind as [Hslot _].
  - vm_compute. discriminate.
  - vm_compute. discriminate.
  - destruct (Hslot (or_intror eq_refl)) as (w' & Hafter & Hread & Hlk & _).
    exists w'. split; [exact Hafter|]. split; [exact Hread|exact Hlk].
Defined.

(** ** Android packed relocations *)

Section AndroidFacts.
Import Linker.
Variable host : Host.
Variable fuel : nat.
Variable shl_undef : Z -> Z -> Z.

Lemma decodeUnsigned_at_end (mm : Mem) (end_ : Z) :
  dec_decodeUnsigned shl_undef mm end_ end_ = (0, end_).
Proof.
  unfold dec_decodeUnsigned, span_of. rewrite Z.sub_diag.
  change (Z.to_nat 0) with O.
  unfold Sleb128Decoder.decodeUnsigned, mem_bytes.
  cbn [seq map Sleb128Decoder.span Sleb128Decoder.decodeUnsigned_loop length].
  change (Z.of_nat 0) with 0. rewrite Z.sub_0_r. reflexivity.
Qed.

Lemma android_loop_at_end load_bias dynsym dynstr end_ is_rela n :
  forall num_relocs i r_offset w,
    0 <= i < 2 ^ 64 -> i < num_relocs ->
    android_loop host fuel shl_undef load_bias dynsym dynstr end_ is_rela n
      num_relocs i end_ r_offset w = None.
Proof.
  induction n as [|n IH]; intros num_relocs i r_offset w Hi Hlt; [reflexivity|].
  cbn [android_loop].
  destruct (Z.leb_spec num_relocs i) as [Hle|_]; [lia|].
  rewrite !decodeUnsigned_at_end.
  change (flag 0 GROUPED_BY_OFFSET_DELTA) with false.
  change (flag 0 GROUPED_BY_INFO) with false.
  change (flag 0 HAS_ADDEND) with false.
  rewrite andb_false_r. cbn [andb Z.to_nat android_group].
  rewrite Z.add_0_r, wrap64_small by exact Hi.
  apply IH; assumption.
Qed.

End AndroidFacts.

(** X20. Android packed relocations that end early: once the decoder has
    used up its bytes while fewer than [num_relocs] entries are done, every
    further group decodes as empty, [i] stays where it is and the loop
    never ends, whatever the number of iterations allowed. *)
Theorem android_loop_never_ends_on_a_short_stream
    (host : Host) (fuel : nat) (shl_undef : Z -> Z -> Z)
    (load_bias dynsym dynstr end_ : Z) (is_rela : bool)
    (num_relocs i r_offset : Z) (w : Linker.World) :
  0 <= i < 2 ^ 64 -> i < num_relocs ->
  forall n,
    Linker.android_loop host fuel shl_undef load_bias dynsym dynstr end_
      is_rela n num_relocs i end_ r_offset w = None.
Proof.
  intros Hi Hlt n. apply android_loop_at_end; assumption.
Qed.

Lemma android_loop_on_an_empty_stream :
  (0 <= 0 < 2 ^ 64) /\ 0 < 5
  /\ forall n,
       Linker.android_loop Samples.host Samples.fuel Samples.shl_undef
         0x60000 0x62000 0x63000 0x64006 true n 5 0 0x64006 0
         Samples.before_link = None.
Proof.
  split; [lia|]. split; [lia|].
  apply (android_loop_never_ends_on_a_short_stream Samples.host Samples.fuel
           Samples.shl_undef 0x60000 0x62000 0x63000 0x64006 true 5 0 0
           Samples.before_link); lia.
Defined.

(** A packed table that announces five relocations and then ends:
    [processRelocations] does not get past it. *)
Example android_relocs_on_a_short_table (fuel : nat) :
  let w :=
    Linker.with_mem Samples.before_link
      (Samples.poke8s (mem (Linker.proc Samples.before_link)) 0x70000
         (bytes_of "APS2" ++ [5; 0])) in
  let tb :=
    Linker.mkTables 0 0 0 0 0 0 0 0 0 0 0 0x62000 0x63000 0x70000 6 true in
  Linker.android_relocs Samples.host fuel Samples.shl_undef 0x60000 tb w = None.
Proof.
  intros w tb. unfold Linker.android_relocs.
  change (negb (Linker.android_reloc tb =? 0) && (4 <? Linker.android_reloc_sz tb))
    with true. cbv iota.
  assert (Hmagic : Linker.mem_bytes (mem (Linker.proc w)) (Linker.android_reloc tb) 4
                   = Linker.APS2) by (vm_compute; reflexivity).
  rewrite bool_decide_eq_true_2 by exact Hmagic.
  assert (Hnum : Linker.dec_decodeUnsigned Samples.shl_undef (mem (Linker.proc w))
                   (Linker.android_reloc tb + 4)
                   (Linker.android_reloc tb + 4 + (Linker.android_reloc_sz tb - 4))
                 = (5, 0x70005)) by (vm_compute; reflexivity).
  assert (Hoff : Linker.dec_decode Samples.shl_undef (mem (Linker.proc w)) 0x70005
                   (Linker.android_reloc tb + 4 + (Linker.android_reloc_sz tb - 4))
                 = (0, 0x70006)) by (vm_compute; reflexivity).
  cbv zeta. rewrite Hnum, Hoff.
  change (Linker.android_reloc tb + 4 + (Linker.android_reloc_sz tb - 4))
    with 0x70006.
  rewrite android_loop_at_end by (change (wrap64 0) with 0; lia). reflexivity.
Qed.

(** ** TLS relocations *)

Lemma load_le_store_le_apart (n : nat) : forall (m : Mem) (a a' v : Z) (n' : nat),
  a + Z.of_nat n <= a' \/ a' + Z.of_nat n' <= a ->
  load_le (store_le m a' n' v) a n = load_le m a n.
Proof.
  induction n as [|n IH]; intros m a a' v n' Hout; [reflexivity|].
  cbn [load_le]. rewrite IH by lia. rewrite store_le_outside by lia.
  reflexivity.
Qed.

Lemma next_word_apart (target : Z) :
  0 <= target < 2 ^ 64 ->
  target + 8 <= wrap64 (target + 8) \/ wrap64 (target + 8) + 8 <= target.
Proof.
  intros Ht. destruct (Z_lt_ge_dec (target + 8) (2 ^ 64)) as [Hlt|Hge].
  - left. rewrite wrap64_small by lia. lia.
  - right. unfold wrap64.
    rewrite <- (Z.mod_add (target + 8) (-1) (2 ^ 64)) by lia.
    rewrite Z.mod_small by lia. lia.
Qed.

Section Descriptor.
Import Linker.

Lemma write_two_words (w : World) (target a b : Z) :
  0 <= target < 2 ^ 64 ->
  let w' := write (write w target a) (wrap64 (target + 8)) b in
  read w' target = wrap64 a /\ read w' (wrap64 (target + 8)) = wrap64 b.
Proof.
  intros Ht w'. split.
  - unfold w', read, write, with_mem, with_proc. cbn [proc mem].
    unfold load64, store64 at 1.
    rewrite load_le_store_le_apart
      by (change (Z.of_nat 8) with 8; pose proof (next_word_apart target Ht); lia).
    apply load64_store64.
  - apply load64_store64.
Qed.

End Descriptor.

(** X21. [R_AARCH64_TLSDESC] for a symbol that resolves: when the symbol
    comes from a loaded image the two words of the descriptor become the
    address of [dynamic_tls_resolver] and a newly allocated [TlsIndex]
    holding the module id of that image and [st_value + addend], and the
    index is appended to [tls_indices_], the list teardown frees; when the
    symbol comes from [dlsym] (no image) both words become 0 and nothing
    is allocated. *)
Theorem tlsdesc_relocation_fills_the_descriptor
    (host : Host) (fuel : nat)
    (sym_idx offset addend load_bias dynsym dynstr : Z) (is_rela : bool)
    (w : Linker.World) (name : list Z) (sym : SymbolLookup.t) (lk' : Linker.t) :
  Linker.symbol_name fuel w dynsym dynstr sym_idx = Some name ->
  Linker.findSymbolCached host fuel (Linker.linker w) name = Some (sym, lk') ->
  SymbolLookup.valid sym = true ->
  name <> bytes_of "dl_iterate_phdr" -> name <> bytes_of "dladdr" ->
  let target := wrap64 (load_bias + offset) in
  let st_value :=
    Linker.read w (wrap64 (dynsym + Linker.sizeof_ElfSym * sym_idx) + 8) in
  let after :=
    Linker.processRelocation host fuel sym_idx Linker.R_AARCH64_TLSDESC offset
      addend load_bias dynsym dynstr is_rela w in
  (SymbolLookup.image sym = 0 ->
     exists w', after = Some w'
       /\ Linker.read w' target = 0
       /\ Linker.read w' (wrap64 (target + 8)) = 0
       /\ Linker.tls_indices_ (Linker.linker w') = Linker.tls_indices_ lk'
       /\ Linker.indices w' = Linker.indices w
       /\ heap (Linker.proc w') = heap (Linker.proc w))
  /\ (forall img ti later,
        SymbolLookup.image sym <> 0 ->
        Linker.deref lk' (SymbolLookup.image sym) = Some img ->
        heap (Linker.proc w) = ti :: later -> ti <> 0 ->
        exists w', after = Some w'
          /\ Linker.read w' target = wrap64 (dynamic_tls_resolver_addr host)
          /\ Linker.read w' (wrap64 (target + 8)) = wrap64 ti
          /\ Linker.indices w' !! ti
             = Some (TlsIndex.mk (ElfImage.tls_mod_id_ img)
                                 (wrap64 (st_value + addend)))
          /\ Linker.tls_indices_ (Linker.linker w')
             = Linker.tls_indices_ lk' ++ [ti]
          /\ heap (Linker.proc w') = later).
Proof.
  intros Hname Hfind Hvalid Hn1 Hn2 target st_value after.
  assert (Ht : 0 <= target < 2 ^ 64) by apply wrap64_range.
  assert (Hafter : after
    = Linker.bind_symbol host Linker.R_AARCH64_TLSDESC target st_value addend
        is_rela sym (Linker.with_linker w lk')).
  { subst after. unfold Linker.processRelocation.
    change (Linker.R_AARCH64_TLSDESC =? Linker.R_AARCH64_NONE) with false.
    change (Linker.R_AARCH64_TLSDESC =? Linker.R_AARCH64_COPY) with false.
    change (Linker.R_AARCH64_TLSDESC =? Linker.R_AARCH64_RELATIVE) with false.
    change (Linker.R_AARCH64_TLSDESC =? Linker.R_AARCH64_IRELATIVE) with false.
    change (Linker.is_symbolic Linker.R_AARCH64_TLSDESC) with true.
    cbv iota. rewrite Hname, Hfind, Hvalid.
    rewrite !bool_decide_eq_false_2 by assumption. reflexivity. }
  assert (Hbind : forall st w0,
    Linker.bind_symbol host Linker.R_AARCH64_TLSDESC target st addend is_rela sym w0
    = if SymbolLookup.image sym =? 0
      then Some (Linker.write (Linker.write w0 target 0) (wrap64 (target + 8)) 0)
      else
        match Linker.deref (Linker.linker w0) (SymbolLookup.image sym) with
        | None => None
        | Some img =>
            match Linker.allocateIndex img st addend w0 with
            | None => None
            | Some (ti, w1) =>
                let w1 := Linker.write w1 target (dynamic_tls_resolver_addr host) in
                let w1 := Linker.write w1 (wrap64 (target + 8)) ti in
                Some (Linker.with_linker w1
                        (Linker.push_index (Linker.linker w1) ti))
            end
        end) by reflexivity.
  rewrite Hafter, Hbind. split.
  - intros Himg. rewrite Himg. change (0 =? 0) with true. cbv iota.
    eexists. split; [reflexivity|].
    destruct (write_two_words (Linker.with_linker w lk') target 0 0 Ht)
      as [H0 H1].
    split; [exact H0|]. split; [exact H1|]. conjuncts; reflexivity.
  - intros img ti later Himg Hderef Hheap Hti.
    destruct (Z.eqb_spec (SymbolLookup.image sym) 0) as [|_]; [contradiction|].
    change (Linker.linker (Linker.with_linker w lk')) with lk'.
    rewrite Hderef. unfold Linker.allocateIndex.
    change (Linker.proc (Linker.with_linker w lk')) with (Linker.proc w).
    rewrite Hheap.
    destruct (Z.eqb_spec ti 0) as [|_]; [contradiction|].
    eexists. split; [reflexivity|].
    match goal with
    | |- Linker.read (Linker.with_linker (Linker.write (Linker.write ?w0 _ ?a) _ ?b) _) _ = _ /\ _ =>
        destruct (write_two_words w0 target a b Ht) as [H0 H1]
    end.
    split; [exact H0|]. split; [exact H1|].
    split; [apply lookup_insert_eq|]. split; reflexivity.
Qed.

Lemma tlsdesc_on_the_linked_sample :
  Linker.symbol_name Samples.fuel Samples.linked_with_heap 0x12000 0x13000 1
  = Some Samples.f
  /\ Linker.findSymbolCached Samples.host Samples.fuel
       (Linker.linker Samples.linked_with_heap) Samples.f
     = Some (SymbolLookup.mk 0x20200 0xB000 0 0,
             Linker.linker Samples.linked_with_heap)
  /\ SymbolLookup.valid (SymbolLookup.mk 0x20200 0xB000 0 0) = true
  /\ Samples.f <> bytes_of "dl_iterate_phdr"
  /\ Samples.f <> bytes_of "dladdr"
  /\ exists w',
       Linker.processRelocation Samples.host Samples.fuel
         1 Linker.R_AARCH64_TLSDESC 0x5000 0 0x10000 0x12000 0x13000 true
         Samples.linked_with_heap = Some w'
       /\ Linker.read w' 0x15000 = 0xD300
       /\ Linker.read w' 0x15008 = 0x9000
       /\ Linker.indices w' !! 0x9000 = Some (TlsIndex.mk 0 0)
       /\ Linker.tls_indices_ (Linker.linker w') = [0x9000].
Proof.
  assert (H1 : Linker.symbol_name Samples.fuel Samples.linked_with_heap
                 0x12000 0x13000 1 = Some Samples.f)
    by (vm_compute; reflexivity).
  assert (H2 : Linker.findSymbolCached Samples.host Samples.fuel
                 (Linker.linker Samples.linked_with_heap) Samples.f
               = Some (SymbolLookup.mk 0x20200 0xB000 0 0,
                       Linker.linker Samples.linked_with_heap))
    by (vm_compute; reflexivity).
  assert (H3 : SymbolLookup.valid (SymbolLookup.mk 0x20200 0xB000 0 0) = true)
    by reflexivity.
  assert (H4 : Samples.f <> bytes_of "dl_iterate_phdr")
    by (vm_compute; discriminate).
  assert (H5 : Samples.f <> bytes_of "dladdr") by (vm_compute; discriminate).
  split; [exact H1|]. split; [exact H2|]. split; [exact H3|].
  split; [exact H4|]. split; [exact H5|].
  assert (Hmod : ElfImage.tls_mod_id_ <$>
                   Linker.deref (Linker.linker Samples.linked_with_heap) 0xB000
                 = Some 0) by (vm_compute; reflexivity).
  assert (Hst : Linker.read Samples.linked_with_heap
                  (wrap64 (0x12000 + Linker.sizeof_ElfSym * 1) + 8) = 0)
    by (vm_compute; reflexivity).
  assert (Hold : Linker.tls_indices_ (Linker.linker Samples.linked_with_heap) = [])
    by (vm_compute; reflexivity).
  destruct (Linker.deref (Linker.linker Samples.linked_with_heap) 0xB000)
    as [img|] eqn:Hderef; [|discriminate Hmod].
  injection Hmod as Hmod.
  destruct (tlsdesc_relocation_fills_the_descriptor Samples.host Samples.fuel
              1 0x5000 0 0x10000 0x12000 0x13000 true Samples.linked_with_heap
              Samples.f _ _ H1 H2 H3 H4 H5) as [_ Hdesc].
  destruct (Hdesc img 0x9000 []) as (w' & Hafter & Hr0 & Hr1 & Hidx & Hlist & _).
  - cbn. discriminate.
  - exact Hderef.
  - reflexivity.
  - discriminate.
  - exists w'. split; [exact Hafter|]. split; [exact Hr0|]. split; [exact Hr1|].
    rewrite Hidx, Hmod, Hst, Hlist, Hold. split; reflexivity.
Defined.

(** X22. The pair of words [__tls_get_addr] is called with, for a symbol
    that resolves: [R_AARCH64_TLS_DTPMOD] stores the TLS module id of the
    image the symbol was found in, and 0 when that image has no TLS
    segment or the symbol came from [dlsym]; [R_AARCH64_TLS_DTPREL] stores
    [st_value + addend] of the relocation's own symbol entry. The word
    reads back and every byte outside it is kept. *)
Theorem tls_pair_relocations_store_module_and_offset
    (host : Host) (fuel : nat)
    (sym_idx offset addend load_bias dynsym dynstr : Z) (is_rela : bool)
    (w : Linker.World) (name : list Z) (sym : SymbolLookup.t) (lk' : Linker.t) :
  Linker.symbol_name fuel w dynsym dynstr sym_idx = Some name ->
  Linker.findSymbolCached host fuel (Linker.linker w) name = Some (sym, lk') ->
  SymbolLookup.valid sym = true ->
  name <> bytes_of "dl_iterate_phdr" -> name <> bytes_of "dladdr" ->
  let target := wrap64 (load_bias + offset) in
  let st_value :=
    Linker.read w (wrap64 (dynsym + Linker.sizeof_ElfSym * sym_idx) + 8) in
  let stores (type v : Z) :=
    exists w',
      Linker.processRelocation host fuel sym_idx type offset addend load_bias
        dynsym dynstr is_rela w = Some w'
      /\ Linker.read w' target = wrap64 v
      /\ Linker.linker w' = lk'
      /\ forall a, a < target \/ target + 8 <= a ->
           load8 (mem (Linker.proc w')) a = load8 (mem (Linker.proc w)) a in
  stores Linker.R_AARCH64_TLS_DTPREL (st_value + addend)
  /\ (SymbolLookup.image sym = 0 -> stores Linker.R_AARCH64_TLS_DTPMOD 0)
  /\ (forall img,
        SymbolLookup.image sym <> 0 ->
        Linker.deref lk' (SymbolLookup.image sym) = Some img ->
        stores Linker.R_AARCH64_TLS_DTPMOD
          (match ElfImage.tls_segment_ img with
           | Some _ => ElfImage.tls_mod_id_ img
           | None => 0
           end)).
Proof.
  intros Hname Hfind Hvalid Hn1 Hn2 target st_value stores.
  assert (Hafter : forall type,
    Linker.is_symbolic type = true ->
    Linker.processRelocation host fuel sym_idx type offset addend load_bias
      dynsym dynstr is_rela w
    = Linker.bind_symbol host type target st_value addend
        is_rela sym (Linker.with_linker w lk')).
  { intros type Hsym.
    destruct (is_symbolic_dispatch type Hsym) as (E1 & E2 & E3 & E4).
    unfold Linker.processRelocation.
    rewrite E1, E2, E3, E4, Hsym, Hname, Hfind, Hvalid.
    rewrite !bool_decide_eq_false_2 by assumption. reflexivity. }
  split; [|split].
  - unfold stores. rewrite Hafter by reflexivity.
    eexists. split; [reflexivity|].
    destruct (write_word_with_linker w lk' target (wrap64 (st_value + addend)))
      as (Hread & Hlk & Hframe).
    split; [|split; [exact Hlk|exact Hframe]].
    etransitivity; [exact Hread|apply wrap64_idem].
  - intros Himg. unfold stores. rewrite Hafter by reflexivity.
    assert (Hb : Linker.bind_symbol host Linker.R_AARCH64_TLS_DTPMOD target
                   st_value addend is_rela sym (Linker.with_linker w lk')
                 = Some (Linker.write (Linker.with_linker w lk') target 0)).
    { unfold Linker.bind_symbol.
      change (Linker.R_AARCH64_TLS_DTPMOD =? Linker.R_AARCH64_GLOB_DAT) with false.
      change (Linker.R_AARCH64_TLS_DTPMOD =? Linker.R_AARCH64_JUMP_SLOT) with false.
      change (Linker.R_AARCH64_TLS_DTPMOD =? Linker.R_AARCH64_ABS64) with false.
      change (Linker.R_AARCH64_TLS_DTPMOD =? Linker.R_AARCH64_TLS_DTPMOD) with true.
      cbn [orb]. cbv iota. rewrite Himg. reflexivity. }
    rewrite Hb. eexists. split; [reflexivity|]. apply write_word_with_linker.
  - intros img Himg Hderef. unfold stores. rewrite Hafter by reflexivity.
    assert (Hb : Linker.bind_symbol host Linker.R_AARCH64_TLS_DTPMOD target
                   st_value addend is_rela sym (Linker.with_linker w lk')
                 = Some (Linker.write (Linker.with_linker w lk') target
                           (match ElfImage.tls_segment_ img with
                            | Some _ => ElfImage.tls_mod_id_ img
                            | None => 0
                            end))).
    { unfold Linker.bind_symbol.
      change (Linker.R_AARCH64_TLS_DTPMOD =? Linker.R_AARCH64_GLOB_DAT) with false.
      change (Linker.R_AARCH64_TLS_DTPMOD =? Linker.R_AARCH64_JUMP_SLOT) with false.
      change (Linker.R_AARCH64_TLS_DTPMOD =? Linker.R_AARCH64_ABS64) with false.
      change (Linker.R_AARCH64_TLS_DTPMOD =? Linker.R_AARCH64_TLS_DTPMOD) with true.
      cbn [orb]. cbv iota.
      destruct (Z.eqb_spec (SymbolLookup.image sym) 0) as [|_]; [contradiction|].
      change (Linker.linker (Linker.with_linker w lk')) with lk'.
      rewrite Hderef. reflexivity. }
    rewrite Hb. eexists. split; [reflexivity|]. apply write_word_with_linker.
Qed.

Lemma tls_pair_on_the_linked_sample :
  Linker.symbol_name Samples.fuel Samples.linked_with_heap 0x12000 0x13000 1
  = Some Samples.f
  /\ Linker.findSymbolCached Samples.host Samples.fuel
       (Linker.linker Samples.linked_with_heap) Samples.f
     = Some (SymbolLookup.mk 0x20200 0xB000 0 0,
             Linker.linker Samples.linked_with_heap)
  /\ SymbolLookup.valid (SymbolLookup.mk 0x20200 0xB000 0 0) = true
  /\ Samples.f <> bytes_of "dl_iterate_phdr"
  /\ Samples.f <> bytes_of "dladdr"
  /\ exists w',
       Linker.processRelocation Samples.host Samples.fuel
         1 Linker.R_AARCH64_TLS_DTPREL 0x5000 16 0x10000 0x12000 0x13000 true
         Samples.linked_with_heap = Some w'
       /\ Linker.read w' 0x15000 = 16.
Proof.
  assert (H1 : Linker.symbol_name Samples.fuel Samples.linked_with_heap
                 0x12000 0x13000 1 = Some Samples.f)
    by (vm_compute; reflexivity).
  assert (H2 : Linker.findSymbolCached Samples.host Samples.fuel
                 (Linker.linker Samples.linked_with_heap) Samples.f
               = Some (SymbolLookup.mk 0x20200 0xB000 0 0,
                       Linker.linker Samples.linked_with_heap))
    by (vm_compute; reflexivity).
  assert (H3 : SymbolLookup.valid (SymbolLookup.mk 0x20200 0xB000 0 0) = true)
    by reflexivity.
  assert (H4 : Samples.f <> bytes_of "dl_iterate_phdr")
    by (vm_compute; discriminate).
  assert (H5 : Samples.f <> bytes_of "dladdr") by (vm_compute; discriminate).
  split; [exact H1|]. split; [exact H2|]. split; [exact H3|].
  split; [exact H4|]. split; [exact H5|].
  assert (Hst : Linker.read Samples.linked_with_heap
                  (wrap64 (0x12000 + Linker.sizeof_ElfSym * 1) + 8) = 0)
    by (vm_compute; reflexivity).
  destruct (tls_pair_relocations_store_module_and_offset Samples.host
              Samples.fuel 1 0x5000 16 0x10000 0x12000 0x13000 true
              Samples.linked_with_heap Samples.f _ _ H1 H2 H3 H4 H5)
    as [(w' & Hafter & Hread & _) _].
  exists w'. split; [exact Hafter|].
  etransitivity; [exact Hread|]. rewrite Hst. reflexivity.
Defined.

(** ** The backtrace registry *)

Section SlotFacts.
Import BacktraceManager.

Lemma first_slot_spec test libs : forall i k,
  first_slot test libs i = Some k ->
  exists j l,
    k = (i + j)%nat /\ libs !! j = Some l /\ test l = true
    /\ forall j' l', (j' < j)%nat -> libs !! j' = Some l' -> test l' = false.
Proof.
  induction libs as [|l0 libs IH]; intros i k H; [discriminate H|].
  cbn [first_slot] in H. destruct (test l0) eqn:Ht.
  - injection H as <-. exists O, l0.
    split; [lia|]. split; [reflexivity|]. split; [exact Ht|]. intros; lia.
  - destruct (IH _ _ H) as (j & l & -> & Hl & Htl & Hbefore).
    exists (S j), l. split; [lia|]. split; [exact Hl|]. split; [exact Htl|].
    intros [|j'] l' Hlt Hl'.
    + injection Hl' as <-. exact Ht.
    + apply (Hbefore j'); [lia|exact Hl'].
Qed.

Lemma first_slot_intro test libs : forall i j l,
  libs !! j = Some l -> test l = true ->
  (forall j' l', (j' < j)%nat -> libs !! j' = Some l' -> test l' = false) ->
  first_slot test libs i = Some (i + j)%nat.
Proof.
  induction libs as [|l0 libs IH]; intros i j l Hl Ht Hbefore; [discriminate Hl|].
  cbn [first_slot]. destruct j as [|j].
  - injection Hl as ->. rewrite Ht. f_equal. lia.
  - rewrite (Hbefore O l0) by (reflexivity || lia).
    rewrite (IH (S i) j l Hl Ht).
    + f_equal. lia.
    + intros j' l' Hlt Hl'. apply (Hbefore (S j')); [lia|exact Hl'].
Qed.

Lemma first_slot_none test libs : forall i,
  first_slot test libs i = None <->
  (forall l, l ∈ libs -> test l = false).
Proof.
  induction libs as [|l0 libs IH]; intros i; cbn [first_slot].
  - split; [|reflexivity]. intros _ l Hl. inversion Hl.
  - destruct (test l0) eqn:Ht.
    + split; [discriminate|]. intros H.
      rewrite (H l0) in Ht by (apply elem_of_cons; left; reflexivity).
      discriminate Ht.
    + rewrite IH. split.
      * intros H l Hl. apply elem_of_cons in Hl as [->|Hl]; [exact Ht|].
        apply H, Hl.
      * intros H l Hl. apply H, elem_of_cons. right. exact Hl.
Qed.

Lemma first_slot_exists test libs l i :
  l ∈ libs -> test l = true -> exists k, first_slot test libs i = Some k.
Proof.
  intros Hl Ht. destruct (first_slot test libs i) as [k|] eqn:H; [eauto|].
  rewrite (proj1 (first_slot_none test libs i) H l Hl) in Ht. discriminate Ht.
Qed.

Lemma lib_lookup (m : t) (i : nat) (l : LibInfo.t) :
  libs_ m !! i = Some l -> lib m i = l.
Proof. intros H. unfold lib. rewrite H. reflexivity. Qed.

End SlotFacts.

Section RegisterFacts.
Import BacktraceManager.

Lemma registerLibrary_first_free image m i l copy later :
  libs_ m !! i = Some l ->
  LibInfo.in_use l = false ->
  (forall j l', (j < i)%nat -> libs_ m !! j = Some l' ->
                LibInfo.in_use l' = true) ->
  heap_ m = copy :: later -> copy <> 0 ->
  registerLibrary image m
  = (true, mk (<[i := registered image l copy]> (libs_ m)) later (trace m)).
Proof.
  intros Hl Hfree Hbefore Hheap Hcopy. unfold registerLibrary.
  rewrite (first_slot_intro _ (libs_ m) 0%nat i l Hl)
    by (rewrite ?Hfree; try reflexivity;
        intros j l' Hlt Hl'; rewrite (Hbefore j l' Hlt Hl'); reflexivity).
  rewrite Hheap. destruct (Z.eqb_spec copy 0) as [|_]; [contradiction|].
  cbn [Nat.add]. rewrite (lib_lookup m i l Hl). reflexivity.
Qed.

Lemma segments_registered image old copy :
  segments (registered image old copy) = ElfImage.phdr_ (elf image).
Proof.
  unfold segments, registered. cbn [LibInfo.phdr_info dlpi_phdr dlpi_phnum].
  rewrite Nat2Z.id. apply firstn_all.
Qed.

Lemma holds_registered image old copy :
  holds image (registered image old copy) = true.
Proof.
  unfold holds, registered. cbn [LibInfo.in_use LibInfo.image andb].
  apply Z.eqb_refl.
Qed.

End RegisterFacts.

(** X23. [registerLibrary] takes the lowest slot that is not in use and
    fills it for the image, with the load bias as [dlpi_addr], the copy of
    the program headers from [malloc] and no [.eh_frame] registered yet;
    the other slots are kept. When every slot is in use it returns false
    and changes nothing. *)
Theorem registerLibrary_takes_the_lowest_free_slot
    (image : BacktraceManager.Image) (m : BacktraceManager.t) :
  ((forall l, l ∈ BacktraceManager.libs_ m ->
              BacktraceManager.LibInfo.in_use l = true) ->
   BacktraceManager.registerLibrary image m = (false, m))
  /\ (forall (i : nat) (l : BacktraceManager.LibInfo.t) (copy : Z) (later : list Z),
        BacktraceManager.libs_ m !! i = Some l ->
        BacktraceManager.LibInfo.in_use l = false ->
        (forall j l', (j < i)%nat -> BacktraceManager.libs_ m !! j = Some l' ->
                      BacktraceManager.LibInfo.in_use l' = true) ->
        BacktraceManager.heap_ m = copy :: later -> copy <> 0 ->
        exists m',
          BacktraceManager.registerLibrary image m = (true, m')
          /\ BacktraceManager.holds image (BacktraceManager.lib m' i) = true
          /\ BacktraceManager.dlpi_addr
               (BacktraceManager.LibInfo.phdr_info (BacktraceManager.lib m' i))
             = wrap64 (ElfImage.base_ (BacktraceManager.elf image)
                       - ElfImage.bias_ (BacktraceManager.elf image))
          /\ BacktraceManager.segments (BacktraceManager.lib m' i)
             = ElfImage.phdr_ (BacktraceManager.elf image)
          /\ BacktraceManager.LibInfo.phdr_copy (BacktraceManager.lib m' i) = copy
          /\ BacktraceManager.LibInfo.eh_frame_registered
               (BacktraceManager.lib m' i) = 0
          /\ (forall j, j <> i ->
                BacktraceManager.libs_ m' !! j = BacktraceManager.libs_ m !! j)
          /\ length (BacktraceManager.libs_ m') = length (BacktraceManager.libs_ m)
          /\ BacktraceManager.heap_ m' = later
          /\ BacktraceManager.trace m' = BacktraceManager.trace m).
Proof.
  split.
  - intros Hfull. unfold BacktraceManager.registerLibrary.
    rewrite (proj2 (first_slot_none _ (BacktraceManager.libs_ m) 0%nat));
      [reflexivity|].
    intros l Hl. rewrite (Hfull l Hl). reflexivity.
  - intros i l copy later Hl Hfree Hbefore Hheap Hcopy.
    rewrite (registerLibrary_first_free image m i l copy later
               Hl Hfree Hbefore Hheap Hcopy).
    eexists. split; [reflexivity|].
    assert (Hi : (i < length (BacktraceManager.libs_ m))%nat)
      by (apply lookup_lt_is_Some; eauto).
    unfold BacktraceManager.lib. cbn [BacktraceManager.libs_].
    rewrite list_lookup_insert_eq by exact Hi. cbn [default from_option id].
    split; [apply holds_registered|]. split; [reflexivity|].
    split; [apply segments_registered|].
    split; [reflexivity|]. split; [reflexivity|].
    split; [intros j Hj; apply list_lookup_insert_ne; congruence|].
    split; [apply length_insert|]. split; reflexivity.
Qed.

Section RegistryFacts.
Import BacktraceManager.
Variable has_register_frame : bool.
Variable has_deregister_frame : bool.

Lemma unknown_no_slot image m :
  unknown image m -> first_slot (holds image) (libs_ m) 0 = None.
Proof. intros H. apply first_slot_none. exact H. Qed.

Lemma unknown_no_frame_slot image m :
  unknown image m ->
  first_slot (fun l => holds image l
                       && negb (LibInfo.eh_frame_registered l =? 0))
             (libs_ m) 0 = None.
Proof.
  intros H. apply first_slot_none. intros l Hl. rewrite (H l Hl). reflexivity.
Qed.

Lemma registerEhFrame_known mm image m j l :
  first_slot (holds image) (libs_ m) 0 = Some j ->
  libs_ m !! j = Some l ->
  eh_frame_of mm image <> 0 ->
  registerEhFrame has_register_frame mm image m
  = if has_register_frame
    then mk (<[j := with_eh_frame l (eh_frame_of mm image)]> (libs_ m))
            (heap_ m)
            (trace m ++ [RegisterFrame (eh_frame_of mm image)])
    else m.
Proof.
  intros Hslot Hl Heh. unfold registerEhFrame.
  destruct has_register_frame; [|reflexivity]. cbn [negb].
  destruct (Z.eqb_spec (eh_frame_of mm image) 0) as [|_]; [contradiction|].
  unfold emit, set_lib, lib. cbn [libs_ heap_ trace].
  rewrite Hslot. cbn [libs_ heap_ trace]. rewrite Hl. reflexivity.
Qed.

Lemma unregisterEhFrame_first image m j l :
  first_slot (fun l => holds image l
                       && negb (LibInfo.eh_frame_registered l =? 0))
             (libs_ m) 0 = Some j ->
  libs_ m !! j = Some l ->
  unregisterEhFrame has_deregister_frame image m
  = if has_deregister_frame
    then mk (<[j := with_eh_frame l 0]> (libs_ m)) (heap_ m)
            (trace m ++ [DeregisterFrame (LibInfo.eh_frame_registered l)])
    else m.
Proof.
  intros Hslot Hl. unfold unregisterEhFrame.
  destruct has_deregister_frame; [|reflexivity]. cbn [negb].
  rewrite Hslot. unfold set_lib, lib, emit. cbn [libs_ heap_ trace].
  rewrite Hl. reflexivity.
Qed.

Lemma unregisterEhFrame_none image m :
  first_slot (fun l => holds image l
                       && negb (LibInfo.eh_frame_registered l =? 0))
             (libs_ m) 0 = None ->
  unregisterEhFrame has_deregister_frame image m = m.
Proof.
  intros Hslot. unfold unregisterEhFrame. rewrite Hslot.
  destruct has_deregister_frame; reflexivity.
Qed.

Lemma unregisterLibrary_first image m j l :
  first_slot (holds image) (libs_ m) 0 = Some j ->
  libs_ m !! j = Some l ->
  unregisterLibrary has_deregister_frame image m
  = (true,
     mk (<[j := LibInfo.empty]> (libs_ m)) (heap_ m)
        (trace m
         ++ (if negb (LibInfo.eh_frame_registered l =? 0) && has_deregister_frame
             then [DeregisterFrame (LibInfo.eh_frame_registered l)] else [])
         ++ [Free (LibInfo.phdr_copy l)])).
Proof.
  intros Hslot Hl. unfold unregisterLibrary. rewrite Hslot.
  unfold lib. rewrite Hl. cbn [default from_option id].
  destruct (negb (LibInfo.eh_frame_registered l =? 0) && has_deregister_frame);
    unfold set_lib, emit; cbn [libs_ heap_ trace];
    rewrite <- ?app_assoc; reflexivity.
Qed.

(** The slot of an image that is in no other slot is the first one that
    passes a test it passes. *)
Lemma only_slot_is_first image (test : LibInfo.t -> bool)
    (libs : list LibInfo.t) (i : nat) (l : LibInfo.t) :
  (forall l', l' ∈ libs -> holds image l' = false) ->
  (forall l', holds image l' = false -> test l' = false) ->
  (i < length libs)%nat -> test l = true ->
  first_slot test (<[i := l]> libs) 0 = Some i.
Proof.
  intros Hunknown Htest Hi Hl.
  apply (first_slot_intro test (<[i := l]> libs) 0%nat i l).
  - apply list_lookup_insert_eq. exact Hi.
  - exact Hl.
  - intros j l' Hlt Hl'. rewrite list_lookup_insert_ne in Hl' by lia.
    apply Htest, Hunknown. apply list_elem_of_lookup. eauto.
Qed.

Lemma no_slot_after_insert image (test : LibInfo.t -> bool)
    (libs : list LibInfo.t) (i : nat) (l : LibInfo.t) :
  (forall l', l' ∈ libs -> holds image l' = false) ->
  (forall l', holds image l' = false -> test l' = false) ->
  test l = false ->
  first_slot test (<[i := l]> libs) 0 = None.
Proof.
  intros Hunknown Htest Hl. apply first_slot_none. intros l' Hl'.
  apply list_elem_of_lookup in Hl' as [j Hj].
  destruct (decide (j = i)) as [->|Hne].
  - destruct (decide (i < length libs)%nat) as [Hi|Hi].
    + rewrite list_lookup_insert_eq in Hj by exact Hi. injection Hj as <-.
      exact Hl.
    + rewrite list_insert_ge in Hj by lia.
      apply Htest, Hunknown. apply list_elem_of_lookup. eauto.
  - rewrite list_lookup_insert_ne in Hj by congruence.
    apply Htest, Hunknown. apply list_elem_of_lookup. eauto.
Qed.

End RegistryFacts.

(** X24. The calls of [link] followed by those of [destroy] for one image,
    on a registry whose free slots are clear, that has a free slot and
    does not know the image yet: [registerLibrary], [registerEhFrame],
    [unregisterEhFrame], [unregisterLibrary] leave the slots as they were;
    [__register_frame] is called once, [__deregister_frame] once with the
    same address and only if both functions are there, and the copy of the
    program headers is freed once. *)
Theorem register_then_unregister_restores_the_registry
    (has_register_frame has_deregister_frame : bool) (mm : Mem)
    (image : BacktraceManager.Image) (m : BacktraceManager.t)
    (copy : Z) (later : list Z) :
  BacktraceManager.free_slots_clear m ->
  BacktraceManager.unknown image m ->
  (exists l, l ∈ BacktraceManager.libs_ m
             /\ BacktraceManager.LibInfo.in_use l = false) ->
  BacktraceManager.heap_ m = copy :: later -> copy <> 0 ->
  BacktraceManager.eh_frame_of mm image <> 0 ->
  let eh_frame := BacktraceManager.eh_frame_of mm image in
  let '(ok1, m1) := BacktraceManager.registerLibrary image m in
  let m2 := BacktraceManager.registerEhFrame has_register_frame mm image m1 in
  let m3 := BacktraceManager.unregisterEhFrame has_deregister_frame image m2 in
  let '(ok4, m4) :=
    BacktraceManager.unregisterLibrary has_deregister_frame image m3 in
  ok1 = true /\ ok4 = true
  /\ BacktraceManager.libs_ m4 = BacktraceManager.libs_ m
  /\ BacktraceManager.heap_ m4 = later
  /\ BacktraceManager.trace m4
     = BacktraceManager.trace m
       ++ (if has_register_frame
           then [BacktraceManager.RegisterFrame eh_frame] else [])
       ++ (if has_register_frame && has_deregister_frame
           then [BacktraceManager.DeregisterFrame eh_frame] else [])
       ++ [BacktraceManager.Free copy].
Proof.
  intros Hclear Hunknown (l0 & Hl0 & Hfree0) Hheap Hcopy Heh eh_frame.
  destruct (first_slot_exists (fun l => negb (BacktraceManager.LibInfo.in_use l))
              (BacktraceManager.libs_ m) l0 0%nat Hl0)
    as [i Hslot]; [rewrite Hfree0; reflexivity|].
  destruct (first_slot_spec _ _ _ _ Hslot) as (j & l & -> & Hl & Hfree & _).
  cbn [Nat.add] in Hslot.
  apply negb_true_iff in Hfree.
  assert (Hempty : l = BacktraceManager.LibInfo.empty).
  { apply Hclear; [|exact Hfree]. apply list_elem_of_lookup. eauto. }
  assert (Hj : (j < length (BacktraceManager.libs_ m))%nat)
    by (apply lookup_lt_is_Some; eauto).
  unfold BacktraceManager.registerLibrary. rewrite Hslot, Hheap.
  destruct (Z.eqb_spec copy 0) as [|_]; [contradiction|].
  set (l1 := BacktraceManager.registered image (BacktraceManager.lib m j) copy).
  set (libs := BacktraceManager.libs_ m) in *.
  set (state := fun eh tr =>
         BacktraceManager.mk
           (<[j := BacktraceManager.with_eh_frame l1 eh]> libs)
           later tr).
  change (BacktraceManager.mk _ later (BacktraceManager.trace m))
    with (state 0 (BacktraceManager.trace m)).
  assert (Hholds : forall eh, BacktraceManager.holds image
            (BacktraceManager.with_eh_frame l1 eh) = true).
  { intros eh. exact (holds_registered image (BacktraceManager.lib m j) copy). }
  assert (Hat : forall eh tr,
            BacktraceManager.libs_ (state eh tr) !! j
            = Some (BacktraceManager.with_eh_frame l1 eh)).
  { intros eh tr. apply list_lookup_insert_eq. exact Hj. }
  assert (Hfirst : forall eh tr,
    BacktraceManager.first_slot (BacktraceManager.holds image)
      (BacktraceManager.libs_ (state eh tr)) 0 = Some j).
  { intros eh tr. apply (only_slot_is_first image);
      [exact Hunknown|tauto|exact Hj|apply Hholds]. }
  assert (Hreg : forall tr,
    BacktraceManager.registerEhFrame has_register_frame mm image (state 0 tr)
    = if has_register_frame
      then state eh_frame (tr ++ [BacktraceManager.RegisterFrame eh_frame])
      else state 0 tr).
  { intros tr.
    rewrite (registerEhFrame_known _ mm image _ j _ (Hfirst 0 tr) (Hat 0 tr) Heh).
    destruct has_register_frame; [|reflexivity].
    unfold state. cbn [BacktraceManager.libs_ BacktraceManager.heap_
                       BacktraceManager.trace BacktraceManager.with_eh_frame
                       BacktraceManager.LibInfo.image
                       BacktraceManager.LibInfo.phdr_info
                       BacktraceManager.LibInfo.in_use
                       BacktraceManager.LibInfo.phdr_copy].
    rewrite list_insert_insert_eq. reflexivity. }
  assert (Hunreg0 : forall tr,
    BacktraceManager.unregisterEhFrame has_deregister_frame image (state 0 tr)
    = state 0 tr).
  { intros tr. apply unregisterEhFrame_none.
    apply (no_slot_after_insert image);
      [exact Hunknown| |apply andb_false_iff; right; reflexivity].
    intros l' ->. reflexivity. }
  assert (Hunreg : forall eh tr, eh <> 0 ->
    BacktraceManager.unregisterEhFrame has_deregister_frame image (state eh tr)
    = if has_deregister_frame
      then state 0 (tr ++ [BacktraceManager.DeregisterFrame eh])
      else state eh tr).
  { intros eh tr Hne.
    rewrite (unregisterEhFrame_first _ image (state eh tr) j
               (BacktraceManager.with_eh_frame l1 eh));
      [| |apply Hat].
    - destruct has_deregister_frame; [|reflexivity].
      unfold state. cbn [BacktraceManager.libs_ BacktraceManager.heap_
                         BacktraceManager.trace BacktraceManager.with_eh_frame
                         BacktraceManager.LibInfo.image
                         BacktraceManager.LibInfo.phdr_info
                         BacktraceManager.LibInfo.in_use
                         BacktraceManager.LibInfo.phdr_copy
                         BacktraceManager.LibInfo.eh_frame_registered].
      rewrite list_insert_insert_eq. reflexivity.
    - apply (only_slot_is_first image); [exact Hunknown| |exact Hj|].
      + intros l' ->. reflexivity.
      + rewrite Hholds.
        cbn [andb BacktraceManager.with_eh_frame
             BacktraceManager.LibInfo.eh_frame_registered].
        destruct (Z.eqb_spec eh 0); [contradiction|reflexivity]. }
  assert (Hlib : forall eh tr,
    BacktraceManager.unregisterLibrary has_deregister_frame image (state eh tr)
    = (true,
       BacktraceManager.mk libs later
         (tr ++ (if negb (eh =? 0) && has_deregister_frame
                 then [BacktraceManager.DeregisterFrame eh] else [])
             ++ [BacktraceManager.Free copy]))).
  { intros eh tr.
    rewrite (unregisterLibrary_first _ image _ j _ (Hfirst eh tr) (Hat eh tr)).
    unfold state. cbn [BacktraceManager.libs_ BacktraceManager.heap_
                       BacktraceManager.trace
                       BacktraceManager.LibInfo.phdr_copy
                       BacktraceManager.LibInfo.eh_frame_registered].
    rewrite list_insert_insert_eq, list_insert_id
      by (fold libs in Hl; rewrite Hl, Hempty; reflexivity).
    reflexivity. }
  cbv zeta. rewrite Hreg.
  destruct has_register_frame.
  - rewrite (Hunreg eh_frame _ Heh). destruct has_deregister_frame.
    + rewrite Hlib. cbn [negb andb Z.eqb].
      rewrite <- !app_assoc. conjuncts; reflexivity.
    + rewrite Hlib. rewrite andb_false_r. cbn [andb app].
      rewrite <- !app_assoc. conjuncts; reflexivity.
  - rewrite Hunreg0, Hlib. cbn [negb andb Z.eqb app]. conjuncts; reflexivity.
Qed.

Section InitialRegistry.
Import BacktraceManager.

Lemma initial_clear : free_slots_clear initial.
Proof.
  intros l Hl _. unfold initial in Hl. cbn [libs_] in Hl.
  apply elem_of_replicate in Hl as [-> _]. reflexivity.
Qed.

Lemma initial_unknown image : unknown image initial.
Proof.
  intros l Hl. unfold initial in Hl. cbn [libs_] in Hl.
  apply elem_of_replicate in Hl as [-> _]. reflexivity.
Qed.

End InitialRegistry.

(** X25. The two calls of teardown for one image, [unregisterEhFrame] and
    then [unregisterLibrary], call [__deregister_frame] at most once,
    whatever the registry holds (the image registered more than once,
    with or without a frame). *)
Theorem teardown_deregisters_a_frame_at_most_once
    (has_deregister_frame : bool)
    (image : BacktraceManager.Image) (m : BacktraceManager.t) :
  let m1 := BacktraceManager.unregisterEhFrame has_deregister_frame image m in
  let m2 :=
    snd (BacktraceManager.unregisterLibrary has_deregister_frame image m1) in
  exists evs,
    BacktraceManager.trace m2 = BacktraceManager.trace m ++ evs
    /\ (length (List.filter BacktraceManager.is_deregister evs) <= 1)%nat.
Proof.
  intros m1 m2.
  assert (Hlib : forall m0,
    (forall i l, BacktraceManager.first_slot (BacktraceManager.holds image)
                   (BacktraceManager.libs_ m0) 0 = Some i ->
                 BacktraceManager.libs_ m0 !! i = Some l ->
                 BacktraceManager.LibInfo.eh_frame_registered l = 0
                 \/ has_deregister_frame = false) ->
    exists evs,
      BacktraceManager.trace
        (snd (BacktraceManager.unregisterLibrary has_deregister_frame image m0))
      = BacktraceManager.trace m0 ++ evs
      /\ List.filter BacktraceManager.is_deregister evs = []).
  { intros m0 Hm0.
    destruct (BacktraceManager.first_slot (BacktraceManager.holds image)
                (BacktraceManager.libs_ m0) 0) as [i|] eqn:Hslot.
    - destruct (first_slot_spec _ _ _ _ Hslot) as (j & l & -> & Hl & _).
      cbn [Nat.add] in Hslot.
      rewrite (unregisterLibrary_first _ image m0 j l Hslot Hl).
      cbn [snd BacktraceManager.trace]. eexists. split; [reflexivity|].
      destruct (Hm0 j l eq_refl Hl) as [-> | ->]; [reflexivity|].
      rewrite andb_false_r. reflexivity.
    - unfold BacktraceManager.unregisterLibrary. rewrite Hslot.
      exists []. split; [symmetry; apply app_nil_r|reflexivity]. }
  destruct has_deregister_frame eqn:Hd.
  2:{ subst m2 m1. unfold BacktraceManager.unregisterEhFrame. cbn [negb].
      destruct (Hlib m) as (evs & Htr & Hnone); [intros; right; reflexivity|].
      exists evs. split; [exact Htr|]. rewrite Hnone. cbn. lia. }
  destruct (BacktraceManager.first_slot
              (fun l => BacktraceManager.holds image l
                 && negb (BacktraceManager.LibInfo.eh_frame_registered l =? 0))
              (BacktraceManager.libs_ m) 0) as [k|] eqn:Hframe.
  - destruct (first_slot_spec _ _ _ _ Hframe)
      as (j & l & -> & Hl & Htest & Hbefore).
    cbn [Nat.add] in Hframe.
    apply andb_true_iff in Htest as [Hholds _].
    assert (Hm1 : m1 = BacktraceManager.mk
                         (<[j := BacktraceManager.with_eh_frame l 0]>
                            (BacktraceManager.libs_ m))
                         (BacktraceManager.heap_ m)
                         (BacktraceManager.trace m
                          ++ [BacktraceManager.DeregisterFrame
                                (BacktraceManager.LibInfo.eh_frame_registered l)])).
    { subst m1. apply (unregisterEhFrame_first true image m j l Hframe Hl). }
    destruct (Hlib m1) as (evs & Htr & Hnone).
    + intros i l' Hslot Hl'. left. rewrite Hm1 in Hslot, Hl'.
      cbn [BacktraceManager.libs_] in Hslot, Hl'.
      destruct (first_slot_spec _ _ _ _ Hslot)
        as (i' & l'' & -> & Hl'' & Hh'' & Hfirst).
      cbn [Nat.add] in Hl'. rewrite Hl'' in Hl'. injection Hl' as ->.
      assert (Hjlen : (j < length (BacktraceManager.libs_ m))%nat)
        by (apply lookup_lt_is_Some; eauto).
      destruct (Nat.lt_trichotomy i' j) as [Hlt|[->|Hgt]].
      * rewrite list_lookup_insert_ne in Hl'' by lia.
        pose proof (Hbefore i' l' Hlt Hl'') as Hno.
        rewrite Hh'' in Hno. cbn [andb] in Hno.
        apply negb_false_iff, Z.eqb_eq in Hno. exact Hno.
      * rewrite list_lookup_insert_eq in Hl'' by exact Hjlen.
        injection Hl'' as <-. reflexivity.
      * exfalso.
        assert (Hno := Hfirst j (BacktraceManager.with_eh_frame l 0) Hgt
                         (list_lookup_insert_eq _ _ _ Hjlen)).
        change (BacktraceManager.holds image (BacktraceManager.with_eh_frame l 0))
          with (BacktraceManager.holds image l) in Hno.
        rewrite Hholds in Hno. discriminate Hno.
    + subst m2. rewrite Htr, Hm1. cbn [BacktraceManager.trace].
      rewrite <- app_assoc. eexists. split; [reflexivity|].
      cbn [app List.filter BacktraceManager.is_deregister]. rewrite Hnone.
      cbn. lia.
  - assert (Hm1 : m1 = m)
      by (subst m1; apply unregisterEhFrame_none; exact Hframe).
    destruct (Hlib m) as (evs & Htr & Hnone).
    + intros i l Hslot Hl. left.
      destruct (first_slot_spec _ _ _ _ Hslot) as (i' & l' & -> & Hl' & Hh' & _).
      cbn [Nat.add] in Hl. rewrite Hl' in Hl. injection Hl as ->.
      assert (Hno := proj1 (first_slot_none _ _ _) Hframe l).
      cbn beta in Hno. rewrite Hh' in Hno. cbn [andb] in Hno.
      apply negb_false_iff, Z.eqb_eq in Hno; [exact Hno|].
      apply list_elem_of_lookup. eauto.
    + subst m2. rewrite Hm1. exists evs. split; [exact Htr|].
      rewrite Hnone. cbn. lia.
Qed.

(** X26. An image that no slot holds (as when [registerLibrary] found the
    registry full): [registerEhFrame] still calls [__register_frame] for
    it and records nothing, so [unregisterEhFrame] and
    [unregisterLibrary] do nothing for it afterwards:
    [__deregister_frame] is not called. *)
Theorem frame_of_an_unknown_image_stays_registered
    (has_deregister_frame : bool) (mm : Mem)
    (image : BacktraceManager.Image) (m : BacktraceManager.t) :
  BacktraceManager.unknown image m ->
  BacktraceManager.eh_frame_of mm image <> 0 ->
  let m1 := BacktraceManager.registerEhFrame true mm image m in
  BacktraceManager.libs_ m1 = BacktraceManager.libs_ m
  /\ BacktraceManager.trace m1
     = BacktraceManager.trace m
       ++ [BacktraceManager.RegisterFrame (BacktraceManager.eh_frame_of mm image)]
  /\ BacktraceManager.unregisterEhFrame has_deregister_frame image m1 = m1
  /\ BacktraceManager.unregisterLibrary has_deregister_frame image m1
     = (false, m1).
Proof.
  intros Hunknown Heh m1.
  assert (Hm1 : m1 = BacktraceManager.emit m
            [BacktraceManager.RegisterFrame
               (BacktraceManager.eh_frame_of mm image)]).
  { subst m1. unfold BacktraceManager.registerEhFrame. cbn [negb].
    destruct (Z.eqb_spec (BacktraceManager.eh_frame_of mm image) 0) as [|_];
      [contradiction|].
    cbv zeta.
    change (BacktraceManager.libs_ (BacktraceManager.emit m _))
      with (BacktraceManager.libs_ m).
    rewrite (unknown_no_slot image m Hunknown). reflexivity. }
  assert (Hunknown1 : BacktraceManager.unknown image m1)
    by (rewrite Hm1; exact Hunknown).
  split; [rewrite Hm1; reflexivity|]. split; [rewrite Hm1; reflexivity|].
  split.
  - apply unregisterEhFrame_none, unknown_no_frame_slot, Hunknown1.
  - unfold BacktraceManager.unregisterLibrary.
    rewrite (unknown_no_slot image m1 Hunknown1). reflexivity.
Qed.

Section RegistryInvariant.
Import BacktraceManager.
Variable has_register_frame : bool.
Variable has_deregister_frame : bool.

Lemma insert_keeps {A : Type} (P : A -> Prop) (l : list A) (i : nat) (x : A) :
  (forall y, y ∈ l -> P y) -> P x -> forall y, y ∈ <[i := x]> l -> P y.
Proof.
  intros Hl Hx y Hy. apply list_elem_of_lookup in Hy as [j Hj].
  destruct (decide (j = i)) as [->|Hne].
  - destruct (decide (i < length l)%nat) as [Hi|Hi].
    + rewrite list_lookup_insert_eq in Hj by exact Hi. injection Hj as <-.
      exact Hx.
    + rewrite list_insert_ge in Hj by lia. apply Hl, list_elem_of_lookup. eauto.
  - rewrite list_lookup_insert_ne in Hj by congruence.
    apply Hl, list_elem_of_lookup. eauto.
Qed.

(** The four operations keep the free slots clear. *)
Lemma free_slots_stay_clear mm image m :
  free_slots_clear m ->
  free_slots_clear (snd (registerLibrary image m))
  /\ free_slots_clear (snd (unregisterLibrary has_deregister_frame image m))
  /\ free_slots_clear (registerEhFrame has_register_frame mm image m)
  /\ free_slots_clear (unregisterEhFrame has_deregister_frame image m).
Proof.
  intros Hclear.
  assert (Hins : forall i x heap tr,
            (LibInfo.in_use x = false -> x = LibInfo.empty) ->
            free_slots_clear (mk (<[i := x]> (libs_ m)) heap tr)).
  { intros i x heap tr Hx. unfold free_slots_clear. cbn [libs_].
    apply (insert_keeps (fun l => LibInfo.in_use l = false -> l = LibInfo.empty));
      [exact Hclear|exact Hx]. }
  split; [|split; [|split]].
  - unfold registerLibrary.
    destruct (first_slot _ (libs_ m) 0) as [slot|] eqn:Hslot; [|exact Hclear].
    destruct (first_slot_spec _ _ _ _ Hslot) as (j & l & -> & Hl & Hfree & _).
    cbn [Nat.add]. rewrite (lib_lookup m j l Hl).
    apply negb_true_iff in Hfree.
    assert (Hempty : l = LibInfo.empty).
    { apply Hclear; [|exact Hfree]. apply list_elem_of_lookup. eauto. }
    destruct (match heap_ m with [] => (0, []) | copy :: later => (copy, later) end)
      as [copy later].
    destruct (copy =? 0); cbn [snd]; apply Hins.
    + intros _. rewrite Hempty. reflexivity.
    + discriminate.
  - unfold unregisterLibrary.
    destruct (first_slot _ (libs_ m) 0) as [i|]; [|exact Hclear].
    cbn [snd]. destruct (_ && _); apply Hins; reflexivity.
  - unfold registerEhFrame. destruct (negb has_register_frame); [exact Hclear|].
    destruct (eh_frame_of mm image =? 0); [exact Hclear|].
    cbv zeta. change (libs_ (emit m _)) with (libs_ m).
    destruct (first_slot _ (libs_ m) 0) as [i|] eqn:Hslot; [|exact Hclear].
    destruct (first_slot_spec _ _ _ _ Hslot) as (j & l & -> & Hl & Hholds & _).
    cbn [Nat.add]. apply Hins. unfold lib. cbn [emit libs_]. rewrite Hl.
    cbn [default from_option id with_eh_frame LibInfo.in_use].
    apply andb_true_iff in Hholds as [-> _]. discriminate.
  - unfold unregisterEhFrame. destruct (negb has_deregister_frame); [exact Hclear|].
    destruct (first_slot _ (libs_ m) 0) as [i|] eqn:Hslot; [|exact Hclear].
    destruct (first_slot_spec _ _ _ _ Hslot) as (j & l & -> & Hl & Hholds & _).
    cbn [Nat.add]. apply Hins. rewrite (lib_lookup m j l Hl).
    cbn [with_eh_frame LibInfo.in_use].
    apply andb_true_iff in Hholds as [Hholds _].
    apply andb_true_iff in Hholds as [-> _]. discriminate.
Qed.

End RegistryInvariant.

Section DladdrFacts.
Import BacktraceManager.

Lemma in_library_spec addr l : in_library addr l = true <-> contains l addr.
Proof.
  unfold in_library, contains. rewrite andb_true_iff, existsb_exists.
  split.
  - intros [Huse (ph & Hph & Hseg)]. split; [exact Huse|].
    exists ph. unfold in_segment in Hseg.
    rewrite !andb_true_iff, Z.eqb_eq, Z.leb_le, Z.ltb_lt in Hseg.
    split; [apply list_elem_of_In; exact Hph|]. tauto.
  - intros [Huse (ph & Hph & Htype & Hrange)]. split; [exact Huse|].
    exists ph. split; [apply list_elem_of_In; exact Hph|].
    unfold in_segment. rewrite !andb_true_iff, Z.eqb_eq, Z.leb_le, Z.ltb_lt.
    tauto.
Qed.

Lemma in_library_false addr l : in_library addr l = false <-> ~ contains l addr.
Proof.
  rewrite <- in_library_spec. destruct (in_library addr l); split; intros H;
    try reflexivity; try discriminate; try (intros H'; discriminate H').
  exfalso. apply H. reflexivity.
Qed.

Lemma find_first {A : Type} (f : A -> bool) (l : list A) (x : A) :
  List.find f l = Some x ->
  exists before after,
    l = before ++ x :: after /\ f x = true
    /\ forall y, y ∈ before -> f y = false.
Proof.
  induction l as [|a l IH]; [discriminate|]. cbn [List.find].
  destruct (f a) eqn:Ha.
  - intros [= ->]. exists [], l. split; [reflexivity|]. split; [exact Ha|].
    intros y Hy. inversion Hy.
  - intros H. destruct (IH H) as (before & after & -> & Hx & Hbefore).
    exists (a :: before), after. split; [reflexivity|]. split; [exact Hx|].
    intros y Hy. apply elem_of_cons in Hy as [->|Hy]; [exact Ha|].
    apply Hbefore, Hy.
Qed.

Lemma find_nothing {A : Type} (f : A -> bool) (l : list A) :
  List.find f l = None <-> forall y, y ∈ l -> f y = false.
Proof.
  induction l as [|a l IH]; cbn [List.find].
  - split; [|reflexivity]. intros _ y Hy. inversion Hy.
  - destruct (f a) eqn:Ha.
    + split; [discriminate|]. intros H.
      rewrite (H a) in Ha by (apply elem_of_cons; left; reflexivity).
      discriminate Ha.
    + rewrite IH. split.
      * intros H y Hy. apply elem_of_cons in Hy as [->|Hy]; [exact Ha|].
        apply H, Hy.
      * intros H y Hy. apply H, elem_of_cons. right. exact Hy.
Qed.

Lemma getSymbolAt_below img addr :
  SymbolInfo.valid (ElfImage.getSymbolAt img addr) = true ->
  SymbolInfo.address (ElfImage.getSymbolAt img addr) <= addr.
Proof.
  unfold ElfImage.getSymbolAt.
  destruct (ElfImage.symtab_start_ img) as [syms|]; [|discriminate].
  destruct (ElfImage.symtab_strtab_ img) as [strtab|]; [|discriminate].
  destruct (symbol_scan_first img syms strtab addr
              (Z.to_nat (ElfImage.symtab_count_ img)) 0)
    as [[-> _]|(i & _ & Hcov & _ & ->)]; [discriminate|].
  intros _. cbn [SymbolInfo.address]. destruct Hcov as (_ & _ & Hr). lia.
Qed.

Lemma describe_spec addr l :
  dli_fname (describe addr l) = dlpi_name (LibInfo.phdr_info l)
  /\ dli_fbase (describe addr l) = dlpi_addr (LibInfo.phdr_info l)
  /\ (dli_sname (describe addr l) = None /\ dli_saddr (describe addr l) = 0
      \/ dli_sname (describe addr l) <> None
         /\ dli_saddr (describe addr l) <> 0
         /\ dli_saddr (describe addr l) <= addr).
Proof.
  unfold describe.
  destruct (LibInfo.image l) as [img|].
  - destruct (SymbolInfo.valid (ElfImage.getSymbolAt (elf img) addr)) eqn:Hv.
    + cbn [dli_fname dli_fbase dli_sname dli_saddr].
      split; [reflexivity|]. split; [reflexivity|]. right.
      split; [discriminate|]. split.
      * unfold SymbolInfo.valid in Hv. apply negb_true_iff, Z.eqb_neq in Hv.
        exact Hv.
      * apply getSymbolAt_below, Hv.
    + cbn. tauto.
  - cbn. tauto.
Qed.

End DladdrFacts.

(** X27. [customDladdr] answers with what the system's [dladdr] found when
    that one succeeds. Otherwise it returns 0 exactly when no library in
    use has a [PT_LOAD] segment around the address; and when it returns 1
    the answer describes the first library in slot order that has one:
    its name and its load bias as [dli_fbase], and either no symbol or a
    symbol that starts at or below the address. *)
Theorem customDladdr_describes_the_first_library_around_the_address
    (orig : Z -> option BacktraceManager.Dl_info)
    (m : BacktraceManager.t) (addr : Z) :
  (forall info, orig addr = Some info ->
                BacktraceManager.customDladdr orig m addr = Some info)
  /\ (orig addr = None ->
      (BacktraceManager.customDladdr orig m addr = None <->
       forall l, l ∈ BacktraceManager.libs_ m ->
                 ~ BacktraceManager.contains l addr)
      /\ forall info,
           BacktraceManager.customDladdr orig m addr = Some info ->
           exists before l after,
             BacktraceManager.libs_ m = before ++ l :: after
             /\ BacktraceManager.contains l addr
             /\ (forall l', l' ∈ before -> ~ BacktraceManager.contains l' addr)
             /\ BacktraceManager.dli_fname info
                = BacktraceManager.dlpi_name (BacktraceManager.LibInfo.phdr_info l)
             /\ BacktraceManager.dli_fbase info
                = BacktraceManager.dlpi_addr (BacktraceManager.LibInfo.phdr_info l)
             /\ (BacktraceManager.dli_sname info = None
                 /\ BacktraceManager.dli_saddr info = 0
                 \/ BacktraceManager.dli_sname info <> None
                    /\ BacktraceManager.dli_saddr info <> 0
                    /\ BacktraceManager.dli_saddr info <= addr)).
Proof.
  unfold BacktraceManager.customDladdr. split.
  - intros info ->. reflexivity.
  - intros ->. split.
    + destruct (List.find (BacktraceManager.in_library addr)
                  (BacktraceManager.libs_ m)) as [l|] eqn:Hfind.
      * split; [discriminate|]. intros Hnone. exfalso.
        destruct (find_first _ _ _ Hfind) as (before & after & Hl & Hin & _).
        apply in_library_spec in Hin. apply (Hnone l); [|exact Hin].
        rewrite Hl. apply elem_of_app. right. apply elem_of_cons. left.
        reflexivity.
      * split; [|reflexivity]. intros _ l Hl.
        apply in_library_false. apply (proj1 (find_nothing _ _) Hfind l Hl).
    + intros info Hinfo.
      destruct (List.find (BacktraceManager.in_library addr)
                  (BacktraceManager.libs_ m)) as [l|] eqn:Hfind;
        [|discriminate Hinfo].
      injection Hinfo as <-.
      destruct (find_first _ _ _ Hfind) as (before & after & Hl & Hin & Hbefore).
      exists before, l, after. split; [exact Hl|].
      split; [apply in_library_spec; exact Hin|].
      split; [intros l' Hl'; apply in_library_false, Hbefore, Hl'|].
      apply describe_spec.
Qed.

(** X28. A library that [registerLibrary] accepted is found by
    [customDladdr]: for an address in one of its [PT_LOAD] segments the
    answer is never 0, and when neither the system's [dladdr] nor a
    library registered before knows the address, the answer carries the
    path and the load bias of the new library. *)
Theorem registered_library_is_found_by_customDladdr
    (orig : Z -> option BacktraceManager.Dl_info)
    (image : BacktraceManager.Image) (m m' : BacktraceManager.t)
    (addr : Z) (ph : Elf.ElfPhdr) :
  BacktraceManager.registerLibrary image m = (true, m') ->
  ph ∈ ElfImage.phdr_ (BacktraceManager.elf image) ->
  Elf.p_type ph = Elf.PT_LOAD ->
  let bias := wrap64 (ElfImage.base_ (BacktraceManager.elf image)
                      - ElfImage.bias_ (BacktraceManager.elf image)) in
  wrap64 (bias + Elf.p_vaddr ph) <= addr
    < wrap64 (wrap64 (bias + Elf.p_vaddr ph) + Elf.p_memsz ph) ->
  BacktraceManager.customDladdr orig m' addr <> None
  /\ (orig addr = None ->
      (forall l, l ∈ BacktraceManager.libs_ m ->
                 ~ BacktraceManager.contains l addr) ->
      exists info,
        BacktraceManager.customDladdr orig m' addr = Some info
        /\ BacktraceManager.dli_fname info = Some (BacktraceManager.path_ image)
        /\ BacktraceManager.dli_fbase info = bias).
Proof.
  intros Hreg Hph Htype bias Hrange.
  unfold BacktraceManager.registerLibrary in Hreg.
  destruct (BacktraceManager.first_slot _ (BacktraceManager.libs_ m) 0)
    as [slot|] eqn:Hslot; [|discriminate Hreg].
  destruct (first_slot_spec _ _ _ _ Hslot) as (i & l & -> & Hl & _ & _).
  cbn [Nat.add] in Hreg.
  destruct (match BacktraceManager.heap_ m with
            | [] => (0, [])
            | copy :: later => (copy, later)
            end) as [copy later].
  destruct (copy =? 0); [discriminate Hreg|].
  injection Hreg as <-.
  set (new := BacktraceManager.registered image (BacktraceManager.lib m i) copy).
  assert (Hi : (i < length (BacktraceManager.libs_ m))%nat)
    by (apply lookup_lt_is_Some; eauto).
  assert (Hnew : BacktraceManager.contains new addr).
  { split; [reflexivity|]. exists ph.
    unfold new. rewrite segments_registered. split; [exact Hph|].
    split; [exact Htype|exact Hrange]. }
  assert (Hsplit : <[i := new]> (BacktraceManager.libs_ m)
                   = take i (BacktraceManager.libs_ m) ++ new
                     :: drop (S i) (BacktraceManager.libs_ m)).
  { apply insert_take_drop. exact Hi. }
  unfold BacktraceManager.customDladdr. cbn [BacktraceManager.libs_].
  split.
  - destruct (orig addr); [discriminate|].
    destruct (List.find _ _) eqn:Hfind; [discriminate|].
    exfalso.
    assert (Hno := proj1 (find_nothing _ _) Hfind new).
    rewrite (proj2 (in_library_spec addr new) Hnew) in Hno.
    discriminate Hno. rewrite Hsplit. apply elem_of_app. right.
    apply elem_of_cons. left. reflexivity.
  - intros -> Hnone.
    assert (Hfind : List.find (BacktraceManager.in_library addr)
                      (<[i := new]> (BacktraceManager.libs_ m)) = Some new).
    { rewrite Hsplit. clear Hsplit.
      assert (Hbefore : forall l', l' ∈ take i (BacktraceManager.libs_ m) ->
                BacktraceManager.in_library addr l' = false).
      { intros l' Hl'. apply in_library_false, Hnone.
        apply elem_of_take in Hl' as (k & Hk & _).
        apply list_elem_of_lookup. eauto. }
      induction (take i (BacktraceManager.libs_ m)) as [|a before IH].
      - cbn [app List.find].
        rewrite (proj2 (in_library_spec addr new) Hnew). reflexivity.
      - cbn [app List.find].
        rewrite (Hbefore a) by (apply elem_of_cons; left; reflexivity).
        apply IH. intros l' Hl'. apply Hbefore, elem_of_cons. right. exact Hl'. }
    rewrite Hfind. eexists. split; [reflexivity|].
    destruct (describe_spec addr new) as (Hname & Hbase & _).
    rewrite Hname, Hbase. split; reflexivity.
Qed.

(** X29. [parseEhFrameHdr] returns [nullptr] for a missing or short
    header, a version other than 1 and the encoding [DW_EH_PE_omit]. For
    the usual encoding of the pointer, [DW_EH_PE_pcrel | DW_EH_PE_sdata4],
    it returns the address of the field plus the field read as a signed
    32-bit number, and [nullptr] when the field is 0. *)
Theorem parseEhFrameHdr_follows_a_relative_pointer
    (mm : Mem) (hdr hdr_size base : Z) :
  (hdr = 0 \/ hdr_size < 4 \/ load8 mm hdr <> 1
   \/ load8 mm (hdr + 1) = BacktraceManager.DW_EH_PE_omit ->
   BacktraceManager.parseEhFrameHdr mm hdr hdr_size base = 0)
  /\ (hdr <> 0 -> 4 <= hdr_size -> load8 mm hdr = 1 ->
      load8 mm (hdr + 1)
      = BacktraceManager.DW_EH_PE_pcrel + BacktraceManager.DW_EH_PE_sdata4 ->
      let field := load32 mm (hdr + 4) in
      let displacement := if field <? 2 ^ 31 then field else field - 2 ^ 32 in
      0 <= field < 2 ^ 32 ->
      BacktraceManager.parseEhFrameHdr mm hdr hdr_size base
      = if field =? 0 then 0 else wrap64 (hdr + 4 + displacement)).
Proof.
  split.
  - unfold BacktraceManager.parseEhFrameHdr.
    intros [-> | [Hsize | [Hversion | Homit]]].
    + reflexivity.
    + destruct (hdr =? 0); [reflexivity|]. cbn [orb].
      destruct (Z.ltb_spec hdr_size 4); [reflexivity|lia].
    + destruct ((hdr =? 0) || (hdr_size <? 4)); [reflexivity|].
      destruct (Z.eqb_spec (load8 mm hdr) 1); [contradiction|reflexivity].
    + destruct ((hdr =? 0) || (hdr_size <? 4)); [reflexivity|].
      destruct (negb (load8 mm hdr =? 1)); [reflexivity|].
      rewrite Homit. reflexivity.
  - intros Hhdr Hsize Hversion Henc field displacement Hfield.
    unfold BacktraceManager.parseEhFrameHdr.
    destruct (Z.eqb_spec hdr 0) as [|_]; [contradiction|].
    destruct (Z.ltb_spec hdr_size 4) as [|_]; [lia|].
    rewrite Hversion, Henc. cbn [orb negb Z.eqb Pos.eqb].
    change (BacktraceManager.DW_EH_PE_pcrel + BacktraceManager.DW_EH_PE_sdata4
            =? BacktraceManager.DW_EH_PE_omit) with false. cbv iota.
    unfold BacktraceManager.decodePointer.
    change (BacktraceManager.DW_EH_PE_pcrel + BacktraceManager.DW_EH_PE_sdata4
            =? BacktraceManager.DW_EH_PE_omit) with false.
    change (Z.land (BacktraceManager.DW_EH_PE_pcrel
                    + BacktraceManager.DW_EH_PE_sdata4) 0x0f)
      with BacktraceManager.DW_EH_PE_sdata4.
    change (Z.land (BacktraceManager.DW_EH_PE_pcrel
                    + BacktraceManager.DW_EH_PE_sdata4) 0x70)
      with BacktraceManager.DW_EH_PE_pcrel.
    cbv iota zeta.
    change (BacktraceManager.DW_EH_PE_sdata4 =? BacktraceManager.DW_EH_PE_absptr)
      with false.
    change (BacktraceManager.DW_EH_PE_sdata4 =? BacktraceManager.DW_EH_PE_udata2)
      with false.
    change (BacktraceManager.DW_EH_PE_sdata4 =? BacktraceManager.DW_EH_PE_udata4)
      with false.
    change (BacktraceManager.DW_EH_PE_sdata4 =? BacktraceManager.DW_EH_PE_udata8)
      with false.
    change (BacktraceManager.DW_EH_PE_sdata4 =? BacktraceManager.DW_EH_PE_sdata2)
      with false.
    change (BacktraceManager.DW_EH_PE_sdata4 =? BacktraceManager.DW_EH_PE_sdata4)
      with true.
    change (BacktraceManager.DW_EH_PE_pcrel =? BacktraceManager.DW_EH_PE_pcrel)
      with true.
    cbv iota. cbn [fst]. fold field.
    assert (Hext : BacktraceManager.sign_extend 32 field = wrap64 displacement).
    { unfold BacktraceManager.sign_extend. f_equal. subst displacement.
      change (32 - 1) with 31.
      destruct (Z.ltb_spec field (2 ^ 31)).
      - rewrite Z.mod_small by lia. lia.
      - rewrite <- (Z.mod_add (field + 2 ^ 31) (-1) (2 ^ 32)) by lia.
        rewrite Z.mod_small by lia. lia. }
    rewrite Hext.
    assert (Hd : - 2 ^ 31 <= displacement < 2 ^ 31
                 /\ (displacement = 0 <-> field = 0)).
    { subst displacement. destruct (Z.ltb_spec field (2 ^ 31)); lia. }
    destruct Hd as [Hd Hzero].
    assert (Hw : wrap64 displacement = 0 <-> field = 0).
    { rewrite <- Hzero. unfold wrap64. split; [|intros ->; reflexivity].
      intros Hm. destruct (Z_lt_ge_dec displacement 0).
      - rewrite <- (Z.mod_add displacement 1 (2 ^ 64)) in Hm by lia.
        rewrite Z.mod_small in Hm by lia. lia.
      - rewrite Z.mod_small in Hm by lia. exact Hm. }
    destruct (Z.eqb_spec field 0) as [H0|H0].
    + rewrite (proj2 Hw H0). reflexivity.
    + destruct (Z.eqb_spec (wrap64 displacement) 0) as [H1|_];
        [apply Hw in H1; contradiction|].
      unfold wrap64. rewrite Zplus_mod_idemp_l. f_equal. lia.
Qed.

Section SampleRegistry.
Import BacktraceManager.

Lemma sample_registry_clear : free_slots_clear Samples.registry.
Proof.
  intros l Hl _. unfold Samples.registry, initial in Hl. cbn [libs_] in Hl.
  apply elem_of_replicate in Hl as [-> _]. reflexivity.
Qed.

Lemma sample_registry_unknown image : unknown image Samples.registry.
Proof.
  intros l Hl. unfold Samples.registry, initial in Hl. cbn [libs_] in Hl.
  apply elem_of_replicate in Hl as [-> _]. reflexivity.
Qed.

Lemma sample_registry_clear_use l :
  l ∈ libs_ Samples.registry -> LibInfo.in_use l = false.
Proof.
  intros Hl. unfold Samples.registry, initial in Hl. cbn [libs_] in Hl.
  apply elem_of_replicate in Hl as [-> _]. reflexivity.
Qed.

Lemma sample_registry_free :
  exists l, l ∈ libs_ Samples.registry /\ LibInfo.in_use l = false.
Proof.
  exists LibInfo.empty. split; [|reflexivity].
  apply list_elem_of_lookup. exists 0%nat. reflexivity.
Qed.

End SampleRegistry.

Example eh_frame_of_the_sample :
  BacktraceManager.eh_frame_of Samples.eh_frame_hdr_at_0x30800 Samples.traced
  = 0x30700.
Proof. vm_compute. reflexivity. Qed.

Lemma registry_round_trip_on_the_sample :
  BacktraceManager.free_slots_clear Samples.registry
  /\ BacktraceManager.unknown Samples.traced Samples.registry
  /\ (exists l, l ∈ BacktraceManager.libs_ Samples.registry
                /\ BacktraceManager.LibInfo.in_use l = false)
  /\ BacktraceManager.heap_ Samples.registry = [0x7000]
  /\ 0x7000 <> 0
  /\ BacktraceManager.eh_frame_of Samples.eh_frame_hdr_at_0x30800 Samples.traced
     <> 0
  /\ let m1 := snd (BacktraceManager.registerLibrary Samples.traced
                      Samples.registry) in
     let m2 := BacktraceManager.registerEhFrame true
                 Samples.eh_frame_hdr_at_0x30800 Samples.traced m1 in
     let m3 := BacktraceManager.unregisterEhFrame true Samples.traced m2 in
     let m4 := snd (BacktraceManager.unregisterLibrary true Samples.traced m3) in
     BacktraceManager.libs_ m4 = BacktraceManager.libs_ Samples.registry
     /\ BacktraceManager.trace m4
        = [BacktraceManager.RegisterFrame 0x30700;
           BacktraceManager.DeregisterFrame 0x30700;
           BacktraceManager.Free 0x7000].
Proof.
  assert (H6 : BacktraceManager.eh_frame_of Samples.eh_frame_hdr_at_0x30800
                 Samples.traced <> 0) by (vm_compute; discriminate).
  assert (H5 : 0x7000 <> 0) by discriminate.
  split; [exact sample_registry_clear|].
  split; [exact (sample_registry_unknown Samples.traced)|].
  split; [exact sample_registry_free|].
  split; [reflexivity|]. split; [exact H5|]. split; [exact H6|].
  pose proof (register_then_unregister_restores_the_registry true true
                Samples.eh_frame_hdr_at_0x30800 Samples.traced Samples.registry
                0x7000 [] sample_registry_clear
                (sample_registry_unknown Samples.traced) sample_registry_free
                eq_refl H5 H6) as H.
  cbv zeta in H |- *.
  destruct (BacktraceManager.registerLibrary Samples.traced Samples.registry)
    as [ok1 m1].
  cbn [snd].
  destruct (BacktraceManager.unregisterLibrary true Samples.traced _)
    as [ok4 m4].
  cbn [snd]. destruct H as (_ & _ & Hlibs & _ & Htrace).
  split; [exact Hlibs|]. rewrite Htrace.
  rewrite eh_frame_of_the_sample. reflexivity.
Defined.

Lemma unknown_frame_on_the_sample :
  BacktraceManager.unknown Samples.traced Samples.registry
  /\ BacktraceManager.eh_frame_of Samples.eh_frame_hdr_at_0x30800 Samples.traced
     <> 0
  /\ let m1 := BacktraceManager.registerEhFrame true
                 Samples.eh_frame_hdr_at_0x30800 Samples.traced
                 Samples.registry in
     BacktraceManager.trace m1 = [BacktraceManager.RegisterFrame 0x30700]
     /\ BacktraceManager.unregisterEhFrame true Samples.traced m1 = m1
     /\ BacktraceManager.unregisterLibrary true Samples.traced m1 = (false, m1).
Proof.
  assert (H2 : BacktraceManager.eh_frame_of Samples.eh_frame_hdr_at_0x30800
                 Samples.traced <> 0) by (vm_compute; discriminate).
  split; [exact (sample_registry_unknown Samples.traced)|].
  split; [exact H2|].
  destruct (frame_of_an_unknown_image_stays_registered true
              Samples.eh_frame_hdr_at_0x30800 Samples.traced Samples.registry
              (sample_registry_unknown Samples.traced) H2)
    as (_ & Htrace & Hframe & Hlib).
  cbv zeta. split; [|split; [exact Hframe|exact Hlib]].
  rewrite Htrace, eh_frame_of_the_sample. reflexivity.
Defined.

Lemma dladdr_on_the_sample :
  BacktraceManager.registerLibrary Samples.traced Samples.registry
  = (true, snd (BacktraceManager.registerLibrary Samples.traced Samples.registry))
  /\ Elf.mkPhdr Elf.PT_LOAD 5 0 0 0x1000 0x1000 0x1000
     ∈ ElfImage.phdr_ (BacktraceManager.elf Samples.traced)
  /\ Elf.p_type (Elf.mkPhdr Elf.PT_LOAD 5 0 0 0x1000 0x1000 0x1000) = Elf.PT_LOAD
  /\ 0x30000 <= 0x30104 < 0x31000
  /\ exists info,
       BacktraceManager.customDladdr (fun _ => None)
         (snd (BacktraceManager.registerLibrary Samples.traced Samples.registry))
         0x30104 = Some info
       /\ BacktraceManager.dli_fname info = Some (bytes_of "libtraced.so")
       /\ BacktraceManager.dli_fbase info = 0x30000.
Proof.
  assert (H1 : BacktraceManager.registerLibrary Samples.traced Samples.registry
               = (true, snd (BacktraceManager.registerLibrary Samples.traced
                               Samples.registry)))
    by (vm_compute; reflexivity).
  assert (H2 : Elf.mkPhdr Elf.PT_LOAD 5 0 0 0x1000 0x1000 0x1000
               ∈ ElfImage.phdr_ (BacktraceManager.elf Samples.traced))
    by (apply elem_of_cons; left; reflexivity).
  assert (H4 : 0x30000 <= 0x30104 < 0x31000) by lia.
  split; [exact H1|]. split; [exact H2|]. split; [reflexivity|].
  split; [exact H4|].
  destruct (registered_library_is_found_by_customDladdr (fun _ => None)
              Samples.traced Samples.registry _ 0x30104 _ H1 H2 eq_refl H4)
    as [_ Hinfo].
  apply Hinfo; [reflexivity|].
  intros l Hl [Huse _].
  rewrite (sample_registry_clear_use l Hl) in Huse. discriminate Huse.
Defined.

Example customDladdr_names_the_symbol :
  BacktraceManager.customDladdr (fun _ => None)
    (snd (BacktraceManager.registerLibrary Samples.traced Samples.registry))
    0x30104
  = Some (BacktraceManager.mkDl_info (Some (bytes_of "libtraced.so")) 0x30000
            (Some Samples.f) 0x30100).
Proof. vm_compute. reflexivity. Qed.

(** ** Loading that fails *)

Section FailedLink.
Import Linker.
Variable host : Host.
Variable fuel : nat.
Variable shl_undef : Z -> Z -> Z.
Variable load_env : Linker.t -> Mem -> bool * list LoadedDep.t * Mem.

(** [link] returns false only from its first step: nothing has been
    registered, relocated or called by then. *)
Lemma link_false (w w1 : World) :
  link host fuel shl_undef load_env w = Some (false, w1) ->
  w1 = snd (loadDependencies load_env w)
  /\ trace w1 = trace w
  /\ is_linked_ (linker w1) = is_linked_ (linker w)
  /\ main_image_ (linker w1) = main_image_ (linker w)
  /\ main_map_size_ (linker w1) = main_map_size_ (linker w)
  /\ symbol_cache_ (linker w1) = symbol_cache_ (linker w)
  /\ tls_indices_ (linker w1) = tls_indices_ (linker w)
  /\ tls w1 = tls w.
Proof.
  unfold link.
  destruct (loadDependencies load_env w) as [ok w'] eqn:Hdeps.
  destruct ok; cbn [negb].
  - destruct (register_tls w') as [w2|]; [|discriminate].
    destruct (relocate_all host fuel shl_undef w2) as [w3|]; discriminate.
  - intros [= <-]. cbn [snd].
    unfold loadDependencies in Hdeps.
    destruct (load_env (linker w) (mem (proc w))) as [[ok pushed] mm].
    injection Hdeps as _ <-. conjuncts; reflexivity.
Qed.

Lemma filter_munmaps_deps deps :
  List.filter is_munmap (concat (map munmap_dep deps))
  = concat (map munmap_dep deps).
Proof.
  induction deps as [|dep deps IH]; [reflexivity|].
  cbn [map concat]. rewrite List.filter_app, IH. unfold munmap_dep.
  destruct (_ && _); reflexivity.
Qed.

Lemma filter_munmaps_none_deps w deps :
  List.filter is_munmap (concat (map (destroy_dep_calls w) deps)) = [].
Proof.
  induction deps as [|dep deps IH]; [reflexivity|].
  cbn [map concat]. rewrite List.filter_app, IH. unfold destroy_dep_calls.
  destruct (LoadedDep.image dep) as [img|]; [|reflexivity].
  destruct (LoadedDep.is_manual_load dep); [|reflexivity].
  cbn [unregister_backtrace app List.filter is_munmap].
  unfold destructor_calls. rewrite List.filter_app.
  destruct (ElfImage.fini_array_ img =? 0), (ElfImage.fini_func_ img =? 0);
    cbn [List.filter app is_munmap]; try reflexivity;
    rewrite ?app_nil_r;
    induction (rev _) as [|x xs IHx]; try reflexivity; cbn; exact IHx.
Qed.

Lemma filter_munmaps_none_delete tis :
  List.filter is_munmap (map Delete tis) = [].
Proof. induction tis as [|t tis IH]; [reflexivity|exact IH]. Qed.

End FailedLink.

(** X30. [SoLoader::load] that gets as far as [link] and fails there (a
    dependency could not be loaded): it returns false and the loader
    stays unloaded; the linker is left without image and dependencies;
    no constructor has run and the library's own destructors are not
    called, but [destroy] calls the destructors of every dependency that
    had been mapped by hand before the failure, in reverse load order; and
    it unmaps those dependencies and the library. *)
Theorem load_that_fails_in_link_tears_the_dependencies_down
    (host : Host) (fuel : nat) (shl_undef : Z -> Z -> Z)
    (load_env : Linker.t -> Mem -> bool * list LoadedDep.t * Mem)
    (files : SoLoader.Files) (lib_path : list Z)
    (s : SoLoader.t) (w w1 : Linker.World)
    (base map_size : Z) (mm : Mem) (image : ElfImage.t) :
  SoLoader.isLoaded s = false ->
  SoLoader.stat_regular files lib_path = Some true ->
  SoLoader.readable files lib_path = true ->
  SoLoader.loadLibraryManually files lib_path (mem (Linker.proc w))
  = Some (base, map_size, mm) ->
  SoLoader.create files lib_path base mm = Some image ->
  Linker.link host fuel shl_undef load_env
    (SoLoader.handed_over w mm image map_size) = Some (false, w1) ->
  exists w',
    SoLoader.load host fuel shl_undef load_env files lib_path s w
    = Some (false, s, w')
    /\ Linker.main_image_ (Linker.linker w') = None
    /\ Linker.deps_ (Linker.linker w') = []
    /\ Linker.is_linked_ (Linker.linker w') = false
    /\ List.filter Linker.is_call (Linker.since w w')
       = concat (map (fun img => Linker.destructor_calls img w1)
                     (rev (Linker.manual_images
                             (Linker.deps_ (Linker.linker w1)))))
    /\ List.filter Linker.is_munmap (Linker.since w w')
       = concat (map Linker.munmap_dep (Linker.deps_ (Linker.linker w1)))
         ++ (if 0 <? map_size
             then [Munmap (ElfImage.base_ image) map_size] else []).
Proof.
  intros Hs Hstat Hread Hmap Hcreate Hlink.
  destruct (link_false host fuel shl_undef load_env _ _ Hlink)
    as (_ & Htrace & Hlinked & Hmain & Hsize & _).
  cbn in Htrace, Hlinked, Hmain, Hsize.
  exists (Linker.destroy w1). split.
  - unfold SoLoader.load. rewrite Hs, Hstat, Hread, Hmap, Hcreate.
    cbn [negb Linker.init fst]. rewrite Hlink. reflexivity.
  - destruct (destroy_parts w1) as (Hlk & _ & _ & _ & Hdestroy).
    rewrite Hlk. split; [reflexivity|]. split; [reflexivity|].
    split; [reflexivity|].
    assert (Hsince : Linker.since w (Linker.destroy w1)
              = Linker.destroy_main_calls w1
                ++ concat (map (Linker.destroy_dep_calls w1)
                               (rev (Linker.deps_ (Linker.linker w1))))
                ++ map Delete (Linker.tls_indices_ (Linker.linker w1))
                ++ concat (map Linker.munmap_dep (Linker.deps_ (Linker.linker w1)))
                ++ Linker.munmap_main w1).
    { apply since_app. rewrite Hdestroy, Htrace. reflexivity. }
    rewrite Hsince.
    assert (Hnone : Linker.destroy_main_calls w1 = []).
    { unfold Linker.destroy_main_calls. rewrite Hlinked.
      destruct (Linker.main_image_ (Linker.linker w1)); reflexivity. }
    assert (Hunmap : Linker.munmap_main w1
                     = if 0 <? map_size
                       then [Munmap (ElfImage.base_ image) map_size] else []).
    { unfold Linker.munmap_main. rewrite Hmain, Hsize. reflexivity. }
    rewrite Hnone, Hunmap. cbn [app]. split.
    + rewrite !List.filter_app, filter_calls_deps, filter_calls_none_delete,
        filter_calls_none_munmap, manual_images_rev.
      destruct (0 <? map_size); cbn [List.filter Linker.is_call];
        rewrite !app_nil_r; reflexivity.
    + rewrite !List.filter_app, filter_munmaps_none_deps,
        filter_munmaps_none_delete, filter_munmaps_deps.
      destruct (0 <? map_size); reflexivity.
Qed.

Lemma failed_load_of_the_sample_library :
  SoLoader.isLoaded SoLoader.fresh = false
  /\ SoLoader.stat_regular Samples.files (bytes_of "libmain.so") = Some true
  /\ SoLoader.readable Samples.files (bytes_of "libmain.so") = true
  /\ SoLoader.loadLibraryManually Samples.files (bytes_of "libmain.so")
       (mem (Linker.proc Samples.nothing_loaded))
     = Some (0x10000, 4096, Samples.map_main ∅)
  /\ SoLoader.create Samples.files (bytes_of "libmain.so") 0x10000
       (Samples.map_main ∅) = Some Samples.weak_main
  /\ exists w1 w',
       Linker.link Samples.host Samples.fuel Samples.shl_undef
         Samples.failing_env
         (SoLoader.handed_over Samples.nothing_loaded (Samples.map_main ∅)
            Samples.weak_main 4096) = Some (false, w1)
       /\ SoLoader.load Samples.host Samples.fuel Samples.shl_undef
            Samples.failing_env Samples.files (bytes_of "libmain.so")
            SoLoader.fresh Samples.nothing_loaded
          = Some (false, SoLoader.fresh, w')
       /\ List.filter Linker.is_call (Linker.since Samples.nothing_loaded w')
          = [Call 0x20900]
       /\ List.filter Linker.is_munmap (Linker.since Samples.nothing_loaded w')
          = [Munmap 0x20000 8192; Munmap 0x10000 4096].
Proof.
  split; [reflexivity|]. split; [reflexivity|]. split; [reflexivity|].
  split; [reflexivity|]. split; [reflexivity|].
  set (w1 := snd (Linker.loadDependencies Samples.failing_env
                    (SoLoader.handed_over Samples.nothing_loaded
                       (Samples.map_main ∅) Samples.weak_main 4096))).
  assert (Hlink : Linker.link Samples.host Samples.fuel Samples.shl_undef
                    Samples.failing_env
                    (SoLoader.handed_over Samples.nothing_loaded
                       (Samples.map_main ∅) Samples.weak_main 4096)
                  = Some (false, w1)) by reflexivity.
  destruct (load_that_fails_in_link_tears_the_dependencies_down
              Samples.host Samples.fuel Samples.shl_undef Samples.failing_env
              Samples.files (bytes_of "libmain.so") SoLoader.fresh
              Samples.nothing_loaded w1 0x10000 4096 (Samples.map_main ∅)
              Samples.weak_main eq_refl eq_refl eq_refl eq_refl eq_refl Hlink)
    as (w' & Hload & _ & _ & _ & Hcalls & Hunmaps).
  exists w1, w'. split; [exact Hlink|]. split; [exact Hload|].
  split.
  - rewrite Hcalls. vm_compute. reflexivity.
  - rewrite Hunmaps. vm_compute. reflexivity.
Defined.
